(* ===== verification/_CoqProject ===== *)
-Q . S2P
Prelude.v
CLib.v
Config.v
HttpParse.v
HttpGrammar.v
HttpParseProofs.v
GrammarFacts.v
ParserTheorems.v
Kernel.v
ScriptKernel.v
Mime.v
Io.v
HttpResponse.v
HttpResponseProofs.v
File.v
HttpConnection.v
Http.v
HttpRules.v
HttpProofs.v
HttpProcess.v
ConfigArgs.v
HttpTheorems.v
Determinism.v
ForkServer.v
Server.v
ScriptNet.v
Main.v
Signals.v
ServerTheorems.v
