(* ===== verification/Prelude.v ===== *)
(** * http_cerver: a verified model of the server

    The server answers GET and HEAD requests for static files, one process per
    connection.  [main] opens a listening socket and the document root and
    forks a child for every client; the child receives bytes into the
    connection buffer, cuts the buffer into messages at empty lines, parses
    each message, checks it, opens the file its path names beneath the
    document root, and sends the answer, until an answer or the client closes
    the connection.

    ** The model

    The C functions are translated one by one, under their own names, into
    functions of the monad [outcome] of this file (a value, undefined
    behaviour, or fuel exhausted) or, when they make system calls, of the
    monad [M] of [Kernel.v], which also threads [errno] and the state of the
    kernel.  Arrays are lists of bytes of fixed length with checked accesses,
    pointers into a buffer are offsets, pointers that may be NULL are options,
    and [size_t], [int] and [unsigned long long] arithmetic is on [Z] with its
    wrap-around or its overflow check written out.  A theorem of the form
    "f x returns r" therefore also says that no access leaves its array, no
    block is used after its release or released twice, and no NULL is followed.

    The kernel and the allocator are parameters: the class [Kernel], with the
    documented effects in [KernelLaws], and [Net] with [NetLaws] for sockets
    and processes.  A process observes a view: bytes sent and received per
    socket, open descriptors with the contents of their files, live heap
    blocks, and what the file system answered.  [ScriptKernel.v] and
    [ScriptNet.v] are executable instances on which the laws are proved and the
    concrete examples run; [calm] is one on which no call fails.

    ** Files

    - [Prelude.v]: the outcome monad, its rules, generic facts on lists.
    - [CLib.v]: bytes, objects, the functions of the C library the server uses.
    - [Config.v], [ConfigArgs.v]: [src/config.c].
    - [HttpParse.v]: [src/http_parse.c] and the types of [include/http.h].
    - [HttpGrammar.v]: the abstract specification of the parser;
      [HttpParseProofs.v] shows that the code implements it, [GrammarFacts.v]
      and [ParserTheorems.v] draw the consequences.
    - [Kernel.v], [ScriptKernel.v]: system calls, their laws and rules.
    - [Mime.v]: [src/mime.c].  [Io.v]: [src/io.c].  [File.v]: [src/file.c].
    - [HttpResponse.v], [HttpResponseProofs.v]: [src/http_response.c].
    - [HttpConnection.v]: [src/http_connection.c], and the FIFO it refines.
    - [Http.v]: [src/http.c].  [HttpRules.v]: the rules on requests, and that
      the checks apply them.  [HttpProofs.v]: the relation [answer] between
      messages, answers of the file system and responses.  [HttpProcess.v]:
      [serves], the same for the bytes of a connection.  [HttpTheorems.v]: the
      properties of this layer.
    - [Determinism.v]: [answer] and [serves] are functions of their input.
    - [ForkServer.v]: [src/fork_server.c].  [Server.v], [ScriptNet.v]:
      [src/server.c].  [Main.v]: [src/main.c], and the transition system
      [sys_step] of the parent, its signal handler and its children.
      [Signals.v]: a kernel on which the handler, which is shown to return, runs
      before any call, so that the theorems over all kernels cover every
      interleaving with it.
    - [ServerTheorems.v]: the properties of connections and of the process.

    ** What is shown

    Parser: on every string the code returns the one result of the grammar
    ([http_parse_request_correct]); accepted requests are well formed, rendered
    requests are read back, percent-decoding inverts encoding, and framing by
    empty lines agrees with parsing.  Buffer: a bounded FIFO.  Files: opens are
    confined to the document root by the flags of each call, and the result is a function of what the
    file system answers.  Responses: header blocks fit and can be read back,
    sending resumes where it stopped and sends each byte once.  Requests: what
    is accepted and refused, with which status.  Configuration: which numerals
    and command lines are accepted, and that configurations are read back.
    Connections: what is sent is the answer to each complete message in order,
    a function of the bytes received, however they were cut; nothing leaks; on
    a kernel whose calls do not fail the whole input is served.  Process:
    invariant and progress of the system of parent and children, the
    handler leaves no zombie and may run anywhere.

    Specifications are relations ([parse_outcome], [path_lookup], [answer],
    [serves]) that do not mention buffers, chunks or errors of transfers; the
    code is related to them by weakest preconditions ([wpg]) that give partial
    and total correctness in one proof.

    ** Fuel

    Loops that depend on the kernel take fuel.  [fair_budget B] bounds by [B]
    the interruptions, the bytes a client will send and the length of a file;
    every call returns with fuel above 400 + 2 [B] for a transfer (a header
    block is below 250 bytes, a built-in body at most 100, a file at most [B],
    and each round moves a byte or uses up an interruption) and above [B] for
    the rounds of a connection, each of which receives a byte or is
    interrupted.  Loops over a string take its length.

    ** Not modelled

    Console output ([perror], [fprintf]) has no effect on the view.  SIGPIPE,
    which would end a child that writes to a closed connection, is not a result
    of [k_send].  The resolution of a path is the kernel's: the model says
    which call of [openat2] is made and takes its answer.  Padding and layout
    of structures, and the addresses of local arrays, are not represented;
    their initial contents are arbitrary.  After [fork] parent and
    child have kernel states of their own.  The handler of SIGCHLD changes
    [errno], which the parent does not read once it has children; that change
    is left out.  The tests, the benchmark, the Makefile
    and the sample site are not modelled: they hold none of the server's
    logic. *)
From stdpp Require Export prelude list gmap strings.
From Stdlib Require Export ZArith Lia.
From Stdlib Require Export Init.Byte.

#[global] Open Scope Z_scope.
#[global] Set Default Proof Using "Type".
#[global] Set Default Goal Selector "!".

#[global] Set Warnings "-clear-no-such-hyp".

Create HintDb cdb.

(** ** Outcomes

    A C function called on a given memory either returns, or executes an
    operation whose behaviour is undefined (an access outside an object, a
    dereference of NULL, a second [free]); a loop whose iterations are counted
    by fuel may also exhaust it. *)
Inductive outcome (A : Type) : Type :=
  | Ret (a : A)
  | UB
  | OutOfFuel.
Arguments Ret {A} _.
Arguments UB {A}.
Arguments OutOfFuel {A}.

#[export] Instance outcome_ret : MRet outcome := λ A x, Ret x.
#[export] Instance outcome_bind : MBind outcome := λ A B f m,
  match m with
  | Ret a => f a
  | UB => UB
  | OutOfFuel => OutOfFuel
  end.

(** The value of a computation that returns, without a default for the others. *)
Definition value_of {A} (m : outcome A) : (∃ a, m = Ret a) → A :=
  match m with
  | Ret a => λ _, a
  | UB | OutOfFuel => λ H, False_rect A (let '(ex_intro _ _ E) := H in ltac:(discriminate E))
  end.

Lemma value_of_Ret {A} (m : outcome A) H : m = Ret (value_of m H).
Proof. destruct m; [done|by destruct H..]. Qed.

(** [returns m Q]: [m] returns a value and that value satisfies [Q]. *)
Definition returns {A} (m : outcome A) (Q : A → Prop) : Prop :=
  match m with
  | Ret a => Q a
  | _ => False
  end.

Declare Scope outcome_scope.
Delimit Scope outcome_scope with outcome.
Notation "m ⇓ a" := (m = Ret a) (at level 70, no associativity) : outcome_scope.
#[global] Open Scope outcome_scope.

Section outcome_lemmas.
Context {A B : Type}.
Implicit Types (m : outcome A) (f : A → outcome B).

Lemma returns_ret (a : A) (Q : A → Prop) : Q a → returns (mret a) Q.
Proof. done. Qed.

Lemma returns_bind m f (Q : B → Prop) :
  returns m (λ a, returns (f a) Q) → returns (m ≫= f) Q.
Proof. by destruct m. Qed.

Lemma returns_mono m (P Q : A → Prop) :
  returns m P → (∀ a, P a → Q a) → returns m Q.
Proof. destruct m; simpl; auto. Qed.

Lemma returns_elim m (Q : A → Prop) : returns m Q → ∃ a, m ⇓ a ∧ Q a.
Proof. destruct m; simpl; [eauto | done | done]. Qed.

Lemma returns_intro m (Q : A → Prop) a : m ⇓ a → Q a → returns m Q.
Proof. by intros ->. Qed.

Lemma bind_ret_l (a : A) f : (mret a : outcome A) ≫= f = f a.
Proof. done. Qed.

Lemma bind_Ret_inv m f b : m ≫= f ⇓ b → ∃ a, m ⇓ a ∧ f a ⇓ b.
Proof. destruct m; [eauto | done | done]. Qed.
End outcome_lemmas.

(** Close a closed decidable goal by evaluation. *)
Ltac decide_now := refine (bool_decide_eq_true_1 _ _); vm_compute; reflexivity.

(** Step through a bind whose first computation is known to return. *)
Ltac ret_step H :=
  let a := fresh "r" in
  let E := fresh "E" in
  apply returns_bind; eapply returns_mono; [exact H |].

(** Case analysis on the scrutinee of the first conditional of the goal. *)
Ltac split_if :=
  match goal with
  | |- context [if decide ?P then _ else _] => destruct (decide P)
  | |- context [if ?b then _ else _] => let E := fresh "E" in destruct b eqn:E
  end.

Lemma if_bool_decide {A} (P : Prop) (dec : Decision P) (x y : A) :
  (if bool_decide P then x else y) = if decide P then x else y.
Proof. unfold bool_decide, decide. by destruct dec. Qed.

(** ** Lists *)
Section list_lemmas.
Context {A : Type}.
Implicit Types (l k : list A).

Lemma drop_lookup_cons l i x : l !! i = Some x → drop i l = x :: drop (S i) l.
Proof. apply drop_S. Qed.

Lemma take_drop_app l i n : take (i + n) l = take i l ++ take n (drop i l).
Proof.
  rewrite <- (take_drop i (take (i + n) l)), take_take, skipn_firstn_comm.
  f_equal; f_equal; lia.
Qed.

Lemma not_elem_of_drop x n l : x ∉ l → x ∉ drop n l.
Proof.
  intros Hx Hin. apply Hx. rewrite <- (take_drop n l). set_solver.
Qed.

Lemma not_elem_of_take x n l : x ∉ l → x ∉ take n l.
Proof.
  intros Hx Hin. apply Hx. rewrite <- (take_drop n l). set_solver.
Qed.

Lemma drop_app_add l k i : drop (length l + i) (l ++ k) = drop i k.
Proof. by rewrite <- drop_drop, drop_app_length. Qed.

Lemma take_length_take n l : take (length (take n l)) l = take n l.
Proof.
  rewrite length_take. destruct (decide (n ≤ length l)%nat).
  - by rewrite Nat.min_l by lia.
  - by rewrite Nat.min_r, !take_ge by lia.
Qed.
End list_lemmas.

#[export] Hint Resolve not_elem_of_drop not_elem_of_take : cdb.
