(* ===== verification/CLib.v ===== *)
(** * C types and the standard-library functions the server calls

    Bytes, machine-width integers, objects (fixed-size arrays of bytes) with
    checked accesses, and the functions of [<string.h>], [<strings.h>],
    [<stdlib.h>] and [<stdio.h>] that the server uses, on NUL-terminated
    strings held in objects.  None of this is code of the server. *)
From S2P Require Import Prelude.
From Stdlib Require Strings.Byte.

(** ** Bytes *)
#[export] Instance byte_eq_decision : EqDecision byte := Byte.byte_eq_dec.

(** [unsigned char] and [char] values of a byte ([char] is signed on the
    platform the server is built for). *)
Definition uchar (b : byte) : Z := Z.of_N (Byte.to_N b).
Definition schar (b : byte) : Z :=
  let u := uchar b in if u <? 128 then u else u - 256.

(** Conversion of an integer to [unsigned char]: reduction modulo 256. *)
Definition byte_of_Z (z : Z) : byte :=
  default x00 (Byte.of_N (Z.to_N (z mod 256))).

Definition NUL : byte := x00.
Definition CR : byte := x0d.
Definition LF : byte := x0a.
Definition SP : byte := x20.
Definition HTAB : byte := x09.
Definition CRLF : list byte := [CR; LF].

(** String literals: the bytes, and the object a literal denotes. *)
Definition lit (s : string) : list byte := String.list_byte_of_string s.
Definition lit0 (s : string) : list byte := lit s ++ [NUL].

Lemma uchar_range b : 0 <= uchar b < 256.
Proof. unfold uchar. pose proof (Byte.to_N_bounded b). lia. Qed.

Lemma uchar_inj b1 b2 : uchar b1 = uchar b2 → b1 = b2.
Proof.
  unfold uchar. intros H%N2Z.inj.
  pose proof (Byte.of_to_N b1). pose proof (Byte.of_to_N b2). congruence.
Qed.

Lemma uchar_byte_of_Z z : uchar (byte_of_Z z) = z mod 256.
Proof.
  unfold byte_of_Z, uchar.
  pose proof (Z.mod_pos_bound z 256 ltac:(lia)) as Hb.
  destruct (Byte.of_N (Z.to_N (z mod 256))) as [b|] eqn:E; simpl.
  - apply Byte.to_of_N in E. rewrite E. lia.
  - apply Byte.of_N_None_iff in E. lia.
Qed.

Lemma byte_of_Z_uchar b : byte_of_Z (uchar b) = b.
Proof.
  apply uchar_inj. rewrite uchar_byte_of_Z.
  pose proof (uchar_range b). by rewrite Z.mod_small.
Qed.

(** A decidable statement about all bytes, checked on the 256 of them. *)
Definition all_bytes : list byte :=
  omap Byte.of_N (N.of_nat <$> seq 0 256).

Lemma elem_of_all_bytes b : b ∈ all_bytes.
Proof.
  unfold all_bytes. apply list_elem_of_omap. exists (Byte.to_N b).
  split; [|apply Byte.of_to_N].
  apply list_elem_of_fmap. exists (N.to_nat (Byte.to_N b)).
  split; [lia|]. apply elem_of_seq. pose proof (Byte.to_N_bounded b). lia.
Qed.

Lemma forall_bytes (P : byte → Prop) `{∀ b, Decision (P b)} :
  bool_decide (Forall P all_bytes) = true → ∀ b, P b.
Proof.
  intros HP%bool_decide_eq_true b. rewrite Forall_forall in HP.
  apply HP, elem_of_all_bytes.
Qed.

(** Close a decidable goal about the byte [b] by evaluation. *)
Ltac byte_cases b :=
  revert b; refine (forall_bytes _ _); vm_compute; reflexivity.

(** ** Machine integers: [size_t] and [unsigned long long] are 64 bits wide,
    [int] is 32 bits wide, [long] is 64 bits wide. *)
Definition SIZE_MAX : Z := 2 ^ 64 - 1.
Definition ULLONG_MAX : Z := 2 ^ 64 - 1.
Definition LONG_MAX : Z := 2 ^ 63 - 1.
Definition LONG_MIN : Z := - 2 ^ 63.
Definition INT_MAX : Z := 2 ^ 31 - 1.

Definition u64 (z : Z) : Z := z mod 2 ^ 64.
Definition size_add (a b : Z) : Z := u64 (a + b).
Definition size_sub (a b : Z) : Z := u64 (a - b).

Lemma u64_small z : 0 <= z < 2 ^ 64 → u64 z = z.
Proof. apply Z.mod_small. Qed.
Lemma size_add_small a b : 0 <= a + b < 2 ^ 64 → size_add a b = a + b.
Proof. apply u64_small. Qed.
Lemma size_sub_small a b : 0 <= a - b < 2 ^ 64 → size_sub a b = a - b.
Proof. apply u64_small. Qed.

(** ** Objects

    An object is the list of its bytes; a pointer into it is an offset.
    Accesses outside the object are undefined. *)
Abbreviation obj := (list byte).

Definition rd (o : obj) (i : nat) : outcome byte :=
  match o !! i with Some b => Ret b | None => UB end.

Definition wr (o : obj) (i : nat) (b : byte) : outcome obj :=
  if decide (i < length o)%nat then Ret (<[i:=b]> o) else UB.

(** The [n] bytes at offset [p], and the object with [bs] stored at [p]. *)
Definition slice (o : obj) (p n : nat) : outcome (list byte) :=
  if decide (p + n <= length o)%nat then Ret (take n (drop p o)) else UB.

Definition blit (o : obj) (p : nat) (bs : list byte) : outcome obj :=
  if decide (p + length bs <= length o)%nat
  then Ret (take p o ++ bs ++ drop (p + length bs) o) else UB.

(** [memcpy (dst + dp, src + sp, n)] on distinct objects. *)
Definition c_memcpy (dst : obj) (dp : nat) (src : obj) (sp n : nat) : outcome obj :=
  bs ← slice src sp n; blit dst dp bs.

(** ** NUL-terminated strings *)
Fixpoint cstr_of (l : list byte) : option (list byte) :=
  match l with
  | [] => None
  | b :: l => if decide (b = NUL) then Some [] else cons b <$> cstr_of l
  end.

(** The string at offset [p]; undefined when no NUL follows. *)
Definition c_string (o : obj) (p : nat) : outcome (list byte) :=
  match cstr_of (drop p o) with Some s => Ret s | None => UB end.

Definition find_byte (c : byte) (l : list byte) : option nat :=
  fst <$> list_find (c =.) l.

Fixpoint find_sub (needle hay : list byte) : option nat :=
  if decide (needle `prefix_of` hay) then Some 0%nat
  else match hay with
       | [] => None
       | _ :: hay => S <$> find_sub needle hay
       end.

Definition c_strlen (o : obj) (p : nat) : outcome nat :=
  s ← c_string o p; mret (length s).

Definition c_strchr (o : obj) (p : nat) (c : byte) : outcome (option nat) :=
  s ← c_string o p; mret (Nat.add p <$> find_byte c s).

Definition c_strstr (o : obj) (p : nat) (needle : list byte) : outcome (option nat) :=
  s ← c_string o p; mret (Nat.add p <$> find_sub needle s).

(** The last occurrence. *)
Definition rfind_byte (c : byte) (l : list byte) : option nat :=
  (λ i, length l - S i)%nat <$> find_byte c (rev l).

Definition c_strrchr (o : obj) (p : nat) (c : byte) : outcome (option nat) :=
  s ← c_string o p; mret (Nat.add p <$> rfind_byte c s).

(** [memchr] reads up to the first match, or all [n] bytes. *)
Definition c_memchr (o : obj) (p : nat) (c : byte) (n : nat) : outcome (option nat) :=
  match find_byte c (take n (drop p o)) with
  | Some i => Ret (Some (p + i)%nat)
  | None => if decide (p + n <= length o)%nat then Ret None else UB
  end.

Definition to_lower (b : byte) : byte :=
  if (65 <=? uchar b) && (uchar b <=? 90) then byte_of_Z (uchar b + 32) else b.

Fixpoint cmp_bytes (a b : list byte) : Z :=
  match a, b with
  | [], [] => 0
  | [], y :: _ => - uchar y
  | x :: _, [] => uchar x
  | x :: a, y :: b => if decide (x = y) then cmp_bytes a b else uchar x - uchar y
  end.

Definition c_strcmp (o1 : obj) (p1 : nat) (o2 : obj) (p2 : nat) : outcome Z :=
  a ← c_string o1 p1; b ← c_string o2 p2; mret (cmp_bytes a b).

(** [strcasecmp] in the "C" locale, which the server never changes. *)
Definition c_strcasecmp (o1 : obj) (p1 : nat) (o2 : obj) (p2 : nat) : outcome Z :=
  a ← c_string o1 p1; b ← c_string o2 p2;
  mret (cmp_bytes (to_lower <$> a) (to_lower <$> b)).

(** ** Facts on strings *)
Lemma cstr_of_Some l s :
  cstr_of l = Some s ↔ ∃ r, l = s ++ NUL :: r ∧ NUL ∉ s.
Proof.
  revert s. induction l as [|b l IH]; intros s; simpl.
  - split; [done|]. intros (r & H & _). by destruct s.
  - destruct (decide (b = NUL)) as [->|Hb].
    + split; [intros [= <-]; exists l; set_solver|].
      intros (r & H & Hs). destruct s as [|c s]; [done|].
      injection H as <- _. set_solver.
    + rewrite fmap_Some. setoid_rewrite IH. split.
      * intros (s' & (r & -> & Hs) & ->). exists r. set_solver.
      * intros (r & H & Hs). destruct s as [|c s]; simplify_eq/=.
        exists s. split; [exists r; set_solver | done].
Qed.

Lemma cstr_of_app s r : NUL ∉ s → cstr_of (s ++ NUL :: r) = Some s.
Proof. intros H. apply cstr_of_Some. eauto. Qed.

Lemma cstr_of_no_nul l s : cstr_of l = Some s → NUL ∉ s.
Proof. intros (r & _ & H)%cstr_of_Some. done. Qed.

Lemma cstr_of_drop o s p :
  cstr_of o = Some s → (p ≤ length s)%nat → cstr_of (drop p o) = Some (drop p s).
Proof.
  intros (r & -> & Hs)%cstr_of_Some Hp.
  rewrite drop_app_le by done. apply cstr_of_app.
  auto with cdb.
Qed.

Lemma cstr_of_length o s : cstr_of o = Some s → (length s < length o)%nat.
Proof. intros (r & -> & _)%cstr_of_Some. rewrite length_app. simpl. lia. Qed.

Section string_access.
Context (o s : list byte) (Ho : cstr_of o = Some s).

Lemma c_string_at p : (p ≤ length s)%nat → c_string o p ⇓ drop p s.
Proof using Ho. intros Hp. unfold c_string. by rewrite (cstr_of_drop o s). Qed.

Lemma rd_at i : (i < length s)%nat → ∃ b, s !! i = Some b ∧ rd o i ⇓ b ∧ b ≠ NUL.
Proof using Ho.
  intros [b Hb]%lookup_lt_is_Some. exists b. split; [done|].
  apply cstr_of_Some in Ho as (r & -> & Hn). split.
  - unfold rd. by rewrite (lookup_app_l_Some _ _ _ _ Hb).
  - intros ->. by apply Hn, (list_elem_of_lookup_2 _ i).
Qed.

Lemma rd_lookup i b : s !! i = Some b → rd o i ⇓ b.
Proof using Ho.
  intros Hb. apply cstr_of_Some in Ho as (r & -> & _).
  unfold rd. by rewrite (lookup_app_l_Some _ _ _ _ Hb).
Qed.

Lemma rd_end : rd o (length s) ⇓ NUL.
Proof using Ho.
  apply cstr_of_Some in Ho as (r & -> & _).
  unfold rd. by rewrite list_lookup_middle.
Qed.

Lemma slice_at p n :
  (p + n ≤ length s)%nat → slice o p n ⇓ take n (drop p s).
Proof using Ho.
  intros Hpn. apply cstr_of_Some in Ho as (r & -> & _). unfold slice.
  rewrite decide_True by (rewrite length_app; simpl; lia).
  rewrite drop_app_le, take_app_le by (rewrite ?length_drop; lia). done.
Qed.

Lemma c_memchr_at p c n :
  (p + n ≤ length s)%nat →
  c_memchr o p c n ⇓ Nat.add p <$> find_byte c (take n (drop p s)).
Proof using Ho.
  intros Hpn. apply cstr_of_Some in Ho as (r & -> & _). unfold c_memchr.
  rewrite drop_app_le, take_app_le by (rewrite ?length_drop; lia).
  destruct (find_byte _ _); simpl; [done|].
  by rewrite decide_True by (rewrite length_app; simpl; lia).
Qed.

Lemma c_strlen_at p : (p ≤ length s)%nat → c_strlen o p ⇓ (length s - p)%nat.
Proof using Ho.
  intros Hp. unfold c_strlen. by rewrite c_string_at, bind_ret_l, length_drop.
Qed.

Lemma c_strchr_at p c :
  (p ≤ length s)%nat → c_strchr o p c ⇓ Nat.add p <$> find_byte c (drop p s).
Proof using Ho. intros Hp. unfold c_strchr. by rewrite c_string_at. Qed.

Lemma c_strstr_at p needle :
  (p ≤ length s)%nat → c_strstr o p needle ⇓ Nat.add p <$> find_sub needle (drop p s).
Proof using Ho. intros Hp. unfold c_strstr. by rewrite c_string_at. Qed.
End string_access.

(** *** Searching *)
Lemma find_byte_Some c l i :
  find_byte c l = Some i ↔ ∃ k r, l = k ++ c :: r ∧ length k = i ∧ c ∉ k.
Proof.
  unfold find_byte. rewrite fmap_Some. split.
  - intros ([j b] & H & ->). apply list_find_Some in H as (Hj & Hb & Hmin).
    simpl in *. subst b. exists (take j l), (drop (S j) l).
    split_and!.
    + by rewrite take_drop_middle.
    + apply length_take_le. apply lookup_lt_Some in Hj. lia.
    + intros Hin. apply list_elem_of_lookup in Hin as [x Hx].
      apply lookup_take_Some in Hx as [Hx Hlt]. by eapply Hmin.
  - intros (k & r & -> & <- & Hk). exists (length k, c). split; [|done].
    apply list_find_Some. split_and!; [by apply list_lookup_middle | done |].
    intros j y Hj Hlt ->. rewrite lookup_app_l in Hj by done.
    by apply Hk, (list_elem_of_lookup_2 _ j).
Qed.

Lemma find_byte_None c l : find_byte c l = None ↔ c ∉ l.
Proof.
  unfold find_byte. rewrite fmap_None, list_find_None, Forall_forall.
  set_solver.
Qed.

Lemma find_byte_app c k r : c ∉ k → find_byte c (k ++ c :: r) = Some (length k).
Proof. intros H. apply find_byte_Some. eauto 10. Qed.

Lemma find_sub_Some needle l i :
  find_sub needle l = Some i ↔
  needle `prefix_of` drop i l ∧ (i ≤ length l)%nat ∧
  ∀ j, (j < i)%nat → ¬ needle `prefix_of` drop j l.
Proof.
  revert i. induction l as [|b l IH]; intros i; simpl.
  - split.
    + destruct (decide _); [|done]. intros [= <-]. split_and!; [done|lia|lia].
    + intros (H & Hi & _). assert (i = 0%nat) as -> by lia.
      simpl in H. by rewrite decide_True.
  - destruct (decide _) as [Hp|Hp].
    + split; [intros [= <-]; split_and!; [done|lia|lia]|].
      intros (_ & _ & Hmin). destruct i; [done|]. destruct (Hmin 0%nat); [lia|done].
    + rewrite fmap_Some. setoid_rewrite IH. split.
      * intros (j & (H1 & H2 & H3) & ->). split_and!; [done|lia|].
        intros [|k] Hk; simpl; [done|]. apply H3. lia.
      * intros (H1 & H2 & H3). destruct i as [|i]; [done|]. exists i.
        split; [|done]. split_and!; [done|lia|].
        intros j Hj. apply (H3 (S j)). lia.
Qed.

Lemma find_sub_None needle l :
  find_sub needle l = None ↔ ∀ j, (j ≤ length l)%nat → ¬ needle `prefix_of` drop j l.
Proof.
  split.
  - intros H j Hj Hp.
    assert (∃ i, find_sub needle l = Some i) as [i ?]; [|congruence].
    clear H. revert j Hj Hp. induction l as [|b l IH]; intros [|j] Hj Hp; simpl in *;
      case_decide; eauto; try lia; try done.
    destruct (IH j) as [i Hi]; [lia|done|]. rewrite Hi. by eexists.
  - intros H. destruct (find_sub needle l) as [i|] eqn:E; [|done].
    apply find_sub_Some in E as (H1 & H2 & _). by destruct (H i).
Qed.

Lemma find_sub_app needle k r :
  needle ≠ [] → (∀ j, (j < length k)%nat → ¬ needle `prefix_of` drop j (k ++ needle ++ r)) →
  find_sub needle (k ++ needle ++ r) = Some (length k).
Proof.
  intros Hn Hk. apply find_sub_Some. rewrite drop_app_length.
  split_and!; [by apply prefix_app_r | rewrite length_app; lia | done].
Qed.

Lemma find_sub_split needle l i :
  find_sub needle l = Some i → l = take i l ++ needle ++ drop (length needle + i) l.
Proof.
  intros ([r2 Hr] & _ & _)%find_sub_Some.
  rewrite <- (take_drop i l) at 1. rewrite Hr. do 2 f_equal.
  rewrite Nat.add_comm, <- drop_drop, Hr. by rewrite drop_app_length.
Qed.

(** *** Comparison *)
Lemma cmp_bytes_eq a b : NUL ∉ a → NUL ∉ b → cmp_bytes a b = 0 ↔ a = b.
Proof.
  revert b. induction a as [|x a IH]; intros [|y b] Ha Hb; simpl; [done|..].
  - split; [|done]. intros H. exfalso. apply Hb.
    assert (y = NUL) as -> by (apply uchar_inj; change (uchar NUL) with 0; lia).
    left.
  - split; [|done]. intros H. exfalso. apply Ha.
    assert (x = NUL) as -> by (apply uchar_inj; change (uchar NUL) with 0; lia).
    left.
  - apply not_elem_of_cons in Ha as [??], Hb as [??].
    destruct (decide (x = y)) as [->|Hxy].
    + rewrite IH by done. naive_solver.
    + split; [|naive_solver]. intros Hc. destruct Hxy. apply uchar_inj. lia.
Qed.

Lemma to_lower_NUL b : to_lower b = NUL → b = NUL.
Proof. byte_cases b. Qed.

Lemma to_lower_idemp b : to_lower (to_lower b) = to_lower b.
Proof. byte_cases b. Qed.

Lemma NUL_to_lower (s : list byte) : NUL ∉ s → NUL ∉ to_lower <$> s.
Proof.
  intros Hs Hin. apply list_elem_of_fmap in Hin as (b & Hb & Hin).
  symmetry in Hb. apply to_lower_NUL in Hb as ->. done.
Qed.

(** Equality of names up to the case of ASCII letters. *)
Definition ci_eq (a b : list byte) : Prop := to_lower <$> a = to_lower <$> b.

#[export] Instance ci_eq_dec a b : Decision (ci_eq a b).
Proof. unfold ci_eq. apply _. Defined.

#[export] Instance ci_eq_equiv : Equivalence ci_eq.
Proof. split; unfold ci_eq; repeat intro; congruence. Qed.

Lemma c_strcmp_at o1 s1 o2 s2 :
  cstr_of o1 = Some s1 → cstr_of o2 = Some s2 →
  ∃ r, c_strcmp o1 0 o2 0 ⇓ r ∧ (r = 0 ↔ s1 = s2).
Proof.
  intros H1 H2. unfold c_strcmp. rewrite (c_string_at o1 s1), (c_string_at o2 s2) by (done || lia).
  rewrite !bind_ret_l, !drop_0. eexists. split; [done|].
  apply cmp_bytes_eq; eauto using cstr_of_no_nul.
Qed.

Lemma c_strcasecmp_at o1 s1 o2 s2 :
  cstr_of o1 = Some s1 → cstr_of o2 = Some s2 →
  ∃ r, c_strcasecmp o1 0 o2 0 ⇓ r ∧ (r = 0 ↔ ci_eq s1 s2).
Proof.
  intros H1 H2. unfold c_strcasecmp.
  rewrite (c_string_at o1 s1), (c_string_at o2 s2) by (done || lia).
  rewrite !bind_ret_l, !drop_0. eexists. split; [done|].
  apply cmp_bytes_eq; eauto using cstr_of_no_nul, NUL_to_lower.
Qed.

(** *** Comparison with a literal *)
Definition str_is (o : obj) (s : string) : outcome bool :=
  r ← c_strcmp o 0 (lit0 s) 0; mret (r =? 0).
Definition str_is_ci (o : obj) (s : string) : outcome bool :=
  r ← c_strcasecmp o 0 (lit0 s) 0; mret (r =? 0).

Lemma NUL_lit_cases s : NUL ∉ lit s → cstr_of (lit0 s) = Some (lit s).
Proof. intros H. by apply cstr_of_app. Qed.

Lemma str_is_spec o s (k : string) :
  cstr_of o = Some s → NUL ∉ lit k → str_is o k ⇓ bool_decide (s = lit k).
Proof.
  intros Ho Hk. unfold str_is.
  destruct (c_strcmp_at _ _ _ _ Ho (NUL_lit_cases _ Hk)) as (r & -> & Hr).
  rewrite bind_ret_l. unfold mret, outcome_ret. f_equal.
  destruct (Z.eqb_spec r 0); [rewrite bool_decide_eq_true_2|rewrite bool_decide_eq_false_2]; tauto.
Qed.

Lemma str_is_ci_spec o s (k : string) :
  cstr_of o = Some s → NUL ∉ lit k → str_is_ci o k ⇓ bool_decide (ci_eq s (lit k)).
Proof.
  intros Ho Hk. unfold str_is_ci.
  destruct (c_strcasecmp_at _ _ _ _ Ho (NUL_lit_cases _ Hk)) as (r & -> & Hr).
  rewrite bind_ret_l. unfold mret, outcome_ret. f_equal.
  destruct (Z.eqb_spec r 0); [rewrite bool_decide_eq_true_2|rewrite bool_decide_eq_false_2]; tauto.
Qed.

(** *** Writing *)
Lemma wr_ok o i b : (i < length o)%nat → wr o i b ⇓ <[i:=b]> o.
Proof. intros H. unfold wr. by rewrite decide_True. Qed.

Lemma blit_ok o p bs :
  (p + length bs ≤ length o)%nat →
  blit o p bs ⇓ take p o ++ bs ++ drop (p + length bs) o.
Proof. intros H. unfold blit. by rewrite decide_True. Qed.

(** The array [dst] after [bs] and a terminating NUL were stored in it. *)
Definition put_string (dst : obj) (bs : list byte) : obj :=
  bs ++ NUL :: drop (S (length bs)) dst.

Lemma length_put_string dst bs :
  (length bs < length dst)%nat → length (put_string dst bs) = length dst.
Proof. intros H. unfold put_string. rewrite length_app. simpl. rewrite length_drop. lia. Qed.

Lemma cstr_put_string dst bs : NUL ∉ bs → cstr_of (put_string dst bs) = Some bs.
Proof. apply cstr_of_app. Qed.

(** [memcpy (dst, src + p, n); dst[n] = '\0'] *)
Definition store_string (dst : obj) (src : obj) (p n : nat) : outcome obj :=
  dst ← c_memcpy dst 0 src p n; wr dst n NUL.

Lemma store_string_at dst o s p n :
  cstr_of o = Some s → (p + n ≤ length s)%nat → (n < length dst)%nat →
  store_string dst o p n ⇓ put_string dst (take n (drop p s)).
Proof.
  intros Ho Hp Hn. unfold store_string, c_memcpy.
  rewrite (slice_at o s) by done.
  set (bs := take n (drop p s)).
  assert (length bs = n) as Hbs by (unfold bs; rewrite length_take, length_drop; lia).
  rewrite bind_ret_l, blit_ok by (simpl; lia). rewrite bind_ret_l. simpl.
  rewrite wr_ok by (rewrite length_app, length_drop; lia).
  rewrite insert_app_r_alt by lia. rewrite Hbs, Nat.sub_diag.
  unfold put_string. rewrite Hbs.
  simpl. destruct (lookup_lt_is_Some_2 dst n) as [x Hx]; [lia|].
  by rewrite (drop_S _ _ _ Hx).
Qed.

(** [memcpy (dst, src + p, strlen (src + p) + 1)] *)
Lemma c_memcpy_string_at dst o s p :
  cstr_of o = Some s → (p ≤ length s)%nat → (length s - p < length dst)%nat →
  c_memcpy dst 0 o p (length s - p + 1) ⇓ put_string dst (drop p s).
Proof.
  intros (r & -> & _)%cstr_of_Some Hp Hd. unfold c_memcpy, slice.
  rewrite decide_True by (rewrite length_app; simpl; lia). rewrite bind_ret_l.
  rewrite drop_app_le by done.
  replace (length s - p + 1)%nat with (length (drop p s) + 1)%nat by (rewrite length_drop; lia).
  rewrite take_app_add. simpl.
  rewrite blit_ok by (rewrite length_app, length_drop; simpl; lia).
  unfold put_string. rewrite length_app. simpl. by rewrite <- app_assoc, Nat.add_1_r.
Qed.

(** ** Formatted output *)
(** The digits of [n >= 0], most significant first, before [acc]. *)
Fixpoint dec_digits (fuel : nat) (n : Z) (acc : list byte) : list byte :=
  match fuel with
  | O => acc
  | S fuel =>
    let acc := byte_of_Z (48 + n mod 10) :: acc in
    if n <? 10 then acc else dec_digits fuel (n / 10) acc
  end.
Definition dec_nat (n : Z) : list byte := dec_digits (S (Z.to_nat (Z.log2 n))) n [].
(** What [%d] and [%lld] print. *)
Definition dec (n : Z) : list byte :=
  if n <? 0 then "-"%byte :: dec_nat (- n) else dec_nat n.

(** [snprintf (dst, cap, ...)] whose formatted text is [text]. *)
Definition c_snprintf (dst : obj) (cap : Z) (text : list byte) : outcome (Z * obj) :=
  if INT_MAX <? Z.of_nat (length text) then mret (-1, dst)
  else if cap =? 0 then mret (Z.of_nat (length text), dst)
  else
    dst ← blit dst 0 (take (Z.to_nat (cap - 1)) text ++ [NUL]);
    mret (Z.of_nat (length text), dst).

(** The value of a digit string. *)
Definition dec_value (s : list byte) : Z :=
  foldl (λ acc b, acc * 10 + (uchar b - 48)) 0 s.
Definition digit (b : byte) : Prop := 48 <= uchar b <= 57.
#[export] Instance digit_dec b : Decision (digit b).
Proof. unfold digit. apply _. Defined.

Lemma dec_value_snoc s b : dec_value (s ++ [b]) = dec_value s * 10 + (uchar b - 48).
Proof. unfold dec_value. by rewrite foldl_app. Qed.

Lemma uchar_digit n : 0 <= n < 10 → uchar (byte_of_Z (48 + n)) = 48 + n.
Proof. intros. rewrite uchar_byte_of_Z. apply Z.mod_small. lia. Qed.

Lemma dec_digits_app fuel n acc : ∃ s, dec_digits fuel n acc = s ++ acc.
Proof.
  revert n acc. induction fuel as [|fuel IH]; intros n acc; simpl; [by exists []|].
  destruct (n <? 10); [by eexists [_]|].
  destruct (IH (n / 10) (byte_of_Z (48 + n mod 10) :: acc)) as [s ->].
  exists (s ++ [byte_of_Z (48 + n mod 10)]). by rewrite <- app_assoc.
Qed.

Lemma dec_digits_spec fuel n :
  0 <= n < 2 ^ Z.of_nat (S fuel) →
  ∀ acc, ∃ s, dec_digits (S fuel) n acc = s ++ acc ∧ Forall digit s ∧ s ≠ [] ∧ dec_value s = n.
Proof.
  revert n. induction fuel as [|fuel IH]; intros n Hn acc.
  - change (2 ^ Z.of_nat 1) with 2 in Hn. exists [byte_of_Z (48 + n)]. simpl.
    rewrite Z.mod_small, (proj2 (Z.ltb_lt _ _)) by lia.
    split_and!; try done; [constructor; [|done]; unfold digit|unfold dec_value; simpl];
      rewrite uchar_digit; lia.
  - remember (S fuel) as f. simpl. pose proof (Z.mod_pos_bound n 10 ltac:(lia)) as Hm.
    destruct (n <? 10) eqn:E; [apply Z.ltb_lt in E|apply Z.ltb_ge in E].
    + exists [byte_of_Z (48 + n mod 10)]. rewrite Z.mod_small by lia.
      split_and!; try done; [constructor; [|done]; unfold digit|unfold dec_value; simpl];
        rewrite uchar_digit; lia.
    + subst f. rewrite (Nat2Z.inj_succ (S fuel)), Z.pow_succ_r in Hn by lia.
      pose proof (Z.div_mod n 10 ltac:(lia)) as Hdm.
      destruct (IH (n / 10) ltac:(split; nia) (byte_of_Z (48 + n mod 10) :: acc))
        as (s & -> & Hs & _ & Hv).
      exists (s ++ [byte_of_Z (48 + n mod 10)]). rewrite <- app_assoc.
      split_and!; [done| | by destruct s |].
      * apply Forall_app. split; [done|]. constructor; [|done].
        unfold digit. rewrite uchar_digit; lia.
      * rewrite dec_value_snoc, Hv, uchar_digit by lia. lia.
Qed.

(** At most [k] digits below [10 ^ k]. *)
Lemma length_dec_digits fuel n k acc :
  0 <= n < 10 ^ Z.of_nat (S k) → (length (dec_digits fuel n acc) ≤ S k + length acc)%nat.
Proof.
  revert n k acc. induction fuel as [|fuel IH]; intros n k acc Hn; simpl; [lia|].
  destruct (n <? 10) eqn:E; [simpl; lia|]. apply Z.ltb_ge in E.
  destruct k as [|k]; [change (10 ^ Z.of_nat 1) with 10 in Hn; lia|].
  rewrite Nat2Z.inj_succ, Z.pow_succ_r in Hn by lia.
  etrans; [apply (IH _ k)|simpl; lia].
  split; [apply Z.div_pos; lia|apply Z.div_lt_upper_bound; lia].
Qed.

Lemma length_dec n k : 0 <= n < 10 ^ Z.of_nat (S k) → (length (dec n) ≤ S k)%nat.
Proof.
  intros Hn. unfold dec, dec_nat. rewrite (proj2 (Z.ltb_ge _ _)) by lia.
  etrans; [by apply length_dec_digits|simpl; lia].
Qed.

(** Printing and reading back. *)
Lemma dec_spec n : 0 <= n → Forall digit (dec n) ∧ dec n ≠ [] ∧ dec_value (dec n) = n.
Proof.
  intros Hn. unfold dec. rewrite (proj2 (Z.ltb_ge _ _)) by lia. unfold dec_nat.
  assert (0 <= n < 2 ^ Z.of_nat (S (Z.to_nat (Z.log2 n)))) as Hf.
  { split; [done|]. rewrite Nat2Z.inj_succ, Z2Nat.id by apply Z.log2_nonneg.
    destruct (decide (n = 0)) as [->|]; [done|]. apply Z.log2_spec. lia. }
  destruct (dec_digits_spec _ n Hf []) as (s & -> & Hd & Hne & Hv). by rewrite app_nil_r.
Qed.

Lemma c_snprintf_ok dst cap text :
  Z.of_nat (length dst) = cap → Z.of_nat (length text) < cap → cap <= INT_MAX →
  c_snprintf dst cap text ⇓ (Z.of_nat (length text), put_string dst text).
Proof.
  intros Hd Ht Hc. unfold c_snprintf.
  rewrite (proj2 (Z.ltb_ge _ _)), (proj2 (Z.eqb_neq _ _)) by lia.
  rewrite take_ge by lia. rewrite blit_ok by (rewrite length_app; simpl; lia).
  rewrite bind_ret_l. unfold put_string. simpl. rewrite length_app. simpl.
  by rewrite <- app_assoc, Nat.add_1_r.
Qed.

(** Truncated or not, the array is only written within its bounds. *)
Lemma c_snprintf_total dst cap text :
  Z.of_nat (length dst) = cap → 0 < cap <= INT_MAX →
  ∃ n dst', c_snprintf dst cap text ⇓ (n, dst') ∧ length dst' = length dst ∧
    ((n < 0 ∨ cap <= n) ↔ cap <= Z.of_nat (length text)).
Proof.
  intros Hd Hc. unfold c_snprintf. destruct (_ <? _) eqn:E.
  { apply Z.ltb_lt in E. exists (-1), dst. split_and!; try done. lia. }
  apply Z.ltb_ge in E. rewrite (proj2 (Z.eqb_neq _ _)) by lia.
  set (t := take _ _). assert (length t ≤ Z.to_nat (cap - 1))%nat as Ht
    by (unfold t; rewrite length_take; lia).
  rewrite blit_ok by (rewrite length_app; simpl; lia). rewrite bind_ret_l.
  eexists _, _. split; [done|]. split; [|lia].
  rewrite !length_app, length_drop, ?length_app. simpl. lia.
Qed.

(** ** Number parsing *)
Definition ERANGE : Z := 34.
(** [isspace] in the C locale. *)
Definition space (b : byte) : Prop := uchar b = 32 ∨ 9 <= uchar b <= 13.
#[export] Instance space_dec b : Decision (space b).
Proof. unfold space. apply _. Defined.

Fixpoint skip_spaces (s : list byte) : list byte :=
  match s with
  | b :: s' => if decide (space b) then skip_spaces s' else s
  | [] => []
  end.
Fixpoint span_digits (s : list byte) : list byte * list byte :=
  match s with
  | b :: s' => if decide (digit b) then let '(ds, r) := span_digits s' in (b :: ds, r) else ([], s)
  | [] => ([], [])
  end.
Definition read_sign (s : list byte) : bool * list byte :=
  match s with
  | b :: s' => if decide (b = "-"%byte) then (true, s')
               else if decide (b = "+"%byte) then (false, s') else (false, s)
  | [] => (false, [])
  end.

(** The number at the start of [s]: its sign, its digits, and what follows. *)
Definition scan_number (s : list byte) : option (bool * list byte * list byte) :=
  let '(neg, s) := read_sign (skip_spaces s) in
  let '(ds, rest) := span_digits s in
  match ds with [] => None | _ => Some (neg, ds, rest) end.

(** [strtol (o, &end, 10)] and [strtoull (o, &end, 10)] called with [errno] 0: the
    value, the offset of [end], and [errno]. *)
Definition c_strtol (o : obj) : outcome (Z * nat * Z) :=
  s ← c_string o 0;
  match scan_number s with
  | None => mret (0, 0%nat, 0)
  | Some (neg, ds, rest) =>
    let v := if (neg : bool) then - dec_value ds else dec_value ds in
    let e := (length s - length rest)%nat in
    if LONG_MAX <? v then mret (LONG_MAX, e, ERANGE)
    else if v <? LONG_MIN then mret (LONG_MIN, e, ERANGE)
    else mret (v, e, 0)
  end.
Definition c_strtoull (o : obj) : outcome (Z * nat * Z) :=
  s ← c_string o 0;
  match scan_number s with
  | None => mret (0, 0%nat, 0)
  | Some (neg, ds, rest) =>
    let v := dec_value ds in
    let e := (length s - length rest)%nat in
    if ULLONG_MAX <? v then mret (ULLONG_MAX, e, ERANGE)
    else mret (if (neg : bool) then u64 (- v) else v, e, 0)
  end.

Lemma skip_spaces_app s : ∃ ws, s = ws ++ skip_spaces s ∧ Forall space ws.
Proof.
  induction s as [|b s (ws & Hs & Hw)]; simpl; [by exists []|].
  case_decide; [|by exists []]. exists (b :: ws). split; [simpl; by f_equal|by constructor].
Qed.

Lemma span_digits_app s :
  s = (span_digits s).1 ++ (span_digits s).2 ∧ Forall digit (span_digits s).1.
Proof.
  induction s as [|b s [IH1 IH2]]; simpl; [done|]. case_decide; [|done].
  destruct (span_digits s) as [ds r]. simpl in *. split; [by f_equal|by constructor].
Qed.

(** The spelling of a number: white space, a sign, digits. *)
Inductive sign_spelling : bool → list byte → Prop :=
  | sign_none : sign_spelling false []
  | sign_plus : sign_spelling false ["+"%byte]
  | sign_minus : sign_spelling true ["-"%byte].

Definition spells (s : list byte) (neg : bool) (ds : list byte) : Prop :=
  ∃ ws sign, s = ws ++ sign ++ ds ∧ Forall space ws ∧ sign_spelling neg sign ∧
    ds ≠ [] ∧ Forall digit ds.

Lemma scan_number_sound s neg ds rest :
  scan_number s = Some (neg, ds, rest) →
  ∃ pre, s = pre ++ rest ∧ spells pre neg ds.
Proof.
  unfold scan_number. destruct (skip_spaces_app s) as (ws & Hs & Hw).
  destruct (read_sign (skip_spaces s)) as [n s1] eqn:Hsign.
  destruct (span_digits_app s1) as [Happ Hd]. destruct (span_digits s1) as [d r]. simpl in *.
  destruct d as [|b d]; [done|]. intros [= -> <- <-].
  assert (∃ sign, skip_spaces s = sign ++ s1 ∧ sign_spelling neg sign) as (sign & Hs1 & Hsp).
  { clear Hs. unfold read_sign in Hsign. destruct (skip_spaces s) as [|c s'].
    { injection Hsign as <- <-. exists []. by split; [|constructor]. }
    destruct (decide (c = "-"%byte)) as [->|].
    { injection Hsign as <- <-. exists ["-"%byte]. by split; [|constructor]. }
    destruct (decide (c = "+"%byte)) as [->|];
      injection Hsign as <- <-; [exists ["+"%byte]|exists []]; by split; [|constructor]. }
  exists (ws ++ sign ++ b :: d). split.
  - rewrite Hs, Hs1, Happ. by rewrite <- !app_assoc.
  - by exists ws, sign.
Qed.

Lemma span_digits_all ds : Forall digit ds → span_digits ds = (ds, []).
Proof. induction 1 as [|b ds Hb _ IH]; simpl; [done|]. rewrite decide_True by done. by rewrite IH. Qed.

Lemma digit_not_space_sign b : digit b → ¬ space b ∧ b ≠ "-"%byte ∧ b ≠ "+"%byte.
Proof. byte_cases b. Qed.

Lemma scan_number_complete s neg ds : spells s neg ds → scan_number s = Some (neg, ds, []).
Proof.
  intros (ws & sign & -> & Hw & Hsign & Hne & Hd). unfold scan_number.
  assert (skip_spaces (ws ++ sign ++ ds) = sign ++ ds) as ->.
  { induction Hw as [|b ws Hb _ IH]; simpl; [|by rewrite decide_True].
    destruct Hsign; simpl; [|done..]. destruct Hd as [|b ds Hb Hd]; [done|]. simpl.
    by rewrite decide_False by (by apply digit_not_space_sign). }
  assert (read_sign (sign ++ ds) = (neg, ds)) as ->.
  { destruct Hsign; simpl; [|done..]. destruct Hd as [|b ds Hb Hd]; [done|]. simpl.
    apply digit_not_space_sign in Hb as (_ & ? & ?). by rewrite !decide_False. }
  rewrite span_digits_all by done. by destruct ds.
Qed.
