(* ===== verification/Config.v ===== *)
(** * Server configuration ([include/config.h], [src/config.c])

    The configuration record, its defaults, and the command-line parser. *)
From S2P Require Import Prelude.
From S2P Require Import CLib.

Definition DEFAULT_PORT : Z := 8080.
Definition DEFAULT_BACKLOG : Z := 10.
Definition DEFAULT_CLIENT_TIMEOUT : Z := 10.
Definition DEFAULT_DOCUMENT_ROOT : list byte := lit "public".
Definition DEFAULT_HTTP_BUFFER_SIZE : Z := 16384.
Definition DEFAULT_HTTP_MAX_HEADERS : Z := 64.
Definition DEFAULT_HTTP_HEADER_NAME_MAX : Z := 128.
Definition DEFAULT_HTTP_HEADER_VALUE_MAX : Z := 4096.

(** [document_root] is the string the pointer refers to; the [size_t] and
    [int] fields are integers. *)
Record server_config_t := ServerConfig {
  port : Z;
  backlog : Z;
  client_timeout : Z;
  document_root : list byte;
  http_buffer_size : Z;
  http_max_headers : Z;
  http_header_name_max : Z;
  http_header_value_max : Z
}.
