(* ===== verification/HttpParse.v ===== *)
(** * Request parser ([src/http_parse.c], types of [include/http.h])

    The parser on the C memory: pointers are offsets into the NUL-terminated
    request buffer, the fields of the request are fixed-size arrays, and each
    read and write is checked. *)
From S2P Require Import Prelude.
From S2P Require Import CLib.
From S2P Require Import Config.

(** ** Data *)
Definition HTTP_MAX_HEADERS : Z := DEFAULT_HTTP_MAX_HEADERS.
Definition HTTP_HEADER_NAME_MAX : Z := DEFAULT_HTTP_HEADER_NAME_MAX.
Definition HTTP_HEADER_VALUE_MAX : Z := DEFAULT_HTTP_HEADER_VALUE_MAX.
Definition HTTP_QUERY_MAX : Z := 4096.

Definition HTTP_PARSE_OK : Z := 0.
Definition HTTP_PARSE_BAD_REQUEST : Z := -1.
Definition HTTP_PARSE_HEADERS_TOO_LARGE : Z := -2.

Record http_header_t := HttpHeader {
  hdr_name : obj;
  hdr_value : obj
}.

Record http_request_t := HttpRequest {
  req_method : obj;
  req_path : obj;
  req_query : obj;
  req_version : obj;
  req_headers : list http_header_t;
  req_header_count : Z
}.

Definition set_method (o : obj) (r : http_request_t) : http_request_t :=
  HttpRequest o (req_path r) (req_query r) (req_version r) (req_headers r) (req_header_count r).
Definition set_path (o : obj) (r : http_request_t) : http_request_t :=
  HttpRequest (req_method r) o (req_query r) (req_version r) (req_headers r) (req_header_count r).
Definition set_query (o : obj) (r : http_request_t) : http_request_t :=
  HttpRequest (req_method r) (req_path r) o (req_version r) (req_headers r) (req_header_count r).
Definition set_version (o : obj) (r : http_request_t) : http_request_t :=
  HttpRequest (req_method r) (req_path r) (req_query r) o (req_headers r) (req_header_count r).
Definition set_headers (hs : list http_header_t) (r : http_request_t) : http_request_t :=
  HttpRequest (req_method r) (req_path r) (req_query r) (req_version r) hs (req_header_count r).
Definition set_header_count (n : Z) (r : http_request_t) : http_request_t :=
  HttpRequest (req_method r) (req_path r) (req_query r) (req_version r) (req_headers r) n.

(** Store [h] in slot [i] of [headers]. *)
Definition put_slot (r : http_request_t) (i : nat) (h : http_header_t) : http_request_t :=
  set_headers (<[i := h]> (req_headers r)) r.

(** ** Percent-decoding of the path *)
Definition http_hex_value (c : byte) : Z :=
  let c := schar c in
  if (schar "0" <=? c) && (c <=? schar "9") then c - schar "0"
  else if (schar "a" <=? c) && (c <=? schar "f") then c - schar "a" + 10
  else if (schar "A" <=? c) && (c <=? schar "F") then c - schar "A" + 10
  else -1.

(** The decoded octet at [src] and the offset after it; [None] is the
    [return -1] of a malformed escape. *)
Definition http_decode_octet (encoded : obj) (src : nat) (c : byte)
    : outcome (option (byte * nat)) :=
  if decide (c = "%"%byte) then
    c1 ← rd encoded (src + 1);
    if decide (c1 = NUL) then mret None else
    c2 ← rd encoded (src + 2);
    if decide (c2 = NUL) then mret None else
    let high := http_hex_value c1 in
    let low := http_hex_value c2 in
    if (high <? 0) || (low <? 0) then mret None
    else mret (Some (byte_of_Z (Z.lor (Z.shiftl high 4) low), (src + 3)%nat))
  else mret (Some (c, (src + 1)%nat)).

Fixpoint http_decode_path_loop (fuel : nat) (encoded : obj) (src dst : nat)
    (decoded : obj) (decoded_size : Z) : outcome (Z * obj) :=
  match fuel with
  | O => OutOfFuel
  | S fuel =>
    c ← rd encoded src;
    if decide (c = NUL) then
      decoded ← wr decoded dst NUL;
      mret (0, decoded)
    else if decoded_size <=? size_add (Z.of_nat dst) 1 then mret (-1, decoded)
    else
      step ← http_decode_octet encoded src c;
      match step with
      | None => mret (-1, decoded)
      | Some (value, src) =>
        if (uchar value =? 0) || (uchar value <? 32) || (uchar value =? 127)
        then mret (-1, decoded)
        else
          decoded ← wr decoded dst value;
          http_decode_path_loop fuel encoded src (dst + 1) decoded decoded_size
      end
  end.

Definition http_decode_path (encoded decoded : obj) (decoded_size : Z)
    : outcome (Z * obj) :=
  if decoded_size =? 0 then mret (-1, decoded)
  else http_decode_path_loop (S (length encoded)) encoded 0 0 decoded decoded_size.

(** ** Request target *)
(** [path] is the local array of 4096 bytes, [stack] its initial contents. *)
Definition http_parse_target_split (stack target : obj) (request : http_request_t)
    : outcome (option (obj * http_request_t)) :=
  query_start ← c_strchr target 0 "?";
  match query_start with
  | Some q =>
    let path_length := q in
    if (Z.of_nat path_length =? 0) || (4096 <=? Z.of_nat path_length) then mret None else
    path ← store_string stack target 0 path_length;
    let q := (q + 1)%nat in
    query_length ← c_strlen target q;
    if HTTP_QUERY_MAX <=? Z.of_nat query_length then mret None else
    query ← c_memcpy (req_query request) 0 target q (query_length + 1);
    mret (Some (path, set_query query request))
  | None =>
    path_length ← c_strlen target 0;
    if (Z.of_nat path_length =? 0) || (4096 <=? Z.of_nat path_length) then mret None else
    path ← c_memcpy stack 0 target 0 (path_length + 1);
    query ← wr (req_query request) 0 NUL;
    mret (Some (path, set_query query request))
  end.

Definition http_parse_target (stack target : obj) (request : http_request_t)
    : outcome (Z * http_request_t) :=
  split ← http_parse_target_split stack target request;
  match split with
  | None => mret (-1, request)
  | Some (path, request) =>
    c ← rd path 0;
    if decide (c ≠ "/"%byte) then mret (-1, request) else
    '(r, decoded) ← http_decode_path path (req_path request) 4096;
    mret (r, set_path decoded request)
  end.

(** ** End of the header block *)
Definition is_crlf2 (buffer : obj) (i : nat) : outcome bool :=
  c0 ← rd buffer i;
  if decide (c0 ≠ CR) then mret false else
  c1 ← rd buffer (i + 1);
  if decide (c1 ≠ LF) then mret false else
  c2 ← rd buffer (i + 2);
  if decide (c2 ≠ CR) then mret false else
  c3 ← rd buffer (i + 3);
  mret (bool_decide (c3 = LF)).

(** The loop from [i] on, with [n] iterations left before [i > length - 4]. *)
Fixpoint http_find_header_end_loop (n : nat) (buffer : obj) (i : nat)
    : outcome (option nat) :=
  match n with
  | O => mret None
  | S n =>
    found ← is_crlf2 buffer i;
    if (found : bool) then mret (Some (i + 4)%nat)
    else http_find_header_end_loop n buffer (i + 1)
  end.

Definition http_find_header_end (buffer : obj) (length : Z) : outcome (option nat) :=
  if length <? 4 then mret None
  else http_find_header_end_loop (Z.to_nat (size_sub length 4 + 1)) buffer 0.

Definition http_request_complete (buffer : obj) (length : Z) : outcome bool :=
  e ← http_find_header_end buffer length;
  mret (bool_decide (is_Some e)).

(** ** Header lookup *)
Definition header_at (request : http_request_t) (i : nat) : outcome http_header_t :=
  match req_headers request !! i with Some h => Ret h | None => UB end.

Fixpoint http_get_header_loop (n : nat) (request : http_request_t) (name : obj) (i : nat)
    : outcome (option obj) :=
  match n with
  | O => mret None
  | S n =>
    h ← header_at request i;
    r ← c_strcasecmp (hdr_name h) 0 name 0;
    if r =? 0 then mret (Some (hdr_value h))
    else http_get_header_loop n request name (i + 1)
  end.

Definition http_get_header (request : http_request_t) (name : obj) : outcome (option obj) :=
  http_get_header_loop (Z.to_nat (req_header_count request)) request name 0.

(** ** Field syntax *)
Definition http_is_tchar (c : byte) : bool :=
  let u := uchar c in
  if ((uchar "0" <=? u) && (u <=? uchar "9")) ||
     ((uchar "A" <=? u) && (u <=? uchar "Z")) ||
     ((uchar "a" <=? u) && (u <=? uchar "z"))
  then true
  else match c with
       | "!" | "#" | "$" | "%" | "&" | "'" | "*" | "+" | "-" | "."
       | "^" | "_" | "`" | "|" | "~" => true
       | _ => false
       end%byte.

Fixpoint http_valid_header_name_loop (n : nat) (o : obj) (p : nat) : outcome bool :=
  match n with
  | O => mret true
  | S n =>
    c ← rd o p;
    if negb (http_is_tchar c) then mret false
    else http_valid_header_name_loop n o (p + 1)
  end.

Definition http_valid_header_name (o : obj) (p length : nat) : outcome bool :=
  if decide (length = 0%nat) then mret false
  else http_valid_header_name_loop length o p.

Fixpoint http_valid_header_value (o : obj) (p length : nat) : outcome bool :=
  match length with
  | O => mret true
  | S length =>
    c ← rd o p;
    if (uchar c <? 32) && bool_decide (c ≠ HTAB) then mret false
    else if uchar c =? 127 then mret false
    else http_valid_header_value o (p + 1) length
  end.

(** ** Header lines *)
Definition is_ows (c : byte) : bool := bool_decide (c = SP) || bool_decide (c = HTAB).

(** [while (value_start < line_end && is_ows *value_start) value_start++],
    [n] being [line_end - value_start]. *)
Fixpoint skip_ows (n : nat) (o : obj) (value_start : nat) : outcome nat :=
  match n with
  | O => mret value_start
  | S n =>
    c ← rd o value_start;
    if is_ows c then skip_ows n o (value_start + 1) else mret value_start
  end.

(** [while (value_length > 0 && is_ows value_start[value_length - 1]) value_length--] *)
Fixpoint trim_ows (o : obj) (value_start value_length : nat) : outcome nat :=
  match value_length with
  | O => mret O
  | S n =>
    c ← rd o (value_start + n);
    if is_ows c then trim_ows o value_start n else mret value_length
  end.

(** The rest of an iteration of the header loop, once the end of the line and
    the colon are found.  [inl code] is [return code], [inr line] the start of
    the next line; the request is the one in memory then. *)
Definition http_parse_header_field (buffer : obj) (line line_end colon : nat)
    (request : http_request_t) (config : server_config_t)
    : outcome (http_request_t * (Z + nat)) :=
  let name_length := (colon - line)%nat in
  if decide (name_length = 0%nat) then mret (request, inl HTTP_PARSE_BAD_REQUEST) else
  last ← rd buffer (line + (name_length - 1));
  if is_ows last then mret (request, inl HTTP_PARSE_BAD_REQUEST) else
  name_ok ← http_valid_header_name buffer line name_length;
  if negb name_ok then mret (request, inl HTTP_PARSE_BAD_REQUEST) else
  if http_header_name_max config <=? Z.of_nat name_length
  then mret (request, inl HTTP_PARSE_HEADERS_TOO_LARGE) else
  let i := Z.to_nat (req_header_count request) in
  header ← header_at request i;
  name ← store_string (hdr_name header) buffer line name_length;
  let header := HttpHeader name (hdr_value header) in
  let request := put_slot request i header in
  value_start ← skip_ows (line_end - (colon + 1)) buffer (colon + 1);
  value_length ← trim_ows buffer value_start (line_end - value_start);
  value_ok ← http_valid_header_value buffer value_start value_length;
  if negb value_ok then mret (request, inl HTTP_PARSE_BAD_REQUEST) else
  if http_header_value_max config <=? Z.of_nat value_length
  then mret (request, inl HTTP_PARSE_HEADERS_TOO_LARGE) else
  value ← store_string (hdr_value header) buffer value_start value_length;
  let header := HttpHeader name value in
  let request := put_slot request i header in
  mret (set_header_count (size_add (req_header_count request) 1) request,
        inr (line_end + 2)%nat).

(** One iteration of the header loop. *)
Definition http_parse_header_line (buffer : obj) (line : nat)
    (request : http_request_t) (config : server_config_t)
    : outcome (http_request_t * (Z + nat)) :=
  if http_max_headers config <=? req_header_count request
  then mret (request, inl HTTP_PARSE_HEADERS_TOO_LARGE) else
  line_end ← c_strstr buffer line CRLF;
  match line_end with
  | None => mret (request, inl HTTP_PARSE_BAD_REQUEST)
  | Some line_end =>
    colon ← c_memchr buffer line ":" (line_end - line);
    match colon with
    | None => mret (request, inl HTTP_PARSE_BAD_REQUEST)
    | Some colon => http_parse_header_field buffer line line_end colon request config
    end
  end.

Definition at_crlf (buffer : obj) (line : nat) : outcome bool :=
  c0 ← rd buffer line;
  if decide (c0 ≠ CR) then mret false else
  c1 ← rd buffer (line + 1);
  mret (bool_decide (c1 = LF)).

(** The header loop; it also returns [line] where it stopped. *)
Fixpoint http_parse_headers_loop (fuel : nat) (buffer : obj) (line : nat)
    (request : http_request_t) (config : server_config_t)
    : outcome (Z * http_request_t * nat) :=
  match fuel with
  | O => OutOfFuel
  | S fuel =>
    done ← at_crlf buffer line;
    if (done : bool) then mret (HTTP_PARSE_OK, request, line) else
    '(request, next) ← http_parse_header_line buffer line request config;
    match next with
    | inl code => mret (code, request, line)
    | inr line => http_parse_headers_loop fuel buffer line request config
    end
  end.

Definition http_parse_headers (buffer : obj) (request : http_request_t)
    (config : server_config_t) : outcome (Z * http_request_t) :=
  line ← c_strstr buffer 0 CRLF;
  match line with
  | None => mret (HTTP_PARSE_BAD_REQUEST, request)
  | Some line =>
    '(code, request, _) ←
      http_parse_headers_loop (S (length buffer)) buffer (line + 2) request config;
    mret (code, request)
  end.

(** ** Request line *)
(** The end of the function, once the end of the line and its two spaces are
    found: check and store the three parts. *)
Definition http_store_request_line (buffer : obj) (request : http_request_t)
    (target : obj) (target_size : Z) (line_end first_space second_space : nat)
    : outcome (Z * http_request_t * obj) :=
  let method_length := first_space in
  if (Z.of_nat method_length =? 0) || (16 <=? Z.of_nat method_length)
  then mret (-1, request, target) else
  method_ok ← http_valid_header_name buffer 0 method_length;
  if negb method_ok then mret (-1, request, target) else
  method ← store_string (req_method request) buffer 0 method_length;
  let request := set_method method request in
  let target_length := (second_space - first_space - 1)%nat in
  if (Z.of_nat target_length =? 0) || (target_size <=? Z.of_nat target_length)
  then mret (-1, request, target) else
  target ← store_string target buffer (first_space + 1) target_length;
  let version_length := (line_end - second_space - 1)%nat in
  if (Z.of_nat version_length =? 0) || (16 <=? Z.of_nat version_length)
  then mret (-1, request, target) else
  version ← store_string (req_version request) buffer (second_space + 1) version_length;
  mret (0, set_version version request, target).

Definition http_parse_request_line (buffer : obj) (request : http_request_t)
    (target : obj) (target_size : Z) : outcome (Z * http_request_t * obj) :=
  line_end ← c_strstr buffer 0 CRLF;
  match line_end with
  | None => mret (-1, request, target)
  | Some line_end =>
  first_space ← c_memchr buffer 0 SP line_end;
  match first_space with
  | None => mret (-1, request, target)
  | Some first_space =>
  second_space ← c_memchr buffer (first_space + 1) SP (line_end - first_space - 1);
  match second_space with
  | None => mret (-1, request, target)
  | Some second_space =>
  third_space ← c_memchr buffer (second_space + 1) SP (line_end - second_space - 1);
  match third_space with
  | Some _ => mret (-1, request, target)
  | None =>
  http_store_request_line buffer request target target_size line_end first_space second_space
  end end end end.

(** ** The whole request

    [None] is a null pointer.  [stack] holds the initial contents of the local
    arrays [target] and [path]. *)
Record parse_stack := ParseStack { stack_target : obj; stack_path : obj }.

(** The test on [version]: neither "HTTP/1.1" nor "HTTP/1.0". *)
Definition http_version_unsupported (request : http_request_t) : outcome bool :=
  v11 ← c_strcmp (req_version request) 0 (lit0 "HTTP/1.1") 0;
  if v11 =? 0 then mret false else
  v10 ← c_strcmp (req_version request) 0 (lit0 "HTTP/1.0") 0;
  mret (negb (v10 =? 0)).

Definition http_parse_request (stack : parse_stack) (buffer : option obj)
    (request : option http_request_t) (config : server_config_t)
    : outcome (Z * option http_request_t) :=
  match buffer, request with
  | Some buffer, Some request =>
    let request := set_header_count 0 request in
    query ← wr (req_query request) 0 NUL;
    let request := set_query query request in
    '(r, request, target) ← http_parse_request_line buffer request (stack_target stack) 4096;
    if r <? 0 then mret (HTTP_PARSE_BAD_REQUEST, Some request) else
    unsupported ← http_version_unsupported request;
    if (unsupported : bool) then mret (HTTP_PARSE_BAD_REQUEST, Some request) else
    '(r, request) ← http_parse_target (stack_path stack) target request;
    if r <? 0 then mret (HTTP_PARSE_BAD_REQUEST, Some request) else
    '(code, request) ← http_parse_headers buffer request config;
    mret (code, Some request)
  | _, _ => mret (HTTP_PARSE_BAD_REQUEST, request)
  end.
