(* ===== verification/HttpGrammar.v ===== *)
(** * Request grammar: the abstract specification of the parser

    What a request message is, on lists of bytes and without pointers, arrays
    or bounds of arrays: request lines, header fields, percent-encoded paths.
    [HttpParseProofs] shows that the C parser implements it. *)
From S2P Require Import Prelude.
From S2P Require Import CLib.
From S2P Require Import Config.
From S2P Require Import HttpParse.

(** ** Characters *)
(** The token characters of RFC 9110, section 5.6.2. *)
Definition tchars : list byte :=
  lit "!#$%&'*+-.^_`|~0123456789ABCDEFGHIJKLMNOPQRSTUVWXYZabcdefghijklmnopqrstuvwxyz".
Definition tchar (b : byte) : Prop := b ∈ tchars.
Definition token (s : list byte) : Prop := s ≠ [] ∧ Forall tchar s.

(** Octets of a field value: no control character except HTAB. *)
Definition field_octet (b : byte) : Prop :=
  b = HTAB ∨ (32 <= uchar b ∧ uchar b ≠ 127).
(** Octets of a decoded path: no control character. *)
Definition path_octet (b : byte) : Prop := 32 <= uchar b ∧ uchar b ≠ 127.

Definition ows (b : byte) : Prop := b = SP ∨ b = HTAB.

#[export] Instance tchar_dec b : Decision (tchar b).
Proof. unfold tchar. apply _. Defined.
#[export] Instance token_dec s : Decision (token s).
Proof. unfold token. apply _. Defined.
#[export] Instance field_octet_dec b : Decision (field_octet b).
Proof. unfold field_octet. apply _. Defined.
#[export] Instance path_octet_dec b : Decision (path_octet b).
Proof. unfold path_octet. apply _. Defined.
#[export] Instance ows_dec b : Decision (ows b).
Proof. unfold ows. apply _. Defined.

(** ** Trimming optional whitespace *)
Fixpoint ltrim (s : list byte) : list byte :=
  match s with
  | b :: s' => if decide (ows b) then ltrim s' else s
  | [] => []
  end.
Definition rtrim (s : list byte) : list byte := rev (ltrim (rev s)).
Definition trim (s : list byte) : list byte := rtrim (ltrim s).

(** ** Percent-decoding *)
Definition hex_digits : list byte := lit "0123456789abcdef".
Definition hex_digit (v : Z) : byte := nth (Z.to_nat v) hex_digits "0"%byte.
Definition hex_val (b : byte) : option Z := Z.of_nat <$> find_byte (to_lower b) hex_digits.

Fixpoint pct_decode (s : list byte) : option (list byte) :=
  match s with
  | [] => Some []
  | c :: s1 =>
    if decide (c = "%"%byte) then
      match s1 with
      | h :: l :: s2 =>
        match hex_val h, hex_val l with
        | Some hv, Some lv =>
          let v := byte_of_Z (16 * hv + lv) in
          if decide (path_octet v) then cons v <$> pct_decode s2 else None
        | _, _ => None
        end
      | _ => None
      end
    else if decide (path_octet c) then cons c <$> pct_decode s1 else None
  end.

(** A percent-encoder: every octet outside the token set and "/" is escaped,
    and so is "%". *)
Definition pct_plain (b : byte) : Prop := (tchar b ∧ b ≠ "%"%byte) ∨ b = "/"%byte.
#[export] Instance pct_plain_dec b : Decision (pct_plain b).
Proof. unfold pct_plain. apply _. Defined.

Definition pct_octet (b : byte) : list byte :=
  if decide (pct_plain b) then [b]
  else ["%"%byte; hex_digit (uchar b / 16); hex_digit (uchar b mod 16)].
Definition pct_encode (s : list byte) : list byte := s ≫= pct_octet.

(** ** Header fields *)
Abbreviation field := (list byte * list byte)%type.

Definition parse_field (cfg : server_config_t) (line : list byte) : Z + field :=
  match find_byte ":" line with
  | None => inl HTTP_PARSE_BAD_REQUEST
  | Some i =>
    let name := take i line in
    let value := trim (drop (S i) line) in
    if decide (¬ token name) then inl HTTP_PARSE_BAD_REQUEST
    else if http_header_name_max cfg <=? Z.of_nat (length name)
    then inl HTTP_PARSE_HEADERS_TOO_LARGE
    else if decide (¬ Forall field_octet value) then inl HTTP_PARSE_BAD_REQUEST
    else if http_header_value_max cfg <=? Z.of_nat (length value)
    then inl HTTP_PARSE_HEADERS_TOO_LARGE
    else inr (name, value)
  end.

(** [parse_fields cfg k s fs code rest]: reading header lines from [s] after [k]
    fields yields the fields [fs] and ends with [code], before [rest]. *)
Inductive parse_fields (cfg : server_config_t) :
    nat → list byte → list field → Z → list byte → Prop :=
  | fields_end k s :
      CRLF `prefix_of` s →
      parse_fields cfg k s [] HTTP_PARSE_OK s
  | fields_too_many k s :
      ¬ CRLF `prefix_of` s → http_max_headers cfg <= Z.of_nat k →
      parse_fields cfg k s [] HTTP_PARSE_HEADERS_TOO_LARGE s
  | fields_no_line k s :
      ¬ CRLF `prefix_of` s → Z.of_nat k < http_max_headers cfg →
      find_sub CRLF s = None →
      parse_fields cfg k s [] HTTP_PARSE_BAD_REQUEST s
  | fields_bad_line k s i code :
      ¬ CRLF `prefix_of` s → Z.of_nat k < http_max_headers cfg →
      find_sub CRLF s = Some i → parse_field cfg (take i s) = inl code →
      parse_fields cfg k s [] code s
  | fields_line k s i f fs code rest :
      ¬ CRLF `prefix_of` s → Z.of_nat k < http_max_headers cfg →
      find_sub CRLF s = Some i → parse_field cfg (take i s) = inr f →
      parse_fields cfg (S k) (drop (i + 2) s) fs code rest →
      parse_fields cfg k s (f :: fs) code rest.

(** ** Request line *)
(** The line of [s] is a method, a target and a version between single
    spaces, each within the size of its array. *)
Record request_line (s method target version : list byte) : Prop := {
  rl_line : ∃ i, find_sub CRLF s = Some i ∧
                 take i s = method ++ SP :: target ++ SP :: version;
  rl_target_sp : SP ∉ target;
  rl_version_sp : SP ∉ version;
  rl_method : token method;
  rl_method_size : (length method < 16)%nat;
  rl_target_size : (0 < length target < 4096)%nat;
  rl_version_size : (0 < length version < 16)%nat
}.

(** ** Target: an absolute path, and the query after the first "?" *)
Inductive target_parts : list byte → list byte → list byte → Prop :=
  | target_no_query path :
      "?"%byte ∉ path → target_parts path path []
  | target_query path query :
      "?"%byte ∉ path → (length query < 4096)%nat →
      target_parts (path ++ "?"%byte :: query) path query.

Definition parse_target (target path query : list byte) : Prop :=
  ∃ raw, target_parts target raw query ∧ (length raw < 4096)%nat ∧
    head raw = Some "/"%byte ∧ pct_decode raw = Some path.

(** ** Requests *)
Record request := Request {
  rq_method : list byte;
  rq_path : list byte;
  rq_query : list byte;
  rq_version : list byte;
  rq_fields : list field
}.

(** The request line of [s] is well formed and has these parts. *)
Definition request_front (s method path query version : list byte) : Prop :=
  ∃ target, request_line s method target version ∧
    (version = lit "HTTP/1.1" ∨ version = lit "HTTP/1.0") ∧
    parse_target target path query.

(** What the parser makes of the message [s]: a request line it rejects, or
    the result of reading the header lines, up to [rest]. *)
Inductive parse_outcome (cfg : server_config_t) (s : list byte) :
    Z → request → list byte → Prop :=
  | outcome_bad_front rq rest :
      (∀ m p q v, ¬ request_front s m p q v) →
      parse_outcome cfg s HTTP_PARSE_BAD_REQUEST rq rest
  | outcome_fields m p q v fs code i rest :
      request_front s m p q v → find_sub CRLF s = Some i →
      parse_fields cfg 0 (drop (i + 2) s) fs code rest →
      parse_outcome cfg s code (Request m p q v fs) rest.

(** [s] is the message of request [rq], its header block ending at [rest]. *)
Definition parse_request (cfg : server_config_t) (s : list byte) (rq : request)
    (rest : list byte) : Prop :=
  parse_outcome cfg s HTTP_PARSE_OK rq rest.

(** ** The grammar is deterministic *)
Lemma parse_fields_det cfg k s fs c rest fs' c' rest' :
  parse_fields cfg k s fs c rest → parse_fields cfg k s fs' c' rest' →
  fs = fs' ∧ c = c' ∧ rest = rest'.
Proof.
  intros H. revert fs' c' rest'.
  induction H; intros fs' c' rest' H'; inversion H'; simplify_eq;
    try done; try lia; try (split_and!; congruence).
  match goal with
  | IH : ∀ _ _ _, parse_fields _ _ _ _ _ _ → _,
    Hp : parse_fields _ (S _) _ _ c' _ |- _ => apply IH in Hp as (-> & -> & ->)
  end.
  split_and!; congruence.
Qed.

Lemma parse_field_code cfg line code :
  parse_field cfg line = inl code →
  code = HTTP_PARSE_BAD_REQUEST ∨ code = HTTP_PARSE_HEADERS_TOO_LARGE.
Proof. unfold parse_field. repeat case_match; naive_solver. Qed.

Lemma parse_fields_code cfg k s fs c rest :
  parse_fields cfg k s fs c rest →
  c = HTTP_PARSE_OK ∨ c = HTTP_PARSE_BAD_REQUEST ∨ c = HTTP_PARSE_HEADERS_TOO_LARGE.
Proof. induction 1; eauto using parse_field_code. Qed.
