(* ===== verification/HttpParseProofs.v ===== *)
(** * The parser implements the request grammar

    Each function of [HttpParse] is related to its counterpart of
    [HttpGrammar]: it returns (no access outside an object, no exhausted
    fuel), and with the value the grammar gives. *)
From S2P Require Import Prelude.
From S2P Require Import CLib.
From S2P Require Import Config.
From S2P Require Import HttpParse.
From S2P Require Import HttpGrammar.

(** ** Characters *)
Lemma http_is_tchar_spec b : http_is_tchar b = bool_decide (tchar b).
Proof. byte_cases b. Qed.

Lemma http_hex_value_spec b : http_hex_value b = default (-1) (hex_val b).
Proof. byte_cases b. Qed.

Lemma hex_val_range b v : hex_val b = Some v → 0 <= v < 16.
Proof.
  intros Hv. assert (0 <= default 0 (hex_val b) < 16) as H by (clear; byte_cases b).
  by rewrite Hv in H.
Qed.

Lemma is_ows_spec b : is_ows b = bool_decide (ows b).
Proof. byte_cases b. Qed.

Lemma tchar_not_ows b : tchar b → ¬ ows b.
Proof. byte_cases b. Qed.
Lemma tchar_not_colon b : tchar b → b ≠ ":"%byte.
Proof. byte_cases b. Qed.
Lemma tchar_not_ctl b : tchar b → b ≠ NUL ∧ b ≠ CR ∧ b ≠ SP.
Proof. byte_cases b. Qed.
Lemma path_octet_spec b :
  ((uchar b =? 0) || (uchar b <? 32) || (uchar b =? 127)) = bool_decide (¬ path_octet b).
Proof. byte_cases b. Qed.
Lemma field_octet_spec b :
  ((uchar b <? 32) && bool_decide (b ≠ HTAB)) || (uchar b =? 127)
  = bool_decide (¬ field_octet b).
Proof. byte_cases b. Qed.
Lemma path_octet_not_NUL b : path_octet b → b ≠ NUL.
Proof. byte_cases b. Qed.

Lemma tchar_forall (P : byte → Prop) s :
  (∀ b, tchar b → P b) → token s → Forall P s.
Proof. intros HP [_ Hs]. eapply Forall_impl; eauto. Qed.

Lemma Forall_not_elem (c : byte) s (P : byte → Prop) : Forall P s → ¬ P c → c ∉ s.
Proof. rewrite Forall_forall. intros H Hc Hin. by apply Hc, H. Qed.

(** ** Windows on the buffer

    The loops of the parser work on windows [take n (drop p s)] of the string
    [s] the buffer holds. *)
Lemma window_cons (s : list byte) p n b :
  s !! p = Some b → take (S n) (drop p s) = b :: take n (drop (p + 1) s).
Proof. intros Hb. rewrite (drop_S _ _ _ Hb). simpl. by rewrite Nat.add_1_r. Qed.

Lemma window_snoc (s : list byte) p n b :
  s !! (p + n)%nat = Some b → take (S n) (drop p s) = take n (drop p s) ++ [b].
Proof. intros Hb. apply take_S_r. by rewrite lookup_drop. Qed.

Section windows.
Context (o s : list byte) (Ho : cstr_of o = Some s).

Lemma http_valid_header_name_loop_spec p n :
  (p + n ≤ length s)%nat →
  http_valid_header_name_loop n o p ⇓ bool_decide (Forall tchar (take n (drop p s))).
Proof using Ho.
  revert p. induction n as [|n IH]; intros p Hp; simpl; [done|].
  destruct (rd_at o s Ho p) as (b & Hb & Hrd & _); [lia|].
  rewrite Hrd, bind_ret_l, http_is_tchar_spec, (window_cons _ _ _ _ Hb).
  rewrite <- (bool_decide_ext _ _ (symmetry (Forall_cons _ _ _))).
  destruct (decide (tchar b)) as [Ht|Ht].
  - rewrite (bool_decide_true (tchar b)), IH by (done || lia). simpl.
    f_equal. apply bool_decide_ext. tauto.
  - rewrite (bool_decide_false (tchar b)) by done. simpl.
    unfold mret, outcome_ret. f_equal. symmetry. apply bool_decide_false. tauto.
Qed.

Lemma http_valid_header_name_spec p n :
  (p + n ≤ length s)%nat →
  http_valid_header_name o p n ⇓ bool_decide (token (take n (drop p s))).
Proof using Ho.
  intros Hp. unfold http_valid_header_name. case_decide as Hn.
  - subst n. done.
  - rewrite http_valid_header_name_loop_spec by done. f_equal.
    apply bool_decide_ext. unfold token. split; [|tauto]. intros H. split; [|done].
    intros Hnil%(f_equal length). rewrite length_take, length_drop in Hnil. simpl in *. lia.
Qed.

Lemma http_valid_header_value_spec p n :
  (p + n ≤ length s)%nat →
  http_valid_header_value o p n ⇓ bool_decide (Forall field_octet (take n (drop p s))).
Proof using Ho.
  revert p. induction n as [|n IH]; intros p Hp; simpl; [done|].
  destruct (rd_at o s Ho p) as (b & Hb & Hrd & _); [lia|].
  rewrite Hrd, bind_ret_l, (window_cons _ _ _ _ Hb), IH by lia.
  pose proof (field_octet_spec b) as Hf.
  destruct (decide (field_octet b)) as [Hb'|Hb'].
  - rewrite (bool_decide_false (¬ field_octet b)) in Hf by tauto. apply orb_false_iff in Hf as [-> ->].
    f_equal. apply bool_decide_ext. rewrite Forall_cons. tauto.
  - rewrite (bool_decide_true (¬ field_octet b)) in Hf by done.
    rewrite (bool_decide_false (Forall _ (_ :: _))) by (rewrite Forall_cons; tauto).
    apply orb_true_iff in Hf as [->| ->]; [done|]. by destruct (_ && _).
Qed.

Lemma skip_ows_spec p n :
  (p + n ≤ length s)%nat →
  ∃ m, skip_ows n o p ⇓ (p + m)%nat ∧ (m ≤ n)%nat ∧
       ltrim (take n (drop p s)) = take (n - m) (drop (p + m) s).
Proof using Ho.
  revert p. induction n as [|n IH]; intros p Hp; simpl.
  { exists 0%nat. by rewrite Nat.add_0_r. }
  destruct (rd_at o s Ho p) as (b & Hb & Hrd & _); [lia|].
  rewrite Hrd, bind_ret_l, is_ows_spec, (drop_S _ _ _ Hb). simpl.
  destruct (decide (ows b)) as [Hw|Hw].
  - rewrite bool_decide_true by done.
    destruct (IH (p + 1)%nat) as (m & Hm & Hle & Heq); [lia|].
    exists (S m). replace (S p) with (p + 1)%nat by lia. rewrite Hm, Heq.
    split_and!; [f_equal; lia | lia | do 2 f_equal; lia].
  - rewrite bool_decide_false by done. exists 0%nat.
    rewrite Nat.add_0_r, Nat.sub_0_r, (drop_S _ _ _ Hb). by split_and!; [|lia|].
Qed.

Lemma rtrim_snoc w b : rtrim (w ++ [b]) = if decide (ows b) then rtrim w else w ++ [b].
Proof.
  unfold rtrim. rewrite rev_unit. simpl. case_decide; [done|].
  simpl. by rewrite rev_involutive.
Qed.

Lemma trim_ows_spec p n :
  (p + n ≤ length s)%nat →
  ∃ m, trim_ows o p n ⇓ m ∧ (m ≤ n)%nat ∧
       rtrim (take n (drop p s)) = take m (drop p s).
Proof using Ho.
  induction n as [|n IH]; intros Hp; simpl.
  { by exists 0%nat. }
  destruct (rd_at o s Ho (p + n)) as (b & Hb & Hrd & _); [lia|].
  rewrite Hrd, bind_ret_l, is_ows_spec, (window_snoc _ _ _ _ Hb), rtrim_snoc.
  destruct (decide (ows b)) as [Hw|Hw].
  - rewrite bool_decide_true by done.
    destruct IH as (m & Hm & Hle & Heq); [lia|]. exists m. by split_and!; [|lia|].
  - rewrite bool_decide_false by done. exists (S n).
    split_and!; [done|lia|]. by rewrite (window_snoc _ _ _ _ Hb).
Qed.
End windows.

(** ** Requests in memory *)
Definition wf_header (h : http_header_t) : Prop :=
  length (hdr_name h) = 128%nat ∧ length (hdr_value h) = 4096%nat.

(** The arrays have their declared sizes. *)
Record wf_request (r : http_request_t) : Prop := {
  wf_method : length (req_method r) = 16%nat;
  wf_path : length (req_path r) = 4096%nat;
  wf_query : length (req_query r) = 4096%nat;
  wf_version : length (req_version r) = 16%nat;
  wf_headers : length (req_headers r) = 64%nat;
  wf_each : Forall wf_header (req_headers r)
}.

(** The limits the server accepts at run time fit the arrays. *)
Record limits_ok (cfg : server_config_t) : Prop := {
  lim_headers : 0 < http_max_headers cfg <= HTTP_MAX_HEADERS;
  lim_name : 0 < http_header_name_max cfg <= HTTP_HEADER_NAME_MAX;
  lim_value : 0 < http_header_value_max cfg <= HTTP_HEADER_VALUE_MAX
}.

Definition field_stored (h : http_header_t) (f : field) : Prop :=
  cstr_of (hdr_name h) = Some f.1 ∧ cstr_of (hdr_value h) = Some f.2.

(** The first [header_count] slots hold the fields [fs]. *)
Definition fields_stored (r : http_request_t) (fs : list field) : Prop :=
  req_header_count r = Z.of_nat (length fs) ∧
  Forall2 field_stored (take (length fs) (req_headers r)) fs.

(** Everything but the headers is unchanged. *)
Definition same_front (r r' : http_request_t) : Prop :=
  req_method r' = req_method r ∧ req_path r' = req_path r ∧
  req_query r' = req_query r ∧ req_version r' = req_version r.

#[export] Instance same_front_preorder : PreOrder same_front.
Proof. split; unfold same_front; repeat intro; naive_solver congruence. Qed.

Lemma wf_put_slot r i h : wf_request r → wf_header h → wf_request (put_slot r i h).
Proof.
  intros [] Hh. constructor; simpl; rewrite ?length_insert; try done.
  by apply Forall_insert.
Qed.

Lemma fields_stored_put_slot r fs h :
  fields_stored r fs → fields_stored (put_slot r (length fs) h) fs.
Proof.
  intros [Hn Hf]. split; [done|]. unfold put_slot. simpl.
  by rewrite take_insert_ge by lia.
Qed.

Lemma fields_stored_snoc r fs h f :
  (length fs < length (req_headers r))%nat → fields_stored r fs → field_stored h f →
  fields_stored (set_header_count (Z.of_nat (length fs) + 1) (put_slot r (length fs) h)) (fs ++ [f]).
Proof.
  intros Hlt [Hn Hf] Hh. unfold fields_stored, put_slot. simpl. rewrite length_app. simpl.
  split; [lia|]. rewrite Nat.add_1_r.
  rewrite (take_S_r _ _ h) by (by apply list_lookup_insert_eq).
  rewrite take_insert_ge by lia. apply Forall2_app; [done|]. by constructor.
Qed.

Lemma put_slot_twice r i h h' : put_slot (put_slot r i h) i h' = put_slot r i h'.
Proof. unfold put_slot, set_headers. simpl. by rewrite list_insert_insert_eq. Qed.

Lemma header_at_wf r i :
  wf_request r → (i < 64)%nat → ∃ h, header_at r i ⇓ h ∧ wf_header h.
Proof.
  intros Hr Hi. unfold header_at. rewrite <- (wf_headers r Hr) in Hi.
  apply lookup_lt_is_Some in Hi as [h Hh]. exists h. rewrite Hh. split; [done|].
  pose proof (wf_each r Hr) as Hall. rewrite Forall_lookup in Hall. eauto.
Qed.

(** ** Header lines *)
Lemma find_sub_crlf_bound s i : find_sub CRLF s = Some i → (i + 2 ≤ length s)%nat.
Proof.
  intros H. pose proof (find_sub_split _ _ _ H) as Heq.
  apply (f_equal length) in Heq. apply find_sub_Some in H as (_ & Hi & _).
  rewrite !length_app, length_take, length_drop in Heq. simpl in Heq. lia.
Qed.

Lemma find_byte_bound c w j : find_byte c w = Some j → (j < length w)%nat.
Proof. intros (k & r & -> & <- & _)%find_byte_Some. rewrite length_app. simpl. lia. Qed.

Lemma window_window (s : list byte) p n j m :
  take m (drop j (take n (drop p s))) = take (m `min` (n - j)) (drop (p + j) s).
Proof. by rewrite skipn_firstn_comm, drop_drop, take_take. Qed.

Section header_line.
Context (buffer s : list byte) (Hs : cstr_of buffer = Some s).
Context (cfg : server_config_t) (Hcfg : limits_ok cfg).

(** The value of a field: the two trimming loops find the trimmed window. *)
Lemma field_value_scan p n :
  (p + n ≤ length s)%nat →
  ∃ vs m, skip_ows n buffer p ⇓ vs ∧ trim_ows buffer vs (p + n - vs) ⇓ m ∧
          (vs + m ≤ length s)%nat ∧ trim (take n (drop p s)) = take m (drop vs s).
Proof using Hs.
  intros Hp. destruct (skip_ows_spec buffer s Hs p n Hp) as (a & Ha & Hle & Hl).
  destruct (trim_ows_spec buffer s Hs (p + a) (n - a)) as (m & Hm & Hle' & Hr); [lia|].
  exists (p + a)%nat, m. replace (p + n - (p + a))%nat with (n - a)%nat by lia.
  unfold trim. rewrite Hl, Hr. by split_and!; [| |lia|].
Qed.

(** A name whose last byte is whitespace is not a token. *)
Lemma last_ows_not_token p j b :
  s !! (p + (j - 1))%nat = Some b → (0 < j)%nat → ows b → ¬ token (take j (drop p s)).
Proof using Type.
  intros Hb Hj Hw [_ Ht]. rewrite Forall_lookup in Ht.
  apply (tchar_not_ows b); [|done]. apply (Ht (j - 1)%nat).
  rewrite lookup_take_lt by lia. by rewrite lookup_drop.
Qed.

(** What one iteration leaves, given the outcome of the grammar on the line. *)
Definition line_result (p : nat) (r : http_request_t) (fs : list field)
    (res : http_request_t * (Z + nat)) : Prop :=
  wf_request res.1 ∧ same_front r res.1 ∧
  match res.2 with
  | inl code =>
    fields_stored res.1 fs ∧
    (∃ i, find_sub CRLF (drop p s) = Some i ∧
          parse_field cfg (take i (drop p s)) = inl code)
  | inr p' => ∃ i f, find_sub CRLF (drop p s) = Some i ∧ p' = (p + i + 2)%nat ∧
      parse_field cfg (take i (drop p s)) = inr f ∧ fields_stored res.1 (fs ++ [f])
  end.

Lemma line_result_bad p r fs i code :
  wf_request r → fields_stored r fs → find_sub CRLF (drop p s) = Some i →
  parse_field cfg (take i (drop p s)) = inl code →
  line_result p r fs (r, inl code).
Proof using Type. intros ????. split; [done|]. split; [reflexivity|]. simpl. eauto. Qed.

Lemma line_result_bad_slot p r fs i code h :
  wf_request r → fields_stored r fs → find_sub CRLF (drop p s) = Some i →
  wf_header h → parse_field cfg (take i (drop p s)) = inl code →
  line_result p r fs (put_slot r (length fs) h, inl code).
Proof using Type.
  intros. split; [by apply wf_put_slot|]. split; [done|]. simpl.
  split; [by apply fields_stored_put_slot|eauto].
Qed.

Lemma line_result_ok p r fs i f h :
  wf_request r → fields_stored r fs → find_sub CRLF (drop p s) = Some i →
  (length fs < 64)%nat → wf_header h → field_stored h f →
  parse_field cfg (take i (drop p s)) = inr f →
  line_result p r fs
    (set_header_count (size_add (Z.of_nat (length fs)) 1) (put_slot r (length fs) h),
     inr (p + i + 2)%nat).
Proof using Type.
  intros Hr Hfs Hi Hlt Hh Hhf Hpf. rewrite size_add_small by lia.
  split; [destruct (wf_put_slot r (length fs) h Hr Hh); by constructor|]. split; [done|].
  exists i, f. split_and!; try done. simpl.
  apply fields_stored_snoc; try done. by rewrite (wf_headers _ Hr).
Qed.

(** The value part of an iteration, after the name is stored. *)
Lemma header_value_spec p i j r fs :
  wf_request r → fields_stored r fs → (p + i + 2 ≤ length s)%nat →
  (length fs < 64)%nat → find_sub CRLF (drop p s) = Some i →
  find_byte ":" (take i (drop p s)) = Some j →
  token (take j (drop p s)) →
  Z.of_nat j < http_header_name_max cfg →
  (∀ h, wf_header h → cstr_of (hdr_name h) = Some (take j (drop p s)) →
    returns (
      value_start ← skip_ows (p + i - (p + j + 1)) buffer (p + j + 1);
      value_length ← trim_ows buffer value_start (p + i - value_start);
      value_ok ← http_valid_header_value buffer value_start value_length;
      let request := put_slot r (length fs) h in
      if negb value_ok then mret (request, inl HTTP_PARSE_BAD_REQUEST) else
      if http_header_value_max cfg <=? Z.of_nat value_length
      then mret (request, inl HTTP_PARSE_HEADERS_TOO_LARGE) else
      value ← store_string (hdr_value h) buffer value_start value_length;
      let request := put_slot request (length fs) (HttpHeader (hdr_name h) value) in
      mret (set_header_count (size_add (Z.of_nat (length fs)) 1) request,
            inr (p + i + 2)%nat))
    (line_result p r fs)).
Proof using Hs Hcfg.
  intros Hr Hfs Hp Hlt Hi Hj Ht Hjn h [Hwn Hwv] Hname.
  set (w := take i (drop p s)) in *.
  assert (length w = i) as Hw by (unfold w; rewrite length_take, length_drop; lia).
  pose proof (find_byte_bound _ _ _ Hj) as Hji.
  destruct (field_value_scan (p + j + 1) (i - S j)) as (vs & m & Hsk & Htr & Hvm & Hv); [lia|].
  replace (p + i - (p + j + 1))%nat with (i - S j)%nat by lia.
  rewrite Hsk, bind_ret_l.
  replace (p + j + 1 + (i - S j) - vs)%nat with (p + i - vs)%nat in Htr by lia.
  rewrite Htr, bind_ret_l, (http_valid_header_value_spec buffer s Hs), bind_ret_l by lia.
  rewrite <- Hv.
  assert (drop (S j) w = take (i - S j) (drop (p + j + 1) s)) as Hdw.
  { unfold w. rewrite skipn_firstn_comm, drop_drop. do 2 f_equal. lia. }
  rewrite <- Hdw in *.
  assert (length (trim (drop (S j) w)) = m) as Hlen
    by (rewrite Hv, length_take, length_drop; lia).
  assert (take j w = take j (drop p s)) as Hnw by (unfold w; rewrite take_take; f_equal; lia).
  assert (length (take j w) = j) as Hln by (rewrite length_take; lia).
  assert (NUL ∉ s) as Hnul by eauto using cstr_of_no_nul.
  pose proof (lim_value _ Hcfg) as [_ Hcv]. change HTTP_HEADER_VALUE_MAX with 4096 in Hcv.
  assert (parse_field cfg w =
    if decide (¬ Forall field_octet (trim (drop (S j) w))) then inl HTTP_PARSE_BAD_REQUEST
    else if http_header_value_max cfg <=? Z.of_nat m then inl HTTP_PARSE_HEADERS_TOO_LARGE
    else inr (take j w, trim (drop (S j) w))) as Hpf.
  { unfold parse_field. rewrite Hj, Hln, Hlen, Hnw, decide_False by tauto.
    by rewrite (proj2 (Z.leb_gt _ _)) by done. }
  simpl. case_bool_decide as Hfo; simpl.
  2:{ apply line_result_bad_slot with i; try done. fold w. by rewrite Hpf, decide_True. }
  rewrite decide_False in Hpf by tauto.
  destruct (_ <=? _) eqn:Hvl.
  { by apply line_result_bad_slot with i. }
  apply Z.leb_gt in Hvl. rewrite (store_string_at _ _ s) by (done || lia).
  rewrite <- Hv, bind_ret_l, put_slot_twice. apply line_result_ok with (take j w, trim (drop (S j) w)); try done.
  - split; simpl; [done|]. rewrite length_put_string; lia.
  - split; simpl; [by rewrite Hnw|]. apply cstr_put_string. rewrite Hv. auto with cdb.
Qed.

Lemma http_parse_header_field_spec p i j r fs :
  wf_request r → fields_stored r fs → (p + i + 2 ≤ length s)%nat →
  (length fs < 64)%nat → find_sub CRLF (drop p s) = Some i →
  find_byte ":" (take i (drop p s)) = Some j →
  returns (http_parse_header_field buffer p (p + i) (p + j) r cfg) (line_result p r fs).
Proof using Hs Hcfg.
  intros Hr Hfs Hp Hlt Hi Hj. unfold http_parse_header_field.
  pose proof (find_byte_bound _ _ _ Hj) as Hji. rewrite length_take, length_drop in Hji.
  replace (p + j - p)%nat with j by lia.
  assert (take j (take i (drop p s)) = take j (drop p s)) as Hnw
    by (rewrite take_take; f_equal; lia).
  assert (length (take j (drop p s)) = j) as Hln by (rewrite length_take, length_drop; lia).
  assert (¬ token (take j (drop p s)) →
          parse_field cfg (take i (drop p s)) = inl HTTP_PARSE_BAD_REQUEST) as Hbad.
  { intros Ht. unfold parse_field. by rewrite Hj, Hnw, decide_True. }
  case_decide as Hj0.
  { apply line_result_bad with i; try done. apply Hbad. subst j. by intros []. }
  destruct (rd_at buffer s Hs (p + (j - 1))) as (b & Hb & Hrd & _); [lia|].
  rewrite Hrd, bind_ret_l, is_ows_spec. case_bool_decide as Hw.
  { apply line_result_bad with i; try done. apply Hbad.
    eapply last_ows_not_token; eauto. lia. }
  rewrite (http_valid_header_name_spec buffer s Hs), bind_ret_l by lia.
  case_bool_decide as Ht; simpl.
  2:{ apply line_result_bad with i; try done. by apply Hbad. }
  destruct (_ <=? _) eqn:Hnl.
  { apply line_result_bad with i; try done. unfold parse_field.
    rewrite Hj, Hnw, Hln, Hnl, decide_False by tauto. done. }
  apply Z.leb_gt in Hnl. rewrite (proj1 Hfs), Nat2Z.id.
  destruct (header_at_wf r (length fs) Hr) as (h & Hh & Hwn & Hwv); [lia|].
  pose proof (lim_name _ Hcfg) as [_ Hcn]. change HTTP_HEADER_NAME_MAX with 128 in Hcn.
  rewrite Hh, bind_ret_l, (store_string_at _ _ s), bind_ret_l by (done || lia).
  apply (header_value_spec p i j r fs) with
    (h := HttpHeader (put_string (hdr_name h) (take j (drop p s))) (hdr_value h)); try done.
  - split; simpl; [rewrite length_put_string|]; lia.
  - apply cstr_put_string. eauto using cstr_of_no_nul with cdb.
Qed.

Lemma http_parse_header_line_spec p r fs :
  wf_request r → fields_stored r fs → (p ≤ length s)%nat →
  returns (http_parse_header_line buffer p r cfg) (λ res,
    (http_max_headers cfg <= Z.of_nat (length fs) ∧ res = (r, inl HTTP_PARSE_HEADERS_TOO_LARGE)) ∨
    (Z.of_nat (length fs) < http_max_headers cfg ∧
     ((find_sub CRLF (drop p s) = None ∧ res = (r, inl HTTP_PARSE_BAD_REQUEST)) ∨
      line_result p r fs res))).
Proof using Hs Hcfg.
  intros Hr Hfs Hp. unfold http_parse_header_line. rewrite (proj1 Hfs).
  destruct (_ <=? _) eqn:Hmax; [apply Z.leb_le in Hmax; by left|apply Z.leb_gt in Hmax].
  rewrite (c_strstr_at buffer s Hs), bind_ret_l by done.
  destruct (find_sub CRLF (drop p s)) as [i|] eqn:Hi; simpl; [|tauto].
  pose proof (find_sub_crlf_bound _ _ Hi) as Hib. rewrite length_drop in Hib.
  rewrite (c_memchr_at buffer s Hs), bind_ret_l by lia.
  replace (p + i - p)%nat with i by lia.
  pose proof (lim_headers _ Hcfg) as [_ Hc]. change HTTP_MAX_HEADERS with 64 in Hc.
  destruct (find_byte ":" _) as [j|] eqn:Hj; simpl.
  - eapply returns_mono; [apply (http_parse_header_field_spec p i j r fs)|]; try done; try lia.
    tauto.
  - right. split; [done|]. right. apply line_result_bad with i; try done.
    unfold parse_field. by rewrite Hj.
Qed.

Lemma at_crlf_spec p :
  (p ≤ length s)%nat → at_crlf buffer p ⇓ bool_decide (CRLF `prefix_of` drop p s).
Proof using Hs.
  intros Hp. unfold at_crlf.
  destruct (decide (p = length s)) as [->|Hne].
  { rewrite (rd_end buffer s Hs), bind_ret_l, drop_all. done. }
  destruct (rd_at buffer s Hs p) as (b & Hb & Hrd & _); [lia|].
  rewrite Hrd, bind_ret_l, (drop_S _ _ _ Hb). case_decide as Hcr; [|subst b].
  { rewrite bool_decide_false; [done|]. intros H%prefix_cons_inv_1. done. }
  destruct (decide (S p = length s)) as [Heq|Hne'].
  { replace (p + 1)%nat with (length s) by lia.
    rewrite (rd_end buffer s Hs), Heq, drop_all. done. }
  destruct (rd_at buffer s Hs (S p)) as (b & Hb' & Hrd' & _); [lia|].
  rewrite Nat.add_1_r, Hrd', bind_ret_l, (drop_S _ _ _ Hb').
  f_equal. apply bool_decide_ext. split.
  - intros ->. apply prefix_cons, prefix_cons, prefix_nil.
  - intros H%prefix_cons_inv_2%prefix_cons_inv_1. done.
Qed.

Lemma http_parse_headers_loop_spec fuel p r fs :
  wf_request r → fields_stored r fs → (p ≤ length s)%nat → (length s < p + fuel)%nat →
  returns (http_parse_headers_loop fuel buffer p r cfg) (λ '(code, r', e),
    ∃ fs', wf_request r' ∧ same_front r r' ∧ fields_stored r' (fs ++ fs') ∧
      (p ≤ e ≤ length s)%nat ∧
      parse_fields cfg (length fs) (drop p s) fs' code (drop e s)).
Proof using Hs Hcfg.
  revert p r fs. induction fuel as [|fuel IH]; intros p r fs Hr Hfs Hp Hfuel; [lia|].
  simpl. rewrite at_crlf_spec, bind_ret_l by done. case_bool_decide as Hcr.
  { exists []. rewrite app_nil_r. split_and!; try done; by constructor. }
  apply returns_bind. eapply returns_mono; [by apply (http_parse_header_line_spec p r fs)|].
  intros [r1 next] [[Hmax [= -> ->]]|[Hmax [[Hi [= -> ->]]|(Hr1 & Hsf & Hres)]]].
  - exists []. rewrite app_nil_r. split_and!; try done. by apply fields_too_many.
  - exists []. rewrite app_nil_r. split_and!; try done. by apply fields_no_line.
  - destruct next as [code|p1]; simpl in *.
    + destruct Hres as (Hfs1 & i & Hi & Hpf). exists []. rewrite app_nil_r.
      split_and!; try done. by eapply fields_bad_line.
    + destruct Hres as (i & f & Hi & -> & Hpf & Hfs1).
      pose proof (find_sub_crlf_bound _ _ Hi) as Hib. rewrite length_drop in Hib.
      eapply returns_mono; [apply (IH _ _ (fs ++ [f])); try done; lia|].
      intros [[code r'] e] (fs' & Hr' & Hsf' & Hfs' & He & Hpfs).
      exists (f :: fs'). rewrite <- app_assoc in Hfs'.
      split_and!; try done; [by etrans|lia|lia|].
      eapply fields_line; try done. rewrite length_app, Nat.add_1_r in Hpfs.
      rewrite drop_drop. by replace (p + (i + 2))%nat with (p + i + 2)%nat by lia.
Qed.
End header_line.

(** ** Path decoding *)
Lemma nibbles h l : 0 <= h < 16 → 0 <= l < 16 → Z.lor (Z.shiftl h 4) l = 16 * h + l.
Proof.
  intros Hh Hl.
  assert (Forall (λ h, Forall (λ l, Z.lor (Z.shiftl h 4) l = 16 * h + l) (seqZ 0 16)) (seqZ 0 16))
    as H by decide_now.
  rewrite Forall_forall in H. specialize (H h ltac:(apply elem_of_seqZ; lia)).
  rewrite Forall_forall in H. apply H, elem_of_seqZ. lia.
Qed.

Lemma hex_value_neg b : (http_hex_value b <? 0) = bool_decide (hex_val b = None).
Proof. byte_cases b. Qed.

Section decode.
Context (encoded s : list byte) (Hs : cstr_of encoded = Some s).

Lemma rd_default i : (i ≤ length s)%nat → rd encoded i ⇓ default NUL (s !! i).
Proof using Hs.
  intros Hi. destruct (decide (i = length s)) as [->|Hne].
  - by rewrite (rd_end encoded s Hs), lookup_ge_None_2.
  - destruct (rd_at encoded s Hs i) as (b & -> & -> & _); [lia|]. done.
Qed.

Lemma http_decode_octet_spec src c :
  s !! src = Some c →
  returns (http_decode_octet encoded src c) (λ step,
    match step with
    | None => pct_decode (drop src s) = None
    | Some (v, src') => (src < src' ≤ length s)%nat ∧
        pct_decode (drop src s) =
          if decide (path_octet v) then cons v <$> pct_decode (drop src' s) else None
    end).
Proof using Hs.
  intros Hc. pose proof (lookup_lt_Some _ _ _ Hc) as Hlt.
  pose proof (cstr_of_no_nul _ _ Hs) as Hnul.
  rewrite (drop_S _ _ _ Hc). unfold http_decode_octet. simpl pct_decode.
  case_decide as Hpc; [|simpl; by rewrite Nat.add_1_r; split; [lia|]].
  rewrite (rd_default (src + 1)), bind_ret_l by lia.
  destruct (s !! (src + 1)%nat) as [h|] eqn:Eh; simpl.
  2:{ rewrite drop_ge; [done|]. apply lookup_ge_None in Eh. lia. }
  rewrite Nat.add_1_r in Eh. rewrite (drop_S _ _ _ Eh).
  pose proof (lookup_lt_Some _ _ _ Eh).
  rewrite decide_False by (intros ->; by apply Hnul, (list_elem_of_lookup_2 _ (S src))).
  rewrite (rd_default (src + 2)), bind_ret_l by lia.
  destruct (s !! (src + 2)%nat) as [l|] eqn:El; simpl.
  2:{ rewrite drop_ge; [done|]. apply lookup_ge_None in El. lia. }
  pose proof (lookup_lt_Some _ _ _ El).
  replace (src + 2)%nat with (S (S src)) in El by lia. rewrite (drop_S _ _ _ El).
  rewrite decide_False by (intros ->; by apply Hnul, (list_elem_of_lookup_2 _ (S (S src)))).
  rewrite !hex_value_neg, !http_hex_value_spec.
  destruct (hex_val h) as [hv|] eqn:Ehv; simpl; [|done].
  destruct (hex_val l) as [lv|] eqn:Elv; simpl; [|done].
  rewrite nibbles by eauto using hex_val_range.
  split; [lia|]. by replace (src + 3)%nat with (S (S (S src))) by lia.
Qed.

(** The string the loop adds to the [dst] bytes already decoded, if it fits. *)
Definition decoded_fits (dst : nat) (size : Z) (rest : option (list byte)) : option (list byte) :=
  d ← rest; if decide (Z.of_nat (dst + length d) < size) then Some d else None.

Lemma pct_decode_cons c s' d : pct_decode (c :: s') = Some d → (0 < length d)%nat.
Proof using Type.
  simpl. repeat case_match; try done; intros (? & _ & ->)%fmap_Some; simpl; lia.
Qed.

Lemma decoded_fits_cons_None dst size c s' :
  size <= Z.of_nat dst + 1 → decoded_fits dst size (pct_decode (c :: s')) = None.
Proof using Type.
  intros Hd. destruct (pct_decode (c :: s')) as [d|] eqn:E; [|done].
  apply pct_decode_cons in E. unfold decoded_fits. simpl. rewrite decide_False; [done|lia].
Qed.

Lemma decoded_fits_cons dst size v o :
  decoded_fits dst size (cons v <$> o) = cons v <$> decoded_fits (dst + 1) size o.
Proof using Type.
  destruct o as [d|]; [|done]. unfold decoded_fits. simpl.
  replace (dst + S (length d))%nat with (dst + 1 + length d)%nat by lia.
  by case_decide.
Qed.

Lemma http_decode_path_loop_spec fuel src dst decoded size :
  (src ≤ length s)%nat → (length s < src + fuel)%nat →
  Z.of_nat (length decoded) = size → size < 2 ^ 64 → Z.of_nat dst < size →
  NUL ∉ take dst decoded →
  returns (http_decode_path_loop fuel encoded src dst decoded size) (λ '(r, d'),
    length d' = length decoded ∧
    match decoded_fits dst size (pct_decode (drop src s)) with
    | Some d => r = 0 ∧ cstr_of d' = Some (take dst decoded ++ d)
    | None => r = -1
    end).
Proof using Hs.
  revert src dst decoded. induction fuel as [|fuel IH];
    intros src dst decoded Hsrc Hfuel Hsize H64 Hdst Hn; [lia|]. simpl.
  rewrite rd_default, bind_ret_l by done.
  destruct (s !! src) as [c|] eqn:Hc; simpl.
  2:{ apply lookup_ge_None in Hc. rewrite drop_ge by done.
      rewrite wr_ok by lia. rewrite bind_ret_l. simpl. unfold decoded_fits.
      rewrite length_insert. simpl. rewrite decide_True by lia.
      split_and!; try done. rewrite app_nil_r, insert_take_drop by lia.
      by apply cstr_of_app. }
  rewrite decide_False.
  2:{ intros ->. by eapply (cstr_of_no_nul _ _ Hs), (list_elem_of_lookup_2 _ src). }
  rewrite size_add_small by lia. pose proof (lookup_lt_Some _ _ _ Hc) as Hlt.
  destruct (size <=? _) eqn:Hfull; [apply Z.leb_le in Hfull|apply Z.leb_gt in Hfull].
  { simpl. split; [done|]. rewrite (drop_S _ _ _ Hc), decoded_fits_cons_None; [done|lia]. }
  apply returns_bind. eapply returns_mono; [by apply http_decode_octet_spec|].
  intros [[v src']|]; [|by intros ->]. intros [Hsrc' ->].
  rewrite path_octet_spec. case_decide as Hv.
  2:{ by rewrite bool_decide_true. }
  rewrite bool_decide_false by tauto. rewrite wr_ok, bind_ret_l by lia.
  eapply returns_mono; [apply IH; rewrite ?length_insert; try lia|].
  - rewrite Nat.add_1_r, (take_S_r _ _ v) by (by apply list_lookup_insert_eq; lia).
    rewrite take_insert_ge by lia. rewrite not_elem_of_app, list_elem_of_singleton.
    split; [done|]. intros Heq. by eapply path_octet_not_NUL.
  - intros [r d']. rewrite length_insert, decoded_fits_cons. intros [Hl Hd]. split; [done|].
    destruct (decoded_fits (dst + 1) size _); simpl; [|done].
    rewrite Nat.add_1_r, (take_S_r _ _ v) in Hd by (by apply list_lookup_insert_eq; lia).
    rewrite take_insert_ge, <- app_assoc in Hd by lia. done.
Qed.

Lemma http_decode_path_spec decoded size :
  0 < size < 2 ^ 64 → Z.of_nat (length decoded) = size →
  returns (http_decode_path encoded decoded size) (λ '(r, d'),
    length d' = length decoded ∧
    match decoded_fits 0 size (pct_decode s) with
    | Some d => r = 0 ∧ cstr_of d' = Some d
    | None => r = -1
    end).
Proof using Hs.
  intros Hsize Hlen. unfold http_decode_path. rewrite (proj2 (Z.eqb_neq _ _)) by lia.
  pose proof (cstr_of_length _ _ Hs).
  apply (http_decode_path_loop_spec (S (length encoded)) 0 0); try lia. set_solver.
Qed.
End decode.

(** ** Request target *)
(** Everything but the path and the query is unchanged. *)
Definition same_rest (r r' : http_request_t) : Prop :=
  req_method r' = req_method r ∧ req_version r' = req_version r ∧
  req_headers r' = req_headers r ∧ req_header_count r' = req_header_count r.

Lemma wf_set_query o r : length o = 4096%nat → wf_request r → wf_request (set_query o r).
Proof. intros ? []. by constructor. Qed.
Lemma wf_set_path o r : length o = 4096%nat → wf_request r → wf_request (set_path o r).
Proof. intros ? []. by constructor. Qed.
Lemma wf_set_method o r : length o = 16%nat → wf_request r → wf_request (set_method o r).
Proof. intros ? []. by constructor. Qed.
Lemma wf_set_version o r : length o = 16%nat → wf_request r → wf_request (set_version o r).
Proof. intros ? []. by constructor. Qed.
Lemma wf_set_header_count n r : wf_request r → wf_request (set_header_count n r).
Proof. intros []. by constructor. Qed.

Lemma pct_decode_length s d : pct_decode s = Some d → (length d ≤ length s)%nat.
Proof.
  revert d. induction s as [s IH] using (induction_ltof1 _ (@length byte)).
  unfold ltof in IH. intros d Hd.
  destruct s as [|c s]; [by injection Hd as <-|]. simpl in Hd.
  repeat case_match; try done; apply fmap_Some in Hd as (d' & Hd & ->);
    apply IH in Hd; simpl in *; lia.
Qed.

Lemma target_parts_query t q path query :
  find_byte "?" t = Some q → target_parts t path query →
  path = take q t ∧ query = drop (q + 1) t ∧ (length query < 4096)%nat.
Proof.
  intros Hq Ht. destruct Ht as [path Hn|path query Hn Hl].
  - apply find_byte_None in Hn. congruence.
  - rewrite find_byte_app in Hq by done. injection Hq as <-.
    by rewrite take_app_length, drop_app_add.
Qed.

Lemma target_parts_no_query t path query :
  "?"%byte ∉ t → target_parts t path query → path = t ∧ query = [].
Proof. intros Hn Ht. destruct Ht; [done|]. set_solver. Qed.

Section target.
Context (target t : list byte) (Ht : cstr_of target = Some t).
Context (stack : obj) (Hstack : length stack = 4096%nat).

Lemma http_parse_target_split_spec r :
  wf_request r →
  returns (http_parse_target_split stack target r) (λ res,
    match res with
    | None => ∀ raw query, target_parts t raw query →
              raw = [] ∨ (4096 ≤ length raw)%nat
    | Some (path, r') => ∃ raw query,
        target_parts t raw query ∧ (0 < length raw < 4096)%nat ∧
        (∀ raw' query', target_parts t raw' query' → raw' = raw) ∧
        cstr_of path = Some raw ∧ cstr_of (req_query r') = Some query ∧
        wf_request r' ∧ same_rest r r'
    end).
Proof using Ht Hstack.
  intros Hr. unfold http_parse_target_split.
  pose proof (cstr_of_no_nul _ _ Ht) as Hnul.
  rewrite (c_strchr_at target t Ht), drop_0, bind_ret_l by lia.
  destruct (find_byte "?" t) as [q|] eqn:Hq; simpl.
  - pose proof (λ p k, target_parts_query t q p k Hq) as Hparts.
    pose proof (find_byte_bound _ _ _ Hq) as Hqt.
    assert (length (take q t) = q) as Hlq by (rewrite length_take; lia).
    destruct (_ || _) eqn:Hsize; simpl.
    { intros raw query (-> & _)%Hparts. destruct q; [by left|right].
      apply orb_true_iff in Hsize as [H%Z.eqb_eq|H%Z.leb_le]; lia. }
    apply orb_false_iff in Hsize as [Hz%Z.eqb_neq Hlt%Z.leb_gt].
    rewrite (store_string_at _ _ t), bind_ret_l by (done || lia).
    rewrite (c_strlen_at target t Ht), bind_ret_l by lia.
    destruct (_ <=? _) eqn:Hql; [apply Z.leb_le in Hql|apply Z.leb_gt in Hql];
      change HTTP_QUERY_MAX with 4096 in Hql.
    { intros raw query (_ & -> & H)%Hparts. rewrite length_drop in H. lia. }
    pose proof (wf_query _ Hr) as Hwq.
    rewrite (c_memcpy_string_at _ _ t), bind_ret_l by (done || lia).
    exists (take q t), (drop (q + 1) t). rewrite Hlq, drop_0. split_and!; try lia; try done.
    + apply find_byte_Some in Hq as (k & r0 & -> & <- & Hk).
      rewrite take_app_length, drop_app_add. constructor; [done|].
      rewrite drop_app_add, length_app in *. simpl in *. rewrite drop_0 in *. lia.
    + by intros raw' query' (-> & _)%Hparts.
    + apply cstr_put_string. auto with cdb.
    + apply cstr_put_string. auto with cdb.
    + apply wf_set_query; [|done]. rewrite length_put_string; rewrite ?length_drop; lia.
  - apply find_byte_None in Hq.
    pose proof (λ p k, target_parts_no_query t p k Hq) as Hparts.
    rewrite (c_strlen_at target t Ht), Nat.sub_0_r, bind_ret_l by lia.
    destruct (_ || _) eqn:Hsize; simpl.
    { intros raw query (-> & _)%Hparts. destruct t; [by left|right].
      apply orb_true_iff in Hsize as [H%Z.eqb_eq|H%Z.leb_le]; simpl in *; lia. }
    apply orb_false_iff in Hsize as [Hz%Z.eqb_neq Hlt%Z.leb_gt].
    pose proof (wf_query _ Hr) as Hwq.
    pose proof (c_memcpy_string_at stack target t 0 Ht) as Hcpy.
    rewrite Nat.sub_0_r in Hcpy. rewrite Hcpy, bind_ret_l by lia.
    rewrite wr_ok, bind_ret_l by lia.
    exists t, []. rewrite drop_0. split_and!; try lia; try done.
    + by constructor.
    + by intros raw' query' (-> & _)%Hparts.
    + by apply cstr_put_string.
    + rewrite insert_take_drop by lia. done.
    + apply wf_set_query; [by rewrite length_insert|done].
Qed.

Lemma http_parse_target_spec r :
  wf_request r →
  returns (http_parse_target stack target r) (λ '(c, r'),
    wf_request r' ∧ same_rest r r' ∧
    ((c = 0 ∧ ∃ path query, parse_target t path query ∧
        cstr_of (req_path r') = Some path ∧ cstr_of (req_query r') = Some query) ∨
     (c = -1 ∧ ∀ path query, ¬ parse_target t path query))).
Proof using Ht Hstack.
  intros Hr. unfold http_parse_target. apply returns_bind.
  eapply returns_mono; [by apply http_parse_target_split_spec|].
  intros [[path r']|].
  2:{ intros Hno. split_and!; try done. right. split; [done|].
      intros p k (raw & Hp & Hlen & Hh & _). apply Hno in Hp as [->|]; [done|lia]. }
  intros (raw & query & Hp & Hlen & Hdet & Hpath & Hquery & Hr' & Hsr).
  destruct raw as [|c0 raw]; [simpl in Hlen; lia|].
  rewrite (rd_lookup path _ Hpath 0 c0), bind_ret_l by done.
  case_decide as Hc0.
  { split_and!; try done. right. split; [done|].
    intros p k (raw' & Hp' & _ & Hh & _). apply Hdet in Hp' as ->. by injection Hh as ->. }
  subst c0. apply returns_bind.
  eapply returns_mono; [apply (http_decode_path_spec path _ Hpath _ 4096); [lia|]|].
  { by rewrite (wf_path _ Hr'). }
  intros [c d] [Hd Hdec]. simpl.
  split; [apply wf_set_path; [|done]; by rewrite Hd, (wf_path _ Hr')|].
  split; [done|].
  destruct (pct_decode ("/"%byte :: raw)) as [dec|] eqn:E.
  - left. pose proof (pct_decode_length _ _ E).
    unfold decoded_fits in Hdec. simpl mbind in Hdec. rewrite decide_True in Hdec by lia.
    destruct Hdec as [-> Hdec]. split; [done|]. exists dec, query. split_and!; try done.
    exists ("/"%byte :: raw). split_and!; try done; lia.
  - right. simpl in Hdec. split; [done|].
    intros p k (raw' & Hp' & _ & _ & Hpct). apply Hdet in Hp' as ->. congruence.
Qed.
End target.

(** ** Request line *)
Lemma sp_split (l a b : list byte) j :
  find_byte SP l = Some j → l = a ++ SP :: b → SP ∉ a → a = take j l ∧ b = drop (j + 1) l.
Proof.
  intros Hj -> Ha. rewrite find_byte_app in Hj by done. injection Hj as <-.
  by rewrite take_app_length, drop_app_add.
Qed.

(** The three parts of a line with exactly two spaces. *)
Definition three_parts (l m t v : list byte) : Prop :=
  (l = m ++ SP :: t ++ SP :: v) ∧ (SP ∉ m) ∧ (SP ∉ t) ∧ (SP ∉ v).

Lemma three_parts_inj l m t v m' t' v' :
  three_parts l m t v → three_parts l m' t' v' → m = m' ∧ t = t' ∧ v = v'.
Proof.
  intros (-> & Hm & Ht & Hv) (Heq & Hm' & Ht' & Hv').
  destruct (sp_split _ _ _ _ (find_byte_app SP m (t ++ SP :: v) Hm) Heq Hm') as [-> Htv].
  rewrite drop_app_add in Htv. simpl in Htv. rewrite take_app_length.
  symmetry in Htv.
  destruct (sp_split _ _ _ _ (find_byte_app SP t v Ht) Htv Ht') as [-> ->].
  by rewrite take_app_length, drop_app_add.
Qed.

Lemma request_line_parts s m t v :
  request_line s m t v ↔
  ∃ i, find_sub CRLF s = Some i ∧ three_parts (take i s) m t v ∧ token m ∧
    (length m < 16)%nat ∧ (0 < length t < 4096)%nat ∧ (0 < length v < 16)%nat.
Proof.
  split.
  - intros [(i & Hi & Hl) ??????]. exists i. unfold three_parts. split_and!; try done; try lia.
    eapply Forall_not_elem; [apply tchar_forall; [apply tchar_not_ctl|done]|]. naive_solver.
  - intros (i & Hi & (Hl & ? & ? & ?) & ? & ? & ? & ?). constructor; eauto.
Qed.

(** Everything but the method and the version is unchanged. *)
Definition same_back (r r' : http_request_t) : Prop :=
  req_path r' = req_path r ∧ req_query r' = req_query r ∧
  req_headers r' = req_headers r ∧ req_header_count r' = req_header_count r.

(** The size tests [n == 0 || n >= lo] of the parser. *)
Lemma bad_size n lo :
  ((Z.of_nat n =? 0) || (Z.of_nat lo <=? Z.of_nat n)) = true → ¬ (0 < n < lo)%nat.
Proof. intros [?%Z.eqb_eq|?%Z.leb_le]%orb_true_iff; lia. Qed.
Lemma good_size n lo :
  ((Z.of_nat n =? 0) || (Z.of_nat lo <=? Z.of_nat n)) = false → (0 < n < lo)%nat.
Proof. intros [?%Z.eqb_neq ?%Z.leb_gt]%orb_false_iff; lia. Qed.

Section request_line.
Context (buffer s : list byte) (Hs : cstr_of buffer = Some s).

Definition line_rejected (r : http_request_t) (target : obj)
    (res : Z * http_request_t * obj) : Prop :=
  wf_request res.1.2 ∧ same_back r res.1.2 ∧ length res.2 = length target ∧
  res.1.1 = -1 ∧ ∀ m t v, ¬ request_line s m t v.

Definition line_accepted (r : http_request_t) (target : obj)
    (res : Z * http_request_t * obj) : Prop :=
  wf_request res.1.2 ∧ same_back r res.1.2 ∧ length res.2 = length target ∧
  res.1.1 = 0 ∧ ∃ m t v, request_line s m t v ∧
    cstr_of (req_method res.1.2) = Some m ∧ cstr_of (req_version res.1.2) = Some v ∧
    cstr_of res.2 = Some t.

(** The three separators are found exactly when the line has three parts. *)
Lemma find_three_parts i a b :
  (i + 2 ≤ length s)%nat →
  find_byte SP (take i s) = Some a →
  find_byte SP (take (i - a - 1) (drop (a + 1) s)) = Some b →
  find_byte SP (take (i - (a + 1 + b) - 1) (drop (a + 1 + b + 1) s)) = None →
  three_parts (take i s) (take a s) (take b (drop (a + 1) s))
    (take (i - (a + 1 + b) - 1) (drop (a + 1 + b + 1) s)).
Proof using Type.
  intros Hi Ha Hb Hc%find_byte_None.
  pose proof (find_byte_bound _ _ _ Ha) as Hai. rewrite length_take in Hai.
  pose proof (find_byte_bound _ _ _ Hb) as Hbi. rewrite length_take, length_drop in Hbi.
  apply find_byte_Some in Ha as (m & l & Hl & <- & Hm).
  assert (take (length m) s = m) as Em.
  { apply (f_equal (take (length m))) in Hl.
    rewrite take_take, take_app_length in Hl. by rewrite Nat.min_l in Hl by lia. }
  assert (take (i - length m - 1) (drop (length m + 1) s) = l) as El.
  { apply (f_equal (drop (length m + 1))) in Hl. rewrite drop_app_add in Hl. simpl in Hl.
    rewrite drop_0 in Hl. rewrite <- Hl, skipn_firstn_comm. f_equal. lia. }
  rewrite El in Hb. apply find_byte_Some in Hb as (t & v & Hv & <- & Ht).
  assert (take (length t) (drop (length m + 1) s) = t) as Et.
  { apply (f_equal (take (length t))) in Hv. rewrite take_app_length in Hv.
    rewrite <- El, take_take in Hv. by rewrite Nat.min_l in Hv by lia. }
  assert (take (i - (length m + 1 + length t) - 1) (drop (length m + 1 + length t + 1) s) = v) as Ev.
  { apply (f_equal (drop (length t + 1))) in Hv. rewrite drop_app_add in Hv. simpl in Hv.
    rewrite drop_0 in Hv. rewrite <- Hv, <- El, skipn_firstn_comm, drop_drop.
    f_equal; [lia|f_equal; lia]. }
  rewrite Em, Et, Ev in *. unfold three_parts. split_and!; try done. by rewrite Hl, Hv.
Qed.

(** Conversely, a line with three parts has exactly two separators. *)
Lemma three_parts_find l m t v :
  three_parts l m t v →
  find_byte SP l = Some (length m) ∧
  find_byte SP (drop (length m + 1) l) = Some (length t) ∧
  find_byte SP (drop (length m + 1 + length t + 1) l) = None.
Proof using Type.
  intros (-> & Hm & Ht & Hv). rewrite find_byte_app by done.
  split; [done|]. rewrite drop_app_add. simpl. rewrite drop_0, find_byte_app by done.
  split; [done|]. rewrite <- !Nat.add_assoc, drop_app_add. simpl.
  rewrite drop_app_add. simpl. rewrite drop_0. by apply find_byte_None.
Qed.

Section parts.
Context (i a b : nat).
Context (Hi : find_sub CRLF s = Some i) (Hab : (a + 1 + b < i)%nat).
Let m := take a s.
Let t := take b (drop (a + 1) s).
Let v := take (i - (a + 1 + b) - 1) (drop (a + 1 + b + 1) s).
Context (H3 : three_parts (take i s) m t v).

Definition parts_fit : Prop :=
  token m ∧ (length m < 16)%nat ∧ (0 < length t < 4096)%nat ∧ (0 < length v < 16)%nat.

Lemma parts_fit_line : parts_fit ↔ request_line s m t v.
Proof using Hi H3.
  rewrite request_line_parts. split.
  - intros Hfit. exists i. split; [done|]. by split.
  - intros (i' & Hi' & H3' & Hfit). exact Hfit.
Qed.

Lemma parts_misfit_line m' t' v' : ¬ parts_fit → ¬ request_line s m' t' v'.
Proof using Hi H3.
  intros Hno Hl. apply Hno, parts_fit_line. pose proof Hl as Hl'.
  apply request_line_parts in Hl' as (i' & Hi' & H3' & _).
  rewrite Hi in Hi'. injection Hi' as <-.
  by destruct (three_parts_inj _ _ _ _ _ _ _ H3 H3') as (-> & -> & ->).
Qed.

Lemma reject r target r' target' :
  wf_request r' → same_back r r' → length target' = length target → ¬ parts_fit →
  line_accepted r target (-1, r', target') ∨ line_rejected r target (-1, r', target').
Proof using Hi H3.
  intros ??? Hno. right. split_and!; try done. intros m' t' v'.
  by apply parts_misfit_line.
Qed.

Lemma parts_lengths : length m = a ∧ length t = b ∧ length v = (i - (a + 1 + b) - 1)%nat.
Proof using Hi Hab.
  pose proof (find_sub_crlf_bound _ _ Hi). unfold m, t, v.
  rewrite !length_take, !length_drop. lia.
Qed.

Lemma parts_no_nul : (NUL ∉ m) ∧ (NUL ∉ t) ∧ (NUL ∉ v).
Proof using Hs.
  pose proof (cstr_of_no_nul _ _ Hs). unfold m, t, v. split_and!; auto with cdb.
Qed.

Lemma http_store_request_line_spec r target :
  wf_request r → length target = 4096%nat →
  returns (http_store_request_line buffer r target 4096 i a (a + 1 + b))
    (λ res, line_accepted r target res ∨ line_rejected r target res).
Proof using Hs Hi Hab H3.
  intros Hr Htl. destruct parts_lengths as (Hm & Ht & Hv).
  destruct parts_no_nul as (Hnm & Hnt & Hnv).
  pose proof (find_sub_crlf_bound _ _ Hi) as Hib.
  unfold http_store_request_line.
  replace (a + 1 + b - a - 1)%nat with b by lia.
  destruct (_ || _) eqn:Em; [apply (bad_size _ 16) in Em|apply (good_size _ 16) in Em].
  { apply reject; try done. unfold parts_fit. rewrite Hm. intros ([Hne _] & ? & _).
    apply Hne, length_zero_iff_nil. lia. }
  rewrite (http_valid_header_name_spec buffer s Hs), bind_ret_l, drop_0 by lia. fold m.
  case_bool_decide as Htok; simpl negb; cbn match; 
    [|apply reject; try done; unfold parts_fit; tauto].
  pose proof (wf_method _ Hr) as Hwm.
  rewrite (store_string_at (req_method r) _ s), drop_0, bind_ret_l by (done || lia). fold m.
  assert (wf_request (set_method (put_string (req_method r) m) r)) as Hr1
    by (apply wf_set_method; [rewrite length_put_string; lia|done]).
  destruct (_ || _) eqn:Et; [apply (bad_size _ 4096) in Et|apply (good_size _ 4096) in Et].
  { apply reject; try done. unfold parts_fit. rewrite Ht. tauto. }
  rewrite (store_string_at target _ s), bind_ret_l by (done || lia). fold t.
  destruct (_ || _) eqn:Ev; [apply (bad_size _ 16) in Ev|apply (good_size _ 16) in Ev].
  { apply reject; try done; [by rewrite length_put_string; lia|].
    unfold parts_fit. rewrite Hv. tauto. }
  pose proof (wf_version _ Hr) as Hwv. cbn [req_version set_method].
  rewrite (store_string_at (req_version r) _ s), bind_ret_l by (done || lia). fold v.
  left. split; [apply wf_set_version; [rewrite length_put_string; lia|done]|].
  split; [done|]. split; [simpl; rewrite length_put_string; lia|]. split; [done|].
  exists m, t, v. split; [apply parts_fit_line; unfold parts_fit; rewrite Hm, Ht, Hv; tauto|].
  simpl. by rewrite !cstr_put_string.
Qed.
End parts.

Lemma line_rejected_when r target :
  wf_request r → length target = 4096%nat →
  (∀ i m t v, find_sub CRLF s = Some i → ¬ three_parts (take i s) m t v) →
  line_rejected r target (-1, r, target).
Proof using Type.
  intros Hr Ht Hno. split_and!; try done.
  intros m t v (i & Hi & H3 & _)%request_line_parts. by apply (Hno i m t v).
Qed.

Lemma line_rejected_at i r target :
  find_sub CRLF s = Some i → wf_request r → length target = 4096%nat →
  (∀ m t v, ¬ three_parts (take i s) m t v) → line_rejected r target (-1, r, target).
Proof using Type.
  intros Hi Hr Ht Hno. apply line_rejected_when; try done.
  intros i' m t v. rewrite Hi. intros [= <-]. apply Hno.
Qed.

Lemma http_parse_request_line_spec r target :
  wf_request r → length target = 4096%nat →
  returns (http_parse_request_line buffer r target 4096)
    (λ res, line_accepted r target res ∨ line_rejected r target res).
Proof using Hs.
  intros Hr Ht. unfold http_parse_request_line.
  rewrite (c_strstr_at buffer s Hs), drop_0, bind_ret_l by lia.
  destruct (find_sub CRLF s) as [i|] eqn:Hi; cbn -[c_memchr].
  2:{ right. by apply line_rejected_when; try done; congruence. }
  pose proof (find_sub_crlf_bound _ _ Hi) as Hib.
  rewrite (c_memchr_at buffer s Hs), drop_0, bind_ret_l by lia.
  destruct (find_byte SP (take i s)) as [a|] eqn:Ha; cbn -[c_memchr].
  2:{ right. apply (line_rejected_at i); try done. intros m t v (H & _)%three_parts_find. congruence. }
  pose proof (find_byte_bound _ _ _ Ha) as Hab. rewrite length_take in Hab.
  assert (∀ n, drop (a + 1 + n) (take i s) = take (i - (a + 1 + n)) (drop (a + 1 + n) s)) as Hw
    by (intros; apply skipn_firstn_comm).
  rewrite (c_memchr_at buffer s Hs), bind_ret_l by lia.
  pose proof (Hw 0%nat) as Hw0. rewrite !Nat.add_0_r, Nat.sub_add_distr in Hw0.
  rewrite <- Hw0.
  destruct (find_byte SP (drop (a + 1) _)) as [b|] eqn:Hb; cbn -[c_memchr].
  2:{ right. apply (line_rejected_at i); try done. intros m t v (H1 & H2 & _)%three_parts_find.
      rewrite Ha in H1. injection H1 as ->. congruence. }
  pose proof (find_byte_bound _ _ _ Hb) as Hbi. rewrite length_drop, length_take in Hbi.
  rewrite (c_memchr_at buffer s Hs), bind_ret_l by lia.
  specialize (Hw (b + 1)%nat). rewrite !Nat.add_assoc in Hw.
  replace (i - (a + 1 + b + 1))%nat with (i - (a + 1 + b) - 1)%nat in Hw by lia.
  destruct (find_byte SP (take _ (drop (a + 1 + b + 1) s))) as [c|] eqn:Hc; cbn -[c_memchr].
  { right. apply (line_rejected_at i); try done. intros m t v (H1 & H2 & H3)%three_parts_find.
    rewrite Ha in H1. injection H1 as ->. rewrite Hb in H2. injection H2 as ->.
    rewrite Hw in H3. congruence. }
  apply (http_store_request_line_spec i a b); try done; [lia|].
  apply find_three_parts; try done. by rewrite <- Hw0.
Qed.
End request_line.

(** ** Whole requests *)
(** The request in memory holds the strings and the fields of [rq]. *)
Definition denotes (r : http_request_t) (rq : request) : Prop :=
  cstr_of (req_method r) = Some (rq_method rq) ∧
  cstr_of (req_path r) = Some (rq_path rq) ∧
  cstr_of (req_query r) = Some (rq_query rq) ∧
  cstr_of (req_version r) = Some (rq_version rq) ∧
  fields_stored r (rq_fields rq).

Definition wf_stack (stk : parse_stack) : Prop :=
  length (stack_target stk) = 4096%nat ∧ length (stack_path stk) = 4096%nat.

Section whole.
Context (buffer s : list byte) (Hs : cstr_of buffer = Some s).
Context (cfg : server_config_t) (Hcfg : limits_ok cfg).

(** What [http_parse_request] leaves for the caller. *)
Definition parsed (res : Z * option http_request_t) : Prop :=
  ∃ r rq rest, res.2 = Some r ∧ wf_request r ∧ parse_outcome cfg s res.1 rq rest ∧
    (res.1 = HTTP_PARSE_OK → denotes r rq).

Lemma parsed_bad r :
  wf_request r → (∀ m p q v, ¬ request_front s m p q v) →
  parsed (HTTP_PARSE_BAD_REQUEST, Some r).
Proof using Type.
  intros Hr Hno. exists r, (Request [] [] [] [] []), [].
  split_and!; try done. by constructor.
Qed.

Lemma request_front_inv m t v m' p q v' :
  request_line s m t v → request_front s m' p q v' →
  m' = m ∧ v' = v ∧ (v = lit "HTTP/1.1" ∨ v = lit "HTTP/1.0") ∧ parse_target t p q.
Proof using Type.
  intros (i & Hi & H3 & _)%request_line_parts (t' & Hl & Hv & Ht).
  apply request_line_parts in Hl as (i' & Hi' & H3' & _).
  rewrite Hi in Hi'. injection Hi' as <-.
  by destruct (three_parts_inj _ _ _ _ _ _ _ H3 H3') as (-> & -> & ->).
Qed.

Lemma http_parse_headers_spec r m p q v :
  wf_request r → req_header_count r = 0 → request_front s m p q v →
  cstr_of (req_method r) = Some m → cstr_of (req_path r) = Some p →
  cstr_of (req_query r) = Some q → cstr_of (req_version r) = Some v →
  returns (http_parse_headers buffer r cfg) (λ '(code, r'), parsed (code, Some r')).
Proof using Hs Hcfg.
  intros Hr Hn Hf Hm Hp Hq Hv. unfold http_parse_headers.
  rewrite (c_strstr_at buffer s Hs), drop_0, bind_ret_l by lia.
  pose proof Hf as (t & Hl & _).
  destruct (rl_line _ _ _ _ Hl) as (i & Hi & _). rewrite Hi. simpl fmap. cbn match.
  pose proof (find_sub_crlf_bound _ _ Hi) as Hib. pose proof (cstr_of_length _ _ Hs).
  apply returns_bind.
  eapply returns_mono; [apply (http_parse_headers_loop_spec buffer s Hs cfg Hcfg) with (fs := [])|];
    try done; try (simpl; lia).
  intros [[code r'] e] (fs & Hr' & (Em & Ep & Eq & Ev) & Hfs & He & Hpf).
  exists r', (Request m p q v fs), (drop e s). split_and!; try done.
  - by eapply outcome_fields.
  - intros _. unfold denotes. by rewrite Em, Ep, Eq, Ev.
Qed.

Lemma strcmp_version r v x :
  cstr_of (req_version r) = Some v → NUL ∉ lit x →
  ∃ c, c_strcmp (req_version r) 0 (lit0 x) 0 ⇓ c ∧ (c = 0 ↔ v = lit x).
Proof using Type. intros Hv Hx. apply c_strcmp_at; [done|]. by apply cstr_of_app. Qed.

Lemma http_version_unsupported_spec r v :
  cstr_of (req_version r) = Some v →
  http_version_unsupported r ⇓
    bool_decide (¬ (v = lit "HTTP/1.1" ∨ v = lit "HTTP/1.0")).
Proof using Type.
  intros Hv. unfold http_version_unsupported.
  destruct (strcmp_version r v "HTTP/1.1" Hv) as (c & Hc & Hc0); [decide_now|].
  destruct (strcmp_version r v "HTTP/1.0" Hv) as (d & Hd & Hd0); [decide_now|].
  rewrite Hc, bind_ret_l. destruct (Z.eqb_spec c 0) as [E|E].
  - rewrite bool_decide_false; [done|tauto].
  - rewrite Hd, bind_ret_l.
    destruct (Z.eqb_spec d 0); [rewrite bool_decide_false|rewrite bool_decide_true]; tauto.
Qed.

Lemma http_parse_request_refines stk r :
  wf_request r → wf_stack stk →
  returns (http_parse_request stk (Some buffer) (Some r) cfg) parsed.
Proof using Hs Hcfg.
  intros Hr [Hst Hsp]. unfold http_parse_request.
  cbn [req_query set_header_count]. pose proof (wf_query _ Hr) as Hwq.
  rewrite wr_ok, bind_ret_l by lia.
  set (r0 := set_query _ _).
  assert (wf_request r0) as Hr0.
  { apply wf_set_query; [by rewrite length_insert|by apply wf_set_header_count]. }
  apply returns_bind. eapply returns_mono; [by apply (http_parse_request_line_spec buffer s Hs)|].
  intros [[c r1] tgt] [(Hr1 & Hsb & Hlt & Hc & m & t & v & Hl & Hm & Hv & Ht)
                      |(Hr1 & Hsb & Hlt & Hc & Hno)]; simpl in *; subst c; simpl.
  2:{ apply parsed_bad; [done|]. intros m p q v (t & Hl & _). by eapply Hno. }
  rewrite (http_version_unsupported_spec r1 v), bind_ret_l by done.
  case_bool_decide as Hver.
  { apply parsed_bad; [done|]. intros m' p q v' Hf.
    by apply (request_front_inv _ _ _ _ _ _ _ Hl) in Hf as (_ & _ & ? & _). }
  apply returns_bind. eapply returns_mono; [by apply (http_parse_target_spec tgt t Ht)|].
  intros [c r2] (Hr2 & (Em & Ev & _ & En) & [(-> & p & q & Hpt & Hp & Hq)|[-> Hno]]); simpl.
  2:{ apply parsed_bad; [done|]. intros m' p q v' Hf.
      apply (request_front_inv _ _ _ _ _ _ _ Hl) in Hf as (_ & _ & _ & ?). by eapply Hno. }
  apply returns_bind. eapply returns_mono.
  { apply (http_parse_headers_spec r2 m p q v); rewrite ?Em, ?Ev; try done.
    - destruct Hsb as (_ & _ & _ & Hn). by rewrite En, Hn.
    - exists t. split_and!; try done. }
  by intros [code r3].
Qed.
End whole.

(** ** End of the header block *)
Definition CRLF2 : list byte := CRLF ++ CRLF.

Lemma prefix_cons_iff (c b : byte) (k l : list byte) :
  c :: k `prefix_of` b :: l ↔ b = c ∧ k `prefix_of` l.
Proof.
  split; [|intros [-> ?]; by apply prefix_cons].
  intros H. split; [by apply prefix_cons_inv_1 in H|by apply prefix_cons_inv_2 in H].
Qed.

Lemma prefix_crlf2 b0 b1 b2 b3 l :
  bool_decide (CRLF2 `prefix_of` b0 :: b1 :: b2 :: b3 :: l) =
  bool_decide (b0 = CR ∧ b1 = LF ∧ b2 = CR ∧ b3 = LF).
Proof.
  apply bool_decide_ext. unfold CRLF2, CRLF. simpl. rewrite !prefix_cons_iff.
  pose proof (prefix_nil l). tauto.
Qed.

Lemma find_sub_short needle (l : list byte) : (length l < length needle)%nat → find_sub needle l = None.
Proof.
  intros Hl. apply find_sub_None. intros j Hj H%prefix_length.
  rewrite length_drop in H. lia.
Qed.

Lemma prefix_drop_take (needle l : list byte) i n :
  needle `prefix_of` drop i l → (i + length needle ≤ n)%nat →
  needle `prefix_of` drop i (take n l).
Proof.
  intros [k Hk] Hn. exists (take (n - i - length needle) k).
  rewrite skipn_firstn_comm, Hk. rewrite take_app_ge by lia. done.
Qed.

Section header_end.
Context (buffer : obj) (n : nat) (Hn : (n ≤ length buffer)%nat).

Lemma rd_take i : (i < n)%nat → ∃ b, take n buffer !! i = Some b ∧ rd buffer i ⇓ b.
Proof using Hn.
  intros Hi. destruct (lookup_lt_is_Some_2 buffer i) as [b Hb]; [lia|].
  exists b. rewrite lookup_take_lt by done. unfold rd. by rewrite Hb.
Qed.

Lemma is_crlf2_spec i :
  (i + 4 ≤ n)%nat →
  is_crlf2 buffer i ⇓ bool_decide (CRLF2 `prefix_of` drop i (take n buffer)).
Proof using Hn.
  intros Hi. unfold is_crlf2.
  destruct (rd_take i) as (b0 & H0 & ->); [lia|].
  destruct (rd_take (i + 1)) as (b1 & H1 & ->); [lia|].
  destruct (rd_take (i + 2)) as (b2 & H2 & ->); [lia|].
  destruct (rd_take (i + 3)) as (b3 & H3 & ->); [lia|].
  rewrite (drop_S _ _ _ H0). rewrite Nat.add_1_r in H1. rewrite (drop_S _ _ _ H1).
  replace (i + 2)%nat with (S (S i)) in H2 by lia. rewrite (drop_S _ _ _ H2).
  replace (i + 3)%nat with (S (S (S i))) in H3 by lia. rewrite (drop_S _ _ _ H3).
  rewrite bind_ret_l, prefix_crlf2.
  destruct (decide (b0 = CR)) as [->|]; [|by rewrite decide_True, bool_decide_false by tauto].
  rewrite decide_False, bind_ret_l by tauto.
  destruct (decide (b1 = LF)) as [->|]; [|by rewrite decide_True, bool_decide_false by tauto].
  rewrite decide_False, bind_ret_l by tauto.
  destruct (decide (b2 = CR)) as [->|]; [|by rewrite decide_True, bool_decide_false by tauto].
  rewrite decide_False, bind_ret_l by tauto.
  unfold mret, outcome_ret. f_equal. apply bool_decide_ext. tauto.
Qed.

Lemma http_find_header_end_loop_spec m i :
  (i + m + 3 = n)%nat →
  http_find_header_end_loop m buffer i ⇓
    (λ j, i + j + 4)%nat <$> find_sub CRLF2 (drop i (take n buffer)).
Proof using Hn.
  revert i. induction m as [|m IH]; intros i Hi; simpl.
  { rewrite find_sub_short; [done|]. rewrite length_drop, length_take. simpl. lia. }
  rewrite is_crlf2_spec, bind_ret_l by lia.
  destruct (rd_take i) as (b & Hb & _); [lia|].
  rewrite (drop_S _ _ _ Hb). cbn [find_sub]. case_bool_decide as Hp.
  - rewrite decide_True by done. simpl. by rewrite Nat.add_0_r.
  - rewrite decide_False by done. rewrite IH by lia. rewrite Nat.add_1_r.
    destruct (find_sub _ _); simpl; do 2 f_equal; lia.
Qed.

Lemma http_find_header_end_spec :
  Z.of_nat n < 2 ^ 64 →
  http_find_header_end buffer (Z.of_nat n) ⇓
    (λ j, j + 4)%nat <$> find_sub CRLF2 (take n buffer).
Proof using Hn.
  intros H64. unfold http_find_header_end. destruct (_ <? _) eqn:E.
  - apply Z.ltb_lt in E. rewrite find_sub_short; [done|]. rewrite length_take. simpl. lia.
  - apply Z.ltb_ge in E. rewrite size_sub_small by lia.
    rewrite http_find_header_end_loop_spec by lia. by rewrite drop_0.
Qed.
End header_end.

(** ** Header lookup *)
Lemma fields_stored_lookup r fs i f :
  fields_stored r fs → fs !! i = Some f →
  ∃ h, header_at r i ⇓ h ∧ field_stored h f.
Proof.
  intros [_ H] Hf. destruct (Forall2_lookup_r _ _ _ _ _ H Hf) as (h & Hh & Hs).
  exists h. split; [|done]. apply lookup_take_Some in Hh as [Hh _].
  unfold header_at. by rewrite Hh.
Qed.

(** The value of the first field with this name. *)
Definition field_value (name : list byte) (fs : list field) : option (list byte) :=
  (λ p, p.2.2) <$> list_find (λ f : field, ci_eq f.1 name) fs.

Section get_header.
Context (r : http_request_t) (fs : list field) (Hfs : fields_stored r fs).
Context (name_o name : list byte) (Hname : cstr_of name_o = Some name).

Lemma header_name_test i f h :
  fs !! i = Some f → field_stored h f →
  ∃ c, c_strcasecmp (hdr_name h) 0 name_o 0 ⇓ c ∧ (c = 0 ↔ ci_eq f.1 name).
Proof using Hname. intros _ [Hn _]. by apply c_strcasecmp_at. Qed.

Lemma http_get_header_loop_spec n i :
  (i + n = length fs)%nat →
  ∃ o, http_get_header_loop n r name_o i ⇓ o ∧
    match field_value name (drop i fs) with
    | Some v => ∃ ov, o = Some ov ∧ cstr_of ov = Some v
    | None => o = None
    end.
Proof using Hfs Hname.
  revert i. induction n as [|n IH]; intros i Hi; simpl.
  { exists None. by rewrite drop_ge by lia. }
  destruct (lookup_lt_is_Some_2 fs i) as [f Hf]; [lia|].
  destruct (fields_stored_lookup _ _ _ _ Hfs Hf) as (h & -> & Hst).
  destruct (header_name_test i f h Hf Hst) as (c & Hc & Hc0).
  rewrite bind_ret_l, Hc, bind_ret_l, (drop_S _ _ _ Hf).
  unfold field_value. cbn [list_find]. destruct (Z.eqb_spec c 0) as [E|E].
  - rewrite decide_True by tauto. exists (Some (hdr_value h)). split; [done|].
    exists (hdr_value h). split; [done|]. apply Hst.
  - rewrite decide_False by tauto. destruct (IH (i + 1)%nat) as (o & Ho & Hm); [lia|].
    rewrite Nat.add_1_r in *. exists o. split; [done|]. unfold field_value in Hm.
    by destruct (list_find _ (drop (S i) fs)) as [[]|].
Qed.

Lemma http_get_header_spec :
  ∃ o, http_get_header r name_o ⇓ o ∧
    match field_value name fs with
    | Some v => ∃ ov, o = Some ov ∧ cstr_of ov = Some v
    | None => o = None
    end.
Proof using Hfs Hname.
  unfold http_get_header. rewrite (proj1 Hfs), Nat2Z.id.
  destruct (http_get_header_loop_spec (length fs) 0) as (o & Ho & Hm); [lia|].
  rewrite drop_0 in Hm. by exists o.
Qed.
End get_header.
