(* ===== verification/GrammarFacts.v ===== *)
(** * Facts on the request grammar

    Consequences of acceptance (characters, sizes, framing) and the rendering
    of requests as messages, inverse to parsing. *)
From S2P Require Import Prelude.
From S2P Require Import CLib.
From S2P Require Import Config.
From S2P Require Import HttpParse.
From S2P Require Import HttpGrammar.
From S2P Require Import HttpParseProofs.

(** ** Trimming *)
(** No optional whitespace at either end. *)
Definition trimmed (v : list byte) : Prop :=
  (∀ b, head v = Some b → ¬ ows b) ∧ (∀ b, last v = Some b → ¬ ows b).

Lemma ltrim_head v b : head (ltrim v) = Some b → ¬ ows b.
Proof.
  induction v as [|c v IH]; simpl; [done|]. case_decide; [done|]. by intros [= <-].
Qed.

Lemma ltrim_id v : (∀ b, head v = Some b → ¬ ows b) → ltrim v = v.
Proof.
  destruct v as [|c v]; simpl; [done|]. intros H.
  rewrite decide_False; [done|]. by apply H.
Qed.

Lemma ltrim_suffix v : ltrim v `suffix_of` v.
Proof.
  induction v as [|c v IH]; simpl; [done|]. case_decide; [|done].
  by apply suffix_cons_r.
Qed.

Lemma last_rev (v : list byte) : last v = head (rev v).
Proof.
  destruct v as [|b v] using rev_ind; [done|]. by rewrite last_snoc, rev_unit.
Qed.

Lemma rtrim_prefix v : rtrim v `prefix_of` v.
Proof.
  unfold rtrim. destruct (ltrim_suffix (rev v)) as [k Hk]. exists (rev k).
  by rewrite <- rev_app_distr, <- Hk, rev_involutive.
Qed.

Lemma trim_trimmed v : trimmed (trim v).
Proof.
  unfold trim. split; intros b Hb.
  - apply (ltrim_head v). destruct (rtrim_prefix (ltrim v)) as [k ->].
    by destruct (rtrim (ltrim v)).
  - unfold rtrim in Hb. rewrite last_rev, rev_involutive in Hb. by eapply ltrim_head.
Qed.

Lemma trim_id v : trimmed v → trim v = v.
Proof.
  intros [Hh Hl]. unfold trim, rtrim. rewrite (ltrim_id v) by done.
  rewrite ltrim_id, rev_involutive; [done|]. intros b Hb. apply Hl. by rewrite last_rev.
Qed.

Lemma trim_incl v : trim v ⊆ v.
Proof.
  unfold trim. intros b Hb.
  destruct (rtrim_prefix (ltrim v)) as [k Hk]. destruct (ltrim_suffix v) as [k' Hk'].
  rewrite Hk', Hk. set_solver.
Qed.

(** ** What an accepted message guarantees *)
Record field_wf (cfg : server_config_t) (f : field) : Prop := {
  fw_name : token f.1;
  fw_name_size : Z.of_nat (length f.1) < http_header_name_max cfg;
  fw_value : Forall field_octet f.2;
  fw_value_size : Z.of_nat (length f.2) < http_header_value_max cfg;
  fw_trimmed : trimmed f.2
}.

Record request_wf (cfg : server_config_t) (rq : request) : Prop := {
  qw_method : token (rq_method rq);
  qw_method_size : (length (rq_method rq) < 16)%nat;
  qw_version : rq_version rq = lit "HTTP/1.1" ∨ rq_version rq = lit "HTTP/1.0";
  qw_path_head : head (rq_path rq) = Some "/"%byte;
  qw_path : Forall path_octet (rq_path rq);
  qw_path_size : (length (rq_path rq) < 4096)%nat;
  qw_query_sp : SP ∉ rq_query rq;
  qw_query_size : (length (rq_query rq) < 4096)%nat;
  qw_fields : Forall (field_wf cfg) (rq_fields rq);
  qw_count : Z.of_nat (length (rq_fields rq)) <= http_max_headers cfg
}.

Lemma pct_decode_octets s d : pct_decode s = Some d → Forall path_octet d.
Proof.
  revert d. induction s as [s IH] using (induction_ltof1 _ (@length byte)).
  unfold ltof in IH. intros d Hd. destruct s as [|c s]; simpl in Hd.
  { injection Hd as <-. constructor. }
  repeat case_match; try done; apply fmap_Some in Hd as (d' & Hd & ->);
    (constructor; [done|]); eapply IH; try done; simpl; lia.
Qed.

Lemma pct_decode_head s d :
  head s = Some "/"%byte → pct_decode s = Some d → head d = Some "/"%byte.
Proof.
  destruct s as [|c s]; simpl; [done|]. intros [= ->].
  rewrite decide_False by done. case_decide; [|done].
  by intros (d' & _ & ->)%fmap_Some.
Qed.

Lemma parse_field_wf cfg line f : parse_field cfg line = inr f → field_wf cfg f.
Proof.
  unfold parse_field. repeat case_match; try done. intros [= <-].
  repeat match goal with H : (_ <=? _) = false |- _ => apply Z.leb_gt in H end.
  constructor; simpl; try done; try (by apply dec_stable). apply trim_trimmed.
Qed.

Lemma parse_fields_wf cfg k s fs c rest :
  parse_fields cfg k s fs c rest → Forall (field_wf cfg) fs.
Proof. induction 1; constructor; eauto using parse_field_wf. Qed.

Lemma parse_fields_count cfg k s fs c rest :
  parse_fields cfg k s fs c rest → Z.of_nat k <= http_max_headers cfg →
  Z.of_nat (k + length fs) <= http_max_headers cfg.
Proof. induction 1; intros; simpl in *; lia. Qed.

Lemma target_parts_bounds t p q :
  target_parts t p q → (length t < 4096)%nat → SP ∉ t →
  (length q < 4096)%nat ∧ SP ∉ q.
Proof.
  intros [path Hn|path query Hn Hl] Hlt Hsp; [simpl; split; [lia|set_solver]|].
  split; [done|]. set_solver.
Qed.

Lemma parse_request_wf cfg s rq rest :
  0 < http_max_headers cfg → parse_request cfg s rq rest → request_wf cfg rq.
Proof.
  intros Hmax H. inversion H as [|m p q v fs code i rest' Hf Hi Hpf]; subst.
  destruct Hf as (t & Hl & Hv & raw & Ht & Hraw & Hh & Hp).
  pose proof (rl_target_size _ _ _ _ Hl) as Hts.
  destruct (target_parts_bounds _ _ _ Ht) as [Hq Hqs]; [lia|apply Hl|].
  constructor; simpl; try done; try apply Hl.
  - by eapply pct_decode_head.
  - by eapply pct_decode_octets.
  - apply pct_decode_length in Hp. lia.
  - by eapply parse_fields_wf.
  - apply (parse_fields_count _ _ _ _ _ _ Hpf). lia.
Qed.

(** ** Framing: the parser stops at the first empty line *)
Lemma find_sub_skip needle l n :
  (n ≤ length l)%nat → (∀ m, (m < n)%nat → ¬ needle `prefix_of` drop m l) →
  find_sub needle l = Nat.add n <$> find_sub needle (drop n l).
Proof.
  revert l. induction n as [|n IH]; intros l Hn Hno.
  { rewrite drop_0. by destruct (find_sub needle l). }
  destruct l as [|b l]; [simpl in Hn; lia|]. simpl.
  rewrite decide_False by apply (Hno 0%nat ltac:(lia)).
  rewrite IH; [by destruct (find_sub _ _)|simpl in Hn; lia|].
  intros m Hm. apply (Hno (S m)). lia.
Qed.

Lemma crlf_split s i : find_sub CRLF s = Some i → drop i s = CRLF ++ drop (i + 2) s.
Proof.
  intros H. pose proof (find_sub_crlf_bound _ _ H).
  pose proof (find_sub_split _ _ _ H) as Hs. rewrite Hs at 1.
  rewrite drop_app_length' by (rewrite length_take; lia).
  f_equal. f_equal. simpl. lia.
Qed.

Lemma crlf2_crlf l : CRLF2 `prefix_of` CRLF ++ l ↔ CRLF `prefix_of` l.
Proof.
  unfold CRLF2, CRLF. simpl. rewrite !prefix_cons_iff. tauto.
Qed.

Lemma crlf2_is_crlf l : CRLF2 `prefix_of` l → CRLF `prefix_of` l.
Proof. intros [k ->]. exists (CRLF ++ k). by rewrite app_assoc. Qed.

(** After a line end, the field lines end at the first empty line. *)
Lemma parse_fields_framing cfg k s fs rest :
  parse_fields cfg k s fs HTTP_PARSE_OK rest →
  ∃ j, find_sub CRLF2 (CRLF ++ s) = Some j ∧ rest = drop j s.
Proof.
  remember HTTP_PARSE_OK as c eqn:Hc. induction 1 as [k s Hp| | |k s i code Hp _ Hi Hf|
    k s i f fs code rest Hp _ Hi Hf Hpf IH]; try done.
  - exists 0%nat. split; [|done].
    simpl. rewrite decide_True; [done|]. by apply (crlf2_crlf s).
  - subst code. apply parse_field_code in Hf. naive_solver.
  - destruct (IH Hc) as (j & Hj & ->). rewrite <- crlf_split in Hj by done.
    pose proof (find_sub_crlf_bound _ _ Hi) as Hib.
    exists (2 + i + j)%nat. split; [|rewrite drop_drop; f_equal; lia].
    rewrite (find_sub_skip _ _ (2 + i)).
    + rewrite drop_app_add with (l := CRLF). by rewrite Hj.
    + simpl. lia.
    + intros [|[|m]] Hm.
      * by rewrite drop_0, crlf2_crlf.
      * intros H%prefix_cons_iff. naive_solver.
      * intros H%crlf2_is_crlf. apply find_sub_Some in Hi as (_ & _ & Hmin).
        apply (Hmin m); [lia|done].
Qed.

Lemma parse_request_framing cfg s rq rest :
  parse_request cfg s rq rest →
  ∃ j, find_sub CRLF2 s = Some j ∧ rest = drop (j + 2) s.
Proof.
  intros H. inversion H as [|m p q v fs code i rest' Hf Hi Hpf]; subst.
  pose proof (find_sub_crlf_bound _ _ Hi) as Hib.
  apply parse_fields_framing in Hpf as (j & Hj & ->).
  rewrite <- crlf_split in Hj by done. exists (i + j)%nat.
  rewrite (find_sub_skip _ _ i), Hj; [|lia|].
  - split; [done|]. rewrite drop_drop. f_equal. lia.
  - intros m' Hm' H'%crlf2_is_crlf. apply find_sub_Some in Hi as (_ & _ & Hmin).
    by apply (Hmin m').
Qed.

Lemma cstr_of_snoc l : ∃ s, cstr_of (l ++ [NUL]) = Some s ∧ s `prefix_of` l.
Proof.
  induction l as [|b l (s & Hs & Hp)]; simpl.
  { exists []. by split. }
  case_decide; [exists []; split; [done|apply prefix_nil]|].
  exists (b :: s). rewrite Hs. split; [done|]. by apply prefix_cons.
Qed.

Lemma find_sub_prefix needle s l i :
  s `prefix_of` l → find_sub needle s = Some i →
  ∃ j, find_sub needle l = Some j ∧ (j ≤ i)%nat.
Proof.
  intros [k ->] (H & Hi & _)%find_sub_Some.
  destruct (find_sub needle (s ++ k)) as [j|] eqn:E.
  - exists j. split; [done|]. apply find_sub_Some in E as (_ & _ & Hmin).
    destruct (decide (j ≤ i)%nat); [done|]. exfalso. apply (Hmin i); [lia|].
    rewrite drop_app_le by done. by apply prefix_app_r.
  - exfalso. apply find_sub_None with (j := i) in E; [|rewrite length_app; lia].
    apply E. rewrite drop_app_le by done. by apply prefix_app_r.
Qed.

(** A message cut after its first empty line, once accepted, holds no NUL and is
    parsed to its very end. *)
Lemma parse_request_exact cfg l s j rq rest :
  find_sub CRLF2 l = Some j → cstr_of (take (j + 4) l ++ [NUL]) = Some s →
  parse_request cfg s rq rest → s = take (j + 4) l ∧ rest = CRLF.
Proof.
  intros Hj Hs Hp. destruct (cstr_of_snoc (take (j + 4) l)) as (s' & Hs' & Hpre).
  rewrite Hs in Hs'. injection Hs' as <-.
  apply parse_request_framing in Hp as (j' & Hj' & ->).
  pose proof (find_sub_prefix _ _ l _ (transitivity Hpre (prefix_take l (j + 4))) Hj') as (j2 & Hj2 & Hle).
  rewrite Hj in Hj2. injection Hj2 as <-.
  apply find_sub_split in Hj' as Hsp. apply (f_equal length) in Hsp.
  apply find_sub_Some in Hj' as (Hpj & Hlj & _).
  rewrite !length_app, length_take, length_drop in Hsp. simpl in Hsp.
  pose proof (prefix_length _ _ Hpre) as Hlen. rewrite length_take in Hlen.
  assert (s = take (j + 4) l) as -> by (apply prefix_length_eq; [done|rewrite length_take; lia]).
  split; [done|]. assert (j' = j) as -> by lia.
  destruct Hpj as [k Hk]. replace (j + 2)%nat with (j + length CRLF)%nat by done.
  rewrite <- drop_drop, Hk. unfold CRLF2. rewrite <- app_assoc, drop_app_length.
  assert (k = []) as ->; [|done]. apply length_zero_iff_nil.
  apply (f_equal length) in Hk. rewrite length_drop, length_app in Hk. simpl in Hk. lia.
Qed.

(** ** Rendering a request as a message *)
Definition render_field (f : field) : list byte := f.1 ++ ":"%byte :: SP :: f.2 ++ CRLF.

Definition render_target (rq : request) : list byte :=
  pct_encode (rq_path rq) ++
  match rq_query rq with [] => [] | q => "?"%byte :: q end.

Definition render_line (rq : request) : list byte :=
  rq_method rq ++ SP :: render_target rq ++ SP :: rq_version rq.

Definition render (rq : request) : list byte :=
  render_line rq ++ CRLF ++ (rq_fields rq ≫= render_field) ++ CRLF.

(** Octets a query may hold on the wire. *)
Definition query_octet (b : byte) : Prop := 33 <= uchar b ∧ uchar b ≠ 127.
#[export] Instance query_octet_dec b : Decision (query_octet b).
Proof. unfold query_octet. apply _. Defined.

(** A request whose rendering is a message within the limits, the number of
    fields apart. *)
Record renderable (cfg : server_config_t) (rq : request) : Prop := {
  rd_method : token (rq_method rq);
  rd_method_size : (length (rq_method rq) < 16)%nat;
  rd_version : rq_version rq = lit "HTTP/1.1" ∨ rq_version rq = lit "HTTP/1.0";
  rd_path_head : head (rq_path rq) = Some "/"%byte;
  rd_path : Forall path_octet (rq_path rq);
  rd_query : Forall query_octet (rq_query rq);
  rd_target_size : (length (render_target rq) < 4096)%nat;
  rd_fields : Forall (field_wf cfg) (rq_fields rq)
}.

(** *** Percent-encoding *)
Lemma pct_plain_not_pct b : pct_plain b → b ≠ "%"%byte ∧ b ≠ "?"%byte.
Proof. byte_cases b. Qed.
Lemma pct_octet_chars b :
  ("?"%byte ∉ pct_octet b) ∧ (SP ∉ pct_octet b) ∧ (CR ∉ pct_octet b) ∧ (NUL ∉ pct_octet b).
Proof. byte_cases b. Qed.
Lemma pct_octet_hex b :
  bool_decide (pct_plain b) = false →
  hex_val (hex_digit (uchar b / 16)) = Some (uchar b / 16) ∧
  hex_val (hex_digit (uchar b mod 16)) = Some (uchar b mod 16).
Proof. byte_cases b. Qed.

Lemma pct_decode_escape h l hv lv s :
  hex_val h = Some hv → hex_val l = Some lv →
  pct_decode (["%"%byte; h; l] ++ s) =
    if decide (path_octet (byte_of_Z (16 * hv + lv)))
    then cons (byte_of_Z (16 * hv + lv)) <$> pct_decode s else None.
Proof. intros Hh Hl. simpl. rewrite Hh, Hl. done. Qed.

Lemma pct_decode_octet b s :
  path_octet b → pct_decode (pct_octet b ++ s) = cons b <$> pct_decode s.
Proof.
  intros Hb. unfold pct_octet. case_decide as Hp.
  - simpl. rewrite decide_False by apply (pct_plain_not_pct b Hp). by rewrite decide_True.
  - destruct (pct_octet_hex b) as [Hh Hl]; [by apply bool_decide_false|].
    rewrite (pct_decode_escape _ _ _ _ _ Hh Hl), <- Z.div_mod, byte_of_Z_uchar by done.
    by rewrite decide_True.
Qed.

Lemma pct_encode_cons b s : pct_encode (b :: s) = pct_octet b ++ pct_encode s.
Proof. done. Qed.

Lemma pct_decode_encode s : Forall path_octet s → pct_decode (pct_encode s) = Some s.
Proof.
  induction 1 as [|b s Hb Hs IH]; [done|].
  by rewrite pct_encode_cons, pct_decode_octet, IH by done.
Qed.

Lemma pct_encode_chars s :
  ("?"%byte ∉ pct_encode s) ∧ (SP ∉ pct_encode s) ∧ (CR ∉ pct_encode s) ∧ (NUL ∉ pct_encode s).
Proof.
  split_and!; intros H; apply list_elem_of_bind in H as (b & H & _);
    destruct (pct_octet_chars b) as (? & ? & ? & ?); done.
Qed.

Lemma pct_encode_length s : (length s ≤ length (pct_encode s))%nat.
Proof.
  induction s as [|b s IH]; [done|]. rewrite pct_encode_cons, length_app.
  unfold pct_octet at 1. case_decide; simpl; lia.
Qed.

(** *** Characters of the rendering *)
Lemma field_octet_chars b : field_octet b → b ≠ CR ∧ b ≠ NUL.
Proof. byte_cases b. Qed.
Lemma query_octet_chars b : query_octet b → b ≠ SP ∧ b ≠ CR ∧ b ≠ NUL.
Proof. byte_cases b. Qed.
Lemma tchar_not_cr b : tchar b → b ≠ CR ∧ b ≠ NUL ∧ b ≠ SP ∧ b ≠ ":"%byte.
Proof. byte_cases b. Qed.

Lemma Forall_avoid (P : byte → Prop) (c : byte) s :
  Forall P s → (∀ b, P b → b ≠ c) → c ∉ s.
Proof. rewrite Forall_forall. intros H Hc Hin. by eapply Hc; [apply H|done]. Qed.

Lemma version_chars v :
  v = lit "HTTP/1.1" ∨ v = lit "HTTP/1.0" →
  (SP ∉ v) ∧ (CR ∉ v) ∧ (NUL ∉ v) ∧ (0 < length v < 16)%nat.
Proof. intros [-> | ->]; split_and!; try decide_now; simpl; lia. Qed.

(** A line without CR ends at the first CRLF. *)
Lemma find_crlf_line l r : CR ∉ l → find_sub CRLF (l ++ CRLF ++ r) = Some (length l).
Proof.
  intros Hl. apply find_sub_app; [done|]. intros j Hj Hp.
  apply lookup_lt_is_Some in Hj as [b Hb].
  rewrite (drop_S _ b) in Hp by (by apply lookup_app_l_Some).
  apply prefix_cons_iff in Hp as [-> _].
  by apply Hl, (list_elem_of_lookup_2 _ j).
Qed.

Lemma not_crlf_prefix l r : head l ≠ Some CR → l ≠ [] → ¬ CRLF `prefix_of` l ++ r.
Proof.
  destruct l as [|b l]; [done|]. simpl. intros Hb _ Hp.
  apply prefix_cons_iff in Hp as [-> _]. done.
Qed.

(** *** Fields *)
Lemma field_wf_chars cfg f :
  field_wf cfg f → (CR ∉ f.1) ∧ (NUL ∉ f.1) ∧ (":"%byte ∉ f.1) ∧ (CR ∉ f.2) ∧ (NUL ∉ f.2).
Proof.
  intros [[_ Ht] _ Hv _ _].
  split_and!; (eapply Forall_avoid; [exact Ht || exact Hv|]);
    intros b Hb; (apply tchar_not_cr in Hb || apply field_octet_chars in Hb); naive_solver.
Qed.

Lemma parse_field_render cfg f :
  field_wf cfg f → parse_field cfg (f.1 ++ ":"%byte :: SP :: f.2) = inr f.
Proof.
  intros Hf. destruct (field_wf_chars _ _ Hf) as (_ & _ & Hc & _).
  destruct Hf as [Hn Hns Hv Hvs Ht]. unfold parse_field.
  rewrite find_byte_app, take_app_length by done.
  rewrite <- Nat.add_1_r, drop_app_add. simpl drop.
  assert (trim (SP :: f.2) = f.2) as -> by (rewrite <- (trim_id f.2) at 2; done).
  rewrite decide_False by tauto. rewrite (proj2 (Z.leb_gt _ _)) by done.
  rewrite decide_False by tauto. rewrite (proj2 (Z.leb_gt _ _)) by done.
  by destruct f.
Qed.

Lemma render_field_line f : render_field f = (f.1 ++ ":"%byte :: SP :: f.2) ++ CRLF.
Proof. unfold render_field. by rewrite <- app_assoc. Qed.

Lemma render_fields_cons f fs rest :
  ((f :: fs) ≫= render_field) ++ CRLF ++ rest =
  (f.1 ++ ":"%byte :: SP :: f.2) ++ CRLF ++ ((fs ≫= render_field) ++ CRLF ++ rest).
Proof.
  change ((f :: fs) ≫= render_field) with (render_field f ++ (fs ≫= render_field)).
  by rewrite render_field_line, <- (app_assoc _ CRLF), <- !app_assoc.
Qed.

(** Reading the rendered fields back: all of them, or too many. *)
Lemma parse_fields_render cfg k fs rest :
  Forall (field_wf cfg) fs →
  ∃ fs' c rest', parse_fields cfg k ((fs ≫= render_field) ++ CRLF ++ rest) fs' c rest' ∧
    (Z.of_nat (k + length fs) <= http_max_headers cfg →
       fs' = fs ∧ c = HTTP_PARSE_OK ∧ rest' = CRLF ++ rest) ∧
    (http_max_headers cfg < Z.of_nat (k + length fs) → Z.of_nat k <= http_max_headers cfg →
       c = HTTP_PARSE_HEADERS_TOO_LARGE).
Proof.
  intros Hfs. revert k. induction Hfs as [|f fs Hf Hfs IH]; intros k.
  { exists [], HTTP_PARSE_OK, (CRLF ++ rest). split_and!; [|done|simpl; lia].
    constructor. by apply prefix_app_r. }
  rewrite render_fields_cons.
  set (line := f.1 ++ _). set (tail := _ ++ CRLF ++ rest).
  destruct (field_wf_chars _ _ Hf) as (Hcr & _ & _ & Hcr' & _).
  assert (CR ∉ line) as Hline by (unfold line; set_solver).
  assert (¬ CRLF `prefix_of` line ++ CRLF ++ tail) as Hno.
  { apply not_crlf_prefix; [|by unfold line; destruct f.1].
    destruct Hf as [[Hne _] _ _ _ _]. unfold line. destruct f.1 as [|b n]; [done|].
    intros [= ->]. set_solver. }
  destruct (decide (Z.of_nat k < http_max_headers cfg)) as [Hk|Hk].
  - destruct (IH (S k)) as (fs' & c & rest' & Hp & Hok & Hmany).
    exists (f :: fs'), c, rest'. simpl length. split_and!.
    + eapply fields_line; [done|done|by apply find_crlf_line| |].
      * rewrite take_app_length. by apply parse_field_render.
      * by rewrite drop_app_add.
    + intros H. destruct Hok as (-> & -> & ->); [lia|done].
    + intros H Hk'. apply Hmany; lia.
  - exists [], HTTP_PARSE_HEADERS_TOO_LARGE, (line ++ CRLF ++ tail). simpl length.
    split_and!; [by apply fields_too_many; [|lia]|lia|done].
Qed.

(** *** Request line *)
Lemma render_target_parts cfg rq :
  renderable cfg rq → target_parts (render_target rq) (pct_encode (rq_path rq)) (rq_query rq).
Proof.
  intros H. destruct (pct_encode_chars (rq_path rq)) as (Hq & _).
  pose proof (rd_target_size _ _ H) as Hs. unfold render_target in *.
  destruct (rq_query rq) as [|b q]; [rewrite app_nil_r; by constructor|].
  constructor; [done|]. rewrite length_app in Hs. simpl in *. lia.
Qed.

Lemma render_target_chars cfg rq :
  renderable cfg rq →
  (SP ∉ render_target rq) ∧ (CR ∉ render_target rq) ∧ (NUL ∉ render_target rq) ∧
  (0 < length (render_target rq))%nat.
Proof.
  intros H. destruct (pct_encode_chars (rq_path rq)) as (_ & Hsp & Hcr & Hn).
  pose proof (rd_query _ _ H) as Hq.
  assert ((SP ∉ rq_query rq) ∧ (CR ∉ rq_query rq) ∧ (NUL ∉ rq_query rq)) as (Hq1 & Hq2 & Hq3).
  { split_and!; (eapply Forall_avoid; [exact Hq|]); intros b Hb%query_octet_chars; naive_solver. }
  pose proof (pct_encode_length (rq_path rq)) as Hl. pose proof (rd_path_head _ _ H) as Hh.
  assert (0 < length (rq_path rq))%nat by (destruct (rq_path rq); simpl in *; [done|lia]).
  unfold render_target. rewrite length_app. destruct (rq_query rq) as [|b q].
  - rewrite app_nil_r. split_and!; try done. lia.
  - split_and!; [..|lia]; rewrite not_elem_of_app, not_elem_of_cons; (split; [done|by split]).
Qed.

Lemma render_line_chars cfg rq :
  renderable cfg rq → (CR ∉ render_line rq) ∧ (NUL ∉ render_line rq) ∧ (SP ∉ rq_method rq).
Proof.
  intros H. destruct (render_target_chars _ _ H) as (_ & Htc & Htn & _).
  destruct (version_chars _ (rd_version _ _ H)) as (_ & Hvc & Hvn & _).
  destruct (rd_method _ _ H) as [_ Hm].
  assert ((CR ∉ rq_method rq) ∧ (NUL ∉ rq_method rq) ∧ (SP ∉ rq_method rq)) as (Hm1 & Hm2 & Hm3).
  { split_and!; (eapply Forall_avoid; [exact Hm|]); intros b Hb%tchar_not_cr; naive_solver. }
  unfold render_line. rewrite !not_elem_of_app, !not_elem_of_cons, !not_elem_of_app,
    !not_elem_of_cons. by split_and!.
Qed.

Lemma render_front cfg rq :
  renderable cfg rq →
  find_sub CRLF (render rq) = Some (length (render_line rq)) ∧
  request_front (render rq) (rq_method rq) (rq_path rq) (rq_query rq) (rq_version rq).
Proof.
  intros H. destruct (render_line_chars _ _ H) as (Hcr & _ & Hmsp).
  assert (find_sub CRLF (render rq) = Some (length (render_line rq))) as Hi
    by (by apply find_crlf_line).
  split; [done|]. destruct (render_target_chars _ _ H) as (Htsp & _ & _ & Htl).
  destruct (version_chars _ (rd_version _ _ H)) as (Hvsp & _ & _ & Hvl).
  exists (render_target rq). split_and!.
  - constructor; try apply H; try done.
    + exists (length (render_line rq)). split; [done|].
      unfold render. by rewrite take_app_length.
    + split; [done|]. apply H.
  - apply H.
  - exists (pct_encode (rq_path rq)). split_and!.
    + by eapply render_target_parts.
    + pose proof (rd_target_size _ _ H). unfold render_target in *. rewrite length_app in *. lia.
    + pose proof (rd_path_head _ _ H) as Hh. destruct (rq_path rq) as [|b p]; [done|].
      injection Hh as ->. done.
    + apply pct_decode_encode, H.
Qed.

Lemma render_no_nul cfg rq : renderable cfg rq → NUL ∉ render rq.
Proof.
  intros H. destruct (render_line_chars _ _ H) as (_ & Hn & _).
  unfold render. rewrite !not_elem_of_app. split_and!; try done; try decide_now.
  intros Hin. apply list_elem_of_bind in Hin as (f & Hin & Hf).
  pose proof (rd_fields _ _ H) as Hall. rewrite Forall_forall in Hall.
  destruct (field_wf_chars _ _ (Hall f Hf)) as (_ & H1 & _ & _ & H2).
  unfold render_field in Hin. set_solver.
Qed.

(** ** Outcomes are unique *)
Lemma request_front_det s m p q v m' p' q' v' :
  request_front s m p q v → request_front s m' p' q' v' →
  m = m' ∧ p = p' ∧ q = q' ∧ v = v'.
Proof.
  intros (t & Hl & _ & raw & Ht & _ & _ & Hd) Hf'.
  destruct (request_front_inv s m t v m' p' q' v' Hl Hf') as (-> & -> & _ & raw' & Ht' & _ & _ & Hd').
  destruct (find_byte "?" t) as [i|] eqn:Hi.
  - destruct (target_parts_query _ _ _ _ Hi Ht) as (-> & -> & _).
    destruct (target_parts_query _ _ _ _ Hi Ht') as (-> & -> & _). naive_solver.
  - apply find_byte_None in Hi. destruct (target_parts_no_query _ _ _ Hi Ht) as (-> & ->).
    destruct (target_parts_no_query _ _ _ Hi Ht') as (-> & ->). naive_solver.
Qed.

Lemma parse_outcome_det cfg s c rq rest c' rq' rest' :
  parse_outcome cfg s c rq rest → parse_outcome cfg s c' rq' rest' →
  c = c' ∧ (c = HTTP_PARSE_OK → rq = rq' ∧ rest = rest').
Proof.
  intros [rq1 r1 Hno|m p q v fs c1 i r1 Hf Hi Hp]
         [rq2 r2 Hno'|m' p' q' v' fs' c2 i' r2 Hf' Hi' Hp']; try done.
  - by edestruct Hno.
  - by edestruct Hno'.
  - rewrite Hi in Hi'. injection Hi' as <-.
    destruct (parse_fields_det _ _ _ _ _ _ _ _ _ Hp Hp') as (-> & -> & ->).
    by destruct (request_front_det _ _ _ _ _ _ _ _ _ Hf Hf') as (-> & -> & -> & ->).
Qed.
