(* ===== verification/ParserTheorems.v ===== *)
(** * What the parser guarantees

    The properties of [src/http_parse.c], on the C memory, each with a concrete
    request on which its hypotheses hold. *)
From S2P Require Import Prelude.
From S2P Require Import CLib.
From S2P Require Import Config.
From S2P Require Import HttpParse.
From S2P Require Import HttpGrammar.
From S2P Require Import HttpParseProofs.
From S2P Require Import GrammarFacts.

(** ** A concrete setting for the witnesses *)
Definition zeros (n : nat) : obj := replicate n NUL.
Definition blank_request : http_request_t :=
  HttpRequest (zeros 16) (zeros 4096) (zeros 4096) (zeros 16)
    (replicate 64 (HttpHeader (zeros 128) (zeros 4096))) 7.
Definition blank_stack : parse_stack := ParseStack (zeros 4096) (zeros 4096).
Definition sample_config : server_config_t :=
  ServerConfig 8080 10 10 (lit "public") 16384 2 128 4096.
Definition sample_request : request :=
  Request (lit "GET") (lit "/a b") (lit "x=1") (lit "HTTP/1.1")
    [(lit "Host", lit "localhost"); (lit "Accept", lit "*/*")].

Lemma blank_request_wf : wf_request blank_request.
Proof. constructor; try reflexivity. by apply Forall_replicate. Qed.
Lemma blank_stack_wf : wf_stack blank_stack.
Proof. by split. Qed.
Lemma sample_limits : limits_ok sample_config.
Proof. by constructor. Qed.
Lemma sample_fields_wf : Forall (field_wf sample_config) (rq_fields sample_request).
Proof.
  apply Forall_cons; split; [|apply Forall_cons; split; [|constructor]];
    (constructor; [decide_now|reflexivity|decide_now|reflexivity|];
     split; simpl; intros b [= <-]; decide_now).
Qed.
Lemma sample_renderable : renderable sample_config sample_request.
Proof.
  constructor; [decide_now|vm_compute; lia|by left|done|decide_now|decide_now|vm_compute; lia|].
  apply sample_fields_wf.
Qed.

(** ** The parser implements the grammar *)
Section correctness.
Context (cfg : server_config_t) (Hcfg : limits_ok cfg).
Context (stk : parse_stack) (Hstk : wf_stack stk).
Context (r : http_request_t) (Hr : wf_request r).

Lemma parse_run buffer s :
  cstr_of buffer = Some s →
  ∃ code r' rq rest, http_parse_request stk (Some buffer) (Some r) cfg ⇓ (code, Some r') ∧
    wf_request r' ∧ parse_outcome cfg s code rq rest ∧
    (code = HTTP_PARSE_OK → denotes r' rq).
Proof using Hcfg Hstk Hr.
  intros Hs.
  destruct (returns_elim _ _ (http_parse_request_refines buffer s Hs cfg Hcfg stk r Hr Hstk))
    as ([code o] & Hrun & r' & rq & rest & Ho & Hr' & Hout & Hd).
  simpl in Ho. subst o. eauto 10.
Qed.

(** C8: [http_parse_request] implements the request grammar.  On every
    NUL-terminated buffer, whatever the previous contents of the request and of
    the local arrays, it returns (no access outside an array, no loop that does
    not end) a code that the grammar gives to the string in the buffer and no
    other, and with HTTP_PARSE_OK the request in memory holds exactly the
    method, path, query, version and fields the grammar gives. *)
Theorem http_parse_request_correct buffer s :
  cstr_of buffer = Some s →
  ∃ code r', http_parse_request stk (Some buffer) (Some r) cfg ⇓ (code, Some r') ∧
    wf_request r' ∧ (∃ rq rest, parse_outcome cfg s code rq rest) ∧
    (∀ code' rq rest, parse_outcome cfg s code' rq rest →
       code' = code ∧ (code = HTTP_PARSE_OK → denotes r' rq)).
Proof using Hcfg Hstk Hr.
  intros Hs. destruct (parse_run buffer s Hs) as (code & r' & rq & rest & Hrun & Hr' & Ho & Hd).
  exists code, r'. split_and!; try done; [by exists rq, rest|].
  intros code' rq' rest' Ho'.
  destruct (parse_outcome_det _ _ _ _ _ _ _ _ Ho Ho') as [-> Heq].
  split; [done|]. intros Hok. destruct (Heq Hok) as [<- _]. by apply Hd.
Qed.

(** C11: an accepted request is well formed: a token method, an absolute path
    without control characters, at most http_max_headers fields, each with a
    token name and a trimmed value within the configured lengths. *)
Theorem http_parse_request_accepted_wf buffer s r' :
  cstr_of buffer = Some s →
  http_parse_request stk (Some buffer) (Some r) cfg ⇓ (HTTP_PARSE_OK, Some r') →
  ∃ rq, denotes r' rq ∧ request_wf cfg rq.
Proof using Hcfg Hstk Hr.
  intros Hs Hrun. destruct (parse_run buffer s Hs) as (code & r1 & rq & rest & Hrun' & _ & Ho & Hd).
  rewrite Hrun in Hrun'. injection Hrun' as <- <-. exists rq. split; [by apply Hd|].
  eapply parse_request_wf; [apply (lim_headers _ Hcfg)|done].
Qed.

(** C10: a request rendered as a message is parsed back to itself, when it has
    at most http_max_headers fields; with more fields the parser answers
    HTTP_PARSE_HEADERS_TOO_LARGE. *)
Theorem http_parse_request_roundtrip rq junk :
  renderable cfg rq →
  ∃ code r', http_parse_request stk (Some (render rq ++ NUL :: junk)) (Some r) cfg
               ⇓ (code, Some r') ∧
    (Z.of_nat (length (rq_fields rq)) <= http_max_headers cfg →
       code = HTTP_PARSE_OK ∧ denotes r' rq) ∧
    (http_max_headers cfg < Z.of_nat (length (rq_fields rq)) →
       code = HTTP_PARSE_HEADERS_TOO_LARGE).
Proof using Hcfg Hstk Hr.
  intros Hq. pose proof (cstr_of_app (render rq) junk (render_no_nul _ _ Hq)) as Hs.
  destruct (parse_run _ _ Hs) as (code & r' & rq1 & rest1 & Hrun & _ & Ho & Hd).
  exists code, r'. split; [done|].
  destruct (render_front _ _ Hq) as [Hi Hf].
  destruct (parse_fields_render cfg 0 (rq_fields rq) [] (rd_fields _ _ Hq))
    as (fs & c & rest & Hp & Hok & Hmany).
  assert (parse_outcome cfg (render rq) c
    (Request (rq_method rq) (rq_path rq) (rq_query rq) (rq_version rq) fs) rest) as Ho'.
  { eapply outcome_fields; [done|done|]. unfold render at 1.
    rewrite drop_app_add. change (drop 2 (CRLF ++ ?x)) with x. by rewrite app_nil_r in Hp. }
  destruct (parse_outcome_det _ _ _ _ _ _ _ _ Ho Ho') as [-> Heq]. split; intros Hlen.
  - destruct Hok as (-> & -> & _); [lia|]. destruct Heq as [-> _]; [done|].
    split; [done|]. specialize (Hd eq_refl). by destruct rq.
  - apply Hmany; [lia|]. pose proof (lim_headers _ Hcfg). lia.
Qed.
End correctness.

(** C12: framing.  The request length that [http_find_header_end] computes on the
    connection buffer is the length of the message the parser accepts: an
    accepted request of that length holds no NUL and ends, at the first empty
    line, exactly where the next request of the buffer begins. *)
Theorem parse_matches_header_end cfg stk r r' buffer used n :
  limits_ok cfg → wf_stack stk → wf_request r →
  0 <= used <= Z.of_nat (length buffer) → used < 2 ^ 64 →
  http_find_header_end buffer used ⇓ Some n →
  http_parse_request stk (Some (take n buffer ++ [NUL])) (Some r) cfg
    ⇓ (HTTP_PARSE_OK, Some r') →
  ∃ rq, denotes r' rq ∧ parse_request cfg (take n buffer) rq CRLF.
Proof.
  intros Hcfg Hstk Hr Hused H64 Hend Hrun.
  rewrite <- (Z2Nat.id used) in Hend by lia.
  rewrite (http_find_header_end_spec buffer (Z.to_nat used)) in Hend by lia.
  injection Hend as Hend. apply fmap_Some in Hend as (j & Hj & ->).
  assert (take (j + 4) (take (Z.to_nat used) buffer) = take (j + 4) buffer) as Htk.
  { apply find_sub_split in Hj as Hsp. apply (f_equal length) in Hsp.
    apply find_sub_Some in Hj as (_ & Hj & _).
    rewrite !length_app, !length_take, length_drop in Hsp. rewrite length_take in *. simpl in Hsp.
    rewrite take_take. f_equal. lia. }
  destruct (cstr_of_snoc (take (j + 4) buffer)) as (s & Hs & _).
  destruct (parse_run cfg Hcfg stk Hstk r Hr _ _ Hs) as (c & r1 & rq & rest & Hrun' & _ & Ho & Hd).
  rewrite Hrun in Hrun'. injection Hrun' as <- <-.
  rewrite <- Htk in Hs. destruct (parse_request_exact _ _ _ _ _ _ Hj Hs Ho) as [-> ->].
  rewrite Htk in Ho. exists rq. split; [by apply Hd|done].
Qed.

(** C26: [http_find_header_end] returns the offset just after the first CRLF CRLF
    of the first [length] bytes, and NULL exactly when there is none; it reads
    nothing beyond these bytes. *)
Theorem http_find_header_end_first buffer used :
  0 <= used <= Z.of_nat (length buffer) → used < 2 ^ 64 →
  ∃ o, http_find_header_end buffer used ⇓ o ∧
    match o with
    | Some n => (4 ≤ n)%nat ∧ Z.of_nat n <= used ∧
        slice buffer (n - 4) 4 ⇓ [CR; LF; CR; LF] ∧
        ∀ j, (j + 4 < n)%nat → ¬ [CR; LF; CR; LF] `prefix_of` drop j buffer
    | None => ∀ j, Z.of_nat j + 4 <= used → ¬ [CR; LF; CR; LF] `prefix_of` drop j buffer
    end.
Proof.
  intros Hused H64.
  replace (http_find_header_end buffer used)
    with (http_find_header_end buffer (Z.of_nat (Z.to_nat used))) by (f_equal; lia).
  rewrite (http_find_header_end_spec buffer (Z.to_nat used)) by lia.
  eexists. split; [done|]. destruct (find_sub CRLF2 _) as [j|] eqn:Hj; simpl.
  - apply find_sub_split in Hj as Hsp. apply (f_equal length) in Hsp.
    apply find_sub_Some in Hj as (Hp & Hjl & Hmin).
    rewrite !length_app, !length_take, length_drop in Hsp. rewrite length_take in *. simpl in Hsp.
    split_and!; [lia|lia| |].
    + unfold slice. rewrite decide_True by lia. replace (j + 4 - 4)%nat with j by lia.
      destruct Hp as [k Hk]. rewrite skipn_firstn_comm in Hk.
      apply (f_equal (take 4)) in Hk. rewrite take_take in Hk.
      rewrite Nat.min_l in Hk by lia. by rewrite Hk.
    + intros i Hi Hpi. apply (Hmin i); [lia|]. by apply prefix_drop_take; [|simpl; lia].
  - intros i Hi Hpi. apply find_sub_None with (j := i) in Hj; [|rewrite length_take; lia].
    apply Hj. by apply prefix_drop_take; [|simpl; lia].
Qed.

(** C25: percent-decoding.  Whenever the escapes are well formed and the result
    fits, [http_decode_path] decodes; in particular it inverts percent-encoding
    for every path without control characters, including those with "%", "?",
    spaces and bytes above 127, and answers -1 when the path does not fit. *)
Theorem http_decode_path_inverts_encoding p junk decoded :
  Forall path_octet p →
  0 < Z.of_nat (length decoded) < 2 ^ 64 →
  ∃ r d, http_decode_path (pct_encode p ++ NUL :: junk) decoded (Z.of_nat (length decoded))
           ⇓ (r, d) ∧ length d = length decoded ∧
    ((length p < length decoded)%nat → r = 0 ∧ cstr_of d = Some p) ∧
    ((length decoded ≤ length p)%nat → r = -1).
Proof.
  intros Hp Hl. destruct (pct_encode_chars p) as (_ & _ & _ & Hn).
  pose proof (http_decode_path_spec _ _ (cstr_of_app _ junk Hn) decoded _ Hl eq_refl) as H.
  apply returns_elim in H as ([r d] & Hrun & Hd & Hm).
  exists r, d. rewrite pct_decode_encode in Hm by done.
  unfold decoded_fits in Hm. simpl in Hm.
  split_and!; try done; intros Hlt.
  - by rewrite decide_True in Hm by lia.
  - by rewrite decide_False in Hm by lia.
Qed.

(** C27: [http_get_header] returns the value of the first stored field whose name
    equals the given one up to letter case, and NULL exactly when no stored field
    has that name. *)
Theorem http_get_header_first r fs name_o name :
  fields_stored r fs → cstr_of name_o = Some name →
  ∃ o, http_get_header r name_o ⇓ o ∧
    match o with
    | Some ov => ∃ i f, fs !! i = Some f ∧ ci_eq f.1 name ∧ cstr_of ov = Some f.2 ∧
        ∀ j g, (j < i)%nat → fs !! j = Some g → ¬ ci_eq g.1 name
    | None => ∀ j g, fs !! j = Some g → ¬ ci_eq g.1 name
    end.
Proof.
  intros Hfs Hn. destruct (http_get_header_spec r fs Hfs name_o name Hn) as (o & Ho & Hm).
  exists o. split; [done|]. unfold field_value in Hm.
  destruct (list_find _ fs) as [[i f]|] eqn:E; simpl in Hm.
  - destruct Hm as (ov & -> & Hov). apply list_find_Some in E as (Hi & Hc & Hmin).
    exists i, f. split_and!; try done. intros j g Hj Hg. by eapply Hmin.
  - subst o. apply list_find_None in E. rewrite Forall_lookup in E. done.
Qed.

(** ** Witnesses *)
Definition sample_buffer : obj := render sample_request ++ [NUL].
Definition sample_result : outcome (Z * option http_request_t) :=
  http_parse_request blank_stack (Some sample_buffer) (Some blank_request) sample_config.
Definition sample_parsed : http_request_t :=
  match sample_result with Ret (_, Some r) => r | _ => blank_request end.

Lemma http_parse_request_correct_witness :
  cstr_of sample_buffer = Some (render sample_request) ∧
  ∃ code r', sample_result ⇓ (code, Some r') ∧
    wf_request r' ∧ (∃ rq rest, parse_outcome sample_config (render sample_request) code rq rest) ∧
    (∀ code' rq rest, parse_outcome sample_config (render sample_request) code' rq rest →
       code' = code ∧ (code = HTTP_PARSE_OK → denotes r' rq)).
Proof.
  split; [reflexivity|].
  exact (http_parse_request_correct sample_config sample_limits blank_stack blank_stack_wf
    blank_request blank_request_wf sample_buffer _ eq_refl).
Defined.

Lemma http_parse_request_accepted_wf_witness :
  ∃ rq, denotes sample_parsed rq ∧ request_wf sample_config rq.
Proof.
  apply (http_parse_request_accepted_wf sample_config sample_limits blank_stack blank_stack_wf
    blank_request blank_request_wf sample_buffer (render sample_request) sample_parsed).
  - reflexivity.
  - vm_compute. reflexivity.
Defined.

Lemma http_parse_request_roundtrip_witness :
  ∃ code r', sample_result ⇓ (code, Some r') ∧ code = HTTP_PARSE_OK ∧ denotes r' sample_request.
Proof.
  destruct (http_parse_request_roundtrip sample_config sample_limits blank_stack blank_stack_wf
    blank_request blank_request_wf sample_request [] sample_renderable)
    as (code & r' & Hrun & Hok & _).
  exists code, r'. split; [exact Hrun|]. apply Hok. vm_compute. discriminate.
Defined.

(** A second request waits in the buffer behind the first one. *)
Definition sample_pipeline : obj := render sample_request ++ render sample_request.

Lemma parse_matches_header_end_witness :
  ∃ rq, denotes sample_parsed rq ∧
    parse_request sample_config (take (length (render sample_request)) sample_pipeline) rq CRLF.
Proof.
  apply (parse_matches_header_end sample_config blank_stack blank_request sample_parsed
    sample_pipeline (Z.of_nat (length sample_pipeline))).
  - exact sample_limits.
  - exact blank_stack_wf.
  - exact blank_request_wf.
  - vm_compute. split; discriminate.
  - vm_compute. reflexivity.
  - vm_compute. reflexivity.
  - vm_compute. reflexivity.
Defined.

Lemma http_find_header_end_first_witness :
  ∃ o, http_find_header_end sample_pipeline 60 ⇓ o ∧
    match o with
    | Some n => (4 ≤ n)%nat ∧ Z.of_nat n <= 60 ∧
        slice sample_pipeline (n - 4) 4 ⇓ [CR; LF; CR; LF] ∧
        ∀ j, (j + 4 < n)%nat → ¬ [CR; LF; CR; LF] `prefix_of` drop j sample_pipeline
    | None => ∀ j, Z.of_nat j + 4 <= 60 → ¬ [CR; LF; CR; LF] `prefix_of` drop j sample_pipeline
    end.
Proof.
  apply http_find_header_end_first; [vm_compute; split; discriminate|reflexivity].
Defined.

Lemma http_decode_path_inverts_encoding_witness :
  ∃ r d, http_decode_path (pct_encode (lit "/a b%?") ++ [NUL]) (zeros 8) 8 ⇓ (r, d) ∧
    r = 0 ∧ cstr_of d = Some (lit "/a b%?").
Proof.
  destruct (http_decode_path_inverts_encoding (lit "/a b%?") [] (zeros 8))
    as (r & d & Hrun & _ & Hok & _); [decide_now|vm_compute; split; reflexivity|].
  exists r, d. split; [exact Hrun|]. apply Hok. vm_compute. lia.
Defined.

Lemma http_get_header_first_witness :
  ∃ o, http_get_header sample_parsed (lit0 "accept") ⇓ o ∧
    match o with
    | Some ov => ∃ i f, rq_fields sample_request !! i = Some f ∧
        ci_eq f.1 (lit "accept") ∧ cstr_of ov = Some f.2 ∧
        ∀ j g, (j < i)%nat → rq_fields sample_request !! j = Some g → ¬ ci_eq g.1 (lit "accept")
    | None => ∀ j g, rq_fields sample_request !! j = Some g → ¬ ci_eq g.1 (lit "accept")
    end.
Proof.
  apply http_get_header_first; [|reflexivity].
  split; [vm_compute; reflexivity|].
  vm_compute. repeat constructor.
Defined.
