(* ===== verification/Kernel.v ===== *)
(** * Operating-system interface

    The calls the server makes into the C allocator and the kernel are not code
    of the server: they are the operations of a class [Kernel] over an abstract
    state [W], of which the process observes a view (bytes put on the wire and
    taken from it, open descriptors and their contents, live heap blocks, answers
    of the file system).
    [KernelLaws] states the documented effect of each operation on the view, for
    every return value the documentation allows; [fair_budget] bounds
    the interruptions and the client's input, and [reliable] says that memory and
    transfers do not fail.  Programs run in the monad [M], which
    threads [errno] and the kernel state. *)
From S2P Require Import Prelude.
From S2P Require Import CLib.

(** ** Constants *)
Definition EPERM : Z := 1.
Definition ENOENT : Z := 2.
Definition EINTR : Z := 4.
Definition EAGAIN : Z := 11.
Definition EWOULDBLOCK : Z := 11.
Definition EACCES : Z := 13.
Definition EXDEV : Z := 18.
Definition EINVAL : Z := 22.
Definition ELOOP : Z := 40.

(** [struct open_how] of openat2. *)
Record open_how := OpenHow { how_flags : Z; how_resolve : Z }.
(** A call of openat2: directory, path, how. *)
Record open_call := OpenCall { oc_dir : Z; oc_path : list byte; oc_how : open_how }.
Record stat := Stat { st_mode : Z; st_size : Z }.

(** What the file system told the process: a call of openat2 gave a descriptor of
    a file with some contents, or an error; fstat gave the type and size of a
    descriptor's file, or an error. *)
Inductive file_event :=
  | Opened (c : open_call) (fd : Z) (content : list byte)
  | Refused (c : open_call) (errno : Z)
  | Examined (fd : Z) (st : stat)
  | Unexamined (fd : Z) (errno : Z).

(** ** The observable state *)
Record kview := KView {
  kv_out : list (Z * byte);          (* bytes accepted for sending, per socket, in order *)
  kv_in : list (Z * option byte);    (* bytes received, per socket, in order; None: the end *)
  kv_fds : gmap Z (list byte);       (* open descriptors; the contents of the files *)
  kv_heap : gset Z;                  (* live heap blocks *)
  kv_files : list file_event         (* what openat2 and fstat returned, in order *)
}.

Definition push_out (fd : Z) (bs : list byte) (v : kview) : kview :=
  KView (kv_out v ++ (pair fd <$> bs)) (kv_in v) (kv_fds v) (kv_heap v) (kv_files v).
(** What a receive that returned [bs] tells: bytes, or the end of the input. *)
Definition heard (bs : list byte) : list (option byte) :=
  match bs with [] => [None] | _ => Some <$> bs end.
Definition push_in (fd : Z) (bs : list byte) (v : kview) : kview :=
  KView (kv_out v) (kv_in v ++ (pair fd <$> heard bs)) (kv_fds v) (kv_heap v) (kv_files v).
Definition set_fds (fds : gmap Z (list byte)) (v : kview) : kview :=
  KView (kv_out v) (kv_in v) fds (kv_heap v) (kv_files v).
Definition set_heap (h : gset Z) (v : kview) : kview :=
  KView (kv_out v) (kv_in v) (kv_fds v) h (kv_files v).
Definition log_files (l : list file_event) (v : kview) : kview :=
  KView (kv_out v) (kv_in v) (kv_fds v) (kv_heap v) (kv_files v ++ l).

Definition fd_content (fd : Z) (v : kview) : list byte := default [] (kv_fds v !! fd).

Inductive sysret := SysOk (n : Z) | SysErr (e : Z).
Definition S_IFMT : Z := 61440.
Definition S_ISREG (m : Z) : bool := Z.land m S_IFMT =? 32768.
Definition S_ISDIR (m : Z) : bool := Z.land m S_IFMT =? 16384.

(** [k_local tag n]: the initial contents of a local array of [n] bytes. *)
Class Kernel (W : Type) := {
  k_view : W → kview;
  k_local : nat → nat → W → list byte;
  k_malloc : Z → W → option (Z * list byte) * W;
  k_free : Z → W → W;
  k_send : Z → list byte → W → sysret * W;
  k_sendfile : Z → Z → Z → Z → W → sysret * W;
  k_recv : Z → Z → W → (list byte + Z) * W;
  k_openat2 : Z → list byte → open_how → W → sysret * W;
  k_fstat : Z → W → (stat + Z) * W;
  k_close : Z → W → sysret * W
}.

Class KernelLaws (W : Type) `{K : Kernel W} : Prop := {
  local_law tag n w : length (k_local tag n w) = n;
  malloc_law n w r w' : k_malloc n w = (r, w') →
    match r with
    | Some (b, data) => (b ∉ kv_heap (k_view w)) ∧ length data = Z.to_nat n ∧
        k_view w' = set_heap ({[b]} ∪ kv_heap (k_view w)) (k_view w)
    | None => k_view w' = k_view w
    end;
  free_law b w : k_view (k_free b w) = set_heap (kv_heap (k_view w) ∖ {[b]}) (k_view w);
  send_law fd bs w r w' : k_send fd bs w = (r, w') →
    match r with
    | SysOk n => 0 <= n <= Z.of_nat (length bs) ∧
        k_view w' = push_out fd (take (Z.to_nat n) bs) (k_view w)
    | SysErr _ => k_view w' = k_view w
    end;
  sendfile_law fd file off count w r w' : k_sendfile fd file off count w = (r, w') →
    match r with
    | SysOk n => 0 <= n <= count ∧
        let bs := take (Z.to_nat n) (drop (Z.to_nat off) (fd_content file (k_view w))) in
        Z.of_nat (length bs) = n ∧ k_view w' = push_out fd bs (k_view w)
    | SysErr _ => k_view w' = k_view w
    end;
  recv_law fd cap w r w' : k_recv fd cap w = (r, w') →
    match r with
    | inl bs => Z.of_nat (length bs) <= cap ∧ k_view w' = push_in fd bs (k_view w)
    | inr _ => k_view w' = k_view w
    end;
  openat2_law dir path how w r w' : k_openat2 dir path how w = (r, w') →
    match r with
    | SysOk fd => 0 <= fd ∧ kv_fds (k_view w) !! fd = None ∧
        ∃ content, k_view w' = log_files [Opened (OpenCall dir path how) fd content]
          (set_fds (<[fd := content]> (kv_fds (k_view w))) (k_view w))
    | SysErr e => k_view w' = log_files [Refused (OpenCall dir path how) e] (k_view w)
    end;
  fstat_law fd w r w' : k_fstat fd w = (r, w') →
    match r with
    | inl st => k_view w' = log_files [Examined fd st] (k_view w) ∧ 0 <= st_size st < 2 ^ 63 ∧
        (S_ISREG (st_mode st) = true → st_size st = Z.of_nat (length (fd_content fd (k_view w))))
    | inr e => k_view w' = log_files [Unexamined fd e] (k_view w)
    end;
  close_law fd w r w' : k_close fd w = (r, w') →
    k_view w' = set_fds (delete fd (kv_fds (k_view w))) (k_view w)
}.

(** The outside world interrupts a call, or delivers input, only so many times,
    and its files are only so long: [budget] bounds what is left, and no call
    increases it. *)
Record fair_budget {W : Type} `{K : Kernel W} (budget : W → nat) : Prop := {
  malloc_fair n w : (budget (k_malloc n w).2 ≤ budget w)%nat;
  free_fair b w : (budget (k_free b w) ≤ budget w)%nat;
  send_fair fd bs w :
    (budget (k_send fd bs w).2 ≤ budget w)%nat ∧
    ((k_send fd bs w).1 = SysErr EINTR → (budget (k_send fd bs w).2 < budget w)%nat);
  sendfile_fair fd file off count w :
    (budget (k_sendfile fd file off count w).2 ≤ budget w)%nat ∧
    ((k_sendfile fd file off count w).1 = SysErr EINTR →
       (budget (k_sendfile fd file off count w).2 < budget w)%nat);
  recv_fair fd cap w :
    (budget (k_recv fd cap w).2 ≤ budget w)%nat ∧
    ((k_recv fd cap w).1 = inr EINTR ∨ (∃ b bs, (k_recv fd cap w).1 = inl (b :: bs)) →
       (budget (k_recv fd cap w).2 < budget w)%nat);
  openat2_fair dir path how w :
    (budget (k_openat2 dir path how w).2 ≤ budget w)%nat ∧
    (∀ fd, (k_openat2 dir path how w).1 = SysOk fd →
       (length (fd_content fd (k_view (k_openat2 dir path how w).2)) ≤ budget w)%nat);
  fstat_fair fd w : (budget (k_fstat fd w).2 ≤ budget w)%nat;
  close_fair fd w : (budget (k_close fd w).2 ≤ budget w)%nat
}.

(** A kernel that never runs short: memory is there, a non-empty send or the rest
    of a file makes progress, and no transfer fails but by an interruption. *)
Record reliable (W : Type) `{K : Kernel W} : Prop := {
  malloc_reliable n w : 0 < n → (k_malloc n w).1 ≠ None;
  send_reliable fd bs w : bs ≠ [] →
    match (k_send fd bs w).1 with SysOk n => 0 < n | SysErr e => e = EINTR end;
  sendfile_reliable fd file off count w :
    0 <= off < Z.of_nat (length (fd_content file (k_view w))) → 0 < count →
    match (k_sendfile fd file off count w).1 with SysOk n => 0 < n | SysErr e => e = EINTR end;
  recv_reliable fd cap w : 0 < cap →
    match (k_recv fd cap w).1 with inl _ => True | inr e => e = EINTR end
}.
Definition faulty (W : Type) `{K : Kernel W} : Prop := ¬ reliable W.

(** ** Programs *)
Record proc (W : Type) := Proc { p_errno : Z; p_kernel : W }.
Arguments Proc {W} _ _.
Arguments p_errno {W} _.
Arguments p_kernel {W} _.

Definition M (W A : Type) : Type := proc W → outcome (A * proc W).

#[export] Instance M_ret {W} : MRet (M W) := λ A a p, Ret (a, p).
#[export] Instance M_bind {W} : MBind (M W) := λ A B f m p,
  match m p with
  | Ret (a, p) => f a p
  | UB => UB
  | OutOfFuel => OutOfFuel
  end.

(** Computations on memory only. *)
Definition lift {W A} (o : outcome A) : M W A := λ p,
  match o with Ret a => Ret (a, p) | UB => UB | OutOfFuel => OutOfFuel end.
Definition undefined {W A} : M W A := λ _, UB.
Definition out_of_fuel {W A} : M W A := λ _, OutOfFuel.
(** Dereference of a pointer. *)
Definition deref {W A} (ptr : option A) : M W A :=
  match ptr with Some a => mret a | None => undefined end.

Definition get_errno {W} : M W Z := λ p, Ret (p_errno p, p).
Definition set_errno {W} (e : Z) : M W unit := λ p, Ret (tt, Proc e (p_kernel p)).

(** A heap block: its identity and its contents. *)
Record block := Block { blk_id : Z; blk_data : obj }.

Section syscalls.
Context {W : Type} `{K : Kernel W}.

Definition view (p : proc W) : kview := k_view (p_kernel p).

(** The C wrapper of a system call: -1 and [errno] on failure. *)
Definition syscall (f : W → sysret * W) : M W Z := λ p,
  match f (p_kernel p) with
  | (SysOk n, w) => Ret (n, Proc (p_errno p) w)
  | (SysErr e, w) => Ret (-1, Proc e w)
  end.

Definition sys_send (fd : Z) (bs : list byte) : M W Z := syscall (k_send fd bs).
(** [sendfile] also advances [*offset] by the count it returns. *)
Definition sys_sendfile (out file offset count : Z) : M W (Z * Z) :=
  n ← syscall (k_sendfile out file offset count);
  mret (n, if n <? 0 then offset else offset + n).
Definition sys_openat2 (dir : Z) (path : list byte) (how : open_how) : M W Z :=
  syscall (k_openat2 dir path how).
Definition sys_close (fd : Z) : M W Z := syscall (k_close fd).

Definition sys_recv (fd cap : Z) : M W (Z * list byte) := λ p,
  match k_recv fd cap (p_kernel p) with
  | (inl bs, w) => Ret ((Z.of_nat (length bs), bs), Proc (p_errno p) w)
  | (inr e, w) => Ret ((-1, []), Proc e w)
  end.
Definition sys_fstat (fd : Z) : M W (option stat) := λ p,
  match k_fstat fd (p_kernel p) with
  | (inl st, w) => Ret (Some st, Proc (p_errno p) w)
  | (inr e, w) => Ret (None, Proc e w)
  end.

Definition local_array (tag n : nat) : M W obj := λ p, Ret (k_local tag n (p_kernel p), p).

(** The allocator: [free] of a block that is not live is undefined, [free] of
    NULL does nothing. *)
Definition c_malloc (n : Z) : M W (option block) := λ p,
  match k_malloc n (p_kernel p) with
  | (Some (b, data), w) => Ret (Some (Block b data), Proc (p_errno p) w)
  | (None, w) => Ret (None, Proc (p_errno p) w)
  end.
Definition c_free (ptr : option block) : M W unit := λ p,
  match ptr with
  | None => Ret (tt, p)
  | Some b =>
    if decide (blk_id b ∈ kv_heap (view p))
    then Ret (tt, Proc (p_errno p) (k_free (blk_id b) (p_kernel p))) else UB
  end.
End syscalls.

(** ** Weakest preconditions

    [wpg F m Q p]: run from [p], [m] does not execute an undefined operation; if
    it returns, [Q] holds; [F] is what exhausting the fuel is taken for.  [wlp]
    is partial ([F] is [True]), [wp] is total ([F] is [False]). *)
Definition wpg {W A} (F : Prop) (m : M W A) (Q : A → proc W → Prop) (p : proc W) : Prop :=
  match m p with
  | Ret (a, p) => Q a p
  | UB => False
  | OutOfFuel => F
  end.
Abbreviation wlp := (wpg True).
Abbreviation wp := (wpg False).

Section wp_rules.
Context {W : Type} (F : Prop).
Context {A B : Type}.

Lemma wpg_ret (a : A) (Q : A → proc W → Prop) p : Q a p → wpg F (mret a) Q p.
Proof. done. Qed.

Lemma wpg_bind (m : M W A) (f : A → M W B) (Q : B → proc W → Prop) p :
  wpg F m (λ a, wpg F (f a) Q) p → wpg F (m ≫= f) Q p.
Proof. unfold wpg, mbind, M_bind. destruct (m p) as [[]| |]; done. Qed.

Lemma wpg_mono (m : M W A) (P Q : A → proc W → Prop) p :
  wpg F m P p → (∀ a p', P a p' → Q a p') → wpg F m Q p.
Proof. unfold wpg. destruct (m p) as [[]| |]; auto. Qed.

Lemma wpg_lift (o : outcome A) (Q : A → proc W → Prop) p :
  returns o (λ a, Q a p) → wpg F (lift o) Q p.
Proof. unfold wpg, lift. by destruct o. Qed.

Lemma wpg_deref (a : A) (Q : A → proc W → Prop) p : Q a p → wpg F (deref (Some a)) Q p.
Proof. done. Qed.

Lemma wpg_elim (m : M W A) Q p : wpg F m Q p → (∃ a p', m p ⇓ (a, p') ∧ Q a p') ∨ F.
Proof. unfold wpg. destruct (m p) as [[a p']| |]; eauto 10. done. Qed.
End wp_rules.

Lemma wp_elim {W A} (m : M W A) Q p : wp m Q p → ∃ a p', m p ⇓ (a, p') ∧ Q a p'.
Proof. intros [?|[]]%wpg_elim. done. Qed.

Lemma wpg_get_errno {W} F (Q : Z → proc W → Prop) p : Q (p_errno p) p → wpg F get_errno Q p.
Proof. done. Qed.
Lemma wpg_set_errno {W} F e (Q : unit → proc W → Prop) p :
  Q tt (Proc e (p_kernel p)) → wpg F (set_errno e) Q p.
Proof. done. Qed.

Section syscall_rules.
Context {W : Type} `{K : Kernel W} {HL : KernelLaws W} (F : Prop) (B : W → nat).

(** What is left of the budget did not grow, or shrank, from [p] to [p']. *)
Definition no_more (p p' : proc W) : Prop :=
  fair_budget B → (B (p_kernel p') ≤ B (p_kernel p))%nat.
Definition fewer (p p' : proc W) : Prop :=
  fair_budget B → (B (p_kernel p') < B (p_kernel p))%nat.
(** The contents of a file opened at [p] are within the budget. *)
Definition within (p : proc W) (content : list byte) : Prop :=
  fair_budget B → (length content ≤ B (p_kernel p))%nat.
(** A loop of at most [n] rounds besides the interrupted ones has the fuel to
    end, unless running out of it is tolerated. *)
Definition enough (fuel : nat) (p : proc W) (n : Z) : Prop :=
  F ∨ (fair_budget B ∧ Z.of_nat (B (p_kernel p)) + n < Z.of_nat fuel).

#[export] Instance no_more_preorder : PreOrder no_more.
Proof.
  split; [by intros p Hf|]. intros p q r H1 H2 Hf. specialize (H1 Hf). specialize (H2 Hf). lia.
Qed.

Lemma fewer_no_more p p' : fewer p p' → no_more p p'.
Proof. unfold fewer, no_more. intros H Hf. specialize (H Hf). lia. Qed.

Lemma wpg_out_of_fuel {A} (Q : A → proc W → Prop) p n :
  0 <= n → enough 0 p n → wpg F out_of_fuel Q p.
Proof. intros Hn [HF|[_ H]]; [done|lia]. Qed.

Lemma enough_fewer fuel p p' n :
  enough (S fuel) p n → fewer p p' → enough fuel p' n.
Proof. intros [HF|[Hf H]] Hp; [by left|right]. specialize (Hp Hf). split; [done|lia]. Qed.

Lemma enough_progress fuel p p' n n' :
  enough (S fuel) p n → no_more p p' → n' < n → enough fuel p' n'.
Proof. intros [HF|[Hf H]] Hp Hn; [by left|right]. specialize (Hp Hf). split; [done|lia]. Qed.

Lemma enough_mono fuel p p' n n' :
  enough fuel p n → no_more p p' → n' <= n → enough fuel p' n'.
Proof. intros [HF|[Hf H]] Hp Hn; [by left|right]. specialize (Hp Hf). split; [done|lia]. Qed.

Lemma wpg_send fd bs (Q : Z → proc W → Prop) p :
  (∀ n p', 0 <= n <= Z.of_nat (length bs) →
     view p' = push_out fd (take (Z.to_nat n) bs) (view p) → no_more p p' →
     (n = 0 → bs ≠ [] → faulty W) → Q n p') →
  (∀ p', view p' = view p → no_more p p' → (p_errno p' = EINTR → fewer p p') →
     (p_errno p' ≠ EINTR → bs ≠ [] → faulty W) → Q (-1) p') →
  wpg F (sys_send fd bs) Q p.
Proof using HL.
  intros Hok Herr. unfold wpg, sys_send, syscall.
  destruct (k_send fd bs (p_kernel p)) as [[n|e] w'] eqn:E; pose proof (send_law _ _ _ _ _ E) as H.
  - apply Hok; try apply H.
    + intros Hf. destruct (send_fair B Hf fd bs (p_kernel p)) as [Hb _]. by rewrite E in Hb.
    + intros -> Hbs Hr. pose proof (send_reliable _ Hr fd bs (p_kernel p) Hbs) as Hn. by rewrite E in Hn.
  - apply Herr; [done|intros Hf|simpl; intros -> Hf|].
    1-2: destruct (send_fair B Hf fd bs (p_kernel p)) as [Hb Hlt]; rewrite E in *; auto.
    intros He Hbs Hr. pose proof (send_reliable _ Hr fd bs (p_kernel p) Hbs) as Hn. by rewrite E in Hn.
Qed.

Lemma wpg_openat2 dir path how (Q : Z → proc W → Prop) p :
  (∀ fd content p', 0 <= fd → kv_fds (view p) !! fd = None →
     view p' = log_files [Opened (OpenCall dir path how) fd content]
       (set_fds (<[fd := content]> (kv_fds (view p))) (view p)) →
     no_more p p' → within p content → Q fd p') →
  (∀ p', view p' = log_files [Refused (OpenCall dir path how) (p_errno p')] (view p) →
     no_more p p' → Q (-1) p') →
  wpg F (sys_openat2 dir path how) Q p.
Proof using HL.
  intros Hok Herr. unfold wpg, sys_openat2, syscall.
  destruct (k_openat2 dir path how (p_kernel p)) as [r w'] eqn:E.
  assert (∀ e, no_more p (Proc e w')) as Hb.
  { intros e Hf. destruct (openat2_fair B Hf dir path how (p_kernel p)) as [H _]. by rewrite E in H. }
  assert (∀ fd, r = SysOk fd → within p (fd_content fd (k_view w'))) as Hlen.
  { intros fd -> Hf. destruct (openat2_fair B Hf dir path how (p_kernel p)) as [_ H].
    rewrite E in H. by apply H. }
  apply openat2_law in E. destruct r as [fd|e].
  - destruct E as (? & ? & c & Hv). specialize (Hlen fd eq_refl).
    rewrite Hv in Hlen. unfold fd_content in Hlen. simpl in Hlen.
    rewrite lookup_insert_eq in Hlen. by eapply Hok.
  - by apply Herr.
Qed.

Lemma wpg_close fd (Q : Z → proc W → Prop) p :
  (∀ r p', view p' = set_fds (delete fd (kv_fds (view p))) (view p) → no_more p p' → Q r p') →
  wpg F (sys_close fd) Q p.
Proof using HL.
  intros Hok. unfold wpg, sys_close, syscall.
  destruct (k_close fd (p_kernel p)) as [r w'] eqn:E.
  assert (∀ e, no_more p (Proc e w')) as Hb.
  { intros e Hf. pose proof (close_fair B Hf fd (p_kernel p)) as H. by rewrite E in H. }
  apply close_law in E. destruct r; by apply Hok.
Qed.

Lemma wpg_fstat fd (Q : option stat → proc W → Prop) p :
  (∀ st p', view p' = log_files [Examined fd st] (view p) → no_more p p' →
     0 <= st_size st < 2 ^ 63 →
     (S_ISREG (st_mode st) = true → st_size st = Z.of_nat (length (fd_content fd (view p)))) →
     Q (Some st) p') →
  (∀ p', view p' = log_files [Unexamined fd (p_errno p')] (view p) → no_more p p' → Q None p') →
  wpg F (sys_fstat fd) Q p.
Proof using HL.
  intros Hok Herr. unfold wpg, sys_fstat.
  destruct (k_fstat fd (p_kernel p)) as [r w'] eqn:E.
  assert (∀ e, no_more p (Proc e w')) as Hb.
  { intros e Hf. pose proof (fstat_fair B Hf fd (p_kernel p)) as H. by rewrite E in H. }
  apply fstat_law in E. destruct r; [apply Hok|apply Herr]; naive_solver.
Qed.

Lemma wpg_recv fd cap (Q : Z * list byte → proc W → Prop) p :
  (∀ bs p', Z.of_nat (length bs) <= cap → view p' = push_in fd bs (view p) →
     no_more p p' → (bs ≠ [] → fewer p p') → Q (Z.of_nat (length bs), bs) p') →
  (∀ p', view p' = view p → no_more p p' → (p_errno p' = EINTR → fewer p p') →
     (p_errno p' ≠ EINTR → 0 < cap → faulty W) → Q (-1, []) p') →
  wpg F (sys_recv fd cap) Q p.
Proof using HL.
  intros Hok Herr. unfold wpg, sys_recv.
  destruct (k_recv fd cap (p_kernel p)) as [[bs|e] w'] eqn:E; pose proof (recv_law _ _ _ _ _ E) as H.
  - apply Hok; try apply H; [intros Hf|intros Hne Hf];
      destruct (recv_fair B Hf fd cap (p_kernel p)) as [Hb Hlt]; rewrite E in *; [done|].
    apply Hlt. right. destruct bs; [done|]. by eexists _, _.
  - apply Herr; [done|intros Hf|simpl; intros -> Hf|].
    1-2: destruct (recv_fair B Hf fd cap (p_kernel p)) as [Hb Hlt]; rewrite E in *; auto.
    intros He Hc Hr. pose proof (recv_reliable _ Hr fd cap (p_kernel p) Hc) as Hn. by rewrite E in Hn.
Qed.

(** There is something to send from [off] on. *)
Definition left_over (file off count : Z) (p : proc W) : Prop :=
  0 <= off < Z.of_nat (length (fd_content file (view p))) ∧ 0 < count.

Lemma wpg_sendfile out file off count (Q : Z * Z → proc W → Prop) p :
  (∀ n p', 0 <= n <= count →
     let bs := take (Z.to_nat n) (drop (Z.to_nat off) (fd_content file (view p))) in
     Z.of_nat (length bs) = n → view p' = push_out out bs (view p) → no_more p p' →
     (n = 0 → left_over file off count p → faulty W) → Q (n, off + n) p') →
  (∀ p', view p' = view p → no_more p p' → (p_errno p' = EINTR → fewer p p') →
     (p_errno p' ≠ EINTR → left_over file off count p → faulty W) → Q (-1, off) p') →
  wpg F (sys_sendfile out file off count) Q p.
Proof using HL.
  intros Hok Herr. unfold sys_sendfile. apply wpg_bind. unfold wpg at 1, syscall.
  destruct (k_sendfile out file off count (p_kernel p)) as [[n|e] w'] eqn:E;
    pose proof (sendfile_law _ _ _ _ _ _ _ E) as H; apply wpg_ret.
  - destruct H as (Hn & Hl & Hv). rewrite (proj2 (Z.ltb_ge _ _)) by lia.
    apply Hok; try done.
    + intros Hf. destruct (sendfile_fair B Hf out file off count (p_kernel p)) as [Hb _]. by rewrite E in Hb.
    + intros -> [Ho Hc] Hr. pose proof (sendfile_reliable _ Hr out file off count (p_kernel p) Ho Hc) as H0.
      by rewrite E in H0.
  - apply Herr; [done|intros Hf|simpl; intros -> Hf|].
    1-2: destruct (sendfile_fair B Hf out file off count (p_kernel p)) as [Hb Hlt]; rewrite E in *; auto.
    intros He [Ho Hc] Hr. pose proof (sendfile_reliable _ Hr out file off count (p_kernel p) Ho Hc) as H0.
    by rewrite E in H0.
Qed.

Lemma wpg_local tag n (Q : obj → proc W → Prop) p :
  (∀ o, length o = n → Q o p) → wpg F (local_array tag n) Q p.
Proof using HL. intros H. apply H, local_law. Qed.

Lemma wpg_malloc n (Q : option block → proc W → Prop) p :
  (∀ b data p', (b ∉ kv_heap (view p)) → length data = Z.to_nat n → no_more p p' →
     view p' = set_heap ({[b]} ∪ kv_heap (view p)) (view p) → Q (Some (Block b data)) p') →
  (∀ p', view p' = view p → no_more p p' → (0 < n → faulty W) → Q None p') →
  wpg F (c_malloc n) Q p.
Proof using HL.
  intros Hok Herr. unfold wpg, c_malloc.
  destruct (k_malloc n (p_kernel p)) as [r w'] eqn:E.
  assert (∀ e, no_more p (Proc e w')) as Hb.
  { intros e Hf. pose proof (malloc_fair B Hf n (p_kernel p)) as H. by rewrite E in H. }
  assert (r = None → 0 < n → faulty W) as Hfault.
  { intros -> Hn Hr. apply (malloc_reliable _ Hr n (p_kernel p) Hn). by rewrite E. }
  apply malloc_law in E. destruct r as [[b data]|]; [apply Hok|apply Herr]; naive_solver.
Qed.

Lemma wpg_free b (Q : unit → proc W → Prop) p :
  blk_id b ∈ kv_heap (view p) →
  (∀ p', no_more p p' →
     view p' = set_heap (kv_heap (view p) ∖ {[blk_id b]}) (view p) → Q tt p') →
  wpg F (c_free (Some b)) Q p.
Proof using HL.
  intros Hb Hok. unfold wpg, c_free. rewrite decide_True by done. apply Hok.
  - intros Hf. apply (free_fair B Hf).
  - apply free_law.
Qed.

Lemma wpg_free_null (Q : unit → proc W → Prop) p : Q tt p → wpg F (c_free None) Q p.
Proof. done. Qed.
End syscall_rules.

(** ** Partial and total correctness *)
Lemma wp_of_wlp {W A} (m : M W A) (Q : A → proc W → Prop) p :
  wlp m Q p → m p ≠ OutOfFuel → wp m Q p.
Proof. unfold wpg. by destruct (m p) as [[]| |]. Qed.

(** ** Sent bytes *)
Lemma push_out_nil fd v : push_out fd [] v = v.
Proof. destruct v. unfold push_out. simpl. by rewrite app_nil_r. Qed.
Lemma push_out_app fd a b v : push_out fd b (push_out fd a v) = push_out fd (a ++ b) v.
Proof. unfold push_out. simpl. by rewrite fmap_app, app_assoc. Qed.
Lemma log_files_nil v : log_files [] v = v.
Proof. destruct v. unfold log_files. simpl. by rewrite app_nil_r. Qed.
Lemma log_files_app l k v : log_files k (log_files l v) = log_files (l ++ k) v.
Proof. unfold log_files. simpl. by rewrite app_assoc. Qed.
Lemma set_fds_id v : set_fds (kv_fds v) v = v.
Proof. by destruct v. Qed.
Lemma set_heap_id v : set_heap (kv_heap v) v = v.
Proof. by destruct v. Qed.

(** The bytes sent on [fd] so far. *)
Definition sent_on (fd : Z) (v : kview) : list byte :=
  snd <$> filter (λ e, e.1 = fd) (kv_out v).

Lemma sent_on_push fd fd' bs v :
  sent_on fd (push_out fd' bs v) = sent_on fd v ++ (if decide (fd' = fd) then bs else []).
Proof.
  unfold sent_on, push_out. simpl. rewrite filter_app, fmap_app. f_equal.
  induction bs as [|b bs IH]; [by case_decide|].
  rewrite fmap_cons, filter_cons. simpl. destruct (decide (fd' = fd)); simpl; [by f_equal|done].
Qed.
