(* ===== verification/ScriptKernel.v ===== *)
(** * A concrete operating system

    An executable instance of [Kernel] that follows a script: how many bytes
    each send accepts, what each receive delivers, which files exist.  It shows
    that the laws of [KernelLaws] and the fairness of [fair_budget] can hold,
    and runs the server's code on concrete inputs.  [calm] is the same without
    failures: it is [reliable]. *)
From S2P Require Import Prelude.
From S2P Require Import CLib.
From S2P Require Import Kernel.

Record script := Script {
  sc_view : kview;
  sc_next : Z;                                (* next descriptor or block *)
  sc_modes : gmap Z Z;                        (* file type of each descriptor *)
  sc_sends : list (Z + Z);                    (* accept at most n bytes, or fail; then all *)
  sc_recvs : list (list byte + Z);            (* deliver, or fail; then end of file *)
  sc_files : list (list byte * (Z * list byte + Z));  (* mode and contents, or error *)
  sc_clients : nat;                           (* connections waiting to be accepted *)
  sc_zombies : nat                            (* children that exited, not waited for *)
}.

Definition with_view (v : kview) (w : script) : script :=
  Script v (sc_next w) (sc_modes w) (sc_sends w) (sc_recvs w) (sc_files w)
    (sc_clients w) (sc_zombies w).
Definition bump (w : script) : script :=
  Script (sc_view w) (sc_next w + 1) (sc_modes w) (sc_sends w) (sc_recvs w) (sc_files w)
    (sc_clients w) (sc_zombies w).
Definition set_sends (l : list (Z + Z)) (w : script) : script :=
  Script (sc_view w) (sc_next w) (sc_modes w) l (sc_recvs w) (sc_files w)
    (sc_clients w) (sc_zombies w).
Definition set_recvs (l : list (list byte + Z)) (w : script) : script :=
  Script (sc_view w) (sc_next w) (sc_modes w) (sc_sends w) l (sc_files w)
    (sc_clients w) (sc_zombies w).
Definition set_mode (fd m : Z) (w : script) : script :=
  Script (sc_view w) (sc_next w) (<[fd := m]> (sc_modes w)) (sc_sends w) (sc_recvs w) (sc_files w)
    (sc_clients w) (sc_zombies w).

(** Contents of uninitialised memory. *)
Definition junk (n : nat) : list byte := replicate n "Z"%byte.

Definition EMFILE : Z := 24.
Definition EBADF : Z := 9.
Definition EOVERFLOW : Z := 75.

Definition script_malloc (n : Z) (w : script) : option (Z * list byte) * script :=
  let b := sc_next w in
  if decide (b ∈ kv_heap (sc_view w)) then (None, bump w)
  else (Some (b, junk (Z.to_nat n)),
        bump (with_view (set_heap ({[b]} ∪ kv_heap (sc_view w)) (sc_view w)) w)).

(** Put at most [length bs] bytes of [bs] on the wire of [fd]. *)
Definition script_write (fd : Z) (bs : list byte) (w : script) : sysret * script :=
  match sc_sends w with
  | [] => (SysOk (Z.of_nat (length bs)), with_view (push_out fd bs (sc_view w)) w)
  | inr e :: rest => (SysErr e, set_sends rest w)
  | inl n :: rest =>
    let bs := take (Z.to_nat n) bs in
    (SysOk (Z.of_nat (length bs)), with_view (push_out fd bs (sc_view w)) (set_sends rest w))
  end.

Definition script_sendfile (fd file off count : Z) (w : script) : sysret * script :=
  if count <? 0 then (SysErr EINVAL, w)
  else script_write fd
    (take (Z.to_nat count) (drop (Z.to_nat off) (fd_content file (sc_view w)))) w.

Definition script_recv (fd cap : Z) (w : script) : (list byte + Z) * script :=
  if cap <? 0 then (inr EINVAL, w) else
  match sc_recvs w with
  | [] => (inl [], with_view (push_in fd [] (sc_view w)) w)
  | inr e :: rest => (inr e, set_recvs rest w)
  | inl bs :: rest =>
    let now := take (Z.to_nat cap) bs in
    (inl now, with_view (push_in fd now (sc_view w)) (set_recvs rest w))
  end.

Definition script_log (e : file_event) (w : script) : script :=
  with_view (log_files [e] (sc_view w)) w.

Definition script_openat2 (dir : Z) (path : list byte) (how : open_how) (w : script)
    : sysret * script :=
  let fd := sc_next w in
  let call := OpenCall dir path how in
  match snd <$> list_find (λ e, e.1 = path) (sc_files w) with
  | None => (SysErr ENOENT, script_log (Refused call ENOENT) w)
  | Some (_, inr e) => (SysErr e, script_log (Refused call e) w)
  | Some (_, inl (mode, content)) =>
    if decide (0 <= fd ∧ kv_fds (sc_view w) !! fd = None)
    then (SysOk fd, set_mode fd mode (bump (with_view (log_files [Opened call fd content]
            (set_fds (<[fd := content]> (kv_fds (sc_view w))) (sc_view w))) w)))
    else (SysErr EMFILE, script_log (Refused call EMFILE) w)
  end.

Definition script_fstat (fd : Z) (w : script) : (stat + Z) * script :=
  let size := Z.of_nat (length (fd_content fd (sc_view w))) in
  match sc_modes w !! fd with
  | Some m => if size <? 2 ^ 63 then (inl (Stat m size), script_log (Examined fd (Stat m size)) w)
              else (inr EOVERFLOW, script_log (Unexamined fd EOVERFLOW) w)
  | None => (inr EBADF, script_log (Unexamined fd EBADF) w)
  end.

Definition script_close (fd : Z) (w : script) : sysret * script :=
  (SysOk 0, with_view (set_fds (delete fd (kv_fds (sc_view w))) (sc_view w)) w).

#[export] Instance script_kernel : Kernel script := {|
  k_view := sc_view;
  k_local _ n _ := junk n;
  k_malloc := script_malloc;
  k_free b w := with_view (set_heap (kv_heap (sc_view w) ∖ {[b]}) (sc_view w)) w;
  k_send := script_write;
  k_sendfile := script_sendfile;
  k_recv := script_recv;
  k_openat2 := script_openat2;
  k_fstat := script_fstat;
  k_close := script_close
|}.

(** What a write puts on the wire. *)
Lemma script_write_spec fd bs w r w' : script_write fd bs w = (r, w') →
  match r with
  | SysOk n => 0 <= n <= Z.of_nat (length bs) ∧
      Z.of_nat (length (take (Z.to_nat n) bs)) = n ∧
      sc_view w' = push_out fd (take (Z.to_nat n) bs) (sc_view w)
  | SysErr _ => sc_view w' = sc_view w
  end.
Proof.
  unfold script_write. destruct (sc_sends w) as [|[n|e] rest]; intros [= <- <-]; simpl; [| |done].
  - rewrite Nat2Z.id, firstn_all. split; [lia|done].
  - rewrite Nat2Z.id, take_length_take, length_take. split; [lia|done].
Qed.

#[export] Instance script_laws : KernelLaws script.
Proof.
  split.
  - intros tag n w. apply length_replicate.
  - intros n w r w'. simpl. unfold script_malloc. case_decide; intros [= <- <-]; [done|].
    split_and!; [done|apply length_replicate|done].
  - done.
  - intros fd bs w r w' H%script_write_spec. destruct r; naive_solver.
  - intros fd file off count w r w'. simpl. unfold script_sendfile. split_if.
    { by intros [= <- <-]. }
    intros H%script_write_spec. destruct r as [n|]; [|done].
    rewrite length_take, length_drop in H. destruct H as (Hn & Hl & Hv).
    apply Z.ltb_ge in E. rewrite take_take, Nat.min_l in Hl, Hv by lia.
    split; [lia|done].
  - intros fd cap w r w'. simpl. unfold script_recv. split_if; [by intros [= <- <-]|].
    destruct (sc_recvs w) as [|[bs|e] rest]; intros [= <- <-]; simpl; [|..|done].
    + split; [lia|done].
    + rewrite length_take. split; [lia|done].
  - intros dir path how w r w'. simpl. unfold script_openat2.
    destruct (list_find _ _) as [[i [p [[m c]|e]]]|]; simpl; [|by intros [= <- <-]..].
    case_decide as Hfd; intros [= <- <-]; [|done]. simpl. naive_solver.
  - intros fd w r w'. simpl. unfold script_fstat.
    destruct (sc_modes w !! fd); [|by intros [= <- <-]].
    split_if; intros [= <- <-]; [|done]. apply Z.ltb_lt in E. simpl. split; [done|lia].
  - intros fd w r w'. by intros [= <- <-].
Qed.

(** The rest of the script bounds the interruptions and the input. *)
Definition recv_budget (r : list byte + Z) : nat :=
  match r with inl bs => S (length bs) | inr _ => 1 end.
Definition file_budget (f : list byte * (Z * list byte + Z)) : nat :=
  match f.2 with inl (_, content) => length content | inr _ => 0 end.
Definition script_budget (w : script) : nat :=
  length (sc_sends w) + sum_list (recv_budget <$> sc_recvs w) +
  sum_list (file_budget <$> sc_files w).

Lemma file_budget_elem files i f :
  files !! i = Some f → (file_budget f ≤ sum_list (file_budget <$> files))%nat.
Proof.
  revert i. induction files as [|g files IH]; intros [|i]; simpl; try done.
  - intros [= ->]. lia.
  - intros Hi. specialize (IH i Hi). unfold fmap in IH. lia.
Qed.

Lemma script_write_budget fd bs w :
  (script_budget (script_write fd bs w).2 ≤ script_budget w)%nat ∧
  ((script_write fd bs w).1 = SysErr EINTR →
     (script_budget (script_write fd bs w).2 < script_budget w)%nat).
Proof.
  unfold script_write, script_budget. destruct (sc_sends w) as [|[n|e] rest] eqn:E; simpl;
    rewrite ?E; simpl; split; try lia; done.
Qed.

Lemma script_fair : fair_budget script_budget.
Proof.
  split; simpl.
  - intros n w. unfold script_malloc. case_decide; unfold script_budget; simpl; lia.
  - intros b w. unfold script_budget. simpl. lia.
  - intros fd bs w. apply script_write_budget.
  - intros fd file off count w. unfold script_sendfile. split_if; [|apply script_write_budget].
    simpl. split; [lia|done].
  - intros fd cap w. unfold script_recv, script_budget. split_if.
    { simpl. split; [lia|]. intros [?|(? & ? & ?)]; simplify_eq. }
    destruct (sc_recvs w) as [|[bs|e] rest] eqn:Er; simpl; rewrite ?Er; simpl; unfold fmap;
      split; try lia; try (intros [?|(? & ? & ?)]; simplify_eq).
  - intros dir path how w. unfold script_openat2.
    destruct (list_find _ _) as [[i [q [[m c]|e]]]|] eqn:Ef; [|split; [done|done]..].
    case_decide; (split; [done|]); [|done].
    intros fd [= <-]. unfold fd_content. simpl. rewrite lookup_insert_eq. simpl.
    apply list_find_Some in Ef as (Hi & _ & _).
    pose proof (file_budget_elem (sc_files w) i _ Hi) as Hle. unfold file_budget at 1 in Hle.
    simpl in Hle. unfold script_budget. lia.
  - intros fd w. unfold script_fstat. destruct (sc_modes w !! fd); [split_if|];
      unfold script_budget; simpl; lia.
  - intros fd w. unfold script_budget. simpl. lia.
Qed.

(** A process with no file open that can open [files], follows [sends] and
    receives [recvs]. *)
Definition boot (sends : list (Z + Z)) (recvs : list (list byte + Z))
    (files : list (list byte * (Z * list byte + Z))) : proc script :=
  Proc 0 (Script (KView [] [] ∅ ∅ []) 100 ∅ sends recvs files 0 0).

(** ** A kernel that never fails
    The same, with memory always there, every write taking a byte at least, and
    interruptions for all failures of a transfer. *)
Record calm := Calm { calm_script : script }.

Definition soothe_send (s : Z + Z) : Z + Z :=
  match s with inl n => inl (Z.max 1 n) | inr _ => inr EINTR end.
Definition soothe_recv (r : list byte + Z) : list byte + Z :=
  match r with inl bs => inl bs | inr _ => inr EINTR end.
Definition soothe (w : calm) : script :=
  set_sends (soothe_send <$> sc_sends (calm_script w))
    (set_recvs (soothe_recv <$> sc_recvs (calm_script w)) (calm_script w)).
Definition calmly {R} (f : script → R * script) (w : calm) : R * calm :=
  let '(r, w) := f (soothe w) in (r, Calm w).

Definition calm_malloc (n : Z) (w : calm) : option (Z * list byte) * calm :=
  let v := sc_view (calm_script w) in
  let b := fresh (kv_heap v) in
  (Some (b, junk (Z.to_nat n)), Calm (with_view (set_heap ({[b]} ∪ kv_heap v) v) (calm_script w))).

#[export] Instance calm_kernel : Kernel calm := {|
  k_view w := sc_view (calm_script w);
  k_local _ n _ := junk n;
  k_malloc := calm_malloc;
  k_free b w := Calm (k_free b (calm_script w));
  k_send fd bs := calmly (script_write fd bs);
  k_sendfile fd file off count := calmly (script_sendfile fd file off count);
  k_recv fd cap := calmly (script_recv fd cap);
  k_openat2 dir path how := calmly (script_openat2 dir path how);
  k_fstat fd := calmly (script_fstat fd);
  k_close fd := calmly (script_close fd)
|}.

Lemma calmly_inv {R} (f : script → R * script) w r w' :
  calmly f w = (r, w') → f (soothe w) = (r, calm_script w').
Proof. unfold calmly. destruct (f (soothe w)). by intros [= <- <-]. Qed.

#[export] Instance calm_laws : KernelLaws calm.
Proof.
  split.
  - intros tag n w. apply length_replicate.
  - intros n w r w'. simpl. unfold calm_malloc. intros [= <- <-].
    split_and!; [apply is_fresh|apply length_replicate|done].
  - done.
  - intros fd bs w r w' H%calmly_inv. exact (send_law _ _ _ _ _ H).
  - intros fd file off count w r w' H%calmly_inv. exact (sendfile_law _ _ _ _ _ _ _ H).
  - intros fd cap w r w' H%calmly_inv. exact (recv_law _ _ _ _ _ H).
  - intros dir path how w r w' H%calmly_inv. exact (openat2_law _ _ _ _ _ _ H).
  - intros fd w r w' H%calmly_inv. exact (fstat_law _ _ _ _ H).
  - intros fd w r w' H%calmly_inv. exact (close_law _ _ _ _ H).
Qed.

Definition calm_budget (w : calm) : nat := script_budget (calm_script w).

Lemma soothe_budget w : script_budget (soothe w) = calm_budget w.
Proof.
  destruct w as [w]. unfold calm_budget, script_budget, soothe. simpl. rewrite length_fmap. do 2 f_equal.
  rewrite <- list_fmap_compose. f_equal. apply list_fmap_ext. by intros _ [bs|e] _.
Qed.

Lemma calmly_eq {R} (f : script → R * script) w :
  (calmly f w).1 = (f (soothe w)).1 ∧ calm_script (calmly f w).2 = (f (soothe w)).2.
Proof. unfold calmly. by destruct (f (soothe w)). Qed.

Lemma calm_fair : fair_budget calm_budget.
Proof.
  split; simpl.
  - intros n w. unfold calm_malloc, calm_budget, script_budget. simpl. lia.
  - intros b w. unfold calm_budget, script_budget. simpl. lia.
  - intros fd bs w. unfold calm_budget at 1 3. destruct (calmly_eq (script_write fd bs) w) as [-> ->].
    rewrite <- soothe_budget. apply (send_fair _ script_fair).
  - intros fd file off count w. unfold calm_budget at 1 3.
    destruct (calmly_eq (script_sendfile fd file off count) w) as [-> ->].
    rewrite <- soothe_budget. apply (sendfile_fair _ script_fair).
  - intros fd cap w. unfold calm_budget at 1 3. destruct (calmly_eq (script_recv fd cap) w) as [-> ->].
    rewrite <- soothe_budget. apply (recv_fair _ script_fair).
  - intros dir path how w. unfold calm_budget at 1.
    destruct (calmly_eq (script_openat2 dir path how) w) as [-> ->].
    rewrite <- soothe_budget. apply (openat2_fair _ script_fair).
  - intros fd w. unfold calm_budget at 1. destruct (calmly_eq (script_fstat fd) w) as [_ ->].
    rewrite <- soothe_budget. apply (fstat_fair _ script_fair).
  - intros fd w. rewrite <- (soothe_budget w). apply (close_fair _ script_fair fd (soothe w)).
Qed.

Lemma calm_write_progress fd bs w :
  bs ≠ [] →
  match (script_write fd bs (soothe w)).1 with SysOk n => 0 < n | SysErr e => e = EINTR end.
Proof.
  intros Hbs. assert (0 < length bs)%nat as Hlen by (destruct bs; [done|simpl; lia]).
  unfold script_write. destruct w as [w]. simpl. destruct (sc_sends w) as [|[n|e] rest]; simpl; [lia| |done].
  rewrite length_take. lia.
Qed.

Lemma calm_reliable : reliable calm.
Proof.
  split; simpl.
  - done.
  - intros fd bs w Hbs. destruct (calmly_eq (script_write fd bs) w) as [-> _]. by apply calm_write_progress.
  - intros fd file off count w Ho Hc. destruct (calmly_eq (script_sendfile fd file off count) w) as [-> _].
    unfold script_sendfile. rewrite (proj2 (Z.ltb_ge _ _)) by lia. apply calm_write_progress.
    intros Hnil. apply (f_equal length) in Hnil. rewrite length_take, length_drop in Hnil.
    change (sc_view (soothe w)) with (sc_view (calm_script w)) in Hnil. simpl in *. lia.
  - intros fd cap w Hc. destruct (calmly_eq (script_recv fd cap) w) as [-> _].
    unfold script_recv. rewrite (proj2 (Z.ltb_ge _ _)) by lia.
    destruct w as [w]. simpl. by destruct (sc_recvs w) as [|[|] rest].
Qed.

Definition boot_calm (sends : list (Z + Z)) (recvs : list (list byte + Z))
    (files : list (list byte * (Z * list byte + Z))) : proc calm :=
  Proc 0 (Calm (p_kernel (boot sends recvs files))).
