(* ===== verification/Mime.v ===== *)
(** * Media types ([src/mime.c]) *)
From S2P Require Import Prelude.
From S2P Require Import CLib.

Definition mime_type (path : obj) : outcome (list byte) :=
  extension ← c_strrchr path 0 ".";
  match extension with
  | None => mret (lit "application/octet-stream")
  | Some p =>
    let extension := drop p path in
    html ← str_is extension ".html";
    html ← (if (html : bool) then mret true else str_is extension ".htm");
    if (html : bool) then mret (lit "text/html") else
    css ← str_is extension ".css";
    if (css : bool) then mret (lit "text/css") else
    js ← str_is extension ".js";
    if (js : bool) then mret (lit "application/javascript") else
    json ← str_is extension ".json";
    if (json : bool) then mret (lit "application/json") else
    png ← str_is extension ".png";
    if (png : bool) then mret (lit "image/png") else
    jpg ← str_is extension ".jpg";
    jpg ← (if (jpg : bool) then mret true else str_is extension ".jpeg");
    if (jpg : bool) then mret (lit "image/jpeg") else
    gif ← str_is extension ".gif";
    if (gif : bool) then mret (lit "image/gif") else
    svg ← str_is extension ".svg";
    if (svg : bool) then mret (lit "image/svg+xml") else
    txt ← str_is extension ".txt";
    if (txt : bool) then mret (lit "text/plain") else
    mret (lit "application/octet-stream")
  end.

(** ** Specification *)
(** From the last dot on. *)
Definition extension_of (s : list byte) : option (list byte) :=
  (λ p, drop p s) <$> rfind_byte "." s.

(** The type of an extension, its dot included. *)
Definition media_type_of (e : list byte) : list byte :=
  if decide (e = lit ".html" ∨ e = lit ".htm") then lit "text/html"
  else if decide (e = lit ".css") then lit "text/css"
  else if decide (e = lit ".js") then lit "application/javascript"
  else if decide (e = lit ".json") then lit "application/json"
  else if decide (e = lit ".png") then lit "image/png"
  else if decide (e = lit ".jpg" ∨ e = lit ".jpeg") then lit "image/jpeg"
  else if decide (e = lit ".gif") then lit "image/gif"
  else if decide (e = lit ".svg") then lit "image/svg+xml"
  else if decide (e = lit ".txt") then lit "text/plain"
  else lit "application/octet-stream".

Definition media_type (s : list byte) : list byte :=
  match extension_of s with
  | Some e => media_type_of e
  | None => lit "application/octet-stream"
  end.

(** The next comparison decides the next case of the specification. *)
Ltac next_extension He :=
  match goal with
  | |- (str_is _ ?k ≫= _) ⇓ _ =>
    rewrite (str_is_spec _ _ k He) by decide_now; rewrite bind_ret_l;
    case_bool_decide; [subst; reflexivity|cbn iota]
  | |- ((if bool_decide ?P then _ else _) ≫= _) ⇓ _ =>
    case_bool_decide; [subst; reflexivity|cbn iota]
  end.

Lemma mime_type_spec path s : cstr_of path = Some s → mime_type path ⇓ media_type s.
Proof.
  intros Hs. unfold mime_type, media_type, extension_of, c_strrchr.
  rewrite (c_string_at path s) by (done || lia). rewrite !bind_ret_l, drop_0.
  destruct (rfind_byte "." s) as [p|] eqn:Hp; [|done].
  cbn [fmap option_fmap option_map Nat.add].
  assert (cstr_of (drop p path) = Some (drop p s)) as He.
  { apply cstr_of_drop; [done|].
    unfold rfind_byte in Hp. destruct (find_byte _ _); simplify_eq/=. lia. }
  set (extension := drop p path) in *. set (e := drop p s) in *. clearbody extension e.
  repeat next_extension He.
  unfold media_type_of. by rewrite !decide_False by tauto.
Qed.

Lemma elem_of_rev (c : byte) l : c ∈ rev l ↔ c ∈ l.
Proof. rewrite rev_alt. apply elem_of_reverse. Qed.
Lemma rfind_byte_last c k r : c ∉ r → rfind_byte c (k ++ c :: r) = Some (length k).
Proof.
  intros Hr. unfold rfind_byte. rewrite rev_app_distr. simpl. rewrite <- app_assoc. simpl.
  rewrite find_byte_app by (by rewrite elem_of_rev). simpl.
  rewrite length_app, length_rev. simpl. f_equal. lia.
Qed.
Lemma rfind_byte_none c l : c ∉ l → rfind_byte c l = None.
Proof.
  intros Hl. unfold rfind_byte. rewrite (proj2 (find_byte_None _ _)); [done|].
  by rewrite elem_of_rev.
Qed.

(** Every type is a field value of at most 24 octets. *)
Lemma media_type_valid s :
  Forall (λ b, 33 <= uchar b < 127) (media_type s) ∧ (0 < length (media_type s) <= 24)%nat.
Proof.
  unfold media_type. destruct (extension_of s) as [e|]; [|decide_now].
  unfold media_type_of. repeat (case_decide; [decide_now|]). decide_now.
Qed.

(** C35: the media type of a path depends on what follows its last dot only: each
    extension has its type, and a path with another extension, or none, is
    application/octet-stream.  Extensions are told apart by case. *)
Theorem mime_type_by_extension path s :
  cstr_of path = Some s →
  (∀ stem ext, s = stem ++ "."%byte :: ext → "."%byte ∉ ext → ∃ type, mime_type path ⇓ type ∧
     (ext = lit "html" ∨ ext = lit "htm" → type = lit "text/html") ∧
     (ext = lit "css" → type = lit "text/css") ∧
     (ext = lit "js" → type = lit "application/javascript") ∧
     (ext = lit "json" → type = lit "application/json") ∧
     (ext = lit "png" → type = lit "image/png") ∧
     (ext = lit "jpg" ∨ ext = lit "jpeg" → type = lit "image/jpeg") ∧
     (ext = lit "gif" → type = lit "image/gif") ∧
     (ext = lit "svg" → type = lit "image/svg+xml") ∧
     (ext = lit "txt" → type = lit "text/plain") ∧
     (ext ∉ lit <$> ["html"; "htm"; "css"; "js"; "json"; "png"; "jpg"; "jpeg"; "gif"; "svg"; "txt"]%string →
        type = lit "application/octet-stream")) ∧
  ("."%byte ∉ s → mime_type path ⇓ lit "application/octet-stream").
Proof.
  intros Hs. rewrite (mime_type_spec _ _ Hs). unfold media_type, extension_of. split.
  - intros stem ext -> Hext. rewrite rfind_byte_last by done. cbn [fmap option_fmap option_map].
    rewrite drop_app_length. eexists. split; [done|].
    split_and!; try (intros ->; reflexivity); try (intros [-> | ->]; reflexivity).
    intros Hother. rewrite !fmap_cons, fmap_nil, !not_elem_of_cons in Hother. unfold media_type_of.
    destruct_and! Hother. rewrite !decide_False; [done|..]; intros Heq;
      repeat destruct Heq as [Heq|Heq]; injection Heq as Heq;
      match goal with Hne : ext ≠ _ |- _ => by apply Hne end.
  - intros Hd. by rewrite rfind_byte_none.
Qed.

(** A style sheet whose name has several dots. *)
Lemma mime_type_by_extension_witness :
  mime_type (lit0 "/css/site.min.css") ⇓ lit "text/css".
Proof.
  destruct (proj1 (mime_type_by_extension (lit0 "/css/site.min.css") (lit "/css/site.min.css") eq_refl)
    (lit "/css/site.min") (lit "css") eq_refl ltac:(decide_now)) as (type & Hrun & _ & Hcss & _).
  rewrite <- (Hcss eq_refl). exact Hrun.
Defined.
