(* ===== verification/Io.v ===== *)
(** * Sending a whole buffer ([src/io.c]) *)
From S2P Require Import Prelude.
From S2P Require Import CLib.
From S2P Require Import Kernel.
From S2P Require Import ScriptKernel.

(** Conversion of a [size_t] to [ssize_t]. *)
Definition to_ssize (z : Z) : Z := if z <? 2 ^ 63 then z else z - 2 ^ 64.

Section io.
Context {W : Type} `{K : Kernel W}.

Fixpoint io_send_all_loop (fuel : nat) (fd : Z) (data : obj) (length total_sent : Z) : M W Z :=
  match fuel with
  | O => out_of_fuel
  | S fuel =>
    if total_sent <? length then
      chunk ← lift (slice data (Z.to_nat total_sent) (Z.to_nat (size_sub length total_sent)));
      sent ← sys_send fd chunk;
      if sent <? 0 then
        e ← get_errno;
        if e =? EINTR then io_send_all_loop fuel fd data length total_sent
        else mret (-1)
      else if sent =? 0 then mret (to_ssize total_sent)
      else io_send_all_loop fuel fd data length (size_add total_sent sent)
    else mret (to_ssize total_sent)
  end.

Definition io_send_all (fuel : nat) (fd : Z) (buffer : obj) (length : Z) : M W Z :=
  io_send_all_loop fuel fd buffer length 0.
End io.

(** ** Segments of a buffer *)
Definition seg (data : obj) (s n : Z) : list byte := take (Z.to_nat n) (drop (Z.to_nat s) data).

Lemma seg_app data s a b :
  0 <= s → 0 <= a → 0 <= b → seg data s (a + b) = seg data s a ++ seg data (s + a) b.
Proof.
  intros Hs Ha Hb. unfold seg. rewrite Z2Nat.inj_add, take_drop_app, drop_drop by done.
  by rewrite Z2Nat.inj_add by done.
Qed.
Lemma seg_split data s u e :
  0 <= s <= u → u <= e → seg data s (u - s) ++ seg data u (e - u) = seg data s (e - s).
Proof.
  intros Hs Hu. replace (e - s) with ((u - s) + (e - u)) by lia.
  rewrite seg_app by lia. by replace (s + (u - s)) with u by lia.
Qed.
Lemma seg_0 data s : seg data s 0 = [].
Proof. done. Qed.
Lemma length_seg data s n :
  0 <= s → 0 <= n → s + n <= Z.of_nat (length data) → Z.of_nat (length (seg data s n)) = n.
Proof. intros ???. unfold seg. rewrite length_take, length_drop. lia. Qed.
Lemma seg_take data s n m :
  0 <= n <= m → take (Z.to_nat n) (seg data s m) = seg data s n.
Proof. intros. unfold seg. rewrite take_take. f_equal. lia. Qed.
Lemma seg_string bs rest : seg (bs ++ rest) 0 (Z.of_nat (length bs)) = bs.
Proof. unfold seg. rewrite Nat2Z.id. apply take_app_length. Qed.

Section io_rules.
Context {W : Type} `{K : Kernel W} {HL : KernelLaws W} (F : Prop) (B : W → nat).

(** One call of [send] on what is left of a buffer. *)
Lemma wpg_send_rest {A} fd data length sent (k : Z → M W A) Q p :
  0 <= sent < length → length <= Z.of_nat (List.length data) → length < 2 ^ 63 →
  (∀ n p', 0 <= n <= length - sent → view p' = push_out fd (seg data sent n) (view p) →
     no_more B p p' → (n = 0 → faulty W) → wpg F (k n) Q p') →
  (∀ p', view p' = view p → no_more B p p' → (p_errno p' = EINTR → fewer B p p') →
     (p_errno p' ≠ EINTR → faulty W) → wpg F (k (-1)) Q p') →
  wpg F (chunk ← lift (slice data (Z.to_nat sent) (Z.to_nat (size_sub length sent)));
         n ← sys_send fd chunk; k n) Q p.
Proof using HL.
  intros Hs Hl Hb Hok Herr. rewrite size_sub_small by lia.
  apply wpg_bind, wpg_lift. unfold slice. rewrite decide_True by lia.
  change (take _ (drop _ data)) with (seg data sent (length - sent)).
  assert (seg data sent (length - sent) ≠ []) as Hne.
  { intros Hnil. apply (f_equal List.length) in Hnil.
    pose proof (length_seg data sent (length - sent) ltac:(lia) ltac:(lia)). simpl in Hnil. lia. }
  apply wpg_bind, (wpg_send F B).
  - intros n p' Hn. rewrite length_seg in Hn by lia. rewrite seg_take by lia. intros Hv Hm Hfa.
    apply Hok; [done|done|done|]. intros H0. by apply Hfa.
  - intros p' Hv Hm Hlt Hfa. apply Herr; [done..|]. intros He. by apply Hfa.
Qed.

(** The buffer from [sent] on, up to where the loop stopped. *)
Definition sent_upto (fd : Z) (data : obj) (from upto : Z) (p p' : proc W) : Prop :=
  view p' = push_out fd (seg data from (upto - from)) (view p) ∧ no_more B p p'.

Lemma sent_upto_refl fd data s p : sent_upto fd data s s p p.
Proof using Type. split; [|done]. by rewrite Z.sub_diag, seg_0, push_out_nil. Qed.

Lemma sent_upto_step fd data s n u p p1 p2 :
  0 <= s → 0 <= n → s + n <= u →
  view p1 = push_out fd (seg data s n) (view p) → no_more B p p1 →
  sent_upto fd data (s + n) u p1 p2 → sent_upto fd data s u p p2.
Proof using Type.
  intros Hs Hn Hu Hv Hb [Hv2 Hb2]. split; [|by etrans].
  rewrite Hv2, Hv, push_out_app, <- seg_app by lia. do 2 f_equal. lia.
Qed.

Lemma sent_upto_skip fd data s u p p1 p2 :
  view p1 = view p → no_more B p p1 →
  sent_upto fd data s u p1 p2 → sent_upto fd data s u p p2.
Proof using Type. intros Hv Hb [Hv2 Hb2]. split; [by rewrite Hv2, Hv|by etrans]. Qed.

Lemma io_send_all_loop_spec fuel fd data length sent p :
  0 <= sent <= length → length <= Z.of_nat (List.length data) → length < 2 ^ 63 →
  enough F B fuel p (length - sent) →
  wpg F (io_send_all_loop fuel fd data length sent) (λ r p', ∃ n,
    sent <= n <= length ∧ sent_upto fd data sent n p p' ∧
    (r = n ∨ r = -1 ∧ n < length ∧ p_errno p' ≠ EINTR) ∧ (n < length → faulty W)) p.
Proof using HL.
  intros Hs Hl Hb. revert sent p Hs. induction fuel as [|fuel IH]; intros sent p Hs Hf.
  { eapply wpg_out_of_fuel; [|done]. lia. }
  simpl. split_if; [apply Z.ltb_lt in E|apply Z.ltb_ge in E].
  2:{ apply wpg_ret. exists sent. unfold to_ssize. rewrite (proj2 (Z.ltb_lt _ _)) by lia.
      split_and!; [lia..|apply sent_upto_refl|by left|lia]. }
  apply wpg_send_rest; [lia..| |].
  - intros n p' Hn Hv Hm Hfa. rewrite (proj2 (Z.ltb_ge n 0)) by lia. split_if.
    + apply Z.eqb_eq in E0 as ->. apply wpg_ret. exists sent.
      unfold to_ssize. rewrite (proj2 (Z.ltb_lt _ _)) by lia.
      split_and!; [lia..| |by left|by intros; apply Hfa].
      eapply (sent_upto_step _ _ _ 0); [lia..|done|done|].
      rewrite Z.add_0_r. apply sent_upto_refl.
    + apply Z.eqb_neq in E0. rewrite size_add_small by lia.
      eapply wpg_mono; [apply IH; [lia|eapply enough_progress; [done..|lia]]|].
      intros r p2 (m & Hm2 & Hu & Hr). exists m. split; [lia|]. split; [|done].
      apply (sent_upto_step _ _ _ n _ _ p'); [lia..|done|done|done].
  - intros p' Hv Hm Hlt Hfa. simpl. apply wpg_bind, wpg_get_errno. split_if.
    + apply Z.eqb_eq in E0. eapply wpg_mono; [apply IH; [lia|eapply enough_fewer; eauto]|].
      intros r p2 (m & Hm2 & Hu & Hr). exists m. split; [lia|]. split; [|done].
      by eapply sent_upto_skip.
    + apply Z.eqb_neq in E0. apply wpg_ret. exists sent. split; [lia|].
      split; [|split; [by right|by intros; apply Hfa]].
      apply (sent_upto_skip _ _ _ _ _ p'); [done..|]. apply sent_upto_refl.
Qed.

Lemma io_send_all_spec fuel fd data length p :
  0 <= length <= Z.of_nat (List.length data) → length < 2 ^ 63 →
  enough F B fuel p length →
  wpg F (io_send_all fuel fd data length) (λ r p', ∃ n, 0 <= n <= length ∧
    sent_upto fd data 0 n p p' ∧ (r = n ∨ r = -1 ∧ n < length ∧ p_errno p' ≠ EINTR) ∧
    (n < length → faulty W)) p.
Proof using HL.
  intros Hl Hb Hf. apply io_send_all_loop_spec; [lia..|]. by rewrite Z.sub_0_r.
Qed.
End io_rules.

(** C24: [io_send_all] sends a prefix of the buffer, byte for byte and each byte
    once, through short writes and interruptions, and always returns: the
    number of bytes sent, or -1 after an error other than an interruption with
    part of the buffer unsent.  The result is [length] only if all was sent, and
    on a kernel whose transfers do not fail all is sent. *)
Theorem io_send_all_correct {W} `{K : Kernel W, HL : !KernelLaws W} (B : W → nat)
    fuel fd data length p :
  fair_budget B →
  0 <= length <= Z.of_nat (List.length data) → length < 2 ^ 63 →
  Z.of_nat (B (p_kernel p)) + length < Z.of_nat fuel →
  ∃ r p' n, io_send_all fuel fd data length p ⇓ (r, p') ∧ 0 <= n <= length ∧
    view p' = push_out fd (take (Z.to_nat n) data) (view p) ∧
    (r = n ∨ r = -1 ∧ n < length ∧ p_errno p' ≠ EINTR) ∧ (reliable W → r = length).
Proof.
  intros HB Hl Hb Hf.
  destruct (wp_elim _ _ _ (io_send_all_spec False B fuel fd data length p Hl Hb
    (or_intror (conj HB Hf)))) as (r & p' & Hrun & n & Hn & [Hv _] & Hr).
  destruct Hr as [Hr Hfa]. exists r, p', n. rewrite Z.sub_0_r in Hv. split_and!; try done; try lia.
  intros Hrel. destruct (decide (n < length)) as [Hlt|Hge]; [by destruct (Hfa Hlt)|lia].
Qed.

(** Seven bytes sent through a short write and interruptions, all of them. *)
Lemma io_send_all_correct_witness :
  reliable calm ∧
  ∃ r p' n, io_send_all 12 4 (lit "payload") 7 (boot_calm [inl 3; inr EINTR; inl 0] [] []) ⇓ (r, p') ∧
    0 <= n <= 7 ∧
    view p' = push_out 4 (take (Z.to_nat n) (lit "payload"))
                (view (boot_calm [inl 3; inr EINTR; inl 0] [] [])) ∧
    (r = n ∨ r = -1 ∧ n < 7 ∧ p_errno p' ≠ EINTR) ∧ (reliable calm → r = 7).
Proof.
  split; [exact calm_reliable|].
  apply (io_send_all_correct calm_budget 12 4 (lit "payload") 7 (boot_calm [inl 3; inr EINTR; inl 0] [] []));
    [exact calm_fair|simpl; lia|lia|vm_compute; reflexivity].
Defined.
