(* ===== verification/HttpResponse.v ===== *)
(** * Responses ([src/http_response.c], [include/http_response.h])

    The response under construction or being sent, its status line and
    headers, error pages, and the blocking send of headers, in-memory body and
    file. *)
From S2P Require Import Prelude.
From S2P Require Import CLib.
From S2P Require Import Kernel.
From S2P Require Import Io.

(** ** Data *)
Definition HTTP_RESPONSE_HEADER_MAX : Z := 1024.

Definition HTTP_STATUS_OK : Z := 200.
Definition HTTP_STATUS_BAD_REQUEST : Z := 400.
Definition HTTP_STATUS_FORBIDDEN : Z := 403.
Definition HTTP_STATUS_NOT_FOUND : Z := 404.
Definition HTTP_STATUS_METHOD_NOT_ALLOWED : Z := 405.
Definition HTTP_STATUS_REQUEST_HEADER_FIELDS_TOO_LARGE : Z := 431.
Definition HTTP_STATUS_INTERNAL_SERVER_ERROR : Z := 500.

(** [rs_body] is NULL or an owned heap block; [int] fields are integers. *)
Record http_response_t := HttpResponse {
  rs_headers : obj;
  rs_headers_length : Z;
  rs_headers_sent : Z;
  rs_body : option block;
  rs_body_length : Z;
  rs_body_sent : Z;
  rs_file_fd : Z;
  rs_file_size : Z;
  rs_file_offset : Z;
  rs_send_body : Z;
  rs_complete : Z
}.

Definition set_rs_headers (h : obj) (len sent : Z) (r : http_response_t) : http_response_t :=
  HttpResponse h len sent (rs_body r) (rs_body_length r) (rs_body_sent r)
    (rs_file_fd r) (rs_file_size r) (rs_file_offset r) (rs_send_body r) (rs_complete r).
Definition set_rs_body (b : option block) (len sent : Z) (r : http_response_t) : http_response_t :=
  HttpResponse (rs_headers r) (rs_headers_length r) (rs_headers_sent r) b len sent
    (rs_file_fd r) (rs_file_size r) (rs_file_offset r) (rs_send_body r) (rs_complete r).
Definition set_rs_file (fd size off : Z) (r : http_response_t) : http_response_t :=
  HttpResponse (rs_headers r) (rs_headers_length r) (rs_headers_sent r) (rs_body r)
    (rs_body_length r) (rs_body_sent r) fd size off (rs_send_body r) (rs_complete r).
Definition set_rs_flags (send_body complete : Z) (r : http_response_t) : http_response_t :=
  HttpResponse (rs_headers r) (rs_headers_length r) (rs_headers_sent r) (rs_body r)
    (rs_body_length r) (rs_body_sent r) (rs_file_fd r) (rs_file_size r) (rs_file_offset r)
    send_body complete.

(** ** Status line and headers *)
Definition http_status_reason (status : Z) : option (list byte) :=
  if status =? HTTP_STATUS_OK then Some (lit "OK")
  else if status =? HTTP_STATUS_BAD_REQUEST then Some (lit "Bad Request")
  else if status =? HTTP_STATUS_FORBIDDEN then Some (lit "Forbidden")
  else if status =? HTTP_STATUS_NOT_FOUND then Some (lit "Not Found")
  else if status =? HTTP_STATUS_METHOD_NOT_ALLOWED then Some (lit "Method Not Allowed")
  else if status =? HTTP_STATUS_INTERNAL_SERVER_ERROR then Some (lit "Internal Server Error")
  else if status =? HTTP_STATUS_REQUEST_HEADER_FIELDS_TOO_LARGE
  then Some (lit "Request Header Fields Too Large")
  else Some (lit "Unknown").

(** The text the format string produces. *)
Definition response_text (status : Z) (reason content_type : list byte)
    (content_length : Z) (connection : list byte) : list byte :=
  lit "HTTP/1.1 " ++ dec status ++ lit " " ++ reason ++ CRLF ++
  lit "Content-Type: " ++ content_type ++ CRLF ++
  lit "Content-Length: " ++ dec content_length ++ CRLF ++
  lit "Connection: " ++ connection ++ CRLF ++ CRLF.

Definition http_build_response_headers (buffer : option obj) (capacity status : Z)
    (content_type : option (list byte)) (content_length keep_alive : Z)
    : outcome (Z * option obj) :=
  match buffer, content_type with
  | Some b, Some content_type =>
    if (capacity =? 0) || (content_length <? 0) then mret (-1, buffer) else
    match http_status_reason status with
    | None => mret (-1, buffer)
    | Some reason =>
      let connection := if keep_alive =? 0 then lit "close" else lit "keep-alive" in
      '(length, b) ← c_snprintf b capacity
        (response_text status reason content_type content_length connection);
      if (length <? 0) || (capacity <=? length) then mret (-1, Some b)
      else mret (length, Some b)
    end
  | _, _ => mret (-1, buffer)
  end.

#[global] Arguments response_text : simpl never.
#[global] Arguments http_build_response_headers : simpl never.

(** ** Error pages *)
Definition http_error_page (status : Z) : option (list byte) :=
  if status =? HTTP_STATUS_BAD_REQUEST
  then Some (lit "<html><body><h1>400 Bad Request</h1></body></html>")
  else if status =? HTTP_STATUS_FORBIDDEN
  then Some (lit "<html><body><h1>403 Forbidden</h1></body></html>")
  else if status =? HTTP_STATUS_NOT_FOUND
  then Some (lit "<html><body><h1>404 Not Found</h1></body></html>")
  else if status =? HTTP_STATUS_METHOD_NOT_ALLOWED
  then Some (lit "<html><body><h1>405 Method Not Allowed</h1></body></html>")
  else if status =? HTTP_STATUS_REQUEST_HEADER_FIELDS_TOO_LARGE
  then Some (lit "<html><body><h1>431 Request Header Fields Too Large</h1></body></html>")
  else if status =? HTTP_STATUS_INTERNAL_SERVER_ERROR
  then Some (lit "<html><body><h1>500 Internal Server Error</h1></body></html>")
  else None.

Section response.
Context {W : Type} `{K : Kernel W}.

(** ** Direct sends *)
Definition http_send_response (fuel : nat) (client_fd status : Z)
    (content_type : option (list byte)) (content_length keep_alive : Z) : M W Z :=
  response ← local_array 1 1024;
  '(length, response) ← lift (http_build_response_headers (Some response) 1024 status
                                content_type content_length keep_alive);
  if length <? 0 then mret (-1) else
  response ← deref response;
  sent ← io_send_all fuel client_fd response length;
  if sent <? 0 then mret (-1)
  else if negb (sent =? length) then mret (-1)
  else mret 0.

Definition http_send_error (fuel : nat) (client_fd status keep_alive : Z) : M W Z :=
  match http_error_page status with
  | None => mret (-1)
  | Some body =>
    let body_length := Z.of_nat (length body) in
    r ← http_send_response fuel client_fd status (Some (lit "text/html")) body_length keep_alive;
    if r <? 0 then mret (-1) else
    sent ← io_send_all fuel client_fd (body ++ [NUL]) body_length;
    if sent <? 0 then mret (-1)
    else if negb (sent =? body_length) then mret (-1)
    else mret 0
  end.

Definition http_send_bad_request_message (fuel : nat) (client_fd : Z) (message : obj) : M W Z :=
  body ← local_array 2 512;
  text ← lift (c_string message 0);
  '(length, body) ← lift (c_snprintf body 512
    (lit "<html><body><h1>400 Bad Request</h1><p>" ++ text ++ lit "</p></body></html>"));
  if (length <? 0) || (512 <=? length) then mret (-1) else
  r ← http_send_response fuel client_fd HTTP_STATUS_BAD_REQUEST (Some (lit "text/html")) length 0;
  if r <? 0 then mret (-1) else
  sent ← io_send_all fuel client_fd body length;
  if sent <? 0 then mret (-1)
  else if negb (sent =? length) then mret (-1)
  else mret 0.

(** ** The response object *)
Definition http_response_init (response : option http_response_t) : option http_response_t :=
  match response with
  | None => None
  | Some _ =>
    Some (HttpResponse (replicate 1024 NUL) 0 0 None 0 0 (-1) 0 0 0 0)
  end.

Definition http_response_destroy (response : option http_response_t)
    : M W (option http_response_t) :=
  match response with
  | None => mret None
  | Some response =>
    response ← (if 0 <=? rs_file_fd response then
                  _ ← sys_close (rs_file_fd response);
                  mret (set_rs_file (-1) (rs_file_size response) (rs_file_offset response) response)
                else mret response);
    _ ← c_free (rs_body response);
    mret (Some (HttpResponse (rs_headers response) 0 0 None 0 0 (rs_file_fd response) 0 0 0 0))
  end.

Definition http_response_set_body (response : option http_response_t)
    (body : option obj) (body_length : Z) : M W (Z * option http_response_t) :=
  match response, body with
  | Some r, Some body =>
    copy ← c_malloc body_length;
    match copy with
    | None => mret (-1, response)
    | Some copy =>
      data ← lift (c_memcpy (blk_data copy) 0 body 0 (Z.to_nat body_length));
      _ ← c_free (rs_body r);
      mret (0, Some (set_rs_body (Some (Block (blk_id copy) data)) body_length 0 r))
    end
  | _, _ => mret (-1, response)
  end.

Definition http_response_prepare_error (response : option http_response_t) (status : Z)
    (message : option obj) : M W (Z * option http_response_t) :=
  match response with
  | None => mret (-1, response)
  | Some _ =>
    match http_error_page status with
    | None => mret (-1, response)
    | Some page =>
      let body := match message with Some m => m | None => page ++ [NUL] end in
      body_length ← lift (c_strlen body 0);
      let body_length := Z.of_nat body_length in
      '(c, response) ← http_response_set_body response (Some body) body_length;
      if c <? 0 then mret (-1, response) else
      r ← deref response;
      '(headers_length, headers) ← lift (http_build_response_headers (Some (rs_headers r))
          HTTP_RESPONSE_HEADER_MAX status (Some (lit "text/html")) body_length 0);
      headers ← deref headers;
      if headers_length <? 0
      then mret (-1, Some (set_rs_headers headers (rs_headers_length r) (rs_headers_sent r) r))
      else mret (0, Some (set_rs_flags 1 0 (set_rs_headers headers headers_length 0 r)))
    end
  end.

(** ** Blocking send *)
(** A loop of [send] over the region of [data] between [sent] and [length];
    it returns 0 when the region is sent and -1 on an error, with the new
    [sent]. *)
Fixpoint send_region (fuel : nat) (client_fd : Z) (data : obj) (length sent : Z) : M W (Z * Z) :=
  match fuel with
  | O => out_of_fuel
  | S fuel =>
    if sent <? length then
      chunk ← lift (slice data (Z.to_nat sent) (Z.to_nat (size_sub length sent)));
      n ← sys_send client_fd chunk;
      if n <? 0 then
        e ← get_errno;
        if e =? EINTR then send_region fuel client_fd data length sent
        else mret (-1, sent)
      else if n =? 0 then mret (-1, sent)
      else send_region fuel client_fd data length (size_add sent n)
    else mret (0, sent)
  end.

Fixpoint send_file_region (fuel : nat) (client_fd file_fd size offset : Z) : M W (Z * Z) :=
  match fuel with
  | O => out_of_fuel
  | S fuel =>
    if offset <? size then
      let remaining := size - offset in
      '(n, offset) ← sys_sendfile client_fd file_fd offset remaining;
      if n <? 0 then
        e ← get_errno;
        if e =? EINTR then send_file_region fuel client_fd file_fd size offset
        else mret (-1, offset)
      else if n =? 0 then mret (-1, offset)
      else send_file_region fuel client_fd file_fd size offset
    else mret (0, offset)
  end.

(** The contents of the body, read for sending: the block must be live. *)
Definition body_data (response : http_response_t) : M W obj :=
  match rs_body response with
  | None => mret []
  | Some b => λ p, if decide (blk_id b ∈ kv_heap (view p)) then Ret (blk_data b, p) else UB
  end.

Definition http_response_send_blocking (fuel : nat) (client_fd : Z)
    (response : option http_response_t) : M W (Z * option http_response_t) :=
  match response with
  | None => mret (-1, response)
  | Some r =>
    if negb (rs_complete r =? 0) then mret (-1, response) else
    '(c, sent) ← send_region fuel client_fd (rs_headers r) (rs_headers_length r) (rs_headers_sent r);
    let r := set_rs_headers (rs_headers r) (rs_headers_length r) sent r in
    if c <? 0 then mret (-1, Some r) else
    if rs_send_body r =? 0 then mret (0, Some (set_rs_flags (rs_send_body r) 1 r)) else
    data ← body_data r;
    '(c, sent) ← send_region fuel client_fd data (rs_body_length r) (rs_body_sent r);
    let r := set_rs_body (rs_body r) (rs_body_length r) sent r in
    if c <? 0 then mret (-1, Some r) else
    '(c, offset) ← (if 0 <=? rs_file_fd r
                    then send_file_region fuel client_fd (rs_file_fd r) (rs_file_size r) (rs_file_offset r)
                    else mret (0, rs_file_offset r));
    let r := set_rs_file (rs_file_fd r) (rs_file_size r) offset r in
    if c <? 0 then mret (-1, Some r) else
    mret (0, Some (set_rs_flags (rs_send_body r) 1 r))
  end.
End response.

#[global] Arguments http_response_set_body : simpl never.
#[global] Arguments http_response_prepare_error : simpl never.
#[global] Arguments http_response_send_blocking : simpl never.
#[global] Arguments http_response_destroy : simpl never.
