(* ===== verification/HttpResponseProofs.v ===== *)
(** * Responses: proofs

    The invariant of a response object, the bytes it still has to send, and the
    specifications of the functions of [HttpResponse]. *)
From S2P Require Import Prelude.
From S2P Require Import CLib.
From S2P Require Import Kernel.
From S2P Require Import ScriptKernel.
From S2P Require Import Io.
From S2P Require Import HttpResponse.
From S2P Require Import Config.
From S2P Require Import HttpParse.
From S2P Require Import HttpGrammar.
From S2P Require Import HttpParseProofs.
From S2P Require Import GrammarFacts.

(** ** The state of a response *)

(** The blocks and descriptors a response owns. *)
Definition owned_blocks (r : http_response_t) : gset Z :=
  match rs_body r with Some b => {[blk_id b]} | None => ∅ end.
Definition owned_fds (r : http_response_t) : gset Z :=
  if 0 <=? rs_file_fd r then {[rs_file_fd r]} else ∅.

Record wf_response (v : kview) (r : http_response_t) : Prop := {
  wr_headers : length (rs_headers r) = 1024%nat;
  wr_headers_length : 0 <= rs_headers_sent r <= rs_headers_length r ∧ rs_headers_length r <= 1024;
  wr_body : match rs_body r with
            | Some b => (blk_id b ∈ kv_heap v) ∧
                Z.of_nat (length (blk_data b)) = rs_body_length r
            | None => rs_body_length r = 0
            end;
  wr_body_length : 0 <= rs_body_sent r <= rs_body_length r ∧ rs_body_length r < 2 ^ 63;
  wr_file : 0 <= rs_file_fd r → is_Some (kv_fds v !! rs_file_fd r) ∧
              0 <= rs_file_offset r <= rs_file_size r ∧
              rs_file_size r <= Z.of_nat (length (fd_content (rs_file_fd r) v))
}.

Definition body_bytes (r : http_response_t) : list byte :=
  match rs_body r with Some b => blk_data b | None => [] end.

(** What [http_response_send_blocking] has yet to send. *)
Definition pending (v : kview) (r : http_response_t) : list byte :=
  seg (rs_headers r) (rs_headers_sent r) (rs_headers_length r - rs_headers_sent r) ++
  if rs_send_body r =? 0 then [] else
  seg (body_bytes r) (rs_body_sent r) (rs_body_length r - rs_body_sent r) ++
  if 0 <=? rs_file_fd r
  then seg (fd_content (rs_file_fd r) v) (rs_file_offset r) (rs_file_size r - rs_file_offset r)
  else [].

(** The number of bytes left in the three regions. *)
Definition pending_size (r : http_response_t) : Z :=
  (rs_headers_length r - rs_headers_sent r) + (rs_body_length r - rs_body_sent r) +
  (if 0 <=? rs_file_fd r then rs_file_size r - rs_file_offset r else 0).

(** ** Regions *)
Section regions.
Context {W : Type} `{K : Kernel W} {HL : KernelLaws W} (F : Prop) (B : W → nat).

(** How a region loop ends: all of it sent, or an error before its end. *)
Definition region_end (fd : Z) (data : obj) (length sent : Z) (p : proc W)
    (res : Z * Z) (p' : proc W) : Prop :=
  sent <= res.2 <= length ∧ sent_upto B fd data sent res.2 p p' ∧
  (res.1 = 0 ∧ res.2 = length ∨ res.1 = -1 ∧ res.2 < length ∧ faulty W).

Lemma region_end_stop fd data length sent p p' :
  sent < length → view p' = view p → no_more B p p' → faulty W →
  region_end fd data length sent p (-1, sent) p'.
Proof using Type.
  intros Hs Hv Hm Hfa. split; [simpl; lia|]. split; [|by right].
  apply (sent_upto_skip _ _ _ _ _ _ p'); [done..|]. apply sent_upto_refl.
Qed.

Lemma region_end_skip fd data length sent p p1 res p2 :
  view p1 = view p → no_more B p p1 →
  region_end fd data length sent p1 res p2 → region_end fd data length sent p res p2.
Proof using Type.
  intros Hv Hm (Hn & Hu & Hr). split_and!; try done; try apply Hn. by eapply sent_upto_skip.
Qed.

Lemma region_end_step fd data length sent n p p1 res p2 :
  0 <= sent → 0 <= n →
  view p1 = push_out fd (seg data sent n) (view p) → no_more B p p1 →
  region_end fd data length (sent + n) p1 res p2 → region_end fd data length sent p res p2.
Proof using Type.
  intros Hs Hn Hv Hm (Hb & Hu & Hr). split; [lia|]. split; [|done].
  apply (sent_upto_step _ _ _ _ n _ _ p1); [lia..|done|done|done].
Qed.

Lemma send_region_spec fuel fd data length sent p :
  0 <= sent <= length → length <= Z.of_nat (List.length data) → length < 2 ^ 63 →
  enough F B fuel p (length - sent) →
  wpg F (send_region fuel fd data length sent) (region_end fd data length sent p) p.
Proof using HL.
  intros Hs Hl Hb. revert sent p Hs. induction fuel as [|fuel IH]; intros sent p Hs Hf.
  { eapply wpg_out_of_fuel; [|done]. lia. }
  simpl. split_if; [apply Z.ltb_lt in E|apply Z.ltb_ge in E].
  2:{ apply wpg_ret. assert (sent = length) as -> by lia.
      split; [simpl; lia|]. split; [apply sent_upto_refl|by left]. }
  apply (wpg_send_rest F B); [lia..| |].
  - intros n p' Hn Hv Hm Hfa. rewrite (proj2 (Z.ltb_ge n 0)) by lia. split_if.
    + apply Z.eqb_eq in E0 as ->. apply wpg_ret. rewrite seg_0, push_out_nil in Hv.
      by apply region_end_stop, Hfa.
    + apply Z.eqb_neq in E0. rewrite size_add_small by lia.
      eapply wpg_mono; [apply IH; [lia|eapply enough_progress; [done..|lia]]|].
      intros res p2 H. apply (region_end_step _ _ _ _ n _ p'); [lia..|done|done|done].
  - intros p' Hv Hm Hlt Hfa. simpl. apply wpg_bind, wpg_get_errno. split_if.
    + apply Z.eqb_eq in E0. eapply wpg_mono; [apply IH; [lia|eapply enough_fewer; eauto]|].
      intros res p2 H. by eapply region_end_skip.
    + apply Z.eqb_neq in E0. by apply wpg_ret, region_end_stop, Hfa.
Qed.

Lemma fd_content_push_out fd fd' bs v : fd_content fd (push_out fd' bs v) = fd_content fd v.
Proof using Type. done. Qed.

Lemma send_file_region_spec fuel fd file size offset p :
  0 <= offset <= size → size <= Z.of_nat (length (fd_content file (view p))) →
  enough F B fuel p (size - offset) →
  wpg F (send_file_region fuel fd file size offset)
    (region_end fd (fd_content file (view p)) size offset p) p.
Proof using HL.
  revert offset p. induction fuel as [|fuel IH]; intros offset p Hs Hsz Hf.
  { eapply wpg_out_of_fuel; [|done]. lia. }
  simpl. split_if; [apply Z.ltb_lt in E|apply Z.ltb_ge in E].
  2:{ apply wpg_ret. assert (offset = size) as -> by lia.
      split; [simpl; lia|]. split; [apply sent_upto_refl|by left]. }
  apply wpg_bind, (wpg_sendfile F B).
  - intros n p' Hn bs Hlen Hv Hm Hfa. rewrite (proj2 (Z.ltb_ge n 0)) by lia. split_if.
    + apply Z.eqb_eq in E0 as ->. apply wpg_ret. rewrite Z.add_0_r.
      apply region_end_stop; [done| |done|apply Hfa; [done|split; lia]]. by rewrite Hv, push_out_nil.
    + apply Z.eqb_neq in E0.
      eapply wpg_mono; [apply IH; [lia|by rewrite Hv|eapply enough_progress; [done..|lia]]|].
      intros res p2 H. rewrite Hv, fd_content_push_out in H.
      apply (region_end_step _ _ _ _ n _ p'); [lia..|done|done|done].
  - intros p' Hv Hm Hlt Hfa. simpl. apply wpg_bind, wpg_get_errno. split_if.
    + apply Z.eqb_eq in E0. rewrite <- Hv.
      eapply wpg_mono; [apply IH; [lia|by rewrite Hv|eapply enough_fewer; eauto]|].
      intros res p2 H. by eapply region_end_skip.
    + apply Z.eqb_neq in E0. apply wpg_ret, region_end_stop; [done..|]. apply Hfa; [done|split; lia].
Qed.
End regions.

(** ** Progress of a response *)
Lemma pending_push_out fd bs v r : pending (push_out fd bs v) r = pending v r.
Proof. done. Qed.

Lemma wf_response_push_out fd bs v r : wf_response v r → wf_response (push_out fd bs v) r.
Proof. intros []. by split. Qed.

Section progress.
Context {W : Type} `{K : Kernel W} {HL : KernelLaws W} (F : Prop) (B : W → nat).

(** From [r] to [r'], bytes of [r] were sent on [fd] and nothing else changed:
    what was sent and what is still to send make what was to send. *)
Record sent_some (fd : Z) (r : http_response_t) (p : proc W) (r' : http_response_t)
    (p' : proc W) : Prop := {
  ss_bytes : ∃ bs, view p' = push_out fd bs (view p) ∧
               bs ++ pending (view p') r' = pending (view p) r;
  ss_wf : wf_response (view p') r';
  ss_fuel : no_more B p p';
  ss_size : pending_size r' <= pending_size r;
  ss_owner : rs_body r' = rs_body r ∧ rs_file_fd r' = rs_file_fd r;
  ss_flags : rs_send_body r' = rs_send_body r ∧ rs_complete r' = rs_complete r
}.

Lemma sent_some_trans fd r0 p0 r1 p1 r2 p2 :
  sent_some fd r0 p0 r1 p1 → sent_some fd r1 p1 r2 p2 → sent_some fd r0 p0 r2 p2.
Proof using Type.
  intros [(bs1 & Hv1 & Hb1) _ Hm1 Hs1 Ho1 Hf1] [(bs2 & Hv2 & Hb2) Hw2 Hm2 Hs2 Ho2 Hf2].
  split; [|done|by etrans|lia|intuition congruence..].
  exists (bs1 ++ bs2). split; [by rewrite Hv2, Hv1, push_out_app|].
  by rewrite <- app_assoc, Hb2.
Qed.

Lemma sent_headers fd r p c s p' :
  wf_response (view p) r →
  region_end B fd (rs_headers r) (rs_headers_length r) (rs_headers_sent r) p (c, s) p' →
  sent_some fd r p (set_rs_headers (rs_headers r) (rs_headers_length r) s r) p'.
Proof using Type.
  intros [H1 H2 H3 H4 H5] (Hs & [Hv Hm] & _). simpl in *. split; simpl; try done.
  - eexists. split; [exact Hv|]. rewrite Hv, pending_push_out. unfold pending. simpl.
    rewrite app_assoc. f_equal. apply seg_split; lia.
  - rewrite Hv. apply wf_response_push_out. split; simpl; try done. lia.
  - unfold pending_size. simpl. lia.
Qed.

Lemma sent_body fd r p c s p' :
  wf_response (view p) r → rs_headers_sent r = rs_headers_length r → rs_send_body r ≠ 0 →
  region_end B fd (body_bytes r) (rs_body_length r) (rs_body_sent r) p (c, s) p' →
  sent_some fd r p (set_rs_body (rs_body r) (rs_body_length r) s r) p'.
Proof using Type.
  intros [H1 H2 H3 H4 H5] Hh Hb (Hs & [Hv Hm] & _). simpl in *. split; simpl; try done.
  - eexists. split; [exact Hv|]. rewrite Hv, pending_push_out. unfold pending. simpl.
    rewrite Hh, Z.sub_diag, seg_0, (proj2 (Z.eqb_neq _ _)) by done. simpl.
    rewrite app_assoc. f_equal. apply seg_split; lia.
  - rewrite Hv. apply wf_response_push_out. split; simpl; try done. lia.
  - unfold pending_size. simpl. lia.
Qed.

Lemma sent_file fd r p c s p' :
  wf_response (view p) r → rs_headers_sent r = rs_headers_length r → rs_send_body r ≠ 0 →
  rs_body_sent r = rs_body_length r → 0 <= rs_file_fd r →
  region_end B fd (fd_content (rs_file_fd r) (view p)) (rs_file_size r) (rs_file_offset r) p
    (c, s) p' →
  sent_some fd r p (set_rs_file (rs_file_fd r) (rs_file_size r) s r) p'.
Proof using Type.
  intros [H1 H2 H3 H4 H5] Hh Hb Hbs Hfd (Hs & [Hv Hm] & _). simpl in *.
  destruct (H5 Hfd) as [H6 H7]. split; simpl; try done.
  - eexists. split; [exact Hv|]. rewrite Hv, pending_push_out. unfold pending. simpl.
    rewrite Hh, Hbs, !Z.sub_diag, !seg_0, (proj2 (Z.eqb_neq _ _)) by done. simpl.
    rewrite (proj2 (Z.leb_le _ _)) by done. apply seg_split; lia.
  - rewrite Hv. apply wf_response_push_out. split; simpl; try done.
    intros _. split_and!; [done|lia|lia|apply H7].
  - unfold pending_size. simpl. rewrite (proj2 (Z.leb_le _ _)) by done. lia.
Qed.

Lemma wpg_body_data r (Q : obj → proc W → Prop) p :
  wf_response (view p) r → Q (body_bytes r) p → wpg F (body_data r) Q p.
Proof using Type.
  intros [_ _ H _ _] HQ. unfold body_data, body_bytes in *.
  destruct (rs_body r) as [b|]; [|done]. unfold wpg. by rewrite decide_True by apply H.
Qed.

(** The end of [http_response_send_blocking]: all sent and complete, or an
    error with the response ready to go on. *)
Definition send_end (fd : Z) (r : http_response_t) (p : proc W)
    (res : Z * option http_response_t) (p' : proc W) : Prop :=
  ∃ r1, sent_some fd r p r1 p' ∧
    (res = (0, Some (set_rs_flags (rs_send_body r1) 1 r1)) ∧ pending (view p') r1 = [] ∨
     res = (-1, Some r1) ∧ faulty W).

(** The file phase, when there is a file. *)
Lemma send_file_phase fuel fd r p :
  wf_response (view p) r → rs_headers_sent r = rs_headers_length r → rs_send_body r ≠ 0 →
  rs_body_sent r = rs_body_length r → enough F B fuel p (pending_size r) →
  wpg F (if 0 <=? rs_file_fd r
         then send_file_region fuel fd (rs_file_fd r) (rs_file_size r) (rs_file_offset r)
         else mret (0, rs_file_offset r))
    (λ res p', sent_some fd r p (set_rs_file (rs_file_fd r) (rs_file_size r) res.2 r) p' ∧
       (res.1 = 0 ∧ pending (view p') (set_rs_file (rs_file_fd r) (rs_file_size r) res.2 r) = []
        ∨ res.1 = -1 ∧ faulty W)) p.
Proof using HL.
  intros Hwf Hh Hb Hbs Hf. pose proof Hwf as [_ H2 _ H4 H5]. split_if.
  - apply Z.leb_le in E. destruct (H5 E) as [_ H6].
    eapply wpg_mono; [apply (send_file_region_spec F B); [lia|lia|]|].
    { eapply enough_mono; [done..|]. unfold pending_size. apply Z.leb_le in E. rewrite E. lia. }
    intros [c s] p' Hend. split; [by eapply sent_file|].
    destruct Hend as (_ & _ & [[Hc Hs]|(Hc & Hs & Hfa)]); simpl in *; subst; [left|by right].
    split; [done|]. unfold pending. simpl. apply Z.leb_le in E. rewrite E.
    by rewrite Hh, Hbs, !Z.sub_diag, (proj2 (Z.eqb_neq _ _)) by done.
  - apply wpg_ret. split; [|left; split; [done|]].
    + destruct r. split; simpl in *; try done. exists []. by rewrite push_out_nil.
    + unfold pending. simpl. by rewrite E, Hh, Hbs, !Z.sub_diag, (proj2 (Z.eqb_neq _ _)).
Qed.

Lemma http_response_send_blocking_spec fuel fd r p :
  wf_response (view p) r → rs_complete r = 0 → enough F B fuel p (pending_size r) →
  wpg F (http_response_send_blocking fuel fd (Some r)) (send_end fd r p) p.
Proof using HL.
  intros Hwf Hc Hf. unfold http_response_send_blocking. rewrite Hc. simpl.
  pose proof Hwf as [H1 H2 _ H4 H5].
  assert (0 <= (if 0 <=? rs_file_fd r then rs_file_size r - rs_file_offset r else 0)) as H6.
  { split_if; [|lia]. apply Z.leb_le in E. specialize (H5 E). lia. }
  apply wpg_bind. eapply wpg_mono; [apply (send_region_spec F B); [lia|lia|lia|]|].
  { eapply enough_mono; [done..|]. unfold pending_size. lia. }
  intros [c s] p1 Hend1. pose proof (sent_headers _ _ _ _ _ _ Hwf Hend1) as Hss1.
  destruct Hend1 as (_ & _ & [[Hc1 Hs1]|(Hc1 & Hs1 & Hfa)]); simpl in Hc1, Hs1; subst; simpl.
  2:{ apply wpg_ret. eexists. split; [done|by right]. }
  split_if.
  { apply wpg_ret. eexists. split; [done|]. left. split; [done|].
    unfold pending. simpl. by rewrite E, Z.sub_diag. }
  apply Z.eqb_neq in E. set (r1 := set_rs_headers _ _ _ _) in *.
  pose proof (ss_wf _ _ _ _ _ Hss1) as Hwf1.
  apply wpg_bind, (wpg_body_data r1); [done|].
  apply wpg_bind. eapply wpg_mono; [apply (send_region_spec F B); [simpl; lia| |simpl; lia|]|].
  { change (rs_body_length r <= Z.of_nat (length (body_bytes r))).
    pose proof (wr_body _ _ Hwf) as H3. unfold body_bytes.
    destruct (rs_body r); [lia|simpl; lia]. }
  { eapply enough_mono; [done|apply (ss_fuel _ _ _ _ _ Hss1)|].
    unfold pending_size, r1. simpl. lia. }
  intros [c s] p2 Hend2. pose proof (sent_body _ r1 _ _ _ _ Hwf1 eq_refl E Hend2) as Hss2.
  pose proof (sent_some_trans _ _ _ _ _ _ _ Hss1 Hss2) as Hss12.
  destruct Hend2 as (_ & _ & [[Hc2 Hs2]|(Hc2 & Hs2 & Hfa)]); simpl in Hc2, Hs2; subst c; simpl.
  2:{ apply wpg_ret. eexists. split; [done|by right]. }
  subst s.
  apply wpg_bind. eapply wpg_mono.
  { apply (send_file_phase fuel fd (set_rs_body (rs_body r1) (rs_body_length r1)
      (rs_body_length r1) r1)); [by apply Hss2|done|done|done|].
    eapply enough_mono; [done|apply (ss_fuel _ _ _ _ _ Hss12)|apply (ss_size _ _ _ _ _ Hss12)]. }
  intros [c s] p3 [Hss3 Hend3]. pose proof (sent_some_trans _ _ _ _ _ _ _ Hss12 Hss3) as Hss.
  destruct Hend3 as [[Hc3 Hs3]|[Hc3 Hfa]]; simpl in Hc3; subst c; apply wpg_ret; eexists.
  - split; [exact Hss|]. by left.
  - split; [exact Hss|by right].
Qed.
End progress.

(** ** The header block *)
Definition http_statuses : list Z := [200; 400; 403; 404; 405; 431; 500].
Definition connection_option (keep_alive : Z) : list byte :=
  if keep_alive =? 0 then lit "close" else lit "keep-alive".
Definition status_line (status : Z) (reason : list byte) : list byte :=
  lit "HTTP/1.1 " ++ dec status ++ lit " " ++ reason.
Definition response_fields (content_type : list byte) (content_length keep_alive : Z) : list field :=
  [ (lit "Content-Type", content_type);
    (lit "Content-Length", dec content_length);
    (lit "Connection", connection_option keep_alive) ].

Lemma response_text_render status reason ct n ka :
  response_text status reason ct n (connection_option ka) =
  status_line status reason ++ CRLF ++ (response_fields ct n ka ≫= render_field) ++ CRLF.
Proof.
  unfold response_text, status_line, response_fields, render_field. simpl.
  repeat (rewrite <- ?app_assoc; simpl). repeat f_equal.
Qed.

(** What the server's own header blocks satisfy. *)
Record header_args (status : Z) (reason ct : list byte) (n : Z) : Prop := {
  ha_status : 0 <= status < 1000;
  ha_reason : http_status_reason status = Some reason;
  ha_type : Forall (λ b, 33 <= uchar b < 127) ct;
  ha_type_length : (length ct <= 24)%nat;
  ha_length : 0 <= n < 2 ^ 63
}.

Lemma status_reason_known status reason :
  http_status_reason status = Some reason → (CR ∉ reason) ∧ (length reason <= 31)%nat.
Proof.
  unfold http_status_reason. intros H.
  repeat case_match; injection H as <-; (split; [decide_now|vm_compute; lia]).
Qed.

Lemma digit_not_cr b : digit b → b ≠ CR.
Proof. byte_cases b. Qed.
Lemma digit_field_octet b : digit b → field_octet b ∧ ¬ ows b.
Proof. byte_cases b. Qed.
Lemma visible_field_octet b : 33 <= uchar b < 127 → field_octet b ∧ ¬ ows b.
Proof. byte_cases b. Qed.

Lemma trimmed_no_ows v : Forall (λ b, ¬ ows b) v → trimmed v.
Proof.
  intros H. rewrite Forall_forall in H. split; intros b Hb; apply H.
  - by apply head_Some_elem_of.
  - by apply last_Some_elem_of.
Qed.

(** A header block of the server is at most 250 bytes. *)
Lemma response_text_fits status reason ct n ka :
  header_args status reason ct n →
  (length (response_text status reason ct n (connection_option ka)) <= 250)%nat.
Proof.
  intros [Hs Hr _ Hct Hn]. apply status_reason_known in Hr as [_ Hr].
  pose proof (length_dec status 2 ltac:(change (10 ^ Z.of_nat 3) with 1000; lia)).
  pose proof (length_dec n 18 ltac:(change (10 ^ Z.of_nat 19) with 10000000000000000000; lia)).
  assert (length (connection_option ka) <= 10)%nat by (unfold connection_option; split_if; vm_compute; lia).
  unfold response_text. rewrite !length_app.
  change (length CRLF) with 2%nat. change (length (lit " ")) with 1%nat.
  change (length (lit "HTTP/1.1 ")) with 9%nat. change (length (lit "Content-Type: ")) with 14%nat.
  change (length (lit "Content-Length: ")) with 16%nat.
  change (length (lit "Connection: ")) with 12%nat. lia.
Qed.

(** Limits large enough to read the server's header blocks. *)
Record reader_limits (cfg : server_config_t) : Prop := {
  rdl_fields : 3 <= http_max_headers cfg;
  rdl_name : 14 < http_header_name_max cfg;
  rdl_value : 24 < http_header_value_max cfg
}.

Lemma response_fields_wf cfg status reason ct n ka :
  reader_limits cfg → header_args status reason ct n →
  Forall (field_wf cfg) (response_fields ct n ka).
Proof.
  intros [Hf Hnm Hv] [_ _ Hct Hctl Hn]. unfold response_fields.
  pose proof (length_dec n 18 ltac:(change (10 ^ Z.of_nat 19) with 10000000000000000000; lia)).
  destruct (dec_spec n) as (Hd & _); [lia|].
  repeat (apply Forall_cons; split); [..|apply Forall_nil]; split; cbn [fst snd];
    try decide_now; try (vm_compute length; simpl; lia); try lia.
  - eapply Forall_impl; [exact Hct|]. apply visible_field_octet.
  - apply trimmed_no_ows. eapply Forall_impl; [exact Hct|]. apply visible_field_octet.
  - eapply Forall_impl; [exact Hd|]. apply digit_field_octet.
  - apply trimmed_no_ows. eapply Forall_impl; [exact Hd|]. apply digit_field_octet.
  - unfold connection_option. split_if; decide_now.
  - unfold connection_option. split_if; vm_compute length; simpl; lia.
  - apply trimmed_no_ows. unfold connection_option. split_if; decide_now.
Qed.

(** Reading a header block with whatever follows it: the status line, the three
    fields, and the rest. *)
Lemma response_text_read cfg status reason ct n ka body :
  reader_limits cfg → header_args status reason ct n →
  let text := response_text status reason ct n (connection_option ka) ++ body in
  ∃ i, find_sub CRLF text = Some i ∧ take i text = status_line status reason ∧
    parse_fields cfg 0 (drop (i + 2) text) (response_fields ct n ka) HTTP_PARSE_OK (CRLF ++ body).
Proof.
  intros Hl Ha text. pose proof (response_fields_wf _ _ _ _ _ ka Hl Ha) as Hwf.
  assert (text = status_line status reason ++ CRLF ++
    ((response_fields ct n ka ≫= render_field) ++ CRLF ++ body)) as ->.
  { unfold text. rewrite response_text_render. by rewrite <- !app_assoc. }
  destruct Ha as [Hs Hr _ _ _]. apply status_reason_known in Hr as [Hr _].
  exists (length (status_line status reason)). split_and!.
  - apply find_crlf_line. unfold status_line. destruct (dec_spec status) as (Hd & _); [lia|].
    rewrite !not_elem_of_app. split_and!; [decide_now| |decide_now|done].
    eapply Forall_avoid; [exact Hd|]. intros b Hb. by apply digit_not_cr.
  - by rewrite take_app_length.
  - rewrite drop_app_add. change (drop 2 (CRLF ++ ?l)) with l.
    destruct (parse_fields_render cfg 0 _ body Hwf) as (fs & c & rest & Hp & Hok & _).
    destruct Hok as (-> & -> & ->); [|done]. destruct Hl. simpl. lia.
Qed.

Lemma http_build_response_headers_fits b status reason ct n ka :
  length b = 1024%nat → header_args status reason ct n →
  let text := response_text status reason ct n (connection_option ka) in
  http_build_response_headers (Some b) HTTP_RESPONSE_HEADER_MAX status (Some ct) n ka
    ⇓ (Z.of_nat (length text), Some (put_string b text)).
Proof.
  intros Hb Ha text. pose proof (response_text_fits _ _ _ _ ka Ha) as Hfit.
  unfold http_build_response_headers.
  rewrite (proj2 (Z.ltb_ge n 0)) by apply Ha. rewrite (ha_reason _ _ _ _ Ha). simpl.
  fold (connection_option ka). fold text in Hfit |- *.
  rewrite c_snprintf_ok by (unfold HTTP_RESPONSE_HEADER_MAX, INT_MAX; lia).
  rewrite bind_ret_l. unfold HTTP_RESPONSE_HEADER_MAX.
  by rewrite (proj2 (Z.ltb_ge _ _)), (proj2 (Z.leb_gt _ _)) by lia.
Qed.

(** ** Building responses *)
Lemma error_page_status status page :
  http_error_page status = Some page →
  400 <= status < 1000 ∧ (NUL ∉ page) ∧ (0 < length page <= 100)%nat ∧
  is_Some (http_status_reason status).
Proof.
  unfold http_error_page. intros H.
  repeat case_match; try discriminate H; injection H as <-;
    match goal with E : (status =? _) = true |- _ => apply Z.eqb_eq in E as -> end;
    (split_and!; [done|done|decide_now|vm_compute; lia..|by eexists]).
Qed.

Lemma text_html_visible : Forall (λ b, 33 <= uchar b < 127) (lit "text/html").
Proof. decide_now. Qed.

(** The response [http_response_prepare_error] makes, its body in block [id]. *)
Definition error_response (r : http_response_t) (status : Z) (reason body : list byte) (id : Z)
    : http_response_t :=
  let n := Z.of_nat (length body) in
  let text := response_text status reason (lit "text/html") n (connection_option 0) in
  set_rs_flags 1 0 (set_rs_headers (put_string (rs_headers r) text) (Z.of_nat (length text)) 0
    (set_rs_body (Some (Block id body)) n 0 r)).

(** A response object as [http_response_init] leaves it. *)
Definition fresh_response : http_response_t :=
  HttpResponse (replicate 1024 NUL) 0 0 None 0 0 (-1) 0 0 0 0.

Lemma http_response_init_fresh r : http_response_init (Some r) = Some fresh_response.
Proof. done. Qed.

Lemma error_response_ready v r status reason body id :
  length (rs_headers r) = 1024%nat → rs_file_fd r = -1 → id ∈ kv_heap v →
  header_args status reason (lit "text/html") (Z.of_nat (length body)) →
  let r' := error_response r status reason body id in
  wf_response v r' ∧ rs_complete r' = 0 ∧
  pending v r' = response_text status reason (lit "text/html") (Z.of_nat (length body))
                   (connection_option 0) ++ body ∧
  pending_size r' <= 250 + Z.of_nat (length body).
Proof.
  intros Hh Hfd Hid Ha r'. pose proof (response_text_fits _ _ _ _ 0 Ha) as Hfit.
  unfold r', error_response. cbv zeta. set (text := response_text _ _ _ _ _) in *.
  clearbody text.
  pose proof (length_put_string (rs_headers r) text ltac:(lia)) as Hput. split_and!.
  - destruct Ha. split; simpl; try done; lia.
  - done.
  - unfold pending. simpl. rewrite Hfd, !Z.sub_0_r. simpl. rewrite app_nil_r.
    unfold put_string, body_bytes. simpl. rewrite seg_string. f_equal.
    rewrite <- (app_nil_r body) at 1. by rewrite seg_string.
  - unfold pending_size. simpl. rewrite Hfd. simpl. lia.
Qed.

Lemma memcpy_prefix dst src n :
  Z.of_nat (length dst) = n → (n <= Z.of_nat (length src)) →
  c_memcpy dst 0 src 0 (Z.to_nat n) ⇓ take (Z.to_nat n) src.
Proof.
  intros Hd Hn. unfold c_memcpy, slice. rewrite decide_True by lia. rewrite bind_ret_l, drop_0.
  rewrite blit_ok by (rewrite length_take; lia). f_equal. simpl.
  rewrite drop_ge by (rewrite length_take; lia). by rewrite app_nil_r.
Qed.

Section building.
Context {W : Type} `{K : Kernel W} {HL : KernelLaws W} (F : Prop) (B : W → nat).

Lemma http_response_set_body_spec r body n (Q : Z * option http_response_t → proc W → Prop) p :
  owned_blocks r ⊆ kv_heap (view p) → 0 <= n <= Z.of_nat (length body) →
  (∀ p', view p' = view p → no_more B p p' → (0 < n → faulty W) → Q (-1, Some r) p') →
  (∀ id p', (id ∉ kv_heap (view p)) → no_more B p p' →
     view p' = set_heap (({[id]} ∪ kv_heap (view p)) ∖ owned_blocks r) (view p) →
     Q (0, Some (set_rs_body (Some (Block id (take (Z.to_nat n) body))) n 0 r)) p') →
  wpg F (http_response_set_body (Some r) (Some body) n) Q p.
Proof using HL.
  intros Hown Hn Hfail Hok. unfold http_response_set_body.
  apply wpg_bind, (wpg_malloc F B); [|intros p1 Hv Hm Hfa; by apply wpg_ret, Hfail].
  intros id data p1 Hid Hdata Hm Hv.
  apply wpg_bind, wpg_lift. simpl. rewrite memcpy_prefix by lia. simpl.
  apply wpg_bind. unfold owned_blocks in *. destruct (rs_body r) as [b|].
  - apply (wpg_free F B); [rewrite Hv; simpl; set_solver|].
    intros p2 Hm2 Hv2. apply wpg_ret, Hok; [done|by etrans|]. by rewrite Hv2, Hv.
  - apply wpg_free_null, wpg_ret, Hok; [done|done|]. rewrite Hv. f_equal. set_solver.
Qed.

(** The page or the message, as the bytes that are sent. *)
Definition error_body (status : Z) (message : option obj) (body : list byte) : Prop :=
  match message with
  | None => http_error_page status = Some body
  | Some m => is_Some (http_error_page status) ∧ cstr_of m = Some body
  end.

Lemma http_response_prepare_error_spec r status message body
    (Q : Z * option http_response_t → proc W → Prop) p :
  owned_blocks r ⊆ kv_heap (view p) → length (rs_headers r) = 1024%nat →
  error_body status message body → Z.of_nat (length body) < 2 ^ 63 →
  (∀ p', view p' = view p → no_more B p p' → (body ≠ [] → faulty W) → Q (-1, Some r) p') →
  (∀ id reason p', (id ∉ kv_heap (view p)) → no_more B p p' →
     view p' = set_heap (({[id]} ∪ kv_heap (view p)) ∖ owned_blocks r) (view p) →
     header_args status reason (lit "text/html") (Z.of_nat (length body)) →
     Q (0, Some (error_response r status reason body id)) p') →
  wpg F (http_response_prepare_error (Some r) status message) Q p.
Proof using HL.
  intros Hown Hh Hbody Hlen Hfail Hok. unfold http_response_prepare_error.
  assert (∃ page, http_error_page status = Some page ∧
    ∃ rest, match message with Some m => m | None => page ++ [NUL] end = body ++ NUL :: rest ∧
      NUL ∉ body) as (page & Hp & rest & Hm & Hnul).
  { destruct message as [m|]; simpl in Hbody.
    - destruct Hbody as [[page Hp] (rest & Hm & Hnul)%cstr_of_Some]. eauto.
    - exists body. split; [done|]. exists []. split; [done|]. by apply error_page_status in Hbody as (_ & ? & _). }
  rewrite Hp, Hm. destruct (error_page_status _ _ Hp) as (Hst & _ & _ & reason & Hr).
  assert (header_args status reason (lit "text/html") (Z.of_nat (length body))) as Ha.
  { split; [lia|done|exact text_html_visible|vm_compute; lia|lia]. }
  apply wpg_bind, wpg_lift. erewrite (c_strlen_at (body ++ NUL :: rest) body); [|by apply cstr_of_app|lia].
  rewrite Nat.sub_0_r. simpl.
  apply wpg_bind, http_response_set_body_spec; [done|rewrite length_app; lia| |].
  { intros p1 Hv Hm1 Hfa. apply wpg_ret, Hfail; [done..|]. intros Hb. apply Hfa.
    destruct body; [done|simpl; lia]. }
  intros id p1 Hid Hm1 Hv1. simpl. apply wpg_bind, wpg_deref, wpg_bind, wpg_lift.
  change (rs_headers (set_rs_body ?b ?n ?s r)) with (rs_headers r).
  pose proof (http_build_response_headers_fits _ _ _ _ _ 0 Hh Ha) as Hfits. cbv zeta in Hfits.
  pose proof (Hok id reason p1 Hid Hm1 Hv1 Ha) as HQ.
  unfold error_response in HQ. cbv zeta in HQ.
  set (text := response_text _ _ _ _ _) in *. clearbody text. rewrite Hfits. simpl.
  apply wpg_bind, wpg_deref. rewrite (proj2 (Z.ltb_ge _ _)) by lia.
  rewrite Nat2Z.id, take_app_length. by apply wpg_ret.
Qed.

Lemma http_response_destroy_spec r (Q : option http_response_t → proc W → Prop) p :
  owned_blocks r ⊆ kv_heap (view p) →
  (∀ r' p', no_more B p p' → owned_blocks r' = ∅ → owned_fds r' = ∅ →
     rs_headers r' = rs_headers r →
     view p' = set_heap (kv_heap (view p) ∖ owned_blocks r)
                 (set_fds (if 0 <=? rs_file_fd r then delete (rs_file_fd r) (kv_fds (view p))
                           else kv_fds (view p)) (view p)) →
     Q (Some r') p') →
  wpg F (http_response_destroy (Some r)) Q p.
Proof using HL.
  intros Hown Hok. unfold http_response_destroy.
  assert (∀ fd p1, no_more B p p1 → fd < 0 →
    view p1 = set_fds (if 0 <=? rs_file_fd r then delete (rs_file_fd r) (kv_fds (view p))
                       else kv_fds (view p)) (view p) →
    wpg F (_ ← c_free (rs_body r);
           mret (Some (HttpResponse (rs_headers r) 0 0 None 0 0 fd 0 0 0 0))) Q p1) as Hfree.
  { intros fd p1 Hm Hfd Hv. unfold owned_blocks in *. apply wpg_bind.
    destruct (rs_body r) as [b|].
    - apply (wpg_free F B); [rewrite Hv; simpl; set_solver|]. intros p2 Hm2 Hv2.
      apply wpg_ret, Hok; try done; [by etrans| |by rewrite Hv2, Hv].
      unfold owned_fds. simpl. by rewrite (proj2 (Z.leb_gt _ _)).
    - apply wpg_free_null, wpg_ret, Hok; try done.
      + unfold owned_fds. simpl. by rewrite (proj2 (Z.leb_gt _ _)).
      + rewrite Hv. unfold set_heap, set_fds. simpl. f_equal. set_solver. }
  apply wpg_bind. split_if.
  - apply wpg_bind, (wpg_close F B). intros c p1 Hv Hm. apply wpg_ret. simpl.
    apply Hfree; [done|lia|done].
  - apply wpg_ret. apply Hfree; [done|by apply Z.leb_gt in E|]. by rewrite set_fds_id.
Qed.
End building.

(** ** Direct sends *)
Section direct.
Context {W : Type} `{K : Kernel W} {HL : KernelLaws W} (F : Prop) (B : W → nat).

(** [text] was sent on [fd], with result 0, or a part of it, with result -1. *)
Definition sent_text (fd : Z) (text : list byte) (p : proc W) (r : Z) (p' : proc W) : Prop :=
  no_more B p p' ∧ ∃ out, view p' = push_out fd out (view p) ∧
    (r = 0 ∧ out = text ∨ r = -1 ∧ out `prefix_of` text ∧ faulty W).

Lemma sent_text_cons fd text1 text2 p p1 r p2 :
  sent_text fd text1 p 0 p1 → sent_text fd text2 p1 r p2 → sent_text fd (text1 ++ text2) p r p2.
Proof using Type.
  intros (Hm1 & out1 & Hv1 & Hr1) (Hm2 & out2 & Hv2 & Hr2). split; [by etrans|].
  destruct Hr1 as [[_ ->]|[? _]]; [|lia]. exists (text1 ++ out2).
  split; [by rewrite Hv2, Hv1, push_out_app|].
  destruct Hr2 as [[-> ->]|(-> & Hp & Hfa)]; [by left|right]. split_and!; [done| |done]. by apply prefix_app.
Qed.

Lemma sent_text_fail fd text1 text2 p p1 r :
  sent_text fd text1 p r p1 → r < 0 → sent_text fd (text1 ++ text2) p (-1) p1.
Proof using Type.
  intros (Hm & out & Hv & Hr) Hneg. split; [done|]. exists out. split; [done|right].
  split; [done|]. destruct Hr as [[-> _]|(_ & Hp & Hfa)]; [lia|]. split; [by apply prefix_app_r|done].
Qed.

(** The idiom around [io_send_all]: -1 unless everything was sent. *)
Lemma wpg_send_text {A} fuel fd data text (k : Z → M W A) Q p :
  take (length text) data = text → Z.of_nat (length text) < 2 ^ 63 →
  enough F B fuel p (Z.of_nat (length text)) →
  (∀ r p', sent_text fd text p r p' → wpg F (k r) Q p') →
  wpg F (sent ← io_send_all fuel fd data (Z.of_nat (length text));
         if sent <? 0 then k (-1)
         else if negb (sent =? Z.of_nat (length text)) then k (-1) else k 0) Q p.
Proof using HL.
  intros Hd H63 Hf Hk. pose proof (f_equal length Hd) as Hlen. rewrite length_take in Hlen.
  apply wpg_bind. eapply wpg_mono; [apply (io_send_all_spec F B); [lia|done|done]|].
  intros s p' (n & Hn & [Hv Hm] & Hs & Hfa). rewrite Z.sub_0_r in Hv.
  assert (seg data 0 n `prefix_of` text) as Hpre.
  { assert (seg data 0 n = take (Z.to_nat n) (take (length text) data)) as ->.
    { rewrite take_take, Nat.min_l by lia. done. }
    rewrite Hd. apply prefix_take. }
  destruct (decide (s = Z.of_nat (length text))) as [-> | Hne].
  - rewrite (proj2 (Z.ltb_ge _ _)), Z.eqb_refl by lia. simpl. apply Hk. split; [done|].
    eexists. split; [exact Hv|]. left. split; [done|].
    assert (n = Z.of_nat (length text)) as -> by lia. unfold seg. by rewrite Nat2Z.id.
  - assert (wpg F (k (-1)) Q p').
    { apply Hk. split; [done|]. eexists. split; [exact Hv|]. right. split_and!; [done..|].
      apply Hfa. lia. }
    split_if; [done|]. by rewrite (proj2 (Z.eqb_neq _ _)).
Qed.

Lemma http_send_response_spec fuel fd status reason ct n ka p :
  header_args status reason ct n → enough F B fuel p 250 →
  wpg F (http_send_response fuel fd status (Some ct) n ka)
    (sent_text fd (response_text status reason ct n (connection_option ka)) p) p.
Proof using HL.
  intros Ha Hf. unfold http_send_response. apply wpg_bind, wpg_local. intros b Hb.
  pose proof (http_build_response_headers_fits b _ _ _ _ ka Hb Ha) as Hbuild.
  pose proof (response_text_fits _ _ _ _ ka Ha) as Hfit.
  cbv zeta in Hbuild. set (text := response_text _ _ _ _ _) in *. clearbody text.
  change 1024 with HTTP_RESPONSE_HEADER_MAX. apply wpg_bind, wpg_lift. rewrite Hbuild. cbn [returns].
  rewrite (proj2 (Z.ltb_ge _ _)) by lia. apply wpg_bind, wpg_deref.
  apply wpg_send_text; [apply take_app_length|lia|eapply enough_mono; [done..|lia]|].
  intros r p' H. by apply wpg_ret.
Qed.

Lemma http_send_error_spec fuel fd status body ka p :
  http_error_page status = Some body → enough F B fuel p 250 →
  ∃ reason, http_status_reason status = Some reason ∧
  wpg F (http_send_error fuel fd status ka)
    (sent_text fd (response_text status reason (lit "text/html") (Z.of_nat (length body))
       (connection_option ka) ++ body) p) p.
Proof using HL.
  intros Hpage Hf. destruct (error_page_status _ _ Hpage) as (Hst & _ & Hlen & reason & Hr).
  exists reason. split; [done|]. unfold http_send_error. rewrite Hpage.
  assert (header_args status reason (lit "text/html") (Z.of_nat (length body))) as Ha.
  { split; [lia|done|exact text_html_visible|vm_compute; lia|lia]. }
  apply wpg_bind. eapply wpg_mono; [by apply http_send_response_spec|].
  intros r p1 H1. split_if; [apply Z.ltb_lt in E|apply Z.ltb_ge in E].
  { apply wpg_ret. by eapply sent_text_fail. }
  assert (r = 0) as -> by (destruct H1 as (_ & out & _ & [[? _]|[? _]]); lia).
  apply wpg_send_text; [apply take_app_length|lia| |].
  { eapply enough_mono; [done|apply H1|lia]. }
  intros r p' H2. apply wpg_ret. by eapply sent_text_cons.
Qed.

Lemma http_send_bad_request_message_spec fuel fd message s p :
  cstr_of message = Some s → enough F B fuel p 512 →
  let body := lit "<html><body><h1>400 Bad Request</h1><p>" ++ s ++ lit "</p></body></html>" in
  wpg F (http_send_bad_request_message fuel fd message) (λ r p',
    if decide (length body < 512)%nat
    then sent_text fd (response_text 400 (lit "Bad Request") (lit "text/html")
           (Z.of_nat (length body)) (connection_option 0) ++ body) p r p'
    else r = -1 ∧ p' = p) p.
Proof using HL.
  intros Hs Hf body. unfold http_send_bad_request_message. apply wpg_bind, wpg_local. intros b Hb.
  apply wpg_bind, wpg_lift. rewrite (c_string_at message s) by (done || lia). rewrite drop_0.
  cbn [returns]. fold body. clearbody body. apply wpg_bind, wpg_lift. case_decide as Hlen.
  2:{ destruct (c_snprintf_total b 512 body) as (n & b' & -> & _ & Hn); [lia|by unfold INT_MAX|].
      cbn [returns]. assert ((n <? 0) || (512 <=? n) = true) as ->
        by (rewrite orb_true_iff, Z.ltb_lt, Z.leb_le; lia). by apply wpg_ret. }
  rewrite c_snprintf_ok by (unfold INT_MAX; lia). cbn [returns].
  rewrite (proj2 (Z.ltb_ge _ _)), (proj2 (Z.leb_gt _ _)) by lia. cbn [orb].
  assert (header_args 400 (lit "Bad Request") (lit "text/html") (Z.of_nat (length body))) as Ha.
  { split; [lia|done|exact text_html_visible|vm_compute; lia|lia]. }
  apply wpg_bind. eapply wpg_mono.
  { apply http_send_response_spec; [done|]. eapply enough_mono; [done..|lia]. }
  intros r p1 H1. split_if; [apply Z.ltb_lt in E|apply Z.ltb_ge in E].
  { apply wpg_ret. by eapply sent_text_fail. }
  assert (r = 0) as -> by (destruct H1 as (_ & out & _ & [[? _]|[? _]]); lia).
  apply wpg_send_text; [apply take_app_length|lia| |].
  { eapply enough_mono; [done|apply H1|lia]. }
  intros r p' H2. apply wpg_ret. by eapply sent_text_cons.
Qed.
End direct.
