(* ===== verification/File.v ===== *)
(** * Files ([src/file.c])

    Opening the file of a request path beneath the document root, and sending
    a file through a socket. *)
From S2P Require Import Prelude.
From S2P Require Import CLib.
From S2P Require Import Kernel.
From S2P Require Import ScriptKernel.
From S2P Require Import Io.

(** ** Data *)
Definition O_RDONLY : Z := 0.
Definition O_CLOEXEC : Z := 524288.
Definition RESOLVE_NO_SYMLINKS : Z := 4.
Definition RESOLVE_BENEATH : Z := 8.

Record file_t := FileT { f_fd : Z; f_size : Z }.

Definition DEFAULT_INDEX_FILE : list byte := lit "index.html".

(** [struct open_how how] *)
Definition beneath_how : open_how :=
  OpenHow (Z.lor O_RDONLY O_CLOEXEC) (Z.lor RESOLVE_BENEATH RESOLVE_NO_SYMLINKS).

Section file.
Context {W : Type} `{K : Kernel W}.

(** The loop that advances [relative_path] past slashes. *)
Fixpoint skip_slashes (fuel : nat) (path : obj) (p : nat) : outcome nat :=
  match fuel with
  | O => OutOfFuel
  | S fuel =>
    c ← rd path p;
    if decide (c = "/"%byte) then skip_slashes fuel path (p + 1) else mret p
  end.

(** The path handed to openat2: without its leading slashes, or ".". *)
Definition relative_path (request_path : obj) : outcome (list byte) :=
  p ← skip_slashes (length request_path) request_path 0;
  c ← rd request_path p;
  if decide (c = NUL) then mret (lit ".") else c_string request_path p.

(** Escapes from the document root are reported as EACCES. *)
Definition refuse_escape (saved_errno : Z) : M W unit :=
  if (saved_errno =? EXDEV) || (saved_errno =? ELOOP) then set_errno EACCES
  else set_errno saved_errno.

(** Close [fd], keeping [errno]. *)
Definition close_keeping_errno (fd : Z) : M W unit :=
  saved_errno ← get_errno;
  _ ← sys_close fd;
  set_errno saved_errno.

(** The directory case: the index file in directory [fd]. *)
Definition file_open_index (fd : Z) (file : option file_t) : M W (Z * option file_t) :=
  index_fd ← sys_openat2 fd DEFAULT_INDEX_FILE beneath_how;
  if index_fd <? 0 then
    saved_errno ← get_errno;
    _ ← sys_close fd;
    _ ← refuse_escape saved_errno;
    mret (-1, file)
  else
    _ ← sys_close fd;
    st ← sys_fstat index_fd;
    match st with
    | None => _ ← close_keeping_errno index_fd; mret (-1, file)
    | Some st =>
      if negb (S_ISREG (st_mode st)) then
        _ ← sys_close index_fd;
        _ ← set_errno EACCES;
        mret (-1, file)
      else mret (0, Some (FileT index_fd (st_size st)))
    end.

(** [file] is the pointed structure, [None] when it is uninitialised. *)
Definition file_open_path (root_fd : Z) (request_path : obj) (file : option file_t)
    : M W (Z * option file_t) :=
  c ← lift (rd request_path 0);
  if decide (c ≠ "/"%byte) then
    _ ← set_errno EINVAL;
    mret (-1, file)
  else
    path ← lift (relative_path request_path);
    fd ← sys_openat2 root_fd path beneath_how;
    if fd <? 0 then
      saved_errno ← get_errno;
      _ ← refuse_escape saved_errno;
      mret (-1, file)
    else
      st ← sys_fstat fd;
      match st with
      | None => _ ← close_keeping_errno fd; mret (-1, file)
      | Some st =>
        if S_ISREG (st_mode st) then mret (0, Some (FileT fd (st_size st)))
        else if S_ISDIR (st_mode st) then file_open_index fd file
        else
          _ ← sys_close fd;
          _ ← set_errno EACCES;
          mret (-1, file)
      end.

Fixpoint file_send_loop (fuel : nat) (file : file_t) (socket_fd offset total_sent : Z) : M W Z :=
  match fuel with
  | O => out_of_fuel
  | S fuel =>
    if total_sent <? f_size file then
      '(sent, offset) ← sys_sendfile socket_fd (f_fd file) offset (f_size file - total_sent);
      if sent <? 0 then mret (-1)
      else if sent =? 0 then mret (-1)
      else file_send_loop fuel file socket_fd offset (total_sent + sent)
    else mret total_sent
  end.

Definition file_send (fuel : nat) (file : file_t) (socket_fd : Z) : M W Z :=
  file_send_loop fuel file socket_fd 0 0.
End file.

(** ** Specification *)
(** The name looked up for the path [s]. *)
Fixpoint strip_slashes (s : list byte) : list byte :=
  match s with
  | b :: s' => if decide (b = "/"%byte) then strip_slashes s' else s
  | [] => []
  end.
Definition lookup_name (s : list byte) : list byte :=
  match strip_slashes s with [] => lit "." | name => name end.

(** An open the server may make, in terms of the bits of Linux: for reading (access
    mode 0), closed on exec (0x80000), with RESOLVE_BENEATH (0x08) and
    RESOLVE_NO_SYMLINKS (0x04); of a relative name, below the root or of an index
    file. *)
Record confined (root_fd : Z) (c : open_call) : Prop := {
  conf_read : Z.land (how_flags (oc_how c)) 3 = 0;
  conf_cloexec : Z.testbit (how_flags (oc_how c)) 19 = true;
  conf_beneath : Z.testbit (how_resolve (oc_how c)) 3 = true;
  conf_no_symlinks : Z.testbit (how_resolve (oc_how c)) 2 = true;
  conf_relative : oc_path c ≠ [] ∧ head (oc_path c) ≠ Some "/"%byte;
  conf_dir : oc_dir c = root_fd ∨ oc_path c = lit "index.html"
}.
Definition confined_event (root_fd : Z) (e : file_event) : Prop :=
  match e with Opened c _ _ | Refused c _ => confined root_fd c | _ => True end.

Definition root_call (root_fd : Z) (s : list byte) : open_call :=
  OpenCall root_fd (lookup_name s) beneath_how.
Definition index_call (fd : Z) : open_call := OpenCall fd DEFAULT_INDEX_FILE beneath_how.

(** Escapes from the document root count as EACCES. *)
Definition escape_errno (e : Z) : Z := if decide (e = EXDEV ∨ e = ELOOP) then EACCES else e.

(** [index_lookup fd l r]: what the file system said, [l], makes [r] of the index
    file of the directory [fd]: the contents of a regular file, or an error. *)
Inductive index_lookup (fd : Z) : list file_event → list byte + Z → Prop :=
  | index_refused e :
      index_lookup fd [Refused (index_call fd) e] (inr (escape_errno e))
  | index_unexamined i c e :
      index_lookup fd [Opened (index_call fd) i c; Unexamined i e] (inr e)
  | index_other i c st :
      S_ISREG (st_mode st) = false →
      index_lookup fd [Opened (index_call fd) i c; Examined i st] (inr EACCES)
  | index_file i c st :
      S_ISREG (st_mode st) = true →
      index_lookup fd [Opened (index_call fd) i c; Examined i st] (inl c).

(** The same of the path [s] beneath the document root. *)
Inductive path_lookup (root_fd : Z) (s : list byte) : list file_event → list byte + Z → Prop :=
  | lookup_relative :
      head s ≠ Some "/"%byte → path_lookup root_fd s [] (inr EINVAL)
  | lookup_refused e : head s = Some "/"%byte →
      path_lookup root_fd s [Refused (root_call root_fd s) e] (inr (escape_errno e))
  | lookup_unexamined fd c e : head s = Some "/"%byte →
      path_lookup root_fd s [Opened (root_call root_fd s) fd c; Unexamined fd e] (inr e)
  | lookup_file fd c st : head s = Some "/"%byte →
      S_ISREG (st_mode st) = true →
      path_lookup root_fd s [Opened (root_call root_fd s) fd c; Examined fd st] (inl c)
  | lookup_other fd c st : head s = Some "/"%byte →
      S_ISREG (st_mode st) = false → S_ISDIR (st_mode st) = false →
      path_lookup root_fd s [Opened (root_call root_fd s) fd c; Examined fd st] (inr EACCES)
  | lookup_index fd c st l r : head s = Some "/"%byte →
      S_ISREG (st_mode st) = false → S_ISDIR (st_mode st) = true → index_lookup fd l r →
      path_lookup root_fd s (Opened (root_call root_fd s) fd c :: Examined fd st :: l) r.

Lemma strip_slashes_head s : head (strip_slashes s) ≠ Some "/"%byte.
Proof.
  induction s as [|b s IH]; simpl; [done|]. case_decide; [done|]. simpl. naive_solver.
Qed.

Lemma lookup_name_relative s : lookup_name s ≠ [] ∧ head (lookup_name s) ≠ Some "/"%byte.
Proof.
  unfold lookup_name. pose proof (strip_slashes_head s). by destruct (strip_slashes s).
Qed.

Lemma confined_root root s : confined root (root_call root s).
Proof. split; simpl; [done..|apply lookup_name_relative|by left]. Qed.
Lemma confined_index root fd : confined root (index_call fd).
Proof. split; simpl; [done..|by right]. Qed.

Lemma index_lookup_confined root fd l r : index_lookup fd l r → Forall (confined_event root) l.
Proof. destruct 1; repeat (apply Forall_cons_2; [by try apply confined_index|]); apply Forall_nil_2. Qed.

(** Every lookup is confined, and its result is a function of what the file
    system said. *)
Lemma path_lookup_confined root s l r : path_lookup root s l r → Forall (confined_event root) l.
Proof.
  destruct 1; repeat (apply Forall_cons_2; [by try apply confined_root|]); try apply Forall_nil_2.
  by eapply index_lookup_confined.
Qed.

Lemma index_lookup_fun fd l r r' : index_lookup fd l r → index_lookup fd l r' → r = r'.
Proof. intros H H'. inversion H; subst; inversion H'; subst; congruence. Qed.

Lemma path_lookup_fun root s l r r' : path_lookup root s l r → path_lookup root s l r' → r = r'.
Proof.
  intros H H'. inversion H; subst; inversion H'; subst; try congruence;
    try by eapply index_lookup_fun.
  all: match goal with H : index_lookup _ [] _ |- _ => by inversion H end.
Qed.

Section path.
Context (path s : obj) (Hs : cstr_of path = Some s).

Lemma skip_slashes_spec fuel p :
  (p ≤ length s)%nat → (length s - p < fuel)%nat →
  ∃ q, skip_slashes fuel path p ⇓ q ∧ (q ≤ length s)%nat ∧ drop q s = strip_slashes (drop p s).
Proof using Hs.
  revert p. induction fuel as [|fuel IH]; intros p Hp Hf; [lia|]. simpl.
  destruct (decide (p = length s)) as [->|Hne].
  - rewrite (rd_end path s) by done. simpl. exists (length s). by rewrite drop_all.
  - destruct (rd_at path s Hs p ltac:(lia)) as (b & Hb & -> & _). rewrite bind_ret_l.
    rewrite (drop_S _ b) by done. simpl. case_decide.
    + destruct (IH (p + 1)%nat ltac:(lia) ltac:(lia)) as (q & Hq & Hle & Hd).
      rewrite Nat.add_1_r in Hd, Hq. rewrite Nat.add_1_r. eauto.
    + exists p. split_and!; [done|lia|by apply drop_S].
Qed.

Lemma relative_path_spec : relative_path path ⇓ lookup_name s.
Proof using Hs.
  pose proof (cstr_of_length _ _ Hs) as Hlen.
  destruct (skip_slashes_spec (length path) 0 ltac:(lia) ltac:(lia)) as (q & Hq & Hle & Hd).
  rewrite drop_0 in Hd. unfold relative_path, lookup_name. rewrite Hq, bind_ret_l, <- Hd.
  destruct (decide (q = length s)) as [->|Hne].
  - by rewrite (rd_end path s), bind_ret_l, drop_all by done.
  - destruct (rd_at path s Hs q ltac:(lia)) as (b & Hb & -> & Hnul). rewrite bind_ret_l.
    rewrite decide_False by done. rewrite (c_string_at path s) by done.
    by rewrite (drop_S _ b).
Qed.
End path.

Section file_rules.
Context {W : Type} `{K : Kernel W} {HL : KernelLaws W} (F : Prop) (B : W → nat).
Context (root_fd : Z).

(** What opening did: the file system said [l], the descriptors are [fds], and
    nothing else changed. *)
Definition opened (l : list file_event) (fds : gmap Z (list byte)) (p p' : proc W) : Prop :=
  no_more B p p' ∧ view p' = log_files l (set_fds fds (view p)).

Lemma opened_trans l fds l' fds' p p1 p2 :
  opened l fds p p1 → opened l' fds' p1 p2 → opened (l ++ l') fds' p p2.
Proof using Type.
  intros [Hm Hv] [Hm2 Hv2]. split; [by etrans|]. rewrite Hv2, Hv.
  unfold log_files, set_fds. simpl. by rewrite <- app_assoc.
Qed.

Lemma opened_refl p p' : no_more B p p' → view p' = view p → opened [] (kv_fds (view p)) p p'.
Proof using Type. intros Hm Hv. split; [done|]. by rewrite Hv, set_fds_id, log_files_nil. Qed.

Lemma opened_log e p p' :
  no_more B p p' → view p' = log_files [e] (view p) → opened [e] (kv_fds (view p)) p p'.
Proof using Type. intros Hm Hv. split; [done|]. by rewrite Hv, set_fds_id. Qed.

Lemma opened_fds l fds p p' : opened l fds p p' → kv_fds (view p') = fds.
Proof using Type. by intros [_ ->]. Qed.

Lemma opened_eq l fds fds' p p' : fds = fds' → opened l fds p p' → opened l fds' p p'.
Proof using Type. by intros ->. Qed.

(** Closing a descriptor, whatever becomes of [errno]. *)
Lemma wpg_close_then {A} fd (m : M W A) Q p :
  (∀ p', opened [] (delete fd (kv_fds (view p))) p p' → wpg F m Q p') →
  wpg F (_ ← sys_close fd; m) Q p.
Proof using HL.
  intros H. apply wpg_bind, (wpg_close F B). intros _ p' Hv Hm. apply H. split; [done|].
  by rewrite Hv, log_files_nil.
Qed.

Lemma wpg_set_errno_then {A} e (m : M W A) Q p :
  (∀ p', opened [] (kv_fds (view p)) p p' → p_errno p' = e → wpg F m Q p') →
  wpg F (_ ← set_errno e; m) Q p.
Proof using Type. intros H. apply wpg_bind, wpg_set_errno, H; [|done]. apply opened_refl; [by intros ?|done]. Qed.

Lemma wpg_refuse_escape_then {A} e (m : M W A) Q p :
  (∀ p', opened [] (kv_fds (view p)) p p' → p_errno p' = escape_errno e → wpg F m Q p') →
  wpg F (_ ← refuse_escape e; m) Q p.
Proof using Type.
  intros H. unfold refuse_escape, escape_errno in *.
  destruct (decide (e = EXDEV ∨ e = ELOOP)) as [He|He].
  - assert ((e =? EXDEV) || (e =? ELOOP) = true) as -> by (rewrite orb_true_iff, !Z.eqb_eq; done).
    by apply wpg_set_errno_then.
  - assert ((e =? EXDEV) || (e =? ELOOP) = false) as -> by (rewrite orb_false_iff, !Z.eqb_neq; tauto).
    by apply wpg_set_errno_then.
Qed.

(** Close [fd] and fail, leaving the descriptors without [fd]; and which error is
    reported. *)
Section close_fail.
Context (fd : Z) (file : option file_t) (Q : Z * option file_t → proc W → Prop) (p : proc W).
Definition closed_with (e : Z) : Prop :=
  ∀ p', opened [] (delete fd (kv_fds (view p))) p p' → p_errno p' = e → Q (-1, file) p'.

Lemma closed_with_end e p1 p2 :
  closed_with e → opened [] (delete fd (kv_fds (view p))) p p1 →
  opened [] (kv_fds (view p1)) p1 p2 → p_errno p2 = e → Q (-1, file) p2.
Proof using Type.
  intros H H1 H2. apply H. rewrite (opened_fds _ _ _ _ H1) in H2.
  exact (opened_trans _ _ _ _ _ _ _ H1 H2).
Qed.

Lemma wpg_close_keeping :
  closed_with (p_errno p) → wpg F (_ ← close_keeping_errno fd; mret (-1, file)) Q p.
Proof using HL.
  intros H. unfold close_keeping_errno. apply wpg_bind, wpg_bind, wpg_get_errno.
  apply wpg_close_then. intros p1 H1. apply wpg_set_errno, wpg_ret.
  apply (closed_with_end _ p1 _ H H1); [|done]. apply opened_refl; [by intros ?|done].
Qed.

Lemma wpg_close_errno e :
  closed_with e → wpg F (_ ← sys_close fd; _ ← set_errno e; mret (-1, file)) Q p.
Proof using HL.
  intros H. apply wpg_close_then. intros p1 H1. apply wpg_set_errno_then.
  intros p2 H2 He. by apply wpg_ret, (closed_with_end e p1).
Qed.

Lemma wpg_close_escape e :
  closed_with (escape_errno e) → wpg F (_ ← sys_close fd; _ ← refuse_escape e; mret (-1, file)) Q p.
Proof using HL.
  intros H. apply wpg_close_then. intros p1 H1. apply wpg_refuse_escape_then.
  intros p2 H2 He. by apply wpg_ret, (closed_with_end (escape_errno e) p1).
Qed.
End close_fail.

(** The two ends of an open, with what [R] makes of the events: a new descriptor
    of a regular file and its contents, or failure with [errno] and the
    descriptors as before. *)
Definition open_end (R : list file_event → list byte + Z → Prop) (file : option file_t)
    (fds : gmap Z (list byte)) (p : proc W) (res : Z * option file_t) (p' : proc W) : Prop :=
  ∃ l, (res = (-1, file) ∧ R l (inr (p_errno p')) ∧ opened l fds p p') ∨
    ∃ fd content, res = (0, Some (FileT fd (Z.of_nat (length content)))) ∧ R l (inl content) ∧
      0 <= fd ∧ fds !! fd = None ∧ Z.of_nat (length content) < 2 ^ 63 ∧ within B p content ∧
      opened l (<[fd := content]> fds) p p'.

Lemma open_fail (R : list file_event → list byte + Z → Prop) file fds fds1 l p p1 e p' :
  R l (inr e) → opened l fds1 p p1 → opened [] fds p1 p' → p_errno p' = e →
  open_end R file fds p (-1, file) p'.
Proof using Type.
  intros HR H1 H2 <-. exists l. left. split_and!; [done|done|].
  rewrite <- (app_nil_r l). by eapply opened_trans.
Qed.

Lemma open_end_step (R R' : list file_event → list byte + Z → Prop) file l fds fds1 p p1 res p' :
  (∀ l' r, R' l' r → R (l ++ l') r) → opened l fds1 p p1 →
  open_end R' file fds p1 res p' → open_end R file fds p res p'.
Proof using Type.
  intros HR H1 (l' & [(-> & HR' & H2)|(fd & c & -> & HR' & Hfd & Hno & Hlen & Hin & H2)]); exists (l ++ l').
  - left. split_and!; [done|by apply HR|by eapply opened_trans].
  - right. exists fd, c. split_and!; [done|by apply HR|done|done|done| |by eapply opened_trans].
    intros Hf. specialize (Hin Hf). destruct H1 as [Hm _]. specialize (Hm Hf). lia.
Qed.

(** The size of a regular file that was just opened. *)
Lemma opened_size l fd content fds p p1 st :
  opened l (<[fd := content]> fds) p p1 →
  st_size st = Z.of_nat (length (fd_content fd (view p1))) → 0 <= st_size st < 2 ^ 63 →
  st_size st = Z.of_nat (length content) ∧ Z.of_nat (length content) < 2 ^ 63.
Proof using Type.
  intros Ho Hst Hsz. unfold fd_content in Hst. rewrite (opened_fds _ _ _ _ Ho), lookup_insert_eq in Hst.
  simpl in Hst. lia.
Qed.

(** A descriptor that was opened, and is closed to fail. *)
Lemma closed_with_fail (R : list file_event → list byte + Z → Prop) l fd c fds file p p1 e :
  opened l (<[fd := c]> fds) p p1 → fds !! fd = None → R l (inr e) →
  closed_with fd file (open_end R file fds p) p1 e.
Proof using Type.
  intros Ho Hno HR p2 H2 He. eapply open_fail; [exact HR|exact Ho| |exact He].
  rewrite (opened_fds _ _ _ _ Ho), delete_insert_id in H2 by done. exact H2.
Qed.

Lemma file_open_index_spec fd dir fds file p :
  kv_fds (view p) = <[fd := dir]> fds → fds !! fd = None →
  wpg F (file_open_index fd file) (open_end (index_lookup fd) file fds p) p.
Proof using HL.
  intros Hfds Hfd. unfold file_open_index. apply wpg_bind, (wpg_openat2 F B).
  2:{ intros p1 Hv Hm. simpl. apply wpg_bind, wpg_get_errno, wpg_close_escape.
      apply opened_log in Hv; [|done]. rewrite Hfds in Hv.
      eapply closed_with_fail; [exact Hv|done|apply index_refused]. }
  intros idx content p1 Hidx Hno Hv Hm Hin. rewrite (proj2 (Z.ltb_ge _ _)) by done.
  rewrite Hfds in Hno, Hv. apply lookup_insert_None in Hno as [Hno Hne].
  apply wpg_close_then. intros p2 H2.
  assert (opened [Opened (index_call fd) idx content] (<[idx := content]> fds) p p2) as Ho.
  { eapply opened_eq; [|exact (opened_trans _ _ _ _ _ _ _ (conj Hm Hv) H2)].
    rewrite Hv. simpl. by rewrite delete_insert_ne, delete_insert_id by done. }
  apply wpg_bind, (wpg_fstat F B).
  - intros st p3 Hv3 Hm3 Hsz Hreg. apply opened_log in Hv3; [|done]. rewrite (opened_fds _ _ _ _ Ho) in Hv3.
    pose proof (opened_trans _ _ _ _ _ _ _ Ho Hv3) as Ho3. split_if.
    + apply negb_true_iff in E. apply wpg_close_errno.
      eapply closed_with_fail; [exact Ho3|done|by apply index_other].
    + apply negb_false_iff in E. destruct (opened_size _ _ _ _ _ _ _ Ho (Hreg E) Hsz) as [-> Hlen].
      apply wpg_ret. eexists. right. exists idx, content. split_and!; try done. by apply index_file.
  - intros p3 Hv3 Hm3. apply opened_log in Hv3; [|done]. rewrite (opened_fds _ _ _ _ Ho) in Hv3.
    apply wpg_close_keeping. eapply closed_with_fail;
      [exact (opened_trans _ _ _ _ _ _ _ Ho Hv3)|done|apply index_unexamined].
Qed.

(** The first character decides whether anything is looked up. *)
Lemma rd_first path s : cstr_of path = Some s →
  ∃ c, rd path 0 ⇓ c ∧ (c = "/"%byte ↔ head s = Some "/"%byte).
Proof using Type.
  intros Hs. destruct s as [|b s].
  - eexists. split; [by apply (rd_end path [])|done].
  - eexists. split; [by apply (rd_lookup path (b :: s))|]. simpl. naive_solver.
Qed.

Lemma file_open_path_spec path s file p :
  cstr_of path = Some s →
  wpg F (file_open_path root_fd path file) (open_end (path_lookup root_fd s) file (kv_fds (view p)) p) p.
Proof using HL.
  intros Hs. unfold file_open_path. apply wpg_bind, wpg_lift.
  destruct (rd_first path s Hs) as (c & -> & Hc). cbn [returns]. case_decide as Hslash.
  { apply wpg_set_errno_then. intros p1 H1 He. apply wpg_ret.
    eapply (open_fail _ _ _ _ []); [|by apply opened_refl|exact H1|exact He].
    apply lookup_relative. tauto. }
  assert (head s = Some "/"%byte) as Hhead by (apply Hc, Hslash).
  apply wpg_bind, wpg_lift. rewrite (relative_path_spec _ _ Hs). cbn [returns].
  apply wpg_bind, (wpg_openat2 F B).
  2:{ intros p1 Hv Hm. simpl. apply wpg_bind, wpg_get_errno, wpg_refuse_escape_then.
      intros p2 H2 He. apply wpg_ret. apply opened_log in Hv; [|done].
      eapply open_fail; [by apply lookup_refused|exact Hv| |exact He].
      by rewrite (opened_fds _ _ _ _ Hv) in H2. }
  intros fd content p1 Hfd Hno Hv Hm Hin. rewrite (proj2 (Z.ltb_ge _ _)) by done.
  pose proof (conj Hm Hv : opened [Opened (root_call root_fd s) fd content] _ p p1) as Ho.
  apply wpg_bind, (wpg_fstat F B).
  - intros st p2 Hv2 Hm2 Hsz Hreg. apply opened_log in Hv2; [|done]. rewrite (opened_fds _ _ _ _ Ho) in Hv2.
    pose proof (opened_trans _ _ _ _ _ _ _ Ho Hv2) as Ho2. split_if.
    { destruct (opened_size _ _ _ _ _ _ _ Ho (Hreg eq_refl) Hsz) as [-> Hlen].
      apply wpg_ret. eexists. right. exists fd, content. split_and!; try done. by apply lookup_file. }
    split_if.
    { eapply wpg_mono; [apply (file_open_index_spec fd content (kv_fds (view p))); [|done]|].
      { by rewrite (opened_fds _ _ _ _ Ho2). }
      intros res p3 H3. eapply open_end_step; [|exact Ho2|exact H3].
      intros l' r Hl. by apply lookup_index. }
    apply wpg_close_errno. eapply closed_with_fail; [exact Ho2|done|by apply lookup_other].
  - intros p2 Hv2 Hm2. apply opened_log in Hv2; [|done]. rewrite (opened_fds _ _ _ _ Ho) in Hv2.
    apply wpg_close_keeping. eapply closed_with_fail;
      [exact (opened_trans _ _ _ _ _ _ _ Ho Hv2)|done|by apply lookup_unexamined].
Qed.
End file_rules.

(** ** Sending a file *)
Section file_send_rules.
Context {W : Type} `{K : Kernel W} {HL : KernelLaws W}.

Lemma file_send_loop_spec fuel file socket_fd sent p :
  0 <= sent <= f_size file → f_size file - sent < Z.of_nat fuel →
  wp (file_send_loop fuel file socket_fd sent sent) (λ r p', ∃ n,
    sent <= n <= f_size file ∧
    view p' = push_out socket_fd (seg (fd_content (f_fd file) (view p)) sent (n - sent)) (view p) ∧
    (r = f_size file ∧ n = f_size file ∨
     r = -1 ∧ n < f_size file ∧
       (f_size file <= Z.of_nat (length (fd_content (f_fd file) (view p))) →
          p_errno p' = EINTR ∨ faulty W))) p.
Proof using HL.
  revert sent p. induction fuel as [|fuel IH]; intros sent p Hs Hf; [lia|].
  simpl. split_if; [apply Z.ltb_lt in E|apply Z.ltb_ge in E].
  2:{ apply wpg_ret. exists sent. rewrite Z.sub_diag, seg_0, push_out_nil.
      split_and!; [lia..|done|left; lia]. }
  apply wpg_bind, (wpg_sendfile False (λ _, O)).
  - intros n p1 Hn bs Hlen Hv _ Hfa. rewrite (proj2 (Z.ltb_ge n 0)) by lia. split_if.
    + apply Z.eqb_eq in E0 as ->. apply wpg_ret. exists sent.
      rewrite Z.sub_diag, seg_0, push_out_nil. rewrite Hv, push_out_nil.
      split_and!; [lia..|done|right]. split_and!; [done|lia|]. intros Hsz. right. apply Hfa; [done|split; lia].
    + apply Z.eqb_neq in E0. eapply wpg_mono; [apply IH; lia|].
      intros r p2 (m & Hm & Hv2 & Hr). exists m. split; [lia|].
      rewrite Hv in Hr. split; [|exact Hr].
      rewrite Hv2, Hv, push_out_app. f_equal.
      change (fd_content _ (push_out ?a ?b ?c)) with (fd_content (f_fd file) c).
      change bs with (seg (fd_content (f_fd file) (view p)) sent n).
      rewrite <- seg_app by lia. f_equal. lia.
  - intros p1 Hv _ _ Hfa. simpl. apply wpg_ret. exists sent.
    rewrite Z.sub_diag, seg_0, push_out_nil. split_and!; [lia..|done|right]. split_and!; [done|lia|].
    intros Hsz. destruct (decide (p_errno p1 = EINTR)) as [?|He]; [by left|right].
    apply Hfa; [done|split; lia].
Qed.
End file_send_rules.

(** C15: opening a request path gives what the file system's answers make of it,
    a function of them: the contents of the regular file of that name, or of the
    index file of the directory of that name, or an error, escapes from the
    document root as EACCES.  On failure the open descriptors are as before; on
    success exactly one is new, of that file, with the length of its contents
    for size.  Every open is made with RESOLVE_BENEATH and RESOLVE_NO_SYMLINKS
    set, for reading, on a relative name. *)
Theorem file_open_path_correct {W} `{K : Kernel W, HL : !KernelLaws W} root_fd path s file p :
  cstr_of path = Some s →
  ∃ res p' l, file_open_path root_fd path file p ⇓ (res, p') ∧
    Forall (confined_event root_fd) l ∧
    ((res = (-1, file) ∧ path_lookup root_fd s l (inr (p_errno p')) ∧
       view p' = log_files l (view p)) ∨
     ∃ fd content, res = (0, Some (FileT fd (Z.of_nat (length content)))) ∧
       path_lookup root_fd s l (inl content) ∧ 0 <= fd ∧ kv_fds (view p) !! fd = None ∧
       view p' = log_files l (set_fds (<[fd := content]> (kv_fds (view p))) (view p))).
Proof.
  intros Hs.
  destruct (wp_elim _ _ _ (file_open_path_spec False (λ _, O) root_fd path s file p Hs))
    as (res & p' & Hrun & l & Hend). exists res, p', l. split; [done|].
  destruct Hend as [(-> & HR & [_ Hv])|(fd & c & -> & HR & Hfd & Hno & _ & _ & [_ Hv])];
    (split; [by eapply path_lookup_confined|]); [left|right].
  - by rewrite set_fds_id in Hv.
  - by exists fd, c.
Qed.

(** An open the kernel refuses with [e] is reported as [e], except that
    escapes from the document root are reported as EACCES; no other call is
    made. *)
Theorem file_open_path_refused {W} `{K : Kernel W} root_fd path s file p e w' :
  cstr_of path = Some ("/"%byte :: s) →
  k_openat2 root_fd (lookup_name s) beneath_how (p_kernel p) = (SysErr e, w') →
  file_open_path root_fd path file p ⇓
    ((-1, file), Proc (if decide (e = EXDEV ∨ e = ELOOP) then EACCES else e) w').
Proof.
  intros Hs He. unfold file_open_path. unfold mbind at 1, M_bind, lift.
  rewrite (rd_lookup path ("/"%byte :: s) Hs 0 "/"%byte) by done.
  rewrite decide_False by naive_solver.
  unfold mbind at 1, M_bind, lift. rewrite (relative_path_spec _ _ Hs).
  change (lookup_name ("/"%byte :: s)) with (lookup_name s).
  unfold mbind at 1, M_bind, sys_openat2, syscall. rewrite He. simpl.
  unfold mbind, M_bind, refuse_escape. simpl.
  destruct (decide (e = EXDEV ∨ e = ELOOP)) as [[-> | ->]|Hne]; [done|done|].
  rewrite (proj2 (Z.eqb_neq e EXDEV)), (proj2 (Z.eqb_neq e ELOOP)) by tauto. done.
Qed.

(** C34: [file_send] puts a prefix of the file on the socket, in order and once,
    and returns: the file's size when all of it was sent, -1 otherwise, which
    for a file of that size takes a failure or an interruption. *)
Theorem file_send_correct {W} `{K : Kernel W, HL : !KernelLaws W} fuel file socket_fd p :
  0 <= f_size file < Z.of_nat fuel →
  ∃ r p' n, file_send fuel file socket_fd p ⇓ (r, p') ∧ 0 <= n <= f_size file ∧
    view p' = push_out socket_fd (take (Z.to_nat n) (fd_content (f_fd file) (view p))) (view p) ∧
    (r = f_size file ∧ n = f_size file ∨
     r = -1 ∧ n < f_size file ∧
       (f_size file <= Z.of_nat (length (fd_content (f_fd file) (view p))) →
          p_errno p' = EINTR ∨ faulty W)).
Proof.
  intros Hf.
  destruct (wp_elim _ _ _ (file_send_loop_spec fuel file socket_fd 0 p ltac:(lia) ltac:(lia)))
    as (r & p' & Hrun & n & Hn & Hv & Hr).
  rewrite Z.sub_0_r in Hv. by exists r, p', n.
Qed.

(** The index of a directory, a refused symbolic link, and a file sent in two
    pieces. *)
Definition S_IFREG_MODE : Z := 33188.
Definition S_IFDIR_MODE : Z := 16877.
Definition sample_site : list (list byte * (Z * list byte + Z)) :=
  [(lit ".", inl (S_IFDIR_MODE, [])); (lit "index.html", inl (S_IFREG_MODE, lit "<p>home</p>"));
   (lit "a.txt", inl (S_IFREG_MODE, lit "text")); (lit "link", inr ELOOP)].

Lemma file_open_path_correct_witness :
  ∃ res p' l, file_open_path 3 (lit0 "//") None (boot [] [] sample_site) ⇓ (res, p') ∧
    Forall (confined_event 3) l ∧
    ((res = (-1, None) ∧ path_lookup 3 (lit "//") l (inr (p_errno p')) ∧
       view p' = log_files l (view (boot [] [] sample_site))) ∨
     ∃ fd content, res = (0, Some (FileT fd (Z.of_nat (length content)))) ∧
       path_lookup 3 (lit "//") l (inl content) ∧ 0 <= fd ∧
       kv_fds (view (boot [] [] sample_site)) !! fd = None ∧
       view p' = log_files l (set_fds (<[fd := content]>
         (kv_fds (view (boot [] [] sample_site)))) (view (boot [] [] sample_site)))).
Proof. apply (file_open_path_correct 3 (lit0 "//") (lit "//") None); reflexivity. Defined.

Lemma file_open_path_refused_witness :
  file_open_path 3 (lit0 "/link") None (boot [] [] sample_site) ⇓
    ((-1, None), Proc EACCES (script_openat2 3 (lit "link") beneath_how
                                (p_kernel (boot [] [] sample_site))).2).
Proof.
  apply (file_open_path_refused 3 (lit0 "/link") (lit "link") None (boot [] [] sample_site) ELOOP);
    reflexivity.
Defined.

Definition sample_open_file : proc script :=
  Proc 0 (with_view (KView [] [] {[7 := lit "text"]} ∅ []) (p_kernel (boot [inl 3] [] []))).

Lemma file_send_correct_witness :
  ∃ r p' n, file_send 5 (FileT 7 4) 9 sample_open_file ⇓ (r, p') ∧ 0 <= n <= 4 ∧
    view p' = push_out 9 (take (Z.to_nat n) (fd_content 7 (view sample_open_file)))
                (view sample_open_file) ∧
    (r = 4 ∧ n = 4 ∨
     r = -1 ∧ n < 4 ∧
       (4 <= Z.of_nat (length (fd_content 7 (view sample_open_file))) →
          p_errno p' = EINTR ∨ faulty script)).
Proof. apply (file_send_correct 5 (FileT 7 4) 9 sample_open_file). simpl. lia. Defined.
