(* ===== verification/HttpConnection.v ===== *)
(** * Connection buffer ([src/http_connection.c], [include/http_connection.h])

    The buffer of received bytes of one connection, and its refinement of a
    bounded FIFO of bytes. *)
From S2P Require Import Prelude.
From S2P Require Import CLib.
From S2P Require Import Kernel.
From S2P Require Import ScriptKernel.
From S2P Require Import Io.
From S2P Require Import HttpParse.
From S2P Require Import HttpGrammar.
From S2P Require Import HttpParseProofs.
From S2P Require Import GrammarFacts.
From S2P Require Import HttpResponse.
From S2P Require Import HttpResponseProofs.

(** ** Data *)
Record http_connection_t := HttpConnection {
  hc_buffer : option block;
  hc_buffer_used : Z;
  hc_buffer_capacity : Z;
  hc_close_connection : Z;
  hc_response : http_response_t
}.

Definition set_hc_buffer (b : option block) (used capacity : Z) (c : http_connection_t)
    : http_connection_t :=
  HttpConnection b used capacity (hc_close_connection c) (hc_response c).
Definition set_hc_close (x : Z) (c : http_connection_t) : http_connection_t :=
  HttpConnection (hc_buffer c) (hc_buffer_used c) (hc_buffer_capacity c) x (hc_response c).
Definition set_hc_response (r : http_response_t) (c : http_connection_t) : http_connection_t :=
  HttpConnection (hc_buffer c) (hc_buffer_used c) (hc_buffer_capacity c)
    (hc_close_connection c) r.

(** The memory of a pointer that must not be NULL. *)
Definition pointee {A} (ptr : option A) : outcome A :=
  match ptr with Some a => Ret a | None => UB end.

(** ** Operations *)
Section lifetime.
Context {W : Type} `{K : Kernel W}.

Definition http_connection_init (connection : option http_connection_t) (buffer_capacity : Z)
    : M W (Z * option http_connection_t) :=
  match connection with
  | None => mret (-1, connection)
  | Some c =>
    if buffer_capacity =? 0 then mret (-1, connection) else
    buffer ← c_malloc buffer_capacity;
    match buffer with
    | None => mret (-1, Some (set_hc_buffer None (hc_buffer_used c) (hc_buffer_capacity c) c))
    | Some b => mret (0, Some (set_hc_close 0 (set_hc_buffer (Some b) 0 buffer_capacity c)))
    end
  end.

Definition http_connection_destroy (connection : option http_connection_t)
    : M W (option http_connection_t) :=
  match connection with
  | None => mret None
  | Some c =>
    _ ← c_free (hc_buffer c);
    mret (Some (set_hc_close 0 (set_hc_buffer None 0 0 c)))
  end.
End lifetime.

Definition http_connection_feed (connection : option http_connection_t) (data : option obj)
    (length : Z) : outcome (Z * option http_connection_t) :=
  match connection, data with
  | Some c, Some data =>
    if size_sub (hc_buffer_capacity c) (hc_buffer_used c) <? length
    then mret (-1, connection) else
    b ← pointee (hc_buffer c);
    buf ← c_memcpy (blk_data b) (Z.to_nat (hc_buffer_used c)) data 0 (Z.to_nat length);
    mret (0, Some (set_hc_buffer (Some (Block (blk_id b) buf))
                     (size_add (hc_buffer_used c) length) (hc_buffer_capacity c) c))
  | _, _ => mret (-1, connection)
  end.

Definition http_connection_data (connection : option http_connection_t) : option block :=
  match connection with None => None | Some c => hc_buffer c end.

Definition http_connection_data_length (connection : option http_connection_t) : Z :=
  match connection with None => 0 | Some c => hc_buffer_used c end.

(** The search reads the buffer only when it may hold an empty line. *)
Definition find_in_buffer (c : http_connection_t) : outcome (option nat) :=
  match hc_buffer c with
  | Some b => http_find_header_end (blk_data b) (hc_buffer_used c)
  | None => http_find_header_end [] (hc_buffer_used c)
  end.

Definition http_connection_request_ready (connection : option http_connection_t) : outcome bool :=
  match connection with
  | None => mret false
  | Some c => e ← find_in_buffer c; mret (bool_decide (is_Some e))
  end.

Definition http_connection_buffer_space (connection : option http_connection_t) : Z :=
  match connection with
  | None => 0
  | Some c => size_sub (hc_buffer_capacity c) (hc_buffer_used c)
  end.

Definition http_connection_request_length (connection : option http_connection_t) : outcome Z :=
  match connection with
  | None => mret 0
  | Some c =>
    header_end ← find_in_buffer c;
    match header_end with
    | None => mret 0
    | Some e => mret (Z.of_nat e)
    end
  end.

Definition http_connection_consume (connection : option http_connection_t) (length : Z)
    : outcome (option http_connection_t) :=
  match connection with
  | None => mret None
  | Some c =>
    if hc_buffer_used c <? length then mret connection else
    let remaining := size_sub (hc_buffer_used c) length in
    buffer ← (if 0 <? remaining then
                b ← pointee (hc_buffer c);
                bs ← slice (blk_data b) (Z.to_nat length) (Z.to_nat remaining);
                buf ← blit (blk_data b) 0 bs;
                mret (Some (Block (blk_id b) buf))
              else mret (hc_buffer c));
    mret (Some (set_hc_buffer buffer remaining (hc_buffer_capacity c) c))
  end.

#[global] Arguments http_connection_feed : simpl never.
#[global] Arguments http_connection_consume : simpl never.
#[global] Arguments http_connection_request_ready : simpl never.
#[global] Arguments http_connection_request_length : simpl never.

(** ** Invariant and abstraction *)
(** The buffer is a live block of the recorded capacity, filled up to
    [buffer_used]. *)
Record wf_connection (c : http_connection_t) : Prop := {
  wc_buffer : ∃ b, hc_buffer c = Some b ∧
                Z.of_nat (length (blk_data b)) = hc_buffer_capacity c;
  wc_used : 0 <= hc_buffer_used c <= hc_buffer_capacity c;
  wc_capacity : 0 < hc_buffer_capacity c < 2 ^ 63
}.

Definition buffer_id (c : http_connection_t) : Z :=
  match hc_buffer c with Some b => blk_id b | None => 0 end.

(** The bytes received and not yet consumed. *)
Definition buffered (c : http_connection_t) : list byte :=
  match hc_buffer c with Some b => take (Z.to_nat (hc_buffer_used c)) (blk_data b) | None => [] end.

(** The same connection, its buffered bytes apart. *)
Definition same_connection (c c' : http_connection_t) : Prop :=
  hc_buffer_capacity c' = hc_buffer_capacity c ∧ buffer_id c' = buffer_id c ∧
  hc_close_connection c' = hc_close_connection c ∧ hc_response c' = hc_response c.

Lemma length_buffered c : wf_connection c → Z.of_nat (length (buffered c)) = hc_buffer_used c.
Proof.
  intros [(b & Hb & Hl) Hu _]. unfold buffered. rewrite Hb, length_take. lia.
Qed.

Lemma feed_spec c data n :
  wf_connection c → 0 <= n <= Z.of_nat (length data) → n < 2 ^ 63 →
  if decide (Z.of_nat (length (buffered c)) + n <= hc_buffer_capacity c)
  then ∃ c', http_connection_feed (Some c) (Some data) n ⇓ (0, Some c') ∧
         wf_connection c' ∧ same_connection c c' ∧
         buffered c' = buffered c ++ take (Z.to_nat n) data
  else http_connection_feed (Some c) (Some data) n ⇓ (-1, Some c).
Proof.
  intros Hwf Hn H63. rewrite length_buffered by done.
  destruct Hwf as [(b & Hb & Hl) Hu Hc]. unfold http_connection_feed.
  rewrite size_sub_small by lia. case_decide as Hfit.
  2:{ by rewrite (proj2 (Z.ltb_lt _ _)) by lia. }
  rewrite (proj2 (Z.ltb_ge _ _)) by lia. rewrite Hb. simpl.
  unfold c_memcpy, slice. rewrite decide_True, bind_ret_l, drop_0 by lia.
  assert (length (take (Z.to_nat n) data) = Z.to_nat n) as Hlen by (rewrite length_take; lia).
  rewrite blit_ok, bind_ret_l by lia. rewrite size_add_small by lia.
  set (used := hc_buffer_used c) in *.
  assert (length (take (Z.to_nat used) (blk_data b)) = Z.to_nat used) as Hpre
    by (rewrite length_take; lia).
  eexists. split; [done|]. split_and!.
  - split; simpl; [|lia|lia]. eexists. split; [done|]. simpl.
    rewrite !length_app, length_drop. lia.
  - unfold same_connection, buffer_id. simpl. by rewrite Hb.
  - unfold buffered. simpl. rewrite Hb, app_assoc.
    rewrite take_app_length'; [done|]. rewrite length_app. lia.
Qed.

Lemma consume_spec c n :
  wf_connection c → 0 <= n →
  ∃ c', http_connection_consume (Some c) n ⇓ Some c' ∧ wf_connection c' ∧ same_connection c c' ∧
    buffered c' = if decide (n <= Z.of_nat (length (buffered c)))
                  then drop (Z.to_nat n) (buffered c) else buffered c.
Proof.
  intros Hwf Hn. rewrite length_buffered by done. unfold http_connection_consume.
  case_decide as Hle.
  2:{ rewrite (proj2 (Z.ltb_lt _ _)) by lia. by exists c. }
  rewrite (proj2 (Z.ltb_ge _ _)) by lia.
  destruct Hwf as [(b & Hb & Hl) Hu Hc]. rewrite size_sub_small by lia. rewrite Hb.
  split_if; [apply Z.ltb_lt in E|apply Z.ltb_ge in E].
  - simpl. unfold slice. rewrite decide_True, bind_ret_l by lia.
    set (kept := take _ (drop _ _)).
    assert (length kept = Z.to_nat (hc_buffer_used c - n)) as Hk
      by (unfold kept; rewrite length_take, length_drop; lia).
    rewrite blit_ok, bind_ret_l by lia. eexists. split; [done|]. split_and!.
    + split; simpl; [|lia|lia]. eexists. split; [done|]. simpl.
      rewrite length_app, length_drop. lia.
    + unfold same_connection, buffer_id. simpl. by rewrite Hb.
    + unfold buffered. simpl. rewrite Hb. rewrite take_app_length' by lia.
      unfold kept. rewrite skipn_firstn_comm. f_equal. lia.
  - eexists. split; [done|]. split_and!.
    + split; simpl; [by exists b|lia|lia].
    + unfold same_connection, buffer_id. simpl. by rewrite Hb.
    + unfold buffered. simpl. rewrite Hb.
      replace (hc_buffer_used c - n) with 0 by lia. symmetry. apply drop_ge.
      rewrite length_take. lia.
Qed.

Lemma find_in_buffer_spec c :
  wf_connection c →
  find_in_buffer c ⇓ (λ j, j + 4)%nat <$> find_sub CRLF2 (buffered c).
Proof.
  intros [(b & Hb & Hl) Hu Hc]. unfold find_in_buffer, buffered. rewrite Hb.
  rewrite <- (Z2Nat.id (hc_buffer_used c)) at 1 by lia.
  apply http_find_header_end_spec; lia.
Qed.

Lemma request_ready_spec c :
  wf_connection c →
  http_connection_request_ready (Some c) ⇓ bool_decide (is_Some (find_sub CRLF2 (buffered c))).
Proof.
  intros Hwf. unfold http_connection_request_ready. rewrite find_in_buffer_spec by done.
  rewrite bind_ret_l. unfold mret, outcome_ret. f_equal. apply bool_decide_ext.
  by destruct (find_sub _ _).
Qed.

Lemma request_length_spec c :
  wf_connection c →
  http_connection_request_length (Some c) ⇓
    match find_sub CRLF2 (buffered c) with Some j => Z.of_nat (j + 4) | None => 0 end.
Proof.
  intros Hwf. unfold http_connection_request_length. rewrite find_in_buffer_spec by done.
  rewrite bind_ret_l. by destruct (find_sub _ _).
Qed.

Lemma buffer_space_spec c :
  wf_connection c →
  http_connection_buffer_space (Some c) = hc_buffer_capacity c - Z.of_nat (length (buffered c)).
Proof.
  intros Hwf. rewrite length_buffered by done. destruct Hwf as [_ Hu Hc].
  apply size_sub_small. lia.
Qed.

(** ** Lifetime *)
Section lifetime_rules.
Context {W : Type} `{K : Kernel W} {HL : KernelLaws W} (F : Prop) (B : W → nat).

Lemma http_connection_init_spec c cap (Q : Z * option http_connection_t → proc W → Prop) p :
  0 < cap < 2 ^ 63 →
  (∀ c' p', no_more B p p' → view p' = view p → faulty W → Q (-1, Some c') p') →
  (∀ c' p', no_more B p p' → (buffer_id c' ∉ kv_heap (view p)) →
     view p' = set_heap ({[buffer_id c']} ∪ kv_heap (view p)) (view p) →
     wf_connection c' → buffered c' = [] → hc_buffer_capacity c' = cap →
     hc_close_connection c' = 0 → hc_response c' = hc_response c → Q (0, Some c') p') →
  wpg F (http_connection_init (Some c) cap) Q p.
Proof using HL.
  intros Hcap Hfail Hok. unfold http_connection_init. rewrite (proj2 (Z.eqb_neq _ _)) by lia.
  apply wpg_bind, (wpg_malloc F B).
  - intros id data p1 Hid Hdata Hm Hv. apply wpg_ret, Hok; try done.
    split; simpl; [eexists; split; [done|simpl; lia]|lia|lia].
  - intros p1 Hv Hm Hfa. apply wpg_ret, Hfail; [done..|]. apply Hfa. lia.
Qed.

Lemma http_connection_destroy_spec c (Q : option http_connection_t → proc W → Prop) p :
  wf_connection c → buffer_id c ∈ kv_heap (view p) →
  (∀ c' p', no_more B p p' →
     view p' = set_heap (kv_heap (view p) ∖ {[buffer_id c]}) (view p) →
     hc_buffer c' = None → Q (Some c') p') →
  wpg F (http_connection_destroy (Some c)) Q p.
Proof using HL.
  intros [(b & Hb & _) _ _] Hid Hok. unfold http_connection_destroy, buffer_id in *.
  rewrite Hb in *. apply wpg_bind, (wpg_free F B); [done|].
  intros p1 Hm Hv. by apply wpg_ret, Hok.
Qed.
End lifetime_rules.

(** ** Sequences of operations *)
Inductive buffer_op :=
  | Feed (data : list byte)
  | Consume (n : Z).

Definition op_ok (op : buffer_op) : Prop :=
  match op with
  | Feed data => Z.of_nat (length data) < 2 ^ 63
  | Consume n => 0 <= n < 2 ^ 64
  end.

(** The code, and a FIFO of at most [cap] bytes. *)
Definition run_op (op : buffer_op) (c : option http_connection_t)
    : outcome (Z * option http_connection_t) :=
  match op with
  | Feed data => http_connection_feed c (Some data) (Z.of_nat (length data))
  | Consume n => c ← http_connection_consume c n; mret (0, c)
  end.

Fixpoint run_ops (ops : list buffer_op) (c : option http_connection_t)
    : outcome (list Z * option http_connection_t) :=
  match ops with
  | [] => mret ([], c)
  | op :: ops =>
    '(r, c) ← run_op op c;
    '(rs, c) ← run_ops ops c;
    mret (r :: rs, c)
  end.

Definition fifo_op (cap : Z) (op : buffer_op) (q : list byte) : Z * list byte :=
  match op with
  | Feed data =>
    if decide (Z.of_nat (length q) + Z.of_nat (length data) <= cap) then (0, q ++ data) else (-1, q)
  | Consume n => (0, if decide (n <= Z.of_nat (length q)) then drop (Z.to_nat n) q else q)
  end.

Fixpoint fifo_ops (cap : Z) (ops : list buffer_op) (q : list byte) : list Z * list byte :=
  match ops with
  | [] => ([], q)
  | op :: ops =>
    let '(r, q) := fifo_op cap op q in
    let '(rs, q) := fifo_ops cap ops q in (r :: rs, q)
  end.

Lemma same_connection_trans c0 c1 c2 :
  same_connection c0 c1 → same_connection c1 c2 → same_connection c0 c2.
Proof. unfold same_connection. intuition congruence. Qed.

Lemma run_op_spec op c :
  wf_connection c → op_ok op →
  ∃ r c', run_op op (Some c) ⇓ (r, Some c') ∧ wf_connection c' ∧ same_connection c c' ∧
    fifo_op (hc_buffer_capacity c) op (buffered c) = (r, buffered c').
Proof.
  intros Hwf Hop. destruct op as [data|n]; cbn [run_op fifo_op op_ok] in *.
  - pose proof (feed_spec c data (Z.of_nat (length data)) Hwf) as H. case_decide as Hfit.
    + destruct H as (c' & Hrun & Hwf' & Hsame & Hb); [lia..|].
      exists 0, c'. split_and!; try done. by rewrite Hb, Nat2Z.id, firstn_all.
    + exists (-1), c. split_and!; [apply H; lia|done|by split|done].
  - destruct (consume_spec c n Hwf) as (c' & Hrun & Hwf' & Hsame & Hb); [lia|].
    exists 0, c'. rewrite Hrun. split_and!; try done. by rewrite Hb.
Qed.

Lemma run_ops_spec ops c :
  wf_connection c → Forall op_ok ops →
  ∃ rs c', run_ops ops (Some c) ⇓ (rs, Some c') ∧ wf_connection c' ∧ same_connection c c' ∧
    fifo_ops (hc_buffer_capacity c) ops (buffered c) = (rs, buffered c').
Proof.
  intros Hwf Hops. revert c Hwf. induction Hops as [|op ops Hop _ IH]; intros c Hwf; simpl.
  { by exists [], c. }
  destruct (run_op_spec op c Hwf Hop) as (r & c1 & -> & Hwf1 & Hs1 & ->).
  rewrite bind_ret_l. destruct (IH c1 Hwf1) as (rs & c2 & -> & Hwf2 & Hs2 & Hf).
  rewrite bind_ret_l. destruct (Hs1) as (Hcap & _). rewrite Hcap in Hf. rewrite Hf.
  exists (r :: rs), c2. split_and!; [done|done|by eapply same_connection_trans|done].
Qed.

(** C13: the connection buffer is a bounded FIFO of bytes.  Under any sequence
    of feeds and consumptions no access leaves the buffer, each call returns
    what the FIFO returns (a feed that does not fit is refused and changes
    nothing), the buffer holds the queue's bytes, and the length of the next
    request is read off the queue: up to its first empty line. *)
Theorem connection_refines_fifo c ops rs q :
  wf_connection c → Forall op_ok ops →
  fifo_ops (hc_buffer_capacity c) ops (buffered c) = (rs, q) →
  ∃ c', run_ops ops (Some c) ⇓ (rs, Some c') ∧ wf_connection c' ∧ buffered c' = q ∧
    http_connection_data_length (Some c') = Z.of_nat (length q) ∧
    http_connection_buffer_space (Some c') = hc_buffer_capacity c - Z.of_nat (length q) ∧
    http_connection_request_length (Some c') ⇓
      match find_sub CRLF2 q with Some j => Z.of_nat (j + 4) | None => 0 end.
Proof.
  intros Hwf Hops Hf. destruct (run_ops_spec ops c Hwf Hops) as (rs' & c' & Hrun & Hwf' & Hs & Hf').
  rewrite Hf in Hf'. injection Hf' as -> ->. exists c'. destruct Hs as (Hcap & _).
  split_and!; try done; [by rewrite length_buffered| |by apply request_length_spec].
  by rewrite <- Hcap, buffer_space_spec.
Qed.

(** C31: a connection buffer's lifetime frees what it allocated: after creation,
    any operations and destruction, the kernel state is as before, and a failed
    creation changes nothing. *)
Theorem connection_lifetime {W} `{K : Kernel W, HL : !KernelLaws W} c cap ops p :
  0 < cap < 2 ^ 63 → Forall op_ok ops →
  ∃ p', (('(r, conn) ← http_connection_init (Some c) cap;
          if r <? 0 then mret tt else
          '(_, conn) ← lift (run_ops ops conn);
          _ ← http_connection_destroy conn;
          mret tt) : M W unit) p ⇓ (tt, p') ∧ view p' = view p.
Proof.
  intros Hcap Hops.
  enough (wp ('(r, conn) ← http_connection_init (Some c) cap;
          if r <? 0 then mret tt else
          '(_, conn) ← lift (run_ops ops conn);
          _ ← http_connection_destroy conn;
          mret tt) (λ _ p', view p' = view p) p) as H.
  { apply wp_elim in H as ([] & p' & Hrun & Hv). by exists p'. }
  apply wpg_bind, (http_connection_init_spec False (λ _, O)); [done|by intros c' p' _ Hv _|].
  intros c1 p1 _ Hid Hv Hwf _ _ _ _. simpl. apply wpg_bind, wpg_lift.
  destruct (run_ops_spec ops c1 Hwf Hops) as (rs & c2 & -> & Hwf2 & (_ & Hb & _) & _). simpl.
  apply wpg_bind, (http_connection_destroy_spec False (λ _, O)); [done|rewrite Hv, Hb; simpl; set_solver|].
  intros c3 p2 _ Hv2 _. apply wpg_ret. rewrite Hv2, Hv, Hb. unfold set_heap.
  destruct (view p) as [o i fds h l]. simpl. f_equal. set_solver.
Qed.

Definition sample_connection (data : list byte) : http_connection_t :=
  HttpConnection (Some (Block 7 (data ++ junk (32 - length data)))) (Z.of_nat (length data)) 32 0
    fresh_response.
Definition sample_ops : list buffer_op :=
  [Feed (lit "ET / HTTP/1.0" ++ CRLF); Feed (CRLF ++ lit "GET"); Feed (junk 30); Consume 18; Consume 9].

Lemma sample_connection_wf data : (length data <= 32)%nat → wf_connection (sample_connection data).
Proof.
  intros H. split; simpl; [eexists; split; [done|]|lia..].
  simpl. rewrite length_app. unfold junk. rewrite length_replicate. lia.
Qed.

Lemma sample_ops_ok : Forall op_ok sample_ops.
Proof. unfold sample_ops. repeat (apply Forall_cons; split; [simpl; lia|]). done. Qed.

Lemma connection_refines_fifo_witness :
  ∃ c', run_ops sample_ops (Some (sample_connection (lit "G"))) ⇓ ([0; 0; -1; 0; 0], Some c') ∧
    wf_connection c' ∧ buffered c' = lit "GET" ∧
    http_connection_data_length (Some c') = 3 ∧ http_connection_buffer_space (Some c') = 32 - 3 ∧
    http_connection_request_length (Some c') ⇓ 0.
Proof.
  apply (connection_refines_fifo (sample_connection (lit "G")) sample_ops);
    [apply sample_connection_wf; simpl; lia|exact sample_ops_ok|reflexivity].
Defined.

Lemma connection_lifetime_witness :
  ∃ p', (('(r, conn) ← http_connection_init (Some (sample_connection [])) 32;
          if r <? 0 then mret tt else
          '(_, conn) ← lift (run_ops sample_ops conn);
          _ ← http_connection_destroy conn;
          mret tt) : M script unit) (boot [] [] []) ⇓ (tt, p') ∧ view p' = view (boot [] [] []).
Proof.
  apply (connection_lifetime (sample_connection []) 32 sample_ops (boot [] [] []));
    [lia|exact sample_ops_ok].
Defined.
