(* ===== verification/Http.v ===== *)
(** * Request processing ([src/http.c])

    Validation of the configuration and of a parsed request, preparation of the
    response to a request, and the loop that answers the requests buffered on a
    connection.  Diagnostics printed to the console are left out. *)
From S2P Require Import Prelude.
From S2P Require Import CLib.
From S2P Require Import Config.
From S2P Require Import Kernel.
From S2P Require Import HttpParse.
From S2P Require Import Mime.
From S2P Require Import Io.
From S2P Require Import HttpResponse.
From S2P Require Import File.
From S2P Require Import HttpConnection.

(** ** Validation *)
Definition http_config_valid (config : option server_config_t) : bool :=
  match config with
  | None => false
  | Some config =>
    if http_buffer_size config =? 0 then false
    else if (http_max_headers config =? 0) || (HTTP_MAX_HEADERS <? http_max_headers config)
    then false
    else if (http_header_name_max config =? 0) ||
            (HTTP_HEADER_NAME_MAX <? http_header_name_max config) then false
    else if (http_header_value_max config =? 0) ||
            (HTTP_HEADER_VALUE_MAX <? http_header_value_max config) then false
    else true
  end.

Definition http_method_allowed (method : obj) : outcome bool :=
  get ← str_is method "GET";
  if (get : bool) then mret true else str_is method "HEAD".

Fixpoint count_host (n : nat) (request : http_request_t) (i : nat) (host_count : Z) : outcome Z :=
  match n with
  | O => mret host_count
  | S n =>
    h ← header_at request i;
    host ← str_is_ci (hdr_name h) "Host";
    count_host n request (i + 1) (if (host : bool) then size_add host_count 1 else host_count)
  end.

Definition http_validate_host (request : http_request_t) : outcome Z :=
  host_count ← count_host (Z.to_nat (req_header_count request)) request 0 0;
  mret (if host_count =? 1 then 0 else -1).

(** *** Framing *)
Definition duplicate_length : list byte := lit "Duplicate Content-Length headers are not supported".
Definition no_transfer_encoding : list byte := lit "Transfer-Encoding is not supported".
Definition invalid_length : list byte := lit "Invalid Content-Length".
Definition no_bodies : list byte := lit "Request bodies are not supported".

(** The scan of the fields: [None] is the return on a duplicate; otherwise the
    last value of Content-Length and the presence of Transfer-Encoding. *)
Fixpoint scan_framing (n : nat) (request : http_request_t) (i : nat)
    (content_length : option obj) (content_length_count : Z) (transfer_encoding : bool)
    : outcome (option (option obj * bool)) :=
  match n with
  | O => mret (Some (content_length, transfer_encoding))
  | S n =>
    header ← header_at request i;
    is_length ← str_is_ci (hdr_name header) "Content-Length";
    let count := if (is_length : bool) then size_add content_length_count 1
                 else content_length_count in
    if is_length && (1 <? count) then mret None else
    let content_length := if is_length then Some (hdr_value header) else content_length in
    is_te ← str_is_ci (hdr_name header) "Transfer-Encoding";
    scan_framing n request (i + 1) content_length count (transfer_encoding || is_te)
  end.

(** The digits of Content-Length, [n] of them from [p] on, accumulated in an
    [unsigned long long]; [None] is a character that is no digit, or overflow. *)
Fixpoint content_length_digits (n : nat) (o : obj) (p : nat) (length : Z) : outcome (option Z) :=
  match n with
  | O => mret (Some length)
  | S n =>
    c ← rd o p;
    if (schar c <? schar "0") || (schar "9" <? schar c) then mret None else
    let digit := schar c - schar "0" in
    if (ULLONG_MAX - digit) / 10 <? length then mret None
    else content_length_digits n o (p + 1) (u64 (length * 10 + digit))
  end.

(** The checks on a Content-Length value; the result code and [*reason]. *)
Definition validate_content_length (value : obj) (reason : option (list byte))
    : outcome (Z * option (list byte)) :=
  c ← rd value 0;
  if decide (c = NUL) then mret (-1, Some invalid_length) else
  end_ ← c_strlen value 0;
  end_ ← trim_ows value 0 end_;
  if decide (end_ = 0%nat) then mret (-1, Some invalid_length) else
  length ← content_length_digits end_ value 0 0;
  match length with
  | None => mret (-1, Some invalid_length)
  | Some length => if length =? 0 then mret (0, reason) else mret (-1, Some no_bodies)
  end.

Definition http_validate_request_framing (request : http_request_t) (reason : option (list byte))
    : outcome (Z * option (list byte)) :=
  scan ← scan_framing (Z.to_nat (req_header_count request)) request 0 None 0 false;
  match scan with
  | None => mret (-1, Some duplicate_length)
  | Some (content_length, transfer_encoding) =>
    if (transfer_encoding : bool) then mret (-1, Some no_transfer_encoding) else
    match content_length with
    | None => mret (0, reason)
    | Some value => validate_content_length value reason
    end
  end.

(** The value of [close_connection] after the version and the Connection field
    were looked at. *)
Definition http_connection_close (request : http_request_t) (close_connection : Z) : outcome Z :=
  v10 ← str_is (req_version request) "HTTP/1.0";
  let close_connection := if (v10 : bool) then 1 else close_connection in
  connection ← http_get_header request (lit0 "Connection");
  match connection with
  | None => mret close_connection
  | Some value =>
    close ← str_is_ci value "close";
    mret (if (close : bool) then 1 else close_connection)
  end.

(** The three tests of a parsed request; [Some] is the error response to send,
    its status and its message. *)
Definition http_check_request (request : http_request_t)
    : outcome (option (Z * option (list byte))) :=
  allowed ← http_method_allowed (req_method request);
  if negb allowed then mret (Some (HTTP_STATUS_METHOD_NOT_ALLOWED, None)) else
  v11 ← str_is (req_version request) "HTTP/1.1";
  host ← (if (v11 : bool) then http_validate_host request else mret 0);
  if host <? 0 then mret (Some (HTTP_STATUS_BAD_REQUEST, None)) else
  '(framing, framing_error) ← http_validate_request_framing request None;
  if framing <? 0 then mret (Some (HTTP_STATUS_BAD_REQUEST, framing_error)) else mret None.

Section http.
Context {W : Type} `{K : Kernel W}.

(** Result of [http_prepare_response]: its code, the response, and
    [*close_connection]. *)
Abbreviation prepared := (Z * option http_response_t * option Z)%type.

(** [*close_connection = 1; return http_response_prepare_error (...)] *)
Definition http_refuse (response : option http_response_t) (status : Z)
    (message : option (list byte)) : M W prepared :=
  '(r, response) ← http_response_prepare_error response status
                     ((λ m, m ++ [NUL]) <$> message);
  mret (r, response, Some 1).

(** The 200 response for the opened [file]. *)
Definition http_serve_file (request : http_request_t) (file : file_t)
    (response : http_response_t) (close_connection : Z) : M W prepared :=
  content_type ← lift (mime_type (req_path request));
  head ← lift (str_is (req_method request) "HEAD");
  let send_body := if (head : bool) then 0 else 1 in
  '(headers_length, headers) ← lift (http_build_response_headers (Some (rs_headers response))
      HTTP_RESPONSE_HEADER_MAX HTTP_STATUS_OK (Some content_type) (f_size file)
      (if close_connection =? 0 then 1 else 0));
  headers ← deref headers;
  if headers_length <? 0 then
    _ ← sys_close (f_fd file);
    mret (-1, Some (set_rs_headers headers (rs_headers_length response)
                      (rs_headers_sent response) response), Some close_connection)
  else
    mret (0, Some (HttpResponse headers headers_length 0 None 0 0
                     (f_fd file) (f_size file) 0 send_body 0), Some close_connection).

(** The status for a file that could not be opened. *)
Definition open_error_status (errno : Z) : Z :=
  if errno =? ENOENT then HTTP_STATUS_NOT_FOUND
  else if (errno =? EACCES) || (errno =? EPERM) then HTTP_STATUS_FORBIDDEN
  else HTTP_STATUS_INTERNAL_SERVER_ERROR.

(** The answer to a request that parsed. *)
Definition http_answer (request : http_request_t) (response : http_response_t)
    (close_connection root_fd : Z) : M W prepared :=
  error ← lift (http_check_request request);
  match error with
  | Some (status, message) => http_refuse (Some response) status message
  | None =>
    close_connection ← lift (http_connection_close request close_connection);
    '(r, file) ← file_open_path root_fd (req_path request) None;
    if r <? 0 then
      errno ← get_errno;
      http_refuse (Some response) (open_error_status errno) None
    else
      file ← deref file;
      http_serve_file request file response close_connection
  end.

(** The uninitialised locals: the request, and the arrays of the parser. *)
Definition local_header (i : nat) : M W http_header_t :=
  name ← local_array (20 + 2 * i) 128;
  value ← local_array (21 + 2 * i) 4096;
  mret (HttpHeader name value).
Fixpoint local_headers (n : nat) : M W (list http_header_t) :=
  match n with
  | O => mret []
  | S n => h ← local_header n; hs ← local_headers n; mret (h :: hs)
  end.
Definition local_request : M W http_request_t :=
  method ← local_array 3 16;
  path ← local_array 4 4096;
  query ← local_array 5 4096;
  version ← local_array 6 16;
  headers ← local_headers 64;
  mret (HttpRequest method path query version headers 0).
Definition local_parse_stack : M W parse_stack :=
  target ← local_array 7 4096;
  path ← local_array 8 4096;
  mret (ParseStack target path).

(** Parse a NUL-terminated copy of the first [length] bytes of [buffer]; [None]
    when there is no memory for it. *)
Definition http_parse_copy (buffer : obj) (length : Z) (config : server_config_t)
    : M W (option (Z * http_request_t)) :=
  request_buffer ← c_malloc (size_add length 1);
  match request_buffer with
  | None => mret None
  | Some request_buffer =>
    data ← lift (c_memcpy (blk_data request_buffer) 0 buffer 0 (Z.to_nat length));
    data ← lift (wr data (Z.to_nat length) NUL);
    request ← local_request;
    stack ← local_parse_stack;
    '(parse_result, request) ← lift (http_parse_request stack (Some data) (Some request) config);
    request ← deref request;
    _ ← c_free (Some (Block (blk_id request_buffer) data));
    mret (Some (parse_result, request))
  end.

Definition http_prepare_response (buffer : option obj) (length : Z)
    (response : option http_response_t) (close_connection : option Z) (root_fd : Z)
    (config : option server_config_t) : M W prepared :=
  match buffer, response, close_connection, config with
  | Some buffer, Some _, Some close, Some cfg =>
    if negb (http_config_valid config) then mret (-1, response, close_connection) else
    response ← deref (http_response_init response);
    parsed ← http_parse_copy buffer length cfg;
    match parsed with
    | None => mret (-1, Some response, Some 1)
    | Some (parse_result, request) =>
      if negb (parse_result =? HTTP_PARSE_OK) then
        if parse_result =? HTTP_PARSE_HEADERS_TOO_LARGE
        then http_refuse (Some response) HTTP_STATUS_REQUEST_HEADER_FIELDS_TOO_LARGE None
        else http_refuse (Some response) HTTP_STATUS_BAD_REQUEST None
      else http_answer request response close root_fd
    end
  | _, _, _, _ => mret (-1, response, close_connection)
  end.

(** The body of the loop, from the preparation of the response to the removal of
    the request from the buffer. *)
Definition http_process_request (fuel : nat) (c : http_connection_t) (request_length : Z)
    (client_fd root_fd : Z) (config : option server_config_t) : M W (Z * http_connection_t) :=
  '(r, response, close) ← http_prepare_response
      (blk_data <$> http_connection_data (Some c)) request_length
      (Some (hc_response c)) (Some (hc_close_connection c)) root_fd config;
  response ← deref response;
  close ← deref close;
  let c := set_hc_close close (set_hc_response response c) in
  if r <? 0 then mret (-1, c) else
  '(r, response) ← http_response_send_blocking fuel client_fd (Some (hc_response c));
  response ← deref response;
  let c := set_hc_response response c in
  if r <? 0 then mret (-1, c) else
  response ← http_response_destroy (Some (hc_response c));
  response ← deref response;
  let c := set_hc_response response c in
  c ← lift (http_connection_consume (Some c) request_length);
  c ← deref c;
  mret (0, c).

(** The loop over the complete requests of the buffer; [n] bounds its rounds,
    [fuel] the calls of a send. *)
Fixpoint http_process_loop (n fuel : nat) (c : http_connection_t) (client_fd root_fd : Z)
    (config : option server_config_t) : M W (Z * http_connection_t) :=
  match n with
  | O => out_of_fuel
  | S n =>
    ready ← lift (http_connection_request_ready (Some c));
    if negb ready then mret (0, c) else
    request_length ← lift (http_connection_request_length (Some c));
    if request_length =? 0 then mret (-1, c) else
    '(r, c) ← http_process_request fuel c request_length client_fd root_fd config;
    if r <? 0 then mret (-1, c)
    else if negb (hc_close_connection c =? 0) then mret (0, c)
    else http_process_loop n fuel c client_fd root_fd config
  end.

Definition http_process_connection (fuel : nat) (connection : option http_connection_t)
    (client_fd root_fd : Z) (config : option server_config_t)
    : M W (Z * option http_connection_t) :=
  match connection with
  | None => mret (-1, connection)
  | Some c =>
    if negb (http_config_valid config) then mret (-1, connection) else
    '(r, c) ← http_process_loop (S (Z.to_nat (hc_buffer_used c))) fuel c client_fd root_fd config;
    mret (r, Some c)
  end.
End http.

#[global] Arguments http_prepare_response : simpl never.
#[global] Arguments http_process_request : simpl never.
