(* ===== verification/HttpRules.v ===== *)
(** * The rules a request must obey

    The checks of [Http] on a parsed request, as rules on the request the
    grammar gives, and the proofs that the code applies exactly these rules. *)
From S2P Require Import Prelude.
From S2P Require Import CLib.
From S2P Require Import Config.
From S2P Require Import HttpParse.
From S2P Require Import HttpGrammar.
From S2P Require Import HttpParseProofs.
From S2P Require Import HttpResponse.
From S2P Require Import Http.

(** ** Rules *)
(** The values of the fields of this name, in order. *)
Definition field_values (name : list byte) (fs : list field) : list (list byte) :=
  snd <$> filter (λ f : field, ci_eq f.1 name) fs.

(** What is wrong with the Content-Length [v]: it must be decimal digits whose
    value fits 64 bits, and zero. *)
Definition length_error (v : list byte) : option (list byte) :=
  let digits := rtrim v in
  if decide (digits = [] ∨ ¬ Forall digit digits ∨ ULLONG_MAX < dec_value digits)
  then Some invalid_length
  else if decide (dec_value digits = 0) then None else Some no_bodies.

(** At most one Content-Length, no Transfer-Encoding, no body. *)
Definition framing_error (fs : list field) : option (list byte) :=
  match field_values (lit "Content-Length") fs with
  | _ :: _ :: _ => Some duplicate_length
  | lengths =>
    if decide (field_values (lit "Transfer-Encoding") fs ≠ []) then Some no_transfer_encoding
    else match lengths with v :: _ => length_error v | [] => None end
  end.

(** The error response a request deserves: a method other than GET and HEAD, an
    HTTP/1.1 request without exactly one Host, bad framing; [None] if it is to
    be served. *)
Definition judge (rq : request) : option (Z * option (list byte)) :=
  if decide (rq_method rq ≠ lit "GET" ∧ rq_method rq ≠ lit "HEAD")
  then Some (HTTP_STATUS_METHOD_NOT_ALLOWED, None)
  else if decide (rq_version rq = lit "HTTP/1.1" ∧
                  length (field_values (lit "Host") (rq_fields rq)) ≠ 1%nat)
  then Some (HTTP_STATUS_BAD_REQUEST, None)
  else match framing_error (rq_fields rq) with
       | Some reason => Some (HTTP_STATUS_BAD_REQUEST, Some reason)
       | None => None
       end.

(** The request ends the connection. *)
Definition wants_close (rq : request) : Prop :=
  rq_version rq = lit "HTTP/1.0" ∨
  match field_value (lit "Connection") (rq_fields rq) with
  | Some v => ci_eq v (lit "close")
  | None => False
  end.
#[export] Instance wants_close_dec rq : Decision (wants_close rq).
Proof. unfold wants_close. destruct (field_value _ _); apply _. Defined.

(** ** The configuration *)
Lemma http_config_valid_spec cfg :
  0 <= http_max_headers cfg → 0 <= http_header_name_max cfg → 0 <= http_header_value_max cfg →
  http_config_valid (Some cfg) = true ↔ (http_buffer_size cfg ≠ 0 ∧ limits_ok cfg).
Proof.
  intros H1 H2 H3. unfold http_config_valid.
  assert (∀ z m, 0 <= z → (z =? 0) || (m <? z) = false ↔ 0 < z <= m) as Hrange.
  { intros z m Hz. rewrite orb_false_iff, Z.eqb_neq, Z.ltb_ge. lia. }
  destruct (http_buffer_size cfg =? 0) eqn:E0.
  { apply Z.eqb_eq in E0. naive_solver. }
  apply Z.eqb_neq in E0.
  destruct ((http_max_headers cfg =? 0) || _) eqn:E1;
    [split; [done|intros [_ [Hl _ _]]; apply Hrange in Hl; [congruence|done]]|].
  destruct ((http_header_name_max cfg =? 0) || _) eqn:E2;
    [split; [done|intros [_ [_ Hl _]]; apply Hrange in Hl; [congruence|done]]|].
  destruct ((http_header_value_max cfg =? 0) || _) eqn:E3;
    [split; [done|intros [_ [_ _ Hl]]; apply Hrange in Hl; [congruence|done]]|].
  by apply Hrange in E1, E2, E3.
Qed.

(** ** Fields *)
Lemma field_values_cons name f fs :
  field_values name (f :: fs) =
  if decide (ci_eq f.1 name) then f.2 :: field_values name fs else field_values name fs.
Proof. unfold field_values. rewrite filter_cons. by case_decide. Qed.

Section fields.
Context (r : http_request_t) (fs : list field) (Hfs : fields_stored r fs).
Context (Hcount : (length fs <= 64)%nat).

Lemma count_host_spec n i k :
  (i + n = length fs)%nat → 0 <= k <= Z.of_nat i →
  count_host n r i k ⇓ k + Z.of_nat (length (field_values (lit "Host") (drop i fs))).
Proof using Hfs Hcount.
  revert i k. induction n as [|n IH]; intros i k Hi Hk; simpl.
  { rewrite drop_ge by lia. simpl. by rewrite Z.add_0_r. }
  destruct (lookup_lt_is_Some_2 fs i) as [f Hf]; [lia|].
  destruct (fields_stored_lookup _ _ _ _ Hfs Hf) as (h & -> & Hn & _).
  rewrite bind_ret_l, (str_is_ci_spec _ f.1), bind_ret_l by (done || decide_now).
  rewrite (drop_S _ _ _ Hf), field_values_cons, Nat.add_1_r.
  case_bool_decide as Hc; [rewrite decide_True by done|rewrite decide_False by done].
  - rewrite size_add_small by lia. rewrite IH by lia. simpl. f_equal. lia.
  - by rewrite IH by lia.
Qed.

Lemma http_validate_host_spec :
  http_validate_host r ⇓
    if decide (length (field_values (lit "Host") fs) = 1%nat) then 0 else -1.
Proof using Hfs Hcount.
  unfold http_validate_host. rewrite (proj1 Hfs), Nat2Z.id.
  rewrite count_host_spec, bind_ret_l, drop_0 by lia. unfold mret, outcome_ret. f_equal.
  case_decide; [rewrite (proj2 (Z.eqb_eq _ _)) by lia|rewrite (proj2 (Z.eqb_neq _ _)) by lia]; done.
Qed.
End fields.

(** ** Framing *)
Definition scan_result (acc : option obj) (lengths : list (list byte)) (te : bool)
    (res : option (option obj * bool)) : Prop :=
  match acc, lengths with
  | None, [] => res = Some (None, te)
  | None, [v] => ∃ o, cstr_of o = Some v ∧ res = Some (Some o, te)
  | Some o, [] => res = Some (Some o, te)
  | _, _ => res = None
  end.

Section framing.
Context (r : http_request_t) (fs : list field) (Hfs : fields_stored r fs).

Lemma scan_framing_spec n i acc te :
  (i + n = length fs)%nat →
  ∃ res, scan_framing n r i acc (if acc is Some _ then 1 else 0) te ⇓ res ∧
    scan_result acc (field_values (lit "Content-Length") (drop i fs))
      (te || bool_decide (field_values (lit "Transfer-Encoding") (drop i fs) ≠ [])) res.
Proof using Hfs.
  revert i acc te. induction n as [|n IH]; intros i acc te Hi; cbn [scan_framing].
  { rewrite drop_ge by lia. eexists. split; [done|]. rewrite bool_decide_eq_false_2 by tauto.
    rewrite orb_false_r. by destruct acc. }
  destruct (lookup_lt_is_Some_2 fs i) as [f Hf]; [lia|].
  destruct (fields_stored_lookup _ _ _ _ Hfs Hf) as (h & -> & Hn & Hv).
  cbn [mbind outcome_bind]. rewrite (str_is_ci_spec _ f.1 "Content-Length") by (done || decide_now).
  cbn [mbind outcome_bind].
  rewrite (drop_S _ _ _ Hf), !field_values_cons.
  assert (∀ x b, (x || bool_decide (ci_eq f.1 (lit "Transfer-Encoding"))) || b =
    x || (bool_decide (ci_eq f.1 (lit "Transfer-Encoding")) || b)) as Hassoc
    by (intros; by rewrite orb_assoc).
  assert (∀ vs, bool_decide (ci_eq f.1 (lit "Transfer-Encoding")) || bool_decide (vs ≠ []) =
    bool_decide ((if decide (ci_eq f.1 (lit "Transfer-Encoding")) then f.2 :: vs else vs) ≠ []))
    as Hte.
  { intros vs. destruct (decide (ci_eq f.1 (lit "Transfer-Encoding"))) as [Ht|Ht].
    - rewrite (bool_decide_eq_true_2 (ci_eq f.1 (lit "Transfer-Encoding"))) by done.
      symmetry. by apply bool_decide_eq_true_2.
    - by rewrite (bool_decide_eq_false_2 (ci_eq f.1 (lit "Transfer-Encoding"))) by done. }
  rewrite <- Hte, <- Hassoc.
  destruct (decide (ci_eq f.1 (lit "Content-Length"))) as [Hc|Hc];
    [rewrite (bool_decide_eq_true_2 _ Hc)|rewrite (bool_decide_eq_false_2 _ Hc)].
  - destruct acc as [o|]; [by exists None|]. rewrite size_add_small by lia. cbn [andb].
    change (1 <? 0 + 1) with false. cbn iota.
    rewrite (str_is_ci_spec _ f.1 "Transfer-Encoding") by (done || decide_now). cbn [mbind outcome_bind].
    destruct (IH (i + 1)%nat (Some (hdr_value h))
      (te || bool_decide (ci_eq f.1 (lit "Transfer-Encoding")))) as (res & Hrun & Hres); [lia|].
    rewrite Nat.add_1_r in *. exists res. split; [done|].
    destruct (field_values (lit "Content-Length") (drop (S i) fs)) as [|v vs]; [|done].
    simpl in *. eauto.
  - cbn [andb]. rewrite (str_is_ci_spec _ f.1 "Transfer-Encoding") by (done || decide_now). cbn [mbind outcome_bind].
    destruct (IH (i + 1)%nat acc
      (te || bool_decide (ci_eq f.1 (lit "Transfer-Encoding")))) as (res & Hrun & Hres); [lia|].
    rewrite Nat.add_1_r in *. by exists res.
Qed.
End framing.

(** *** The value of Content-Length *)
Lemma digit_schar b :
  ((schar b <? schar "0") || (schar "9" <? schar b)) = negb (bool_decide (digit b)) ∧
  (digit b → schar b - schar "0" = uchar b - 48).
Proof. byte_cases b. Qed.

Definition dec_from (acc : Z) (s : list byte) : Z :=
  foldl (λ acc b, acc * 10 + (uchar b - 48)) acc s.

Lemma dec_from_ge acc s : 0 <= acc → Forall digit s → acc <= dec_from acc s.
Proof.
  intros Ha Hs. revert acc Ha. induction Hs as [|b s Hb Hs IH]; intros acc Ha; simpl; [lia|].
  unfold digit in Hb. etrans; [|apply IH]; lia.
Qed.

Section digits.
Context (o s : obj) (Ho : cstr_of o = Some s).

Lemma content_length_digits_spec n p acc :
  (p + n <= length s)%nat → 0 <= acc <= ULLONG_MAX →
  let w := take n (drop p s) in
  content_length_digits n o p acc ⇓
    if decide (Forall digit w ∧ dec_from acc w <= ULLONG_MAX) then Some (dec_from acc w) else None.
Proof using Ho.
  revert p acc. induction n as [|n IH]; intros p acc Hp Ha w.
  { unfold w. simpl. rewrite decide_True; [done|]. split; [constructor|lia]. }
  destruct (rd_at o s Ho p) as (b & Hb & Hrd & _); [lia|].
  unfold w. rewrite (drop_S _ _ _ Hb). cbn [take content_length_digits].
  rewrite Hrd, bind_ret_l. destruct (digit_schar b) as [-> Hd].
  case_bool_decide as Hdig; cbn [negb].
  2:{ rewrite decide_False; [done|]. intros [H _]. by apply Forall_cons in H as [H _]. }
  rewrite Hd by done. unfold digit in Hdig. set (d := uchar b - 48) in *.
  cbn [dec_from foldl]. fold d. change (foldl _ ?a ?l) with (dec_from a l).
  destruct ((ULLONG_MAX - d) / 10 <? acc) eqn:E.
  - apply Z.ltb_lt in E. assert (ULLONG_MAX < acc * 10 + d) as Hov.
    { destruct (Z_lt_le_dec ULLONG_MAX (acc * 10 + d)); [done|].
      exfalso. apply (Z.lt_irrefl acc). eapply Z.le_lt_trans; [|exact E].
      apply Z.div_le_lower_bound; unfold d in *; lia. }
    rewrite decide_False; [done|]. intros [[_ H]%Forall_cons Hle].
    pose proof (dec_from_ge (acc * 10 + d) _ ltac:(unfold d in *; lia) H). lia.
  - apply Z.ltb_ge in E. pose proof (Z.mul_div_le (ULLONG_MAX - d) 10 ltac:(lia)) as Hdiv.
    assert (acc * 10 + d <= ULLONG_MAX) as Hfit by lia.
    rewrite u64_small by (unfold ULLONG_MAX, d in *; lia).
    rewrite IH by (unfold d in *; lia). rewrite Nat.add_1_r.
    apply f_equal. destruct (decide (Forall digit (take n (drop (S p) s)) ∧ _)) as [[H1 H2]|Hno].
    + rewrite decide_True; [done|]. split; [by constructor|done].
    + rewrite decide_False; [done|]. rewrite Forall_cons. tauto.
Qed.

Lemma validate_content_length_spec reason :
  validate_content_length o reason ⇓
    match length_error s with Some e => (-1, Some e) | None => (0, reason) end.
Proof using Ho.
  unfold validate_content_length, length_error.
  assert (∃ m, trim_ows o 0 (length s) ⇓ m ∧ (m <= length s)%nat ∧ rtrim s = take m s)
    as (m & Hm & Hle & Hr).
  { destruct (trim_ows_spec o s Ho 0 (length s)) as (m & Hm & Hle & Hr); [lia|].
    rewrite drop_0, firstn_all in Hr. eauto. }
  assert (∃ c, rd o 0 ⇓ c ∧ (c = NUL ↔ s = [])) as (c & -> & Hc).
  { destruct s as [|b s'] eqn:Es; [by exists NUL; split; [apply (rd_end o [] Ho)|]|].
    exists b. split; [by apply (rd_lookup o (b :: s'))|].
    split; [|done]. intros ->. apply cstr_of_no_nul in Ho. set_solver. }
  rewrite bind_ret_l, Hr. case_decide as Hnul.
  { rewrite decide_True; [done|]. left. apply Hc in Hnul as ->. by destruct m. }
  rewrite (c_strlen_at o s), bind_ret_l, Nat.sub_0_r, Hm, bind_ret_l by (done || lia).
  case_decide as Hm0; [rewrite Hm0; by rewrite decide_True by (by left)|].
  pose proof (content_length_digits_spec m 0 0 ltac:(lia) ltac:(unfold ULLONG_MAX; lia)) as Hd.
  cbv zeta in Hd. rewrite drop_0 in Hd. rewrite Hd, bind_ret_l.
  change (dec_from 0 ?w) with (dec_value w).
  assert (take m s ≠ []) as Hne.
  { destruct m; [done|]. destruct s; [|done]. exfalso. apply Hnul. by apply Hc. }
  destruct (decide (Forall digit (take m s) ∧ dec_value (take m s) <= ULLONG_MAX)) as [[H1 H2]|Hno].
  - rewrite decide_False by (intros [?|[?|?]]; [done|done|lia]).
    destruct (decide (dec_value (take m s) = 0)) as [Hz|Hz]; [by rewrite Hz|].
    by rewrite (proj2 (Z.eqb_neq _ _)).
  - rewrite decide_True; [done|]. right.
    destruct (decide (Forall digit (take m s))); [right; apply Z.nle_gt; tauto|by left].
Qed.
End digits.

Lemma http_validate_request_framing_spec r fs reason :
  fields_stored r fs →
  http_validate_request_framing r reason ⇓
    match framing_error fs with Some e => (-1, Some e) | None => (0, reason) end.
Proof.
  intros Hfs. unfold http_validate_request_framing. rewrite (proj1 Hfs), Nat2Z.id.
  destruct (scan_framing_spec r fs Hfs (length fs) 0 None false) as (res & Hrun & Hres); [lia|].
  rewrite Hrun, bind_ret_l, drop_0 in *. cbn [orb] in Hres. unfold framing_error.
  clear Hrun.
  destruct (field_values (lit "Content-Length") fs) as [|v [|v2 vs]]; simpl in Hres.
  - rewrite Hres, if_bool_decide. by case_decide.
  - destruct Hres as (o & Ho & ->). rewrite if_bool_decide. case_decide; [done|].
    by rewrite (validate_content_length_spec o v Ho).
  - by rewrite Hres.
Qed.

(** ** The checks of a parsed request *)
Lemma http_check_request_spec r rq :
  denotes r rq → (length (rq_fields rq) <= 64)%nat →
  http_check_request r ⇓ judge rq.
Proof.
  intros (Hm & _ & _ & Hv & Hfs) Hn. unfold http_check_request, judge, http_method_allowed.
  rewrite (str_is_spec _ _ "GET" Hm), bind_ret_l by decide_now.
  case_bool_decide as Hget; [rewrite bind_ret_l, decide_False by tauto|
    rewrite (str_is_spec _ _ "HEAD" Hm), bind_ret_l by decide_now;
    case_bool_decide as Hhead; [rewrite decide_False by tauto|by rewrite decide_True by tauto]];
    cbn [negb]; rewrite (str_is_spec _ _ "HTTP/1.1" Hv), bind_ret_l by decide_now;
    rewrite (http_validate_request_framing_spec r (rq_fields rq) None Hfs);
    (case_bool_decide as H11; [rewrite (http_validate_host_spec r (rq_fields rq) Hfs Hn); case_decide as Hh;
       [rewrite bind_ret_l, decide_False by tauto|by rewrite bind_ret_l, decide_True by tauto]
      |rewrite bind_ret_l, decide_False by tauto]);
    simpl; by destruct (framing_error (rq_fields rq)).
Qed.

Lemma http_connection_close_spec r rq c :
  denotes r rq →
  http_connection_close r c ⇓ if decide (wants_close rq) then 1 else c.
Proof.
  intros (_ & _ & _ & Hv & Hfs).
  enough (∃ b : bool, http_connection_close r c ⇓ (if b then 1 else c) ∧ (b = true ↔ wants_close rq))
    as (b & -> & Hb).
  { destruct b; [rewrite decide_True by tauto|rewrite decide_False by (rewrite <- Hb; done)]; done. }
  unfold http_connection_close, wants_close.
  rewrite (str_is_spec _ _ "HTTP/1.0" Hv) by decide_now. cbn [mbind outcome_bind].
  set (v10 := bool_decide (rq_version rq = lit "HTTP/1.0")).
  assert (v10 = true ↔ rq_version rq = lit "HTTP/1.0") as H10 by apply bool_decide_eq_true.
  destruct (http_get_header_spec r (rq_fields rq) Hfs (lit0 "Connection") (lit "Connection"))
    as (o & -> & Ho); [apply NUL_lit_cases; decide_now|]. cbn [mbind outcome_bind].
  destruct (field_value (lit "Connection") (rq_fields rq)) as [v|].
  - destruct Ho as (ov & -> & Hov). rewrite (str_is_ci_spec _ _ "close" Hov) by decide_now.
    cbn [mbind outcome_bind]. exists (bool_decide (ci_eq v (lit "close")) || v10).
    rewrite orb_true_iff, bool_decide_eq_true, H10. split; [|tauto].
    by destruct (bool_decide (ci_eq v (lit "close"))).
  - rewrite Ho. exists v10. split; [done|tauto].
Qed.
