(* ===== verification/HttpProofs.v ===== *)
(** * Answers to requests

    What the server may answer to a message, as a relation between messages and
    responses, and the proof that [http_prepare_response] prepares such an
    answer and accounts for every block and descriptor. *)
From S2P Require Import Prelude.
From S2P Require Import CLib.
From S2P Require Import Config.
From S2P Require Import Kernel.
From S2P Require Import HttpParse.
From S2P Require Import HttpGrammar.
From S2P Require Import HttpParseProofs.
From S2P Require Import GrammarFacts.
From S2P Require Import Mime.
From S2P Require Import Io.
From S2P Require Import HttpResponse.
From S2P Require Import HttpResponseProofs.
From S2P Require Import File.
From S2P Require Import HttpConnection.
From S2P Require Import Http.
From S2P Require Import HttpRules.

(** ** Abstract answers *)
(** The status and the body of the refusal of a message that parsed to [rq] with
    [code]: the page of the status, or the reason. *)
Inductive refusal (rq : request) : Z → Z → list byte → Prop :=
  | refuse_large page :
      http_error_page 431 = Some page →
      refusal rq HTTP_PARSE_HEADERS_TOO_LARGE 431 page
  | refuse_bad page :
      http_error_page 400 = Some page →
      refusal rq HTTP_PARSE_BAD_REQUEST 400 page
  | refuse_page status page :
      judge rq = Some (status, None) → http_error_page status = Some page →
      refusal rq HTTP_PARSE_OK status page
  | refuse_reason status reason :
      judge rq = Some (status, Some reason) →
      refusal rq HTTP_PARSE_OK status reason.

(** The status for a path that cannot be served. *)
Definition lookup_status (e : Z) : Z :=
  if decide (e = ENOENT) then 404 else if decide (e = EACCES ∨ e = EPERM) then 403 else 500.

Definition error_text (status : Z) (reason body : list byte) : list byte :=
  response_text status reason (lit "text/html") (Z.of_nat (length body)) (connection_option 0) ++ body.

(** The response that carries a file: HEAD leaves the contents out. *)
Definition file_text (rq : request) (content : list byte) : list byte :=
  response_text 200 (lit "OK") (media_type (rq_path rq)) (Z.of_nat (length content))
    (connection_option (if decide (wants_close rq) then 0 else 1)) ++
  (if decide (rq_method rq = lit "HEAD") then [] else content).

(** [answer cfg root msg l text close]: [text] answers the message [msg] when the
    file system said [l] of its path beneath [root]; [close] tells whether the
    connection ends with it. *)
Inductive answer (cfg : server_config_t) (root_fd : Z) (msg : list byte)
    : list file_event → list byte → bool → Prop :=
  | answer_refusal code rq rest status reason body :
      parse_outcome cfg msg code rq rest → refusal rq code status body →
      http_status_reason status = Some reason →
      answer cfg root_fd msg [] (error_text status reason body) true
  | answer_unavailable rq rest l e reason page :
      parse_request cfg msg rq rest → judge rq = None →
      path_lookup root_fd (rq_path rq) l (inr e) →
      http_error_page (lookup_status e) = Some page →
      http_status_reason (lookup_status e) = Some reason →
      answer cfg root_fd msg l (error_text (lookup_status e) reason page) true
  | answer_file rq rest l content :
      parse_request cfg msg rq rest → judge rq = None →
      path_lookup root_fd (rq_path rq) l (inl content) →
      answer cfg root_fd msg l (file_text rq content) (bool_decide (wants_close rq)).

Lemma answer_confined cfg root msg l text close :
  answer cfg root msg l text close → Forall (confined_event root) l.
Proof. destruct 1; [constructor|by eapply path_lookup_confined..]. Qed.

(** ** Resources *)
(** From view [v] to view [v'] the file system said [l], the response [r'] acquired
    what it owns, and nothing else changed. *)
Definition acquired (l : list file_event) (v v' : kview) (r' : http_response_t) : Prop :=
  ∃ fds, owned_blocks r' ## kv_heap v ∧
    v' = log_files l (set_heap (owned_blocks r' ∪ kv_heap v) (set_fds fds v)) ∧
    (if 0 <=? rs_file_fd r' then delete (rs_file_fd r') fds else fds) = kv_fds v.

(** Some files were looked for, and nothing else changed. *)
Definition looked_up (root_fd : Z) (v v' : kview) : Prop :=
  ∃ l, Forall (confined_event root_fd) l ∧ v' = log_files l v.

Lemma looked_up_refl root v : looked_up root v v.
Proof. exists []. by rewrite log_files_nil. Qed.

(** A response ready to be sent. *)
Record ready (v : kview) (r : http_response_t) (text : list byte) : Prop := {
  rdy_wf : wf_response v r;
  rdy_complete : rs_complete r = 0;
  rdy_pending : pending v r = text
}.

Lemma judge_status rq status m :
  judge rq = Some (status, m) →
  (∃ page, http_error_page status = Some page) ∧
  match m with Some reason => (NUL ∉ reason) ∧ (0 < length reason <= 100)%nat | None => True end.
Proof.
  unfold judge. intros H. repeat case_decide; simplify_eq/=; try (split; [by eexists|done]).
  destruct (framing_error (rq_fields rq)) as [e|] eqn:E; simplify_eq/=.
  split; [by eexists|]. unfold framing_error, length_error in E.
  repeat case_match; simplify_eq/=; (split; [decide_now|vm_compute; lia]).
Qed.

(** ** Local variables *)
Section prepare.
Context {W : Type} `{K : Kernel W} {HL : KernelLaws W} (F : Prop) (B : W → nat).

Lemma wpg_local_headers n (Q : list http_header_t → proc W → Prop) p :
  (∀ hs, length hs = n → Forall wf_header hs → Q hs p) → wpg F (local_headers n) Q p.
Proof using HL.
  revert Q. induction n as [|n IH]; intros Q H; simpl; [by apply wpg_ret, H|].
  apply wpg_bind. unfold local_header. apply wpg_bind, wpg_local. intros name Hn.
  apply wpg_bind, wpg_local. intros value Hv. apply wpg_ret, wpg_bind, IH.
  intros hs Hl Hf. apply wpg_ret, H; [by rewrite <- Hl|]. by constructor.
Qed.

Lemma wpg_local_request (Q : http_request_t → proc W → Prop) p :
  (∀ r, wf_request r → Q r p) → wpg F local_request Q p.
Proof using HL.
  intros H. unfold local_request. do 4 (apply wpg_bind, wpg_local; intros ? ?).
  apply wpg_bind, wpg_local_headers. intros hs Hl Hf. apply wpg_ret, H. by constructor.
Qed.

Lemma wpg_local_parse_stack (Q : parse_stack → proc W → Prop) p :
  (∀ s, wf_stack s → Q s p) → wpg F local_parse_stack Q p.
Proof using HL.
  intros H. unfold local_parse_stack. do 2 (apply wpg_bind, wpg_local; intros ? ?).
  apply wpg_ret, H. by constructor.
Qed.

(** ** Parsing the copy *)
Lemma copied_message buffer n data :
  0 <= n <= Z.of_nat (length buffer) → Z.of_nat (length data) = n + 1 →
  ∃ data', c_memcpy data 0 buffer 0 (Z.to_nat n) ⇓ data' ∧
    wr data' (Z.to_nat n) NUL ⇓ take (Z.to_nat n) buffer ++ [NUL].
Proof using Type.
  intros Hn Hd. unfold c_memcpy, slice. rewrite decide_True by lia. rewrite bind_ret_l, drop_0.
  assert (length (take (Z.to_nat n) buffer) = Z.to_nat n) as Hl by (rewrite length_take; lia).
  rewrite blit_ok by lia. eexists. split; [done|]. rewrite Hl. simpl.
  assert (length (drop (Z.to_nat n) data) = 1%nat) as Hr by (rewrite length_drop; lia).
  destruct (drop (Z.to_nat n) data) as [|b [|]]; try done.
  rewrite wr_ok by (rewrite length_app; simpl; lia).
  rewrite insert_app_r_alt by lia. by rewrite Hl, Nat.sub_diag.
Qed.

Lemma http_parse_copy_spec buffer n cfg msg (Q : option (Z * http_request_t) → proc W → Prop) p :
  0 <= n <= Z.of_nat (length buffer) → n < 2 ^ 63 → limits_ok cfg →
  cstr_of (take (Z.to_nat n) buffer ++ [NUL]) = Some msg →
  (∀ p', view p' = view p → no_more B p p' → faulty W → Q None p') →
  (∀ code r rq rest p', view p' = view p → no_more B p p' → wf_request r →
     parse_outcome cfg msg code rq rest → (code = HTTP_PARSE_OK → denotes r rq) →
     Q (Some (code, r)) p') →
  wpg F (http_parse_copy buffer n cfg) Q p.
Proof using HL.
  intros Hn H63 Hcfg Hmsg Hfail Hok. unfold http_parse_copy.
  rewrite size_add_small by lia. apply wpg_bind, (wpg_malloc F B).
  2:{ intros p1 Hv Hm Hfa. apply wpg_ret, Hfail; [done..|]. apply Hfa. lia. }
  intros id data p1 Hid Hdata Hm Hv. simpl.
  destruct (copied_message buffer n data Hn) as (data' & Hc & Hw); [lia|].
  apply wpg_bind, wpg_lift. rewrite Hc. simpl. apply wpg_bind, wpg_lift. rewrite Hw. simpl.
  apply wpg_bind, wpg_local_request. intros r0 Hr0.
  apply wpg_bind, wpg_local_parse_stack. intros stk Hstk. apply wpg_bind, wpg_lift.
  eapply returns_mono; [by apply (http_parse_request_refines _ msg Hmsg cfg Hcfg)|].
  intros [code o] (r & rq & rest & Ho & Hr & Hout & Hd). simpl in Ho, Hout, Hd. subst o.
  apply wpg_bind, wpg_deref. apply wpg_bind, (wpg_free F B).
  { rewrite Hv. simpl. set_solver. }
  intros p2 Hm2 Hv2. apply wpg_ret. eapply Hok; try done; [|by etrans].
  rewrite Hv2, Hv. destruct (view p) as [out inp fds h l]. unfold set_heap. simpl. f_equal.
  simpl in Hid. set_solver.
Qed.
End prepare.

(** ** Preparing an answer *)
Section answers.
Context {W : Type} `{K : Kernel W} {HL : KernelLaws W} (F : Prop) (B : W → nat).
Context (cfg : server_config_t) (root_fd : Z) (msg : list byte).

(** How a preparation begun at [p0] with [*close_connection = close0] ends. *)
Definition prep_end (p0 : proc W) (close0 : Z) (res : Z * option http_response_t * option Z)
    (p' : proc W) : Prop :=
  no_more B p0 p' ∧ ∃ c r' cl, res = (c, Some r', Some cl) ∧
  (c = -1 ∧ looked_up root_fd (view p0) (view p') ∧ faulty W ∨
   c = 0 ∧ ∃ l text close, answer cfg root_fd msg l text close ∧
     cl = (if close : bool then 1 else close0) ∧
     ready (view p') r' text ∧ acquired l (view p0) (view p') r' ∧
     (fair_budget B → pending_size r' <= 400 + Z.of_nat (B (p_kernel p0)))).

Lemma http_refuse_spec p0 close0 status message body l p :
  no_more B p0 p → view p = log_files l (view p0) → Forall (confined_event root_fd) l →
  error_body status ((λ m, m ++ [NUL]) <$> message) body → (0 < length body <= 100)%nat →
  (∀ reason, http_status_reason status = Some reason →
     answer cfg root_fd msg l (error_text status reason body) true) →
  wpg F (http_refuse (Some fresh_response) status message) (prep_end p0 close0) p.
Proof using HL.
  intros Hm Hv Hl Hbody Hlen Hans. unfold http_refuse. apply wpg_bind.
  apply (http_response_prepare_error_spec F B fresh_response status _ body);
    [set_solver|done|done|lia| |].
  - intros p1 Hv1 Hm1 Hfa. apply wpg_ret. split; [by etrans|]. eexists _, _, _. split; [done|].
    left. split_and!; [done|exists l; by rewrite Hv1|]. apply Hfa. intros ->. simpl in Hlen. lia.
  - intros id reason p1 Hid Hm1 Hv1 Ha. apply wpg_ret. split; [by etrans|].
    eexists _, _, _. split; [done|]. right. split; [done|].
    destruct (error_response_ready (view p1) fresh_response status reason body id)
      as (Hwf & Hc & Hp & Hs); [done|done|rewrite Hv1; simpl; set_solver|done|].
    exists l, (error_text status reason body), true. split_and!; [by apply Hans, Ha|done|by split| |lia].
    exists (kv_fds (view p0)). rewrite Hv in Hid. split_and!; [| |done].
    + unfold owned_blocks. simpl in *. set_solver.
    + rewrite Hv1, Hv. destruct (view p0) as [out inp fds h ops].
      unfold log_files, set_heap, set_fds, owned_blocks. simpl. f_equal. set_solver.
Qed.

Lemma http_serve_file_spec p0 close0 request rq rest l fd content p :
  denotes request rq → judge rq = None → parse_request cfg msg rq rest →
  path_lookup root_fd (rq_path rq) l (inl content) →
  0 <= fd → kv_fds (view p0) !! fd = None → Z.of_nat (length content) < 2 ^ 63 →
  within B p0 content → close0 = 0 →
  opened B l (<[fd := content]> (kv_fds (view p0))) p0 p →
  wpg F (http_serve_file request (FileT fd (Z.of_nat (length content))) fresh_response
           (if decide (wants_close rq) then 1 else close0))
    (prep_end p0 close0) p.
Proof using HL.
  intros Hden Hj Hp Hlook Hfd Hno Hlen Hin -> [Hm Hv].
  destruct Hden as (Hmeth & Hpath & _). unfold http_serve_file.
  apply wpg_bind, wpg_lift. rewrite (mime_type_spec _ _ Hpath). cbn [returns].
  apply wpg_bind, wpg_lift. rewrite (str_is_spec _ _ "HEAD" Hmeth) by decide_now. cbn [returns].
  apply wpg_bind, wpg_lift.
  destruct (media_type_valid (rq_path rq)) as [Hct Hctl].
  assert (header_args 200 (lit "OK") (media_type (rq_path rq)) (Z.of_nat (length content))) as Ha.
  { split; [lia|done|done|lia|lia]. }
  set (ka := if decide (wants_close rq) then 0 else 1).
  assert ((if (if decide (wants_close rq) then 1 else 0) =? 0 then 1 else 0) = ka) as ->
    by (unfold ka; by case_decide).
  pose proof (response_text_fits _ _ _ _ ka Ha) as Hfit.
  pose proof (http_build_response_headers_fits (rs_headers fresh_response) _ _ _ _ ka eq_refl Ha)
    as Hbuild. cbv zeta in Hbuild. cbn [f_size f_fd].
  assert (answer cfg root_fd msg l (file_text rq content) (bool_decide (wants_close rq))) as Hans
    by by eapply answer_file.
  unfold file_text in Hans. fold ka in Hans.
  set (text := response_text _ _ _ _ _) in *. clearbody text.
  pose proof (length_put_string (rs_headers fresh_response) text) as Hput.
  change HTTP_STATUS_OK with 200. rewrite Hbuild. cbn [returns]. apply wpg_bind, wpg_deref.
  rewrite (proj2 (Z.ltb_ge _ _)) by lia. apply wpg_ret. split; [done|].
  eexists _, _, _. split; [done|]. right. split; [done|].
  eexists _, _, _. split; [exact Hans|]. split; [by rewrite if_bool_decide|].
  change (length (rs_headers fresh_response)) with 1024%nat in Hput.
  split_and!.
  - split; [|done|].
    + split; cbn; [apply Hput; lia|lia|done|lia|]. intros _. rewrite Hv. simpl.
      unfold fd_content. simpl. rewrite lookup_insert_eq. split_and!; simpl; [done|lia..].
    + unfold pending. cbn. rewrite (proj2 (Z.leb_le _ _)) by done. rewrite !Z.sub_0_r.
      unfold put_string. rewrite seg_string. f_equal. rewrite Hv. unfold fd_content. simpl.
      rewrite lookup_insert_eq, if_bool_decide. simpl. destruct (decide (rq_method rq = _)); [done|]. simpl.
      rewrite <- (app_nil_r content) at 1. by rewrite seg_string.
  - exists (<[fd := content]> (kv_fds (view p0))). cbn.
    rewrite (proj2 (Z.leb_le _ _)), delete_insert_id by done. split_and!; [set_solver| |done].
    rewrite Hv. destruct (view p0). unfold log_files, set_heap, set_fds, owned_blocks. simpl.
    f_equal. set_solver.
  - intros HB. specialize (Hin HB). unfold pending_size. cbn.
    rewrite (proj2 (Z.leb_le _ _)) by done. lia.
Qed.

Lemma open_error_status_spec e :
  open_error_status e = lookup_status e ∧ is_Some (http_error_page (lookup_status e)).
Proof using Type.
  unfold open_error_status, lookup_status.
  destruct (Z.eqb_spec e ENOENT); [by rewrite decide_True; [split; [|eexists]|]|].
  rewrite (decide_False (P := e = ENOENT)) by done.
  destruct (decide (e = EACCES ∨ e = EPERM)) as [He|He].
  - assert ((e =? EACCES) || (e =? EPERM) = true) as -> by (rewrite orb_true_iff, !Z.eqb_eq; done).
    split; [done|by eexists].
  - assert ((e =? EACCES) || (e =? EPERM) = false) as -> by (rewrite orb_false_iff, !Z.eqb_neq; tauto).
    split; [done|by eexists].
Qed.

Lemma http_answer_spec p0 request rq rest p :
  denotes request rq → parse_request cfg msg rq rest → limits_ok cfg →
  no_more B p0 p → view p = view p0 →
  wpg F (http_answer request fresh_response 0 root_fd) (prep_end p0 0) p.
Proof using HL.
  intros Hden Hp Hcfg Hm Hv. unfold http_answer. apply wpg_bind, wpg_lift.
  assert (length (rq_fields rq) <= 64)%nat as Hcount.
  { pose proof (lim_headers _ Hcfg) as [H1 H2].
    pose proof (qw_count _ _ (parse_request_wf _ _ _ _ H1 Hp)). change HTTP_MAX_HEADERS with 64 in H2. lia. }
  rewrite (http_check_request_spec request rq) by done. simpl.
  destruct (judge rq) as [[status message]|] eqn:Hj.
  { destruct (judge_status _ _ _ Hj) as [[page Hpage] Hmsg].
    apply (http_refuse_spec p0 0 status message (match message with Some m => m | None => page end) []);
      [done|by rewrite Hv, log_files_nil|constructor| | |].
    - destruct message as [m|]; simpl; [|done]. split; [by eexists|]. apply cstr_of_app, Hmsg.
    - destruct message as [m|]; [apply Hmsg|]. by apply error_page_status in Hpage as (_ & _ & ? & _).
    - intros reason Hr. eapply answer_refusal; [exact Hp| |done].
      destruct message; [by apply refuse_reason|by apply refuse_page]. }
  apply wpg_bind, wpg_lift. rewrite (http_connection_close_spec request rq) by done. simpl.
  destruct Hden as (Hden1 & Hpath & Hden2). apply wpg_bind.
  eapply wpg_mono; [by apply (file_open_path_spec F B root_fd (req_path request) (rq_path rq) None)|].
  rewrite Hv in *.
  intros res p1 (l & [(-> & Hlook & [Hm1 Hv1])
    |(fd & content & -> & Hlook & Hfd & Hno & Hlen & Hin & [Hm1 Hv1])]); simpl.
  - apply wpg_bind, wpg_get_errno. rewrite Hv in Hv1.
    destruct (open_error_status_spec (p_errno p1)) as [-> [page Hpage]].
    apply (http_refuse_spec p0 0 _ None page l); [by etrans|by rewrite set_fds_id in Hv1| |done| |].
    + by eapply path_lookup_confined.
    + by apply error_page_status in Hpage as (_ & _ & ? & _).
    + intros reason Hr. by eapply answer_unavailable.
  - apply wpg_bind, wpg_deref. rewrite Hv in Hv1.
    apply (http_serve_file_spec p0 0 request rq rest l);
      [exact (conj Hden1 (conj Hpath Hden2))|done..| |done|].
    + intros HB. specialize (Hin HB). specialize (Hm HB). lia.
    + split; [by etrans|done].
Qed.

Lemma http_prepare_response_spec buffer n r0 p :
  0 <= n <= Z.of_nat (length buffer) → n < 2 ^ 63 →
  http_config_valid (Some cfg) = true → limits_ok cfg →
  cstr_of (take (Z.to_nat n) buffer ++ [NUL]) = Some msg →
  wpg F (http_prepare_response (Some buffer) n (Some r0) (Some 0) root_fd (Some cfg))
    (prep_end p 0) p.
Proof using HL.
  intros Hn H63 Hvalid Hcfg Hmsg. unfold http_prepare_response. rewrite Hvalid. cbn [negb].
  apply wpg_bind, wpg_deref. fold fresh_response.
  apply wpg_bind, (http_parse_copy_spec F B buffer n cfg msg); [done..| |].
  { intros p1 Hv Hm Hfa. apply wpg_ret. split; [done|]. eexists _, _, _. split; [done|]. left.
    split_and!; [done| |done]. rewrite Hv. apply looked_up_refl. }
  intros code r rq rest p1 Hv Hm Hr Hout Hd.
  assert (∀ status page, http_error_page status = Some page → refusal rq code status page →
    wpg F (http_refuse (Some fresh_response) status None) (prep_end p 0) p1) as Hrefuse.
  { intros status page Hpage Href.
    apply (http_refuse_spec p 0 _ None page []); [done|by rewrite Hv, log_files_nil|constructor|done| |].
    - by apply error_page_status in Hpage as (_ & _ & ? & _).
    - intros reason Hr'. by eapply answer_refusal. }
  destruct (Z.eqb_spec code HTTP_PARSE_OK) as [Hok|Hnok]; cbn [negb].
  { subst code. by eapply http_answer_spec; [apply Hd| | | |]. }
  assert (code = HTTP_PARSE_BAD_REQUEST ∨ code = HTTP_PARSE_HEADERS_TOO_LARGE) as Hcode.
  { inversion Hout as [|? ? ? ? ? ? ? ? ? ? Hpf]; subst; [by left|].
    apply parse_fields_code in Hpf. tauto. }
  destruct Hcode as [-> | ->].
  - eapply (Hrefuse 400); [done|by apply refuse_bad].
  - eapply (Hrefuse 431); [done|by apply refuse_large].
Qed.
End answers.
