(* ===== verification/HttpProcess.v ===== *)
(** * Answering the requests of a connection

    The loop of [http_process_connection] answers the complete requests of the
    buffer in order, each with an answer of [HttpProofs], and keeps the rest. *)
From S2P Require Import Prelude.
From S2P Require Import CLib.
From S2P Require Import Config.
From S2P Require Import Kernel.
From S2P Require Import ScriptKernel.
From S2P Require Import HttpParse.
From S2P Require Import HttpGrammar.
From S2P Require Import HttpParseProofs.
From S2P Require Import GrammarFacts.
From S2P Require Import Io.
From S2P Require Import HttpResponse.
From S2P Require Import HttpResponseProofs.
From S2P Require Import File.
From S2P Require Import HttpConnection.
From S2P Require Import Http.
From S2P Require Import HttpRules.
From S2P Require Import HttpProofs.

(** ** Abstract runs *)
(** The answers to the bytes [raw] of a message, read as a C string. *)
Definition answers (cfg : server_config_t) (root_fd : Z) (raw : list byte) (l : list file_event)
    (text : list byte) (close : bool) : Prop :=
  ∃ msg, cstr_of (raw ++ [NUL]) = Some msg ∧ answer cfg root_fd msg l text close.

(** [serves cfg root q l out rest closed]: with the bytes [q] received, and [l] said
    by the file system, the bytes [out] are sent, one answer per complete message
    up to the one that closes, and [rest] is left. *)
Inductive serves (cfg : server_config_t) (root_fd : Z)
    : list byte → list file_event → list byte → list byte → bool → Prop :=
  | serves_wait q :
      find_sub CRLF2 q = None → serves cfg root_fd q [] [] q false
  | serves_close q j l text :
      find_sub CRLF2 q = Some j → answers cfg root_fd (take (j + 4) q) l text true →
      serves cfg root_fd q l text (drop (j + 4) q) true
  | serves_next q j l text l' out rest closed :
      find_sub CRLF2 q = Some j → answers cfg root_fd (take (j + 4) q) l text false →
      serves cfg root_fd (drop (j + 4) q) l' out rest closed →
      serves cfg root_fd q (l ++ l') (text ++ out) rest closed.

(** The same, stopped by a failure: whole answers, then a part of one. *)
Inductive serves_part (cfg : server_config_t) (root_fd : Z)
    : list byte → list file_event → list byte → Prop :=
  | part_none q l :
      Forall (confined_event root_fd) l → serves_part cfg root_fd q l []
  | part_here q j l text close out :
      find_sub CRLF2 q = Some j → answers cfg root_fd (take (j + 4) q) l text close →
      out `prefix_of` text → serves_part cfg root_fd q l out
  | part_next q j l text l' out :
      find_sub CRLF2 q = Some j → answers cfg root_fd (take (j + 4) q) l text false →
      serves_part cfg root_fd (drop (j + 4) q) l' out → serves_part cfg root_fd q (l ++ l') (text ++ out).

Lemma answers_confined cfg root raw l text close :
  answers cfg root raw l text close → Forall (confined_event root) l.
Proof. intros (msg & _ & H). by eapply answer_confined. Qed.

Lemma serves_confined cfg root q l out rest closed :
  serves cfg root q l out rest closed → Forall (confined_event root) l.
Proof.
  induction 1; [constructor|by eapply answers_confined|].
  apply Forall_app. split; [by eapply answers_confined|done].
Qed.

Lemma serves_part_confined cfg root q l out :
  serves_part cfg root q l out → Forall (confined_event root) l.
Proof.
  induction 1; [done|by eapply answers_confined|].
  apply Forall_app. split; [by eapply answers_confined|done].
Qed.

(** From view [v] to [v'], [out] was sent on [fd] and the file system said [l]. *)
Definition advanced (fd : Z) (l : list file_event) (out : list byte) (v v' : kview) : Prop :=
  v' = push_out fd out (log_files l v).

(** The same, but memory and a descriptor may have been left acquired. *)
Definition advanced_leaking (fd : Z) (l : list file_event) (out : list byte) (v v' : kview) : Prop :=
  kv_files v' = kv_files v ++ l ∧
  kv_out v' = kv_out v ++ (pair fd <$> out) ∧ kv_in v' = kv_in v ∧ kv_heap v ⊆ kv_heap v' ∧
  kv_fds v ⊆ kv_fds v'.

Lemma advanced_refl fd v : advanced fd [] [] v v.
Proof. unfold advanced. by rewrite log_files_nil, push_out_nil. Qed.

Lemma advanced_trans fd l1 l2 out1 out2 v1 v2 v3 :
  advanced fd l1 out1 v1 v2 → advanced fd l2 out2 v2 v3 →
  advanced fd (l1 ++ l2) (out1 ++ out2) v1 v3.
Proof.
  unfold advanced. intros -> ->.
  unfold push_out, log_files. simpl. by rewrite fmap_app, !app_assoc.
Qed.

Lemma advanced_leaking_of fd l out v v' :
  advanced fd l out v v' → advanced_leaking fd l out v v'.
Proof. intros ->. by split_and!. Qed.

Lemma advanced_leaking_trans fd l1 l2 out1 out2 v1 v2 v3 :
  advanced fd l1 out1 v1 v2 → advanced_leaking fd l2 out2 v2 v3 →
  advanced_leaking fd (l1 ++ l2) (out1 ++ out2) v1 v3.
Proof.
  intros -> (Ho & Hs & Hi & Hh & Hf). simpl in *.
  split_and!; [by rewrite Ho, app_assoc|by rewrite Hs, fmap_app, app_assoc|done..].
Qed.

(** An acquired response that sent [out]. *)
Lemma acquired_leaking fd l out v v1 v2 r :
  acquired l v v1 r → v2 = push_out fd out v1 → advanced_leaking fd l out v v2.
Proof.
  intros (fds & Hd & -> & Hf) ->. simpl. split_and!; try done; [set_solver|].
  rewrite <- Hf. split_if; [apply delete_subseteq|done].
Qed.

(** Releasing it leaves the view as it was, but for what was sent. *)
Lemma acquired_released fd l out v v1 v2 v3 r r' :
  acquired l v v1 r → v2 = push_out fd out v1 →
  owned_blocks r' = owned_blocks r → rs_file_fd r' = rs_file_fd r →
  v3 = set_heap (kv_heap v2 ∖ owned_blocks r')
         (set_fds (if 0 <=? rs_file_fd r' then delete (rs_file_fd r') (kv_fds v2)
                   else kv_fds v2) v2) →
  advanced fd l out v v3.
Proof.
  intros (fds & Hd & -> & Hf) -> -> -> ->. unfold advanced.
  simpl. rewrite Hf. destruct v as [o i f h ops]. unfold push_out, log_files, set_heap, set_fds.
  simpl in *. f_equal. set_solver.
Qed.

(** ** The code *)
Lemma find_crlf2_bound q j : find_sub CRLF2 q = Some j → (j + 4 <= length q)%nat.
Proof.
  intros ([k Hk] & Hj & _)%find_sub_Some. apply (f_equal length) in Hk.
  rewrite length_drop, length_app in Hk. change (length CRLF2) with 4%nat in Hk. lia.
Qed.

(** Replacing the response or the flag does not concern the buffer. *)
Lemma wf_connection_with c r x :
  wf_connection c → wf_connection (set_hc_close x (set_hc_response r c)).
Proof. intros []. by split. Qed.
Lemma wf_connection_response c r : wf_connection c → wf_connection (set_hc_response r c).
Proof. intros []. by split. Qed.

Section process.
Context {W : Type} `{K : Kernel W} {HL : KernelLaws W} (F : Prop) (B : W → nat).
Context (cfg : server_config_t) (Hvalid : http_config_valid (Some cfg) = true) (Hcfg : limits_ok cfg).
Context (client_fd root_fd : Z).

(** How the processing of one message ends. *)
Definition request_end (c : http_connection_t) (j : nat) (p : proc W)
    (res : Z * http_connection_t) (p' : proc W) : Prop :=
  no_more B p p' ∧ wf_connection res.2 ∧ buffer_id res.2 = buffer_id c ∧
  hc_buffer_capacity res.2 = hc_buffer_capacity c ∧
  (res.1 = -1 ∧ faulty W ∧ (∃ l out, serves_part cfg root_fd (buffered c) l out ∧
     advanced_leaking client_fd l out (view p) (view p')) ∨
   res.1 = 0 ∧ ∃ l text close, answers cfg root_fd (take (j + 4) (buffered c)) l text close ∧
     advanced client_fd l text (view p) (view p') ∧
     buffered res.2 = drop (j + 4) (buffered c) ∧
     hc_close_connection res.2 = if (close : bool) then 1 else 0).

Lemma enough_send fuel p p' n :
  enough F B fuel p (400 + Z.of_nat (B (p_kernel p))) → no_more B p p' →
  (fair_budget B → n <= 400 + Z.of_nat (B (p_kernel p))) → enough F B fuel p' n.
Proof using Type.
  intros [HF|[HB Hf]] Hm Hn; [by left|right]. split; [done|].
  specialize (Hm HB). specialize (Hn HB). lia.
Qed.

(** The message [http_prepare_response] is given. *)
Lemma message_of_buffer c j :
  wf_connection c → find_sub CRLF2 (buffered c) = Some j →
  ∃ data, blk_data <$> http_connection_data (Some c) = Some data ∧
    take (Z.to_nat (Z.of_nat (j + 4))) data = take (j + 4) (buffered c) ∧
    Z.of_nat (j + 4) <= Z.of_nat (length data) ∧ Z.of_nat (j + 4) < 2 ^ 63.
Proof using Type.
  intros Hwf Hj%find_crlf2_bound. pose proof (length_buffered c Hwf) as Hlen.
  destruct Hwf as [(b & Hb & Hl) Hu Hc]. exists (blk_data b). simpl. rewrite Hb. split; [done|].
  unfold buffered in *. rewrite Hb in *. rewrite Nat2Z.id, take_take, Nat.min_l by lia.
  split_and!; [done|lia|lia].
Qed.

Lemma http_process_request_spec fuel c j p :
  wf_connection c → hc_close_connection c = 0 → find_sub CRLF2 (buffered c) = Some j →
  enough F B fuel p (400 + Z.of_nat (B (p_kernel p))) →
  wpg F (http_process_request fuel c (Z.of_nat (j + 4)) client_fd root_fd (Some cfg))
    (request_end c j p) p.
Proof using HL Hvalid Hcfg.
  intros Hwf Hclose Hj Hf. pose proof (find_crlf2_bound _ _ Hj) as Hbound.
  destruct (message_of_buffer c j Hwf Hj) as (data & Hdata & Htake & Hle & H63).
  destruct (cstr_of_snoc (take (j + 4) (buffered c))) as (msg & Hmsg & _).
  unfold http_process_request. rewrite Hdata, Hclose.
  apply wpg_bind. eapply wpg_mono.
  { apply (http_prepare_response_spec F B cfg root_fd msg); try done; [lia|by rewrite Htake]. }
  intros res p1 (Hm1 & code & r1 & cl & -> & Hend). simpl.
  apply wpg_bind, wpg_deref, wpg_bind, wpg_deref.
  pose proof (wf_connection_with c r1 cl Hwf) as Hwf1.
  destruct Hend as [(-> & (l & Hl & Hlook) & Hfa)|(-> & l & text & close & Hans & -> & [Hwr Hcomp Hpend] & Hacq & Hsize)].
  { simpl. apply wpg_ret. split_and!; try done. left. split_and!; [done..|]. exists l, [].
    split; [by constructor|]. apply advanced_leaking_of. unfold advanced. by rewrite push_out_nil. }
  simpl. apply wpg_bind. eapply wpg_mono.
  { apply (http_response_send_blocking_spec F B); [done|done|].
    eapply enough_send; [exact Hf|done|exact Hsize]. }
  intros res p2 (r2 & Hss & Hres). destruct (ss_bytes _ _ _ _ _ _ Hss) as (out & Hv2 & Hout).
  assert (answers cfg root_fd (take (j + 4) (buffered c)) l text close) as Hans' by by exists msg.
  pose proof (transitivity Hm1 (ss_fuel _ _ _ _ _ _ Hss)) as Hm2.
  destruct Hres as [[-> Hdone]|[-> Hfa]].
  2:{ apply wpg_bind, wpg_deref. simpl. apply wpg_ret. split_and!; try done.
      { by apply wf_connection_response. }
      left. split_and!; [done..|]. exists l, out. split; [|by eapply acquired_leaking].
      eapply part_here; [done|done|]. rewrite <- Hpend, <- Hout. by eexists. }
  apply wpg_bind, wpg_deref. simpl.
  rewrite Hdone, app_nil_r, Hpend in Hout. subst out.
  destruct (ss_owner _ _ _ _ _ _ Hss) as [Hbody Hfile].
  assert (owned_blocks (set_rs_flags (rs_send_body r2) 1 r2) = owned_blocks r1) as Hob.
  { unfold owned_blocks. simpl. by rewrite Hbody. }
  apply wpg_bind, (http_response_destroy_spec F B).
  { rewrite Hob, Hv2. destruct Hacq as (fds & _ & -> & _). simpl. set_solver. }
  intros r3 p3 Hm3 _ _ _ Hv3. apply wpg_bind, wpg_deref.
  set (c3 := set_hc_response _ _). assert (wf_connection c3) as Hwf3 by by do 2 apply wf_connection_response.
  apply wpg_bind, wpg_lift. destruct (consume_spec c3 (Z.of_nat (j + 4)) Hwf3 ltac:(lia))
    as (c4 & -> & Hwf4 & (Hcap & Hid & Hcl & _) & Hbuf).
  simpl. apply wpg_bind, wpg_deref, wpg_ret.
  split; [by etrans|]. split_and!; [done|done|done|].
  right. split; [done|]. exists l, text, close. split_and!; [done| | |done].
  - eapply acquired_released; [exact Hacq|exact Hv2|exact Hob|exact Hfile|exact Hv3].
  - cbn [snd]. rewrite Hbuf. change (buffered c3) with (buffered c). rewrite decide_True by lia.
    by rewrite Nat2Z.id.
Qed.

(** How the loop ends. *)
Definition process_end (c : http_connection_t) (p : proc W) (res : Z * http_connection_t)
    (p' : proc W) : Prop :=
  no_more B p p' ∧ wf_connection res.2 ∧ buffer_id res.2 = buffer_id c ∧
  hc_buffer_capacity res.2 = hc_buffer_capacity c ∧
  (res.1 = -1 ∧ faulty W ∧ (∃ l out, serves_part cfg root_fd (buffered c) l out ∧
     advanced_leaking client_fd l out (view p) (view p')) ∨
   res.1 = 0 ∧ ∃ l out closed, serves cfg root_fd (buffered c) l out (buffered res.2) closed ∧
     advanced client_fd l out (view p) (view p') ∧
     hc_close_connection res.2 = if (closed : bool) then 1 else 0).

Lemma http_process_loop_spec fuel n c p :
  wf_connection c → hc_close_connection c = 0 → (length (buffered c) < n)%nat →
  enough F B fuel p (400 + Z.of_nat (B (p_kernel p))) →
  wpg F (http_process_loop n fuel c client_fd root_fd (Some cfg)) (process_end c p) p.
Proof using HL Hvalid Hcfg.
  revert c p. induction n as [|n IH]; intros c p Hwf Hclose Hn Hf; [lia|].
  cbn [http_process_loop]. apply wpg_bind, wpg_lift. rewrite request_ready_spec by done.
  destruct (find_sub CRLF2 (buffered c)) as [j|] eqn:Hj; cbn [returns].
  2:{ rewrite bool_decide_eq_false_2 by apply is_Some_None. apply wpg_ret. split_and!; try done.
      right. split; [done|]. exists [], [], false. split_and!; [by constructor|apply advanced_refl|done]. }
  rewrite bool_decide_eq_true_2 by done. cbn [negb]. pose proof (find_crlf2_bound _ _ Hj) as Hb.
  apply wpg_bind, wpg_lift. rewrite request_length_spec, Hj by done. cbn [returns].
  rewrite (proj2 (Z.eqb_neq _ _)) by lia.
  apply wpg_bind. eapply wpg_mono; [by apply http_process_request_spec|].
  intros [r c1] p1 (Hm1 & Hwf1 & Hid & Hcap & [(Hr & Hfa & l & out & Hpart & Hadv)
    |(Hr & l & text & close & Hans & Hadv & Hbuf & Hcl)]); cbn [fst snd] in *; subst r; cbn [Z.ltb Z.compare].
  { apply wpg_ret. split_and!; try done. left. eauto 10. }
  rewrite Hcl. destruct close; cbn [negb Z.eqb].
  { apply wpg_ret. split_and!; try done. right. split; [done|]. exists l, text, true.
    cbn [snd]. rewrite Hbuf. split_and!; [by apply serves_close|done|done]. }
  eapply wpg_mono; [apply IH; [done|done| |]|].
  - rewrite Hbuf, length_drop. lia.
  - destruct Hf as [HF|[HB Hf]]; [by left|right]. specialize (Hm1 HB). split; [done|lia].
  - intros [r c2] p2 (Hm2 & Hwf2 & Hid2 & Hcap2 & Hend). cbn [fst snd] in *.
    split; [by etrans|]. split_and!; [done|by etrans|by etrans|]. cbn [fst snd]. rewrite Hbuf in Hend.
    destruct Hend as [(-> & Hfa & l2 & out & Hpart & Hadv2)|(-> & l2 & out & closed & Hs & Hadv2 & Hcl2)]; [left|right].
    + split_and!; [done..|]. exists (l ++ l2), (text ++ out). split; [by eapply part_next|].
      by eapply advanced_leaking_trans.
    + split; [done|]. exists (l ++ l2), (text ++ out), closed. split_and!; [by eapply serves_next| |done].
      by eapply advanced_trans.
Qed.

Lemma http_process_connection_spec fuel c p :
  wf_connection c → hc_close_connection c = 0 →
  enough F B fuel p (400 + Z.of_nat (B (p_kernel p))) →
  wpg F (http_process_connection fuel (Some c) client_fd root_fd (Some cfg))
    (λ res p', ∃ c', res.2 = Some c' ∧ process_end c p (res.1, c') p') p.
Proof using HL Hvalid Hcfg.
  intros Hwf Hclose Hf. unfold http_process_connection. rewrite Hvalid. cbn [negb].
  apply wpg_bind. eapply wpg_mono.
  - apply http_process_loop_spec; [done|done| |done].
    rewrite <- length_buffered by done. lia.
  - intros [r c'] p' H. apply wpg_ret. by exists c'.
Qed.
End process.
