(* ===== verification/ConfigArgs.v ===== *)
(** * Command line ([src/config.c])

    The defaults, the two number parsers, and the option loop. *)
From S2P Require Import Prelude.
From S2P Require Import CLib.
From S2P Require Import Config.

(** ** Numbers *)
(** [*result] before and after, with the code returned. *)
Definition parse_positive_int (value : obj) (result : Z) : outcome (Z * Z) :=
  '(parsed, end_, errno) ← c_strtol value;
  if (negb (errno =? 0)) || (bool_decide (end_ = 0%nat)) then mret (-1, result) else
  c ← rd value end_;
  if bool_decide (c ≠ NUL) || (parsed <=? 0) || (INT_MAX <? parsed) then mret (-1, result)
  else mret (0, parsed).

Definition parse_positive_size (value : obj) (result : Z) : outcome (Z * Z) :=
  '(parsed, end_, errno) ← c_strtoull value;
  if (negb (errno =? 0)) || (bool_decide (end_ = 0%nat)) then mret (-1, result) else
  c ← rd value end_;
  if bool_decide (c ≠ NUL) || (parsed <=? 0) || (INT_MAX <=? parsed) then mret (-1, result)
  else mret (0, parsed).

(** ** Configuration *)
Definition config_init (config : server_config_t) : server_config_t :=
  ServerConfig DEFAULT_PORT DEFAULT_BACKLOG DEFAULT_CLIENT_TIMEOUT DEFAULT_DOCUMENT_ROOT
    DEFAULT_HTTP_BUFFER_SIZE DEFAULT_HTTP_MAX_HEADERS DEFAULT_HTTP_HEADER_NAME_MAX
    DEFAULT_HTTP_HEADER_VALUE_MAX.

Definition set_port (x : Z) (c : server_config_t) : server_config_t :=
  ServerConfig x (backlog c) (client_timeout c) (document_root c) (http_buffer_size c)
    (http_max_headers c) (http_header_name_max c) (http_header_value_max c).
Definition set_backlog (x : Z) (c : server_config_t) : server_config_t :=
  ServerConfig (port c) x (client_timeout c) (document_root c) (http_buffer_size c)
    (http_max_headers c) (http_header_name_max c) (http_header_value_max c).
Definition set_timeout (x : Z) (c : server_config_t) : server_config_t :=
  ServerConfig (port c) (backlog c) x (document_root c) (http_buffer_size c)
    (http_max_headers c) (http_header_name_max c) (http_header_value_max c).
Definition set_root (x : list byte) (c : server_config_t) : server_config_t :=
  ServerConfig (port c) (backlog c) (client_timeout c) x (http_buffer_size c)
    (http_max_headers c) (http_header_name_max c) (http_header_value_max c).
Definition set_buffer_size (x : Z) (c : server_config_t) : server_config_t :=
  ServerConfig (port c) (backlog c) (client_timeout c) (document_root c) x
    (http_max_headers c) (http_header_name_max c) (http_header_value_max c).
Definition set_max_headers (x : Z) (c : server_config_t) : server_config_t :=
  ServerConfig (port c) (backlog c) (client_timeout c) (document_root c) (http_buffer_size c)
    x (http_header_name_max c) (http_header_value_max c).
Definition set_name_max (x : Z) (c : server_config_t) : server_config_t :=
  ServerConfig (port c) (backlog c) (client_timeout c) (document_root c) (http_buffer_size c)
    (http_max_headers c) x (http_header_value_max c).
Definition set_value_max (x : Z) (c : server_config_t) : server_config_t :=
  ServerConfig (port c) (backlog c) (client_timeout c) (document_root c) (http_buffer_size c)
    (http_max_headers c) (http_header_name_max c) x.

(** [argv[i]]; the vector ends at [argc]. *)
Definition arg (argv : list obj) (i : nat) : outcome obj :=
  match argv !! i with Some a => Ret a | None => UB end.

(** An option with a number: its code, and the new value of the field. *)
Definition number_option (parse : obj → Z → outcome (Z * Z)) (argv : list obj) (i : nat) (field : Z)
    : outcome (Z * Z) :=
  if decide (length argv <= i + 1)%nat then mret (-1, field)
  else value ← arg argv (i + 1); parse value field.

(** The option at [argv[i]]: its code, and the configuration after it. *)
Definition config_option (argv : list obj) (i : nat) (config : server_config_t)
    : outcome (Z * server_config_t) :=
  a ← arg argv i;
  is_port ← str_is a "--port";
  if (is_port : bool) then
    '(r, x) ← number_option parse_positive_int argv i (port config);
    let config := set_port x config in
    if r <? 0 then mret (-1, config)
    else if 65535 <? port config then mret (-1, config) else mret (0, config)
  else
  is_backlog ← str_is a "--backlog";
  if (is_backlog : bool) then
    '(r, x) ← number_option parse_positive_int argv i (backlog config);
    mret (r, set_backlog x config)
  else
  is_timeout ← str_is a "--timeout";
  if (is_timeout : bool) then
    '(r, x) ← number_option parse_positive_int argv i (client_timeout config);
    mret (r, set_timeout x config)
  else
  is_root ← str_is a "--root";
  if (is_root : bool) then
    if decide (length argv <= i + 1)%nat then mret (-1, config) else
    value ← arg argv (i + 1);
    value ← c_string value 0;
    mret (0, set_root value config)
  else
  is_buffer ← str_is a "--http-buffer-size";
  if (is_buffer : bool) then
    '(r, x) ← number_option parse_positive_size argv i (http_buffer_size config);
    mret (r, set_buffer_size x config)
  else
  is_headers ← str_is a "--max-headers";
  if (is_headers : bool) then
    '(r, x) ← number_option parse_positive_size argv i (http_max_headers config);
    mret (r, set_max_headers x config)
  else
  is_name ← str_is a "--header-name-max";
  if (is_name : bool) then
    '(r, x) ← number_option parse_positive_size argv i (http_header_name_max config);
    mret (r, set_name_max x config)
  else
  is_value ← str_is a "--header-value-max";
  if (is_value : bool) then
    '(r, x) ← number_option parse_positive_size argv i (http_header_value_max config);
    mret (r, set_value_max x config)
  else mret (-1, config).

Fixpoint config_parse_loop (n : nat) (argv : list obj) (i : nat) (config : server_config_t)
    : outcome (Z * server_config_t) :=
  match n with
  | O => OutOfFuel
  | S n =>
    if decide (i < length argv)%nat then
      '(r, config) ← config_option argv i config;
      if r <? 0 then mret (-1, config) else config_parse_loop n argv (i + 2) config
    else mret (0, config)
  end.

Definition config_parse_args (config : server_config_t) (argv : list obj)
    : outcome (Z * server_config_t) :=
  config_parse_loop (S (length argv)) argv 1 config.

(** ** Specification *)
Definition c_str (o : obj) : Prop := is_Some (cstr_of o).

(** A spelled number is accepted when its value is in range. *)
Definition int_value (s : list byte) (v : Z) : Prop :=
  ∃ ds, spells s false ds ∧ v = dec_value ds ∧ 0 < v <= INT_MAX.
(** Minus signs wrap around in 64 bits. *)
Definition size_value (s : list byte) (v : Z) : Prop :=
  ∃ neg ds, spells s neg ds ∧ dec_value ds <= ULLONG_MAX ∧
    v = (if (neg : bool) then u64 (- dec_value ds) else dec_value ds) ∧ 0 < v < INT_MAX.

Lemma dec_value_nonneg ds : Forall digit ds → 0 <= dec_value ds.
Proof.
  intros H. unfold dec_value. generalize (Z.le_refl 0). generalize 0 at 2 4.
  induction H as [|b ds Hb _ IH]; intros z Hz; simpl; [done|].
  apply IH. unfold digit in Hb. lia.
Qed.

Lemma spells_not_nil s neg ds : spells s neg ds → s ≠ [].
Proof.
  intros (ws & sign & -> & _ & _ & Hne & _) H. apply app_eq_nil in H as [_ H].
  by apply app_eq_nil in H as [_ ->].
Qed.

Lemma spells_inj s neg ds neg' ds' : spells s neg ds → spells s neg' ds' → neg = neg' ∧ ds = ds'.
Proof. intros H%scan_number_complete H'%scan_number_complete. rewrite H in H'. by simplify_eq. Qed.

Section numbers.
Context (o s : obj) (Ho : cstr_of o = Some s) (r0 : Z).

(** How the number parsers end: the code and the new value of [*result]. *)
Definition number_end (value : list byte → Z → Prop) (res : Z * Z) : Prop :=
  res.1 = 0 ∧ value s res.2 ∨ res = (-1, r0) ∧ ∀ v, ¬ value s v.

(** What a successful scan found: a character to end on, which is the NUL exactly
    when all of [s] spells a number, this one. *)
Lemma scanned_number neg ds rest :
  scan_number s = Some (neg, ds, rest) →
  let e := (length s - length rest)%nat in
  e ≠ 0%nat ∧ 0 <= dec_value ds ∧ (∃ c, rd o e ⇓ c ∧ (c = NUL ↔ spells s neg ds)) ∧
  ∀ neg' ds', spells s neg' ds' → spells s neg ds ∧ neg' = neg ∧ ds' = ds.
Proof using Ho.
  intros Hscan e. destruct (scan_number_sound _ _ _ _ Hscan) as (pre & Hs & Hsp).
  assert (e = length pre) as -> by (unfold e; rewrite Hs, length_app; lia).
  assert (∀ neg' ds', spells s neg' ds' → spells s neg ds ∧ neg' = neg ∧ ds' = ds) as Huniq.
  { intros neg' ds' H. pose proof (scan_number_complete _ _ _ H) as H'.
    rewrite Hscan in H'. by simplify_eq. }
  split_and!; [|by destruct Hsp as (? & ? & ? & ? & ? & ? & ?); apply dec_value_nonneg| |done].
  { pose proof (spells_not_nil _ _ _ Hsp). by destruct pre. }
  destruct rest as [|b rest].
  - exists NUL. rewrite app_nil_r in Hs. subst pre. by rewrite (rd_end o s).
  - exists b. rewrite (rd_lookup o s Ho _ b) by (by rewrite Hs, list_lookup_middle).
    split; [done|]. split.
    + intros ->. apply cstr_of_no_nul in Ho. rewrite Hs in Ho. set_solver.
    + intros H. pose proof (scan_number_complete _ _ _ H) as H'. rewrite Hscan in H'. done.
Qed.

Lemma parse_positive_int_spec :
  returns (parse_positive_int o r0) (number_end int_value).
Proof using Ho.
  unfold parse_positive_int, c_strtol.
  rewrite (c_string_at o s) by (done || lia). rewrite drop_0. cbn [mbind outcome_bind].
  destruct (scan_number s) as [[[neg ds] rest]|] eqn:Hscan; cbn [mbind outcome_bind mret outcome_ret].
  2:{ right. split; [done|]. intros v (ds & Hsp & _).
      apply scan_number_complete in Hsp. congruence. }
  destruct (scanned_number _ _ _ Hscan) as (Hne & Hpos & (c & Hrd & Hc) & Huniq).
  set (e := (length s - length rest)%nat) in *.
  set (v := if neg then - dec_value ds else dec_value ds).
  assert (∀ w, int_value s w → spells s neg ds ∧ w = v ∧ 0 < v <= INT_MAX) as Hval.
  { intros w (ds' & Hsp & -> & Hw). destruct (Huniq _ _ Hsp) as (Hsp' & <- & ->).
    by split_and!; try apply Hw. }
  assert (¬ (spells s neg ds ∧ 0 < v <= INT_MAX) → number_end int_value (-1, r0)) as Hbad.
  { intros Hno. right. split; [done|]. intros w Hw. apply Hno. naive_solver. }
  fold v. destruct (LONG_MAX <? v) eqn:E1;
    [apply Z.ltb_lt in E1; apply Hbad; unfold INT_MAX, LONG_MAX in *; lia|].
  destruct (v <? LONG_MIN) eqn:E2; [apply Z.ltb_lt in E2; apply Hbad; unfold LONG_MIN in *; lia|].
  cbn [mbind outcome_bind mret outcome_ret negb Z.eqb].
  rewrite (bool_decide_eq_false_2 (e = _)) by done. cbn [orb]. rewrite Hrd. cbn [mbind outcome_bind].
  destruct (decide (c = NUL)) as [Hnul|Hnul]; [|rewrite bool_decide_eq_true_2 by done; apply Hbad; tauto].
  rewrite bool_decide_eq_false_2 by tauto. cbn [orb].
  destruct (v <=? 0) eqn:E3; [apply Z.leb_le in E3; apply Hbad; lia|].
  destruct (INT_MAX <? v) eqn:E4; [apply Z.ltb_lt in E4; apply Hbad; lia|].
  apply Z.leb_gt in E3. apply Z.ltb_ge in E4. apply Hc in Hnul. left. split; [done|]. exists ds.
  unfold v in *. destruct neg; [lia|done].
Qed.

Lemma parse_positive_size_spec :
  returns (parse_positive_size o r0) (number_end size_value).
Proof using Ho.
  unfold parse_positive_size, c_strtoull.
  rewrite (c_string_at o s) by (done || lia). rewrite drop_0. cbn [mbind outcome_bind].
  destruct (scan_number s) as [[[neg ds] rest]|] eqn:Hscan; cbn [mbind outcome_bind mret outcome_ret].
  2:{ right. split; [done|]. intros v (neg & ds & Hsp & _).
      apply scan_number_complete in Hsp. congruence. }
  destruct (scanned_number _ _ _ Hscan) as (Hne & Hpos & (c & Hrd & Hc) & Huniq).
  set (e := (length s - length rest)%nat) in *.
  set (v := if neg then u64 (- dec_value ds) else dec_value ds).
  assert (∀ w, size_value s w →
    spells s neg ds ∧ w = v ∧ dec_value ds <= ULLONG_MAX ∧ 0 < v < INT_MAX) as Hval.
  { intros w (neg' & ds' & Hsp & Hle & -> & Hw). destruct (Huniq _ _ Hsp) as (Hsp' & -> & ->).
    by split_and!; try apply Hw. }
  assert (¬ (spells s neg ds ∧ dec_value ds <= ULLONG_MAX ∧ 0 < v < INT_MAX) →
    number_end size_value (-1, r0)) as Hbad.
  { intros Hno. right. split; [done|]. intros w Hw. apply Hno. naive_solver. }
  destruct (ULLONG_MAX <? dec_value ds) eqn:E1; [apply Z.ltb_lt in E1; apply Hbad; lia|].
  cbn [mbind outcome_bind mret outcome_ret negb Z.eqb].
  rewrite (bool_decide_eq_false_2 (e = _)) by done. cbn [orb]. rewrite Hrd. cbn [mbind outcome_bind].
  destruct (decide (c = NUL)) as [Hnul|Hnul]; [|rewrite bool_decide_eq_true_2 by done; apply Hbad; tauto].
  rewrite bool_decide_eq_false_2 by tauto. cbn [orb]. fold v.
  destruct (v <=? 0) eqn:E3; [apply Z.leb_le in E3; apply Hbad; lia|].
  destruct (INT_MAX <=? v) eqn:E4; [apply Z.leb_le in E4; apply Hbad; lia|].
  apply Z.leb_gt in E3, E4. apply Z.ltb_ge in E1. apply Hc in Hnul. left. split; [done|].
  by exists neg, ds.
Qed.
End numbers.

(** *** The options *)
Record config_ranges (cfg : server_config_t) : Prop := {
  cr_port : 0 < port cfg <= 65535;
  cr_backlog : 0 < backlog cfg <= INT_MAX;
  cr_timeout : 0 < client_timeout cfg <= INT_MAX;
  cr_root : NUL ∉ document_root cfg;
  cr_buffer : 0 < http_buffer_size cfg < INT_MAX;
  cr_headers : 0 < http_max_headers cfg < INT_MAX;
  cr_name : 0 < http_header_name_max cfg < INT_MAX;
  cr_value : 0 < http_header_value_max cfg < INT_MAX
}.

Lemma config_init_ranges c : config_ranges (config_init c).
Proof. split; try (vm_compute; split_and!; done). decide_now. Qed.

Lemma number_option_spec parse (value : list byte → Z → Prop) argv i field :
  (∀ o s r0, cstr_of o = Some s → returns (parse o r0) (number_end s r0 value)) →
  Forall c_str argv →
  returns (number_option parse argv i field) (λ res,
    (res.1 = 0 ∧ ∃ s, value s res.2) ∨ res = (-1, field)).
Proof.
  intros Hparse Hargv. unfold number_option. case_decide as Hi; [by right|].
  destruct (lookup_lt_is_Some_2 argv (i + 1)) as [o Ho]; [lia|].
  destruct (Forall_lookup_1 _ _ _ _ Hargv Ho) as [s Hs]. unfold arg. rewrite Ho.
  cbn [mbind outcome_bind]. eapply returns_mono; [by apply Hparse|].
  intros res [[? ?]|[-> _]]; [left; eauto|by right].
Qed.

Lemma int_option_spec argv i field :
  Forall c_str argv →
  returns (number_option parse_positive_int argv i field) (λ res,
    (res.1 = 0 ∧ 0 < res.2 <= INT_MAX) ∨ res = (-1, field)).
Proof.
  intros Hargv. eapply returns_mono; [apply (number_option_spec _ int_value); [|done]|].
  { intros o s r0 Ho. by apply parse_positive_int_spec. }
  intros res [[Hr (s & ds & _ & _ & Hv)]|Hr]; [by left|by right].
Qed.

Lemma size_option_spec argv i field :
  Forall c_str argv →
  returns (number_option parse_positive_size argv i field) (λ res,
    (res.1 = 0 ∧ 0 < res.2 < INT_MAX) ∨ res = (-1, field)).
Proof.
  intros Hargv. eapply returns_mono; [apply (number_option_spec _ size_value); [|done]|].
  { intros o s r0 Ho. by apply parse_positive_size_spec. }
  intros res [[Hr (s & neg & ds & _ & _ & _ & Hv)]|Hr]; [by left|by right].
Qed.

(** An option keeps the ranges, or fails. *)
Definition option_end (res : Z * server_config_t) : Prop :=
  res.1 = 0 ∧ config_ranges res.2 ∨ res.1 = -1.

Section option.
Context (argv : list obj) (Hargv : Forall c_str argv) (i : nat) (cfg : server_config_t).

Lemma option_case a s k (m1 m2 : outcome (Z * server_config_t)) :
  cstr_of a = Some s → NUL ∉ lit k → returns m1 option_end → returns m2 option_end →
  returns (b ← str_is a k; if (b : bool) then m1 else m2) option_end.
Proof using Type. intros Hs Hk H1 H2. rewrite (str_is_spec a s) by done. by destruct (bool_decide _). Qed.

Lemma int_case (set : Z → server_config_t → server_config_t) field :
  (∀ x, 0 < x <= INT_MAX → config_ranges (set x cfg)) →
  returns ('(r, x) ← number_option parse_positive_int argv i field; mret (r, set x cfg)) option_end.
Proof using Hargv.
  intros Hset. apply returns_bind. eapply returns_mono; [by apply int_option_spec|].
  intros [r x] [[Hr Hx]|[= -> ->]]; [left; split; [done|by apply Hset]|by right].
Qed.

Lemma size_case (set : Z → server_config_t → server_config_t) field :
  (∀ x, 0 < x < INT_MAX → config_ranges (set x cfg)) →
  returns ('(r, x) ← number_option parse_positive_size argv i field; mret (r, set x cfg)) option_end.
Proof using Hargv.
  intros Hset. apply returns_bind. eapply returns_mono; [by apply size_option_spec|].
  intros [r x] [[Hr Hx]|[= -> ->]]; [left; split; [done|by apply Hset]|by right].
Qed.

Lemma config_option_spec :
  (i < length argv)%nat → config_ranges cfg → returns (config_option argv i cfg) option_end.
Proof using Hargv.
  intros Hi Hcfg. destruct (lookup_lt_is_Some_2 argv i Hi) as [a Ha].
  destruct (Forall_lookup_1 _ _ _ _ Hargv Ha) as [s Hs]. unfold config_option.
  assert (arg argv i = Ret a) as -> by (unfold arg; by rewrite Ha). cbn [mbind outcome_bind].
  destruct Hcfg as [H1 H2 H3 H4 H5 H6 H7 H8].
  apply (option_case a s); [done|decide_now| |].
  { apply returns_bind. eapply returns_mono; [by apply int_option_spec|].
    intros [r x] [[Hr Hx]|[= -> ->]]; [simpl in Hr, Hx; subst r|by right]. cbn [Z.ltb Z.compare].
    destruct (65535 <? port (set_port x cfg)) eqn:E; [by right|]. apply Z.ltb_ge in E.
    left. split; [done|]. simpl in *. split; simpl; (done || lia). }
  do 2 (apply (option_case a s); [done|decide_now|apply int_case; intros; by split|]).
  apply (option_case a s); [done|decide_now| |].
  { case_decide as Hn; [by right|]. destruct (lookup_lt_is_Some_2 argv (i + 1)) as [o Ho]; [lia|].
    destruct (Forall_lookup_1 _ _ _ _ Hargv Ho) as [v Hv]. unfold arg. rewrite Ho.
    cbn [mbind outcome_bind]. rewrite (c_string_at o v) by (done || lia). rewrite drop_0. left.
    split; [done|]. apply cstr_of_no_nul in Hv. by split. }
  do 4 (apply (option_case a s); [done|decide_now|apply size_case; intros; by split|]).
  by right.
Qed.
End option.

Lemma config_parse_loop_spec n argv i cfg :
  Forall c_str argv → (0 < n)%nat → (length argv < i + n)%nat → config_ranges cfg →
  returns (config_parse_loop n argv i cfg) option_end.
Proof.
  intros Hargv. revert i cfg. induction n as [|n IH]; intros i cfg Hpos Hn Hcfg; [lia|].
  cbn [config_parse_loop]. case_decide as Hi; [|by left].
  apply returns_bind. eapply returns_mono; [by apply config_option_spec|].
  intros [r c] [[Hr Hc]|Hr]; simpl in *; subst r; cbn [Z.ltb Z.compare]; [|by right].
  apply IH; [lia|lia|done].
Qed.

(** *** Writing a configuration as arguments *)
Definition number_arg (n : Z) : obj := dec n ++ [NUL].
Definition config_args (program : obj) (cfg : server_config_t) : list obj :=
  [program; lit0 "--port"; number_arg (port cfg); lit0 "--backlog"; number_arg (backlog cfg);
   lit0 "--timeout"; number_arg (client_timeout cfg); lit0 "--root"; document_root cfg ++ [NUL];
   lit0 "--http-buffer-size"; number_arg (http_buffer_size cfg);
   lit0 "--max-headers"; number_arg (http_max_headers cfg);
   lit0 "--header-name-max"; number_arg (http_header_name_max cfg);
   lit0 "--header-value-max"; number_arg (http_header_value_max cfg)].

Lemma digits_no_nul ds : Forall digit ds → NUL ∉ ds.
Proof. intros H Hin. rewrite Forall_forall in H. apply H in Hin. unfold digit in Hin. change (uchar NUL) with 0 in Hin. lia. Qed.

Lemma dec_spells n : 0 <= n → spells (dec n) false (dec n).
Proof.
  intros Hn. destruct (dec_spec n Hn) as (Hd & Hne & _). exists [], [].
  split_and!; try done; constructor.
Qed.

Lemma number_arg_string n : 0 <= n → cstr_of (number_arg n) = Some (dec n).
Proof. intros Hn. apply cstr_of_app, digits_no_nul. by apply dec_spec. Qed.

Lemma parse_int_arg n r : 0 < n <= INT_MAX → parse_positive_int (number_arg n) r ⇓ (0, n).
Proof.
  intros Hn. destruct (dec_spec n ltac:(lia)) as (_ & _ & Hv).
  destruct (returns_elim _ _ (parse_positive_int_spec _ _ (number_arg_string n ltac:(lia)) r))
    as ([c v] & -> & [[Hc (ds & Hsp & Hval & _)]|[_ Hno]]); simpl in *.
  - destruct (spells_inj _ _ _ _ _ Hsp (dec_spells n ltac:(lia))) as [_ ->].
    by rewrite Hc, Hval, Hv.
  - destruct (Hno n). exists (dec n). split; [apply dec_spells; lia|]. split; [done|lia].
Qed.

Lemma parse_size_arg n r : 0 < n < INT_MAX → parse_positive_size (number_arg n) r ⇓ (0, n).
Proof.
  intros Hn. destruct (dec_spec n ltac:(lia)) as (_ & _ & Hv).
  destruct (returns_elim _ _ (parse_positive_size_spec _ _ (number_arg_string n ltac:(lia)) r))
    as ([c v] & -> & [[Hc (neg & ds & Hsp & _ & Hval & _)]|[_ Hno]]); simpl in *.
  - destruct (spells_inj _ _ _ _ _ Hsp (dec_spells n ltac:(lia))) as [-> ->].
    by rewrite Hc, Hval, Hv.
  - destruct (Hno n). exists false, (dec n). rewrite Hv. unfold INT_MAX, ULLONG_MAX in *.
    split; [apply dec_spells; lia|]. split_and!; lia.
Qed.

(** Evaluate the comparisons of two literals. *)
Ltac eval_str_is :=
  repeat match goal with
  | |- context [str_is (lit0 ?a) ?b] =>
    let r := eval vm_compute in (str_is (lit0 a) b) in change (str_is (lit0 a) b) with r
  end; cbn [mbind outcome_bind].

Lemma config_step n argv i cfg cfg' :
  (i < length argv)%nat → config_option argv i cfg ⇓ (0, cfg') →
  config_parse_loop (S n) argv i cfg = config_parse_loop n argv (i + 2) cfg'.
Proof. intros Hi H. cbn [config_parse_loop]. by rewrite decide_True, H. Qed.

(** The option [k] at [i] with argument [o]. *)
Definition option_at (argv : list obj) (i : nat) (k : string) (o : obj) : Prop :=
  argv !! i = Some (lit0 k) ∧ argv !! (i + 1)%nat = Some o.

Lemma number_option_at parse argv i k o field r :
  option_at argv i k o → parse o field ⇓ r → number_option parse argv i field ⇓ r.
Proof.
  intros [_ Ho] Hp. pose proof (lookup_lt_Some _ _ _ Ho). unfold number_option, arg.
  rewrite decide_False by lia. by rewrite Ho.
Qed.

Ltac solve_option :=
  intros Hat Hv; unfold config_option;
  match goal with |- context [arg ?argv ?i] =>
    assert (arg argv i = Ret _) as -> by (unfold arg; by rewrite (proj1 Hat)) end;
  cbn [mbind outcome_bind]; eval_str_is;
  (rewrite (number_option_at _ _ _ _ _ _ _ Hat (parse_int_arg _ _ Hv)) ||
   rewrite (number_option_at _ _ _ _ _ _ _ Hat (parse_size_arg _ _ Hv))); reflexivity.

Section options_at.
Context (argv : list obj) (i : nat) (cfg : server_config_t) (v : Z).

Lemma port_option : option_at argv i "--port" (number_arg v) → 0 < v <= 65535 →
  config_option argv i cfg ⇓ (0, set_port v cfg).
Proof using Type.
  intros Hat Hv. assert (0 < v <= INT_MAX) as Hv' by (unfold INT_MAX; lia).
  unfold config_option. assert (arg argv i = Ret _) as -> by (unfold arg; by rewrite (proj1 Hat)).
  cbn [mbind outcome_bind]. eval_str_is.
  rewrite (number_option_at _ _ _ _ _ _ _ Hat (parse_int_arg _ _ Hv')).
  cbn [mbind outcome_bind Z.ltb Z.compare]. change (port (set_port v cfg)) with v.
  by rewrite (proj2 (Z.ltb_ge _ _)) by lia.
Qed.
Lemma backlog_option : option_at argv i "--backlog" (number_arg v) → 0 < v <= INT_MAX →
  config_option argv i cfg ⇓ (0, set_backlog v cfg).
Proof using Type. solve_option. Qed.
Lemma timeout_option : option_at argv i "--timeout" (number_arg v) → 0 < v <= INT_MAX →
  config_option argv i cfg ⇓ (0, set_timeout v cfg).
Proof using Type. solve_option. Qed.
Lemma buffer_option : option_at argv i "--http-buffer-size" (number_arg v) → 0 < v < INT_MAX →
  config_option argv i cfg ⇓ (0, set_buffer_size v cfg).
Proof using Type. solve_option. Qed.
Lemma headers_option : option_at argv i "--max-headers" (number_arg v) → 0 < v < INT_MAX →
  config_option argv i cfg ⇓ (0, set_max_headers v cfg).
Proof using Type. solve_option. Qed.
Lemma name_option : option_at argv i "--header-name-max" (number_arg v) → 0 < v < INT_MAX →
  config_option argv i cfg ⇓ (0, set_name_max v cfg).
Proof using Type. solve_option. Qed.
Lemma value_option : option_at argv i "--header-value-max" (number_arg v) → 0 < v < INT_MAX →
  config_option argv i cfg ⇓ (0, set_value_max v cfg).
Proof using Type. solve_option. Qed.
Lemma root_option root : option_at argv i "--root" (root ++ [NUL]) → NUL ∉ root →
  config_option argv i cfg ⇓ (0, set_root root cfg).
Proof using Type.
  intros [H1 H2] Hr. pose proof (lookup_lt_Some _ _ _ H2). unfold config_option, arg. rewrite H1.
  cbn [mbind outcome_bind]. eval_str_is. rewrite decide_False by lia. rewrite H2.
  cbn [mbind outcome_bind]. rewrite (c_string_at _ root); [|by apply cstr_of_app|lia]. by rewrite drop_0.
Qed.
End options_at.

(** ** Properties *)
(** C29: [parse_positive_int] accepts exactly the strings that are white space,
    an optional sign and digits up to the end, with a value in 1..INT_MAX, and
    stores that value; any other string leaves the result alone. *)
Theorem parse_positive_int_correct o s r0 :
  cstr_of o = Some s →
  ∃ code v, parse_positive_int o r0 ⇓ (code, v) ∧ (code = 0 ∨ code = -1) ∧
    (code = 0 ↔ ∃ w, int_value s w) ∧ (code = 0 → int_value s v) ∧ (code = -1 → v = r0).
Proof.
  intros Ho. destruct (returns_elim _ _ (parse_positive_int_spec o s Ho r0))
    as ([c v] & Hrun & [[Hc Hv]|[[= -> ->] Hno]]); simpl in *.
  - exists c, v. subst c. split_and!; try done; [by left|]. split; [by exists v|done].
  - exists (-1), r0. split_and!; try done; [by right|]. split; [done|]. intros [w Hw].
    by destruct (Hno w).
Qed.

Lemma parse_positive_int_correct_witness :
  ∃ code v, parse_positive_int (lit0 " +2147483647") 5 ⇓ (code, v) ∧ (code = 0 ∨ code = -1) ∧
    (code = 0 ↔ ∃ w, int_value (lit " +2147483647") w) ∧
    (code = 0 → int_value (lit " +2147483647") v) ∧ (code = -1 → v = 5).
Proof. apply (parse_positive_int_correct (lit0 " +2147483647") (lit " +2147483647") 5); reflexivity. Defined.

(** C30: [parse_positive_size] accepts exactly the spelled numbers whose
    magnitude fits 64 bits and whose value, reduced modulo 2^64 after a minus
    sign, is in 1..INT_MAX-1, and stores that value. *)
Theorem parse_positive_size_correct o s r0 :
  cstr_of o = Some s →
  ∃ code v, parse_positive_size o r0 ⇓ (code, v) ∧ (code = 0 ∨ code = -1) ∧
    (code = 0 ↔ ∃ w, size_value s w) ∧ (code = 0 → size_value s v) ∧ (code = -1 → v = r0).
Proof.
  intros Ho. destruct (returns_elim _ _ (parse_positive_size_spec o s Ho r0))
    as ([c v] & Hrun & [[Hc Hv]|[[= -> ->] Hno]]); simpl in *.
  - exists c, v. subst c. split_and!; try done; [by left|]. split; [by exists v|done].
  - exists (-1), r0. split_and!; try done; [by right|]. split; [done|]. intros [w Hw].
    by destruct (Hno w).
Qed.

Lemma parse_positive_size_correct_witness :
  ∃ code v, parse_positive_size (lit0 "-1") 5 ⇓ (code, v) ∧ (code = 0 ∨ code = -1) ∧
    (code = 0 ↔ ∃ w, size_value (lit "-1") w) ∧
    (code = 0 → size_value (lit "-1") v) ∧ (code = -1 → v = 5).
Proof. apply (parse_positive_size_correct (lit0 "-1") (lit "-1") 5); reflexivity. Defined.

(** The size options take a negative number: the text
    -18446744073709551615 is read as 1. *)
Theorem parse_positive_size_accepts_negative r0 :
  parse_positive_size (lit0 "-18446744073709551615") r0 ⇓ (0, 1) ∧
  parse_positive_int (lit0 "-18446744073709551615") r0 ⇓ (-1, r0).
Proof. split; reflexivity. Qed.

(** C21: on any argument vector the option loop ends without reading outside it,
    and when it succeeds every field is within its range. *)
Theorem config_parse_args_ranges c0 argv :
  Forall c_str argv →
  ∃ r cfg, config_parse_args (config_init c0) argv ⇓ (r, cfg) ∧
    (r = 0 ∧ config_ranges cfg ∨ r = -1).
Proof.
  intros Hargv.
  destruct (returns_elim _ _ (config_parse_loop_spec (S (length argv)) argv 1 (config_init c0)
    Hargv ltac:(lia) ltac:(lia) (config_init_ranges c0))) as ([r cfg] & Hrun & H).
  by exists r, cfg.
Qed.

Definition zero_config : server_config_t := ServerConfig 0 0 0 [] 0 0 0 0.
Definition sample_argv : list obj :=
  [lit0 "server"; lit0 "--port"; lit0 "80"; lit0 "--root"; lit0 "/srv"; lit0 "--timeout"].

Lemma config_parse_args_ranges_witness :
  ∃ r cfg, config_parse_args (config_init zero_config) sample_argv ⇓ (r, cfg) ∧
    (r = 0 ∧ config_ranges cfg ∨ r = -1).
Proof.
  apply (config_parse_args_ranges zero_config sample_argv).
  repeat (apply Forall_cons; split; [by eexists|]). done.
Defined.

(** C20: a configuration within its ranges, written as arguments, is read back. *)
Theorem config_parse_args_roundtrip program cfg c0 :
  config_ranges cfg →
  config_parse_args (config_init c0) (config_args program cfg) ⇓ (0, cfg).
Proof.
  intros [H1 H2 H3 H4 H5 H6 H7 H8]. unfold config_parse_args.
  change (S (length (config_args program cfg))) with 18%nat. unfold config_args.
  erewrite config_step; [|simpl; lia|by apply port_option; [split|exact H1]].
  erewrite config_step; [|simpl; lia|by apply backlog_option; [split|exact H2]].
  erewrite config_step; [|simpl; lia|by apply timeout_option; [split|exact H3]].
  erewrite config_step; [|simpl; lia|by apply root_option; [split|exact H4]].
  erewrite config_step; [|simpl; lia|by apply buffer_option; [split|exact H5]].
  erewrite config_step; [|simpl; lia|by apply headers_option; [split|exact H6]].
  erewrite config_step; [|simpl; lia|by apply name_option; [split|exact H7]].
  erewrite config_step; [|simpl; lia|by apply value_option; [split|exact H8]].
  by destruct cfg.
Qed.

Lemma config_parse_args_roundtrip_witness :
  config_parse_args (config_init zero_config)
    (config_args (lit0 "server") (ServerConfig 443 1 60 (lit "/www") 8192 10 64 1024))
    ⇓ (0, ServerConfig 443 1 60 (lit "/www") 8192 10 64 1024).
Proof.
  apply (config_parse_args_roundtrip (lit0 "server")
    (ServerConfig 443 1 60 (lit "/www") 8192 10 64 1024) zero_config).
  split; try (vm_compute; split_and!; done). decide_now.
Defined.
