(* ===== verification/HttpTheorems.v ===== *)
(** * What the HTTP layer guarantees

    The properties of [src/http.c] and [src/http_response.c], each with a concrete
    instance on the scripted kernel. *)
From S2P Require Import Prelude.
From S2P Require Import CLib.
From S2P Require Import Config.
From S2P Require Import ConfigArgs.
From S2P Require Import Kernel.
From S2P Require Import ScriptKernel.
From S2P Require Import HttpParse.
From S2P Require Import HttpGrammar.
From S2P Require Import HttpParseProofs.
From S2P Require Import GrammarFacts.
From S2P Require Import Mime.
From S2P Require Import Io.
From S2P Require Import HttpResponse.
From S2P Require Import HttpResponseProofs.
From S2P Require Import File.
From S2P Require Import HttpConnection.
From S2P Require Import Http.
From S2P Require Import HttpRules.
From S2P Require Import HttpProofs.
From S2P Require Import HttpProcess.

(** The limits are values of [size_t]. *)
Record size_t_limits (cfg : server_config_t) : Prop := {
  sl_headers : 0 <= http_max_headers cfg;
  sl_name : 0 <= http_header_name_max cfg;
  sl_value : 0 <= http_header_value_max cfg
}.

Lemma valid_limits cfg :
  size_t_limits cfg → http_config_valid (Some cfg) = true → limits_ok cfg.
Proof. intros [] H%http_config_valid_spec; [by apply H|done..]. Qed.

(** ** Concrete data *)
Definition default_config : server_config_t := config_init zero_config.
Lemma default_config_sizes : size_t_limits default_config.
Proof. by split. Qed.

Definition get_text : list byte :=
  lit "GET /a.txt HTTP/1.1" ++ CRLF ++ lit "Host: h" ++ CRLF ++ CRLF.
Definition head_index : list byte := lit "HEAD / HTTP/1.0" ++ CRLF ++ CRLF.
Definition pipeline : list byte := get_text ++ head_index ++ lit "GET".
Definition pipeline_connection : http_connection_t :=
  HttpConnection (Some (Block 7 (pipeline ++ junk 100))) (Z.of_nat (length pipeline))
    (Z.of_nat (length pipeline) + 100) 0 fresh_response.
Definition site_process : proc script := boot [inl 30; inr EINTR] [] sample_site.

Lemma pipeline_wf : wf_connection pipeline_connection.
Proof. split; [eexists; by split|split; vm_compute; discriminate|split; reflexivity]. Qed.

(** C7: [http_process_connection] answers the complete messages of the buffer
    in order, each with the answer the rules give it for what the file system
    says of its path, sends nothing else, and stops after an answer that closes
    the connection; otherwise what is left holds no complete message.  It always
    returns.  On success memory and descriptors are as before.  A failure, which
    a kernel that is reliable rules out, leaves a prefix of such answers on the
    wire.  The limits are ones the run-time check accepts. *)
Theorem http_process_connection_correct {W} `{K : Kernel W, HL : !KernelLaws W} (B : W → nat)
    fuel c client_fd root_fd cfg p :
  fair_budget B → size_t_limits cfg → http_config_valid (Some cfg) = true →
  wf_connection c → hc_close_connection c = 0 →
  400 + 2 * Z.of_nat (B (p_kernel p)) < Z.of_nat fuel →
  ∃ r c' p' l out, http_process_connection fuel (Some c) client_fd root_fd (Some cfg) p
      ⇓ ((r, Some c'), p') ∧ wf_connection c' ∧
    ((r = 0 ∧ ∃ closed, serves cfg root_fd (buffered c) l out (buffered c') closed ∧
       (closed = false → find_sub CRLF2 (buffered c') = None) ∧
       hc_close_connection c' = (if (closed : bool) then 1 else 0) ∧
       view p' = push_out client_fd out (log_files l (view p))) ∨
     (r = -1 ∧ faulty W ∧ serves_part cfg root_fd (buffered c) l out ∧
       kv_out (view p') = kv_out (view p) ++ (pair client_fd <$> out) ∧
       kv_files (view p') = kv_files (view p) ++ l)).
Proof.
  intros HB Hs Hvalid Hwf Hclose Hf. pose proof (valid_limits _ Hs Hvalid) as Hcfg.
  destruct (wp_elim _ _ _ (http_process_connection_spec False B cfg Hvalid Hcfg client_fd root_fd
    fuel c p Hwf Hclose ltac:(right; split; [done|lia]))) as ([r o] & p' & Hrun & c' & Ho & Hend).
  simpl in Ho, Hend. subst o. destruct Hend as (_ & Hwf' & _ & _ & Hend).
  destruct Hend as [(Hr & Hfa & l & out & Hpart & Hl & Hout & _)|(Hr & l & out & closed & Hsrv & Hv & Hcl)];
    cbn [fst snd] in *; exists r, c', p', l, out; (split; [done|]); (split; [done|]); [right|left].
  { by split_and!. }
  split; [done|]. exists closed. split_and!; try done. clear -Hsrv. by induction Hsrv.
Qed.

Lemma http_process_connection_correct_witness :
  ∃ r c' p' l out, http_process_connection 500 (Some pipeline_connection) 5 3 (Some default_config)
      site_process ⇓ ((r, Some c'), p') ∧ wf_connection c' ∧
    ((r = 0 ∧ ∃ closed, serves default_config 3 pipeline l out (buffered c') closed ∧
       (closed = false → find_sub CRLF2 (buffered c') = None) ∧
       hc_close_connection c' = (if (closed : bool) then 1 else 0) ∧
       view p' = push_out 5 out (log_files l (view site_process))) ∨
     (r = -1 ∧ faulty script ∧ serves_part default_config 3 pipeline l out ∧
       kv_out (view p') = kv_out (view site_process) ++ (pair 5 <$> out) ∧
       kv_files (view p') = kv_files (view site_process) ++ l)).
Proof.
  apply (http_process_connection_correct script_budget 500 pipeline_connection 5 3 default_config
    site_process); [exact script_fair|exact default_config_sizes|reflexivity|exact pipeline_wf|
    reflexivity|vm_compute; reflexivity].
Defined.

(** The two answers of the pipeline, and the three bytes left. *)
Example pipeline_run :
  match http_process_connection 500 (Some pipeline_connection) 5 3 (Some default_config)
          site_process with
  | Ret ((r, Some c), p) => r = 0 ∧ buffered c = lit "GET" ∧ hc_close_connection c = 1 ∧
      sent_on 5 (view p) =
        response_text 200 (lit "OK") (lit "text/plain") 4 (lit "keep-alive") ++ lit "text" ++
        response_text 200 (lit "OK") (lit "application/octet-stream") 11 (lit "close")
  | _ => False
  end.
Proof. vm_compute. done. Qed.

(** ** Responses *)
(** C14: sending a response resumes and delivers: what was sent and what is still
    to be sent always make what was to be sent.  On 0 nothing is left and the
    response is marked complete; on -1, which a reliable
    kernel rules out, it is ready to go on.  Memory,
    descriptors and input are untouched, and the call returns. *)
Theorem http_response_send_blocking_correct {W} `{K : Kernel W, HL : !KernelLaws W} (B : W → nat)
    fuel fd r p :
  fair_budget B → wf_response (view p) r → rs_complete r = 0 →
  Z.of_nat (B (p_kernel p)) + pending_size r < Z.of_nat fuel →
  ∃ c r' p' out, http_response_send_blocking fuel fd (Some r) p ⇓ ((c, Some r'), p') ∧
    wf_response (view p') r' ∧ view p' = push_out fd out (view p) ∧
    (c = 0 ∧ rs_complete r' = 1 ∧ out = pending (view p) r ∨
     c = -1 ∧ faulty W ∧ rs_complete r' = 0 ∧ out ++ pending (view p') r' = pending (view p) r).
Proof.
  intros HB Hwf Hc Hf.
  destruct (wp_elim _ _ _ (http_response_send_blocking_spec False B fuel fd r p Hwf Hc
    ltac:(by right))) as ([c o] & p' & Hrun & r1 & Hss & Hend).
  destruct (ss_bytes _ _ _ _ _ _ Hss) as (out & Hv & Hout).
  destruct (ss_flags _ _ _ _ _ _ Hss) as [_ Hcomp]. pose proof (ss_wf _ _ _ _ _ _ Hss) as Hwf1.
  destruct Hend as [[[= -> ->] Hdone]|[[= -> ->] Hfa]].
  - eexists 0, _, p', out. split; [done|]. split; [by destruct Hwf1|]. split; [done|left].
    split_and!; [done|done|]. by rewrite <- Hout, Hdone, app_nil_r.
  - eexists (-1), r1, p', out. split_and!; try done. right. by rewrite Hcomp.
Qed.

Definition sample_response : http_response_t :=
  HttpResponse (lit "head" ++ replicate 1020 NUL) 4 1 (Some (Block 9 (lit "body"))) 4 0 7 4 1 1 0.
Definition sending_process : proc script :=
  Proc 0 (with_view (KView [] [] {[7 := lit "text"]} {[9]} [])
    (p_kernel (boot [inl 2; inr EINTR; inl 1; inr 104] [] []))).
Lemma sample_response_wf : wf_response (view sending_process) sample_response.
Proof.
  split; try (vm_compute; split_and!; done); [reflexivity|].
  intros _. split; [by eexists|vm_compute; split_and!; discriminate].
Qed.

Lemma http_response_send_blocking_correct_witness :
  ∃ c r' p' out, http_response_send_blocking 40 5 (Some sample_response) sending_process
      ⇓ ((c, Some r'), p') ∧
    wf_response (view p') r' ∧ view p' = push_out 5 out (view sending_process) ∧
    (c = 0 ∧ rs_complete r' = 1 ∧ out = pending (view sending_process) sample_response ∨
     c = -1 ∧ faulty script ∧ rs_complete r' = 0 ∧
       out ++ pending (view p') r' = pending (view sending_process) sample_response).
Proof.
  apply (http_response_send_blocking_correct script_budget 40 5 sample_response sending_process);
    [exact script_fair|exact sample_response_wf|reflexivity|vm_compute; reflexivity].
Defined.

(** C23: the header block is exactly the status line and the three fields, it
    fits its buffer for every status, media type and length the server uses,
    and read with the request grammar it gives back the fields, the length as a
    decimal number, with the body right after the first empty line. *)
Theorem http_build_response_headers_correct b cfg status reason content_type n keep_alive body :
  length b = 1024%nat → reader_limits cfg → header_args status reason content_type n →
  let text := response_text status reason content_type n (connection_option keep_alive) in
  http_build_response_headers (Some b) HTTP_RESPONSE_HEADER_MAX status (Some content_type) n keep_alive
    ⇓ (Z.of_nat (length text), Some (put_string b text)) ∧
  dec_value (dec n) = n ∧
  ∃ i, find_sub CRLF (text ++ body) = Some i ∧ take i (text ++ body) = status_line status reason ∧
    parse_fields cfg 0 (drop (i + 2) (text ++ body)) (response_fields content_type n keep_alive)
      HTTP_PARSE_OK (CRLF ++ body).
Proof.
  intros Hb Hl Ha text. split_and!; [by apply http_build_response_headers_fits| |].
  - apply dec_spec, Ha.
  - by apply response_text_read.
Qed.

Lemma http_build_response_headers_correct_witness :
  http_build_response_headers (Some (junk 1024)) HTTP_RESPONSE_HEADER_MAX 200 (Some (lit "text/css"))
      4096 1
    ⇓ (Z.of_nat (length (response_text 200 (lit "OK") (lit "text/css") 4096 (lit "keep-alive"))),
       Some (put_string (junk 1024)
               (response_text 200 (lit "OK") (lit "text/css") 4096 (lit "keep-alive")))).
Proof.
  apply (http_build_response_headers_correct (junk 1024) default_config 200 (lit "OK")
    (lit "text/css") 4096 1 []); [reflexivity|by split|].
  split; [lia|reflexivity|decide_now|vm_compute; lia|lia].
Defined.

(** C22: an error response is the page of its status, or the message given, with
    its length, and closes the connection.  The block it replaces is freed; if
    there is no memory nothing changes and -1 is returned. *)
Theorem http_response_prepare_error_correct {W} `{K : Kernel W, HL : !KernelLaws W}
    r status message body p :
  length (rs_headers r) = 1024%nat → rs_file_fd r = -1 → owned_blocks r ⊆ kv_heap (view p) →
  error_body status message body → Z.of_nat (length body) < 2 ^ 63 →
  ∃ c r' p', http_response_prepare_error (Some r) status message p ⇓ ((c, Some r'), p') ∧
    (c = -1 ∧ r' = r ∧ view p' = view p ∧ (body ≠ [] → faulty W) ∨
     c = 0 ∧ ∃ reason, http_status_reason status = Some reason ∧
       ready (view p') r' (error_text status reason body) ∧ ¬ owned_blocks r' ⊆ kv_heap (view p) ∧
       view p' = set_heap ((kv_heap (view p) ∖ owned_blocks r) ∪ owned_blocks r') (view p)).
Proof.
  intros Hh Hfd Hown Hbody Hlen.
  enough (wp (http_response_prepare_error (Some r) status message) (λ res p', ∃ r', res.2 = Some r' ∧
    (res.1 = -1 ∧ r' = r ∧ view p' = view p ∧ (body ≠ [] → faulty W) ∨
     res.1 = 0 ∧ ∃ reason, http_status_reason status = Some reason ∧
       ready (view p') r' (error_text status reason body) ∧ ¬ owned_blocks r' ⊆ kv_heap (view p) ∧
       view p' = set_heap ((kv_heap (view p) ∖ owned_blocks r) ∪ owned_blocks r') (view p))) p) as H.
  { apply wp_elim in H as ([c o] & p' & Hrun & r' & Ho & H). simpl in *. subst o. eauto. }
  apply (http_response_prepare_error_spec False (λ _, O) r status message body); [done..| |].
  - intros p1 Hv _ Hfa. exists r. split; [done|]. by left.
  - intros id reason p1 Hid _ Hv Ha. eexists. split; [done|right]. split; [done|].
    assert (owned_blocks r ⊆ kv_heap (view p) → id ∉ owned_blocks r) as Hnid by set_solver.
    destruct (error_response_ready (view p1) r status reason body id) as (Hwf & Hc & Hp & _);
      [done|done|rewrite Hv; simpl; set_solver|done|].
    exists reason. split_and!; [apply Ha|by split| |].
    + unfold owned_blocks. simpl. set_solver.
    + rewrite Hv. f_equal. unfold owned_blocks in *. simpl. set_solver.
Qed.

Lemma http_response_prepare_error_correct_witness :
  ∃ c r' p', http_response_prepare_error (Some fresh_response) 400 (Some (lit0 "no"))
      (boot [] [] []) ⇓ ((c, Some r'), p') ∧
    (c = -1 ∧ r' = fresh_response ∧ view p' = view (boot [] [] []) ∧
       (lit "no" ≠ [] → faulty script) ∨
     c = 0 ∧ ∃ reason, http_status_reason 400 = Some reason ∧
       ready (view p') r' (error_text 400 reason (lit "no")) ∧ 
       ¬ owned_blocks r' ⊆ kv_heap (view (boot [] [] [])) ∧
       view p' = set_heap ((kv_heap (view (boot [] [] [])) ∖ owned_blocks fresh_response)
                             ∪ owned_blocks r') (view (boot [] [] []))).
Proof.
  apply (http_response_prepare_error_correct fresh_response 400 (Some (lit0 "no")) (lit "no")
    (boot [] [] [])); [reflexivity|reflexivity|set_solver|split; [by eexists|reflexivity]|reflexivity].
Defined.

(** C9: [http_prepare_response] turns a message into the response the rules give
    it for what the file system says of its path, ready to be sent, and acquires
    exactly what that response owns; it returns -1 only when memory is short,
    and then acquires nothing.  The limits are ones the run-time check accepts. *)
Theorem http_prepare_response_correct {W} `{K : Kernel W, HL : !KernelLaws W}
    cfg root_fd msg buffer n r0 p :
  size_t_limits cfg → http_config_valid (Some cfg) = true →
  0 <= n <= Z.of_nat (length buffer) → n < 2 ^ 63 →
  cstr_of (take (Z.to_nat n) buffer ++ [NUL]) = Some msg →
  ∃ c r' close p', http_prepare_response (Some buffer) n (Some r0) (Some 0) root_fd (Some cfg) p
      ⇓ ((c, Some r', Some close), p') ∧
    (c = -1 ∧ looked_up root_fd (view p) (view p') ∧ faulty W ∨
     c = 0 ∧ ∃ l text closes, answer cfg root_fd msg l text closes ∧
       close = (if (closes : bool) then 1 else 0) ∧
       ready (view p') r' text ∧ acquired l (view p) (view p') r').
Proof.
  intros Hs Hvalid Hn H63 Hmsg. pose proof (valid_limits _ Hs Hvalid) as Hcfg.
  destruct (wp_elim _ _ _ (http_prepare_response_spec False (λ _, O) cfg root_fd msg buffer n r0 p
    Hn H63 Hvalid Hcfg Hmsg)) as (res & p' & Hrun & _ & c & r' & cl & -> & Hend).
  exists c, r', cl, p'. split; [done|].
  destruct Hend as [?|(? & l & text & closes & ? & ? & ? & ? & _)]; [by left|right]. eauto 10.
Qed.

Lemma http_prepare_response_correct_witness :
  ∃ c r' close p', http_prepare_response (Some pipeline) (Z.of_nat (length get_text))
      (Some fresh_response) (Some 0) 3 (Some default_config) site_process
      ⇓ ((c, Some r', Some close), p') ∧
    (c = -1 ∧ looked_up 3 (view site_process) (view p') ∧ faulty script ∨
     c = 0 ∧ ∃ l text closes, answer default_config 3 get_text l text closes ∧
       close = (if (closes : bool) then 1 else 0) ∧
       ready (view p') r' text ∧ acquired l (view site_process) (view p') r').
Proof.
  apply (http_prepare_response_correct default_config 3 get_text pipeline
    (Z.of_nat (length get_text)) fresh_response site_process);
    [exact default_config_sizes|reflexivity|vm_compute; split; discriminate|reflexivity|reflexivity].
Defined.

(** C39: an error page sent directly is the page of its status with its length, in
    order and each byte once; on -1 what was sent is a part of it.  The call
    returns, and a status without a page sends nothing. *)
Theorem http_send_error_correct {W} `{K : Kernel W, HL : !KernelLaws W} (B : W → nat)
    fuel fd status keep_alive p :
  fair_budget B → Z.of_nat (B (p_kernel p)) + 250 < Z.of_nat fuel →
  ∃ r p' out, http_send_error fuel fd status keep_alive p ⇓ (r, p') ∧ view p' = push_out fd out (view p) ∧
    match http_error_page status with
    | None => r = -1 ∧ out = []
    | Some page => ∃ reason, http_status_reason status = Some reason ∧
        let text := response_text status reason (lit "text/html") (Z.of_nat (length page))
                      (connection_option keep_alive) ++ page in
        r = 0 ∧ out = text ∨ r = -1 ∧ out `prefix_of` text ∧ faulty W
    end.
Proof.
  intros HB Hf. destruct (http_error_page status) as [page|] eqn:Hpage.
  - destruct (http_send_error_spec False B fuel fd status page keep_alive p Hpage) as (reason & Hr & H).
    { by right. }
    apply wp_elim in H as (r & p' & Hrun & _ & out & Hv & Hout). exists r, p', out.
    split_and!; [done|done|]. by exists reason.
  - exists (-1), p, []. rewrite push_out_nil. split_and!; try done.
    unfold http_send_error. by rewrite Hpage.
Qed.

Lemma http_send_error_correct_witness :
  ∃ r p' out, http_send_error 300 5 431 0 (boot [inl 5; inr EINTR] [] []) ⇓ (r, p') ∧
    view p' = push_out 5 out (view (boot [inl 5; inr EINTR] [] [])) ∧
    match http_error_page 431 with
    | None => r = -1 ∧ out = []
    | Some page => ∃ reason, http_status_reason 431 = Some reason ∧
        let text := response_text 431 reason (lit "text/html") (Z.of_nat (length page))
                      (connection_option 0) ++ page in
        r = 0 ∧ out = text ∨ r = -1 ∧ out `prefix_of` text ∧ faulty script
    end.
Proof.
  apply (http_send_error_correct script_budget 300 5 431 0 (boot [inl 5; inr EINTR] [] []));
    [exact script_fair|vm_compute; reflexivity].
Defined.

(** C40: a 400 page with a message is sent only when it fits the 512 bytes of its
    buffer, and then in full or in part as above; otherwise nothing is sent and
    -1 is returned.  The buffer is never overrun, whatever the message. *)
Theorem http_send_bad_request_message_correct {W} `{K : Kernel W, HL : !KernelLaws W} (B : W → nat)
    fuel fd message s p :
  fair_budget B → cstr_of message = Some s → Z.of_nat (B (p_kernel p)) + 512 < Z.of_nat fuel →
  let body := lit "<html><body><h1>400 Bad Request</h1><p>" ++ s ++ lit "</p></body></html>" in
  let text := error_text 400 (lit "Bad Request") body in
  ∃ r p' out, http_send_bad_request_message fuel fd message p ⇓ (r, p') ∧
    view p' = push_out fd out (view p) ∧
    (r = 0 ∧ (length body < 512)%nat ∧ out = text ∨
     r = -1 ∧ (length body < 512)%nat ∧ out `prefix_of` text ∧ faulty W ∨
     r = -1 ∧ (512 <= length body)%nat ∧ out = []).
Proof.
  intros HB Hs Hf body text.
  pose proof (http_send_bad_request_message_spec False B fuel fd message s p Hs ltac:(by right)) as H.
  cbv zeta in H. fold body in H. clearbody body.
  apply wp_elim in H as (r & p' & Hrun & H). case_decide as Hlen.
  - destruct H as (_ & out & Hv & Hout). exists r, p', out. split_and!; [done|done|]. naive_solver.
  - destruct H as [-> ->]. exists (-1), p, []. rewrite push_out_nil. split_and!; [done|done|].
    right; right. split_and!; [done|lia|done].
Qed.

Lemma http_send_bad_request_message_correct_witness :
  let body := lit "<html><body><h1>400 Bad Request</h1><p>" ++ lit "why" ++ lit "</p></body></html>" in
  let text := error_text 400 (lit "Bad Request") body in
  ∃ r p' out, http_send_bad_request_message 700 5 (lit0 "why") (boot [inl 5; inr 104] [] []) ⇓ (r, p') ∧
    view p' = push_out 5 out (view (boot [inl 5; inr 104] [] [])) ∧
    (r = 0 ∧ (length body < 512)%nat ∧ out = text ∨
     r = -1 ∧ (length body < 512)%nat ∧ out `prefix_of` text ∧ faulty script ∨
     r = -1 ∧ (512 <= length body)%nat ∧ out = []).
Proof.
  apply (http_send_bad_request_message_correct script_budget 700 5 (lit0 "why") (lit "why")
    (boot [inl 5; inr 104] [] [])); [exact script_fair|reflexivity|vm_compute; reflexivity].
Defined.

(** ** Validation of a request *)
(** A request in memory with the given fields. *)
Definition stored_request (method version : list byte) (fs : list field) : http_request_t :=
  HttpRequest (method ++ [NUL]) (lit0 "/") [NUL] (version ++ [NUL])
    ((λ f : field, HttpHeader (f.1 ++ [NUL]) (f.2 ++ [NUL])) <$> fs) (Z.of_nat (length fs)).

Lemma stored_request_fields method version fs :
  Forall (λ f : field, (NUL ∉ f.1) ∧ (NUL ∉ f.2)) fs →
  fields_stored (stored_request method version fs) fs.
Proof.
  intros H. split; [done|]. simpl. rewrite take_ge by (by rewrite length_fmap).
  induction H as [|f fs [H1 H2] _ IH]; [constructor|]. rewrite fmap_cons. constructor; [|done].
  split; by apply cstr_of_app.
Qed.

(** C17: request framing.  A request is accepted exactly when it has no
    Transfer-Encoding and either no Content-Length, or a single one that, but
    for trailing white space, is a non-empty string of digits worth zero;
    otherwise -1 is returned with a reason. *)
Theorem http_validate_request_framing_correct r fs reason :
  fields_stored r fs →
  ∃ code reason', http_validate_request_framing r reason ⇓ (code, reason') ∧
    (code = 0 ∧ reason' = reason ∨ code = -1 ∧ is_Some reason') ∧
    (code = 0 ↔ field_values (lit "Transfer-Encoding") fs = [] ∧
       (field_values (lit "Content-Length") fs = [] ∨
        ∃ v, field_values (lit "Content-Length") fs = [v] ∧ rtrim v ≠ [] ∧
             Forall digit (rtrim v) ∧ dec_value (rtrim v) = 0)).
Proof.
  intros Hfs. rewrite (http_validate_request_framing_spec r fs reason Hfs).
  assert (framing_error fs = None ↔ field_values (lit "Transfer-Encoding") fs = [] ∧
    (field_values (lit "Content-Length") fs = [] ∨
     ∃ v, field_values (lit "Content-Length") fs = [v] ∧ rtrim v ≠ [] ∧
          Forall digit (rtrim v) ∧ dec_value (rtrim v) = 0)) as Hiff.
  { unfold framing_error.
    destruct (field_values (lit "Content-Length") fs) as [|v [|v2 vs]]; [| |naive_solver];
      (destruct (decide (field_values (lit "Transfer-Encoding") fs ≠ [])) as [Ht|Ht];
       [naive_solver|apply dec_stable in Ht]); [naive_solver|].
    unfold length_error. destruct (decide (rtrim v = [] ∨ _)) as [Hbad|Hgood].
    - split; [done|]. intros [_ [?|(w & [= <-] & Hne & Hd & Hz)]]; [done|].
      unfold ULLONG_MAX in Hbad. destruct Hbad as [?|[?|?]]; [done|done|lia].
    - destruct (decide (dec_value (rtrim v) = 0)) as [Hz|Hz]; [|naive_solver].
      split; [|done]. intros _. split; [done|right]. exists v. split_and!; try done.
      + intros ?. apply Hgood. by left.
      + destruct (decide (Forall digit (rtrim v))); [done|]. exfalso. apply Hgood. right. by left. }
  destruct (framing_error fs) as [e|]; eexists _, _; (split; [done|]).
  - split; [right; split; [done|by eexists]|]. split; [done|]. intros H%Hiff. done.
  - split; [by left|]. tauto.
Qed.

Definition zero_length_fields : list field :=
  [(lit "Host", lit "h"); (lit "content-LENGTH", lit "00 ")].

Lemma http_validate_request_framing_correct_witness :
  ∃ code reason', http_validate_request_framing
      (stored_request (lit "GET") (lit "HTTP/1.1") zero_length_fields) None ⇓ (code, reason') ∧
    (code = 0 ∧ reason' = None ∨ code = -1 ∧ is_Some reason') ∧
    (code = 0 ↔ field_values (lit "Transfer-Encoding") zero_length_fields = [] ∧
       (field_values (lit "Content-Length") zero_length_fields = [] ∨
        ∃ v, field_values (lit "Content-Length") zero_length_fields = [v] ∧ rtrim v ≠ [] ∧
             Forall digit (rtrim v) ∧ dec_value (rtrim v) = 0)).
Proof.
  apply (http_validate_request_framing_correct
    (stored_request (lit "GET") (lit "HTTP/1.1") zero_length_fields) zero_length_fields None).
  apply stored_request_fields. decide_now.
Defined.

(** C18: Content-Length never overflows.  Accumulating the first [n] characters
    of a value in 64 bits gives their value as a decimal number exactly when
    they are digits and the value fits; nothing wraps around. *)
Theorem content_length_digits_exact o s n :
  cstr_of o = Some s → (n <= length s)%nat →
  ∃ res, content_length_digits n o 0 0 ⇓ res ∧
    ∀ v, res = Some v ↔
      Forall digit (take n s) ∧ v = dec_value (take n s) ∧ dec_value (take n s) < 2 ^ 64.
Proof.
  intros Ho Hn. eexists. split.
  { apply (content_length_digits_spec o s Ho n 0 0); [lia|unfold ULLONG_MAX; lia]. }
  intros v. rewrite drop_0. change (dec_from 0 ?w) with (dec_value w). unfold ULLONG_MAX.
  destruct (decide (Forall digit (take n s) ∧ _)) as [[H1 H2]|Hno].
  - split; [intros [= <-]; split_and!; [done|done|lia]|intros (_ & -> & _); done].
  - split; [done|]. intros (H1 & _ & H2). exfalso. apply Hno. split; [done|lia].
Qed.

Lemma content_length_digits_exact_witness :
  ∃ res, content_length_digits 20 (lit0 "18446744073709551616") 0 0 ⇓ res ∧
    ∀ v, res = Some v ↔
      Forall digit (take 20 (lit "18446744073709551616")) ∧
      v = dec_value (take 20 (lit "18446744073709551616")) ∧
      dec_value (take 20 (lit "18446744073709551616")) < 2 ^ 64.
Proof.
  apply (content_length_digits_exact (lit0 "18446744073709551616") (lit "18446744073709551616") 20);
    [reflexivity|simpl; lia].
Defined.

(** What is wrong with the framing of a request, from the values of its
    Content-Length and Transfer-Encoding fields; the cases exclude each other. *)
Inductive framing_rule (lengths encodings : list (list byte)) : option (list byte) → Prop :=
  | framing_duplicate :
      (2 <= length lengths)%nat →
      framing_rule lengths encodings (Some (lit "Duplicate Content-Length headers are not supported"))
  | framing_encoding :
      (length lengths <= 1)%nat → encodings ≠ [] →
      framing_rule lengths encodings (Some (lit "Transfer-Encoding is not supported"))
  | framing_invalid v :
      lengths = [v] → encodings = [] →
      rtrim v = [] ∨ ¬ Forall digit (rtrim v) ∨ 2 ^ 64 <= dec_value (rtrim v) →
      framing_rule lengths encodings (Some (lit "Invalid Content-Length"))
  | framing_body v :
      lengths = [v] → encodings = [] → rtrim v ≠ [] → Forall digit (rtrim v) →
      dec_value (rtrim v) ≠ 0 → dec_value (rtrim v) < 2 ^ 64 →
      framing_rule lengths encodings (Some (lit "Request bodies are not supported"))
  | framing_zero v :
      lengths = [v] → encodings = [] → rtrim v ≠ [] → Forall digit (rtrim v) →
      dec_value (rtrim v) = 0 → framing_rule lengths encodings None
  | framing_absent :
      lengths = [] → encodings = [] → framing_rule lengths encodings None.

(** The outcome of the checks of a request: [None] to serve it, or the status and
    the message of its refusal, where [None] is the page of the status. *)
Inductive check_rule (rq : request) : option (Z * option (list byte)) → Prop :=
  | rule_method :
      rq_method rq ≠ lit "GET" → rq_method rq ≠ lit "HEAD" → check_rule rq (Some (405, None))
  | rule_host :
      rq_method rq = lit "GET" ∨ rq_method rq = lit "HEAD" → rq_version rq = lit "HTTP/1.1" →
      length (field_values (lit "Host") (rq_fields rq)) ≠ 1%nat → check_rule rq (Some (400, None))
  | rule_framing reason :
      rq_method rq = lit "GET" ∨ rq_method rq = lit "HEAD" →
      (rq_version rq = lit "HTTP/1.1" → length (field_values (lit "Host") (rq_fields rq)) = 1%nat) →
      framing_rule (field_values (lit "Content-Length") (rq_fields rq))
        (field_values (lit "Transfer-Encoding") (rq_fields rq)) reason →
      check_rule rq ((λ m, (400, Some m)) <$> reason).

Lemma framing_error_rule fs :
  framing_rule (field_values (lit "Content-Length") fs) (field_values (lit "Transfer-Encoding") fs)
    (framing_error fs).
Proof.
  unfold framing_error. set (encodings := field_values (lit "Transfer-Encoding") fs). clearbody encodings.
  destruct (field_values (lit "Content-Length") fs) as [|v [|v2 vs]].
  3:{ apply framing_duplicate. simpl. lia. }
  all: destruct (decide (encodings ≠ [])) as [He|He]; [by apply framing_encoding; [simpl; lia|]|];
    apply dec_stable in He.
  { by apply framing_absent. }
  unfold length_error. destruct (decide (rtrim v = [] ∨ _)) as [Hbad|Hgood].
  { apply (framing_invalid _ _ v); [done|done|]. unfold ULLONG_MAX in Hbad.
    destruct Hbad as [?|[?|?]]; [by left|by right; left|right; right; lia]. }
  assert (rtrim v ≠ [] ∧ Forall digit (rtrim v) ∧ dec_value (rtrim v) < 2 ^ 64) as (Hne & Hd & Hlt).
  { unfold ULLONG_MAX in Hgood. split_and!; [tauto|apply dec_stable; tauto|lia]. }
  case_decide as Hz; [by apply (framing_zero _ _ v)|by apply (framing_body _ _ v)].
Qed.

Lemma judge_rule rq : check_rule rq (judge rq).
Proof.
  unfold judge. destruct (decide (rq_method rq ≠ _ ∧ _)) as [[H1 H2]|Hm]; [by apply rule_method|].
  assert (rq_method rq = lit "GET" ∨ rq_method rq = lit "HEAD") as Hok
    by (destruct (decide (rq_method rq = lit "GET")), (decide (rq_method rq = lit "HEAD")); tauto).
  destruct (decide (rq_version rq = _ ∧ _)) as [[H1 H2]|Hv]; [by apply rule_host|].
  replace (match framing_error _ with Some _ => _ | None => None end)
    with ((λ m, (400, Some m)) <$> framing_error (rq_fields rq)) by by destruct (framing_error _).
  apply rule_framing; [done| |apply framing_error_rule]. intros. apply dec_stable. tauto.
Qed.

(** C16: the checks on a parsed request let it through exactly when its method is
    GET or HEAD, an HTTP/1.1 request has exactly one Host (in any case), and
    its framing is acceptable; otherwise the status is 405 for the method and
    400 for the rest, with the page of the status for its body, or for bad
    framing the message that names the fault. *)
Theorem http_check_request_correct r rq :
  denotes r rq → (length (rq_fields rq) <= 64)%nat →
  ∃ res, http_check_request r ⇓ res ∧ check_rule rq res ∧
    (res = None ↔ (rq_method rq = lit "GET" ∨ rq_method rq = lit "HEAD") ∧
       (rq_version rq = lit "HTTP/1.1" → length (field_values (lit "Host") (rq_fields rq)) = 1%nat) ∧
       framing_error (rq_fields rq) = None) ∧
    (∀ status message, res = Some (status, message) →
       status = if decide (rq_method rq = lit "GET" ∨ rq_method rq = lit "HEAD") then 400 else 405).
Proof.
  intros Hd Hn. exists (judge rq). split; [by apply http_check_request_spec|].
  split; [apply judge_rule|]. unfold judge.
  destruct (decide (rq_method rq ≠ _ ∧ _)) as [[H1 H2]|Hm].
  { split; [naive_solver|]. intros status message [= <- <-]. by rewrite decide_False by tauto. }
  assert (rq_method rq = lit "GET" ∨ rq_method rq = lit "HEAD") as Hok
    by (destruct (decide (rq_method rq = lit "GET")), (decide (rq_method rq = lit "HEAD")); tauto).
  destruct (decide (rq_version rq = _ ∧ _)) as [[H1 H2]|Hv].
  { split; [naive_solver|]. intros status message [= <- <-]. by rewrite decide_True by tauto. }
  assert (rq_version rq = lit "HTTP/1.1" → length (field_values (lit "Host") (rq_fields rq)) = 1%nat)
    as Hhost by (intros; apply dec_stable; tauto).
  destruct (framing_error (rq_fields rq)); [|naive_solver].
  split; [naive_solver|]. intros status message [= <- <-]. by rewrite decide_True by tauto.
Qed.

Definition two_hosts : request :=
  Request (lit "GET") (lit "/") [] (lit "HTTP/1.1") [(lit "Host", lit "a"); (lit "HOST", lit "b")].

Lemma two_hosts_denotes : denotes (stored_request (lit "GET") (lit "HTTP/1.1") (rq_fields two_hosts)) two_hosts.
Proof. split_and!; try reflexivity. apply stored_request_fields. decide_now. Qed.

Lemma http_check_request_correct_witness :
  ∃ res, http_check_request (stored_request (lit "GET") (lit "HTTP/1.1") (rq_fields two_hosts)) ⇓ res ∧
    check_rule two_hosts res ∧
    (res = None ↔ (rq_method two_hosts = lit "GET" ∨ rq_method two_hosts = lit "HEAD") ∧
       (rq_version two_hosts = lit "HTTP/1.1" →
          length (field_values (lit "Host") (rq_fields two_hosts)) = 1%nat) ∧
       framing_error (rq_fields two_hosts) = None) ∧
    (∀ status message, res = Some (status, message) →
       status = if decide (rq_method two_hosts = lit "GET" ∨ rq_method two_hosts = lit "HEAD")
                then 400 else 405).
Proof. apply http_check_request_correct; [exact two_hosts_denotes|simpl; lia]. Defined.

(** The run-time check of the configuration accepts exactly the
    configurations with a buffer and with limits that fit the arrays of a
    request. *)
Theorem http_config_valid_correct cfg :
  size_t_limits cfg →
  http_config_valid (Some cfg) = true ↔
  http_buffer_size cfg ≠ 0 ∧ 0 < http_max_headers cfg <= 64 ∧
  0 < http_header_name_max cfg <= 128 ∧ 0 < http_header_value_max cfg <= 4096.
Proof.
  intros []. rewrite http_config_valid_spec by done. split.
  - intros [? []]. done.
  - intros (? & ? & ? & ?). split; [done|]. by constructor.
Qed.

Lemma http_config_valid_correct_witness :
  http_config_valid (Some default_config) = true ↔
  http_buffer_size default_config ≠ 0 ∧ 0 < http_max_headers default_config <= 64 ∧
  0 < http_header_name_max default_config <= 128 ∧
  0 < http_header_value_max default_config <= 4096.
Proof. apply (http_config_valid_correct default_config). by split. Defined.

(** C28: the connection is closed after an HTTP/1.0 request and after one whose
    first Connection field is "close" in any case; otherwise the flag keeps its
    value. *)
Theorem http_connection_close_correct r rq c :
  denotes r rq →
  ∃ c', http_connection_close r c ⇓ c' ∧
    (rq_version rq = lit "HTTP/1.0" → c' = 1) ∧
    (∀ v, field_value (lit "Connection") (rq_fields rq) = Some v → ci_eq v (lit "close") → c' = 1) ∧
    (rq_version rq ≠ lit "HTTP/1.0" →
     (∀ v, field_value (lit "Connection") (rq_fields rq) = Some v → ¬ ci_eq v (lit "close")) →
     c' = c).
Proof.
  intros Hd. exists (if decide (wants_close rq) then 1 else c).
  split; [by apply http_connection_close_spec|].
  destruct (decide (wants_close rq)) as [Hw|Hw]; split_and!; try done; unfold wants_close in Hw.
  - intros Hv Hc. destruct Hw as [?|Hw]; [done|].
    destruct (field_value (lit "Connection") (rq_fields rq)) as [v|]; [|done].
    by destruct (Hc v).
  - intros Hv. tauto.
  - intros v Hv Hc. exfalso. apply Hw. right. by rewrite Hv.
Qed.

Lemma http_connection_close_correct_witness :
  ∃ c', http_connection_close (stored_request (lit "GET") (lit "HTTP/1.1") (rq_fields two_hosts)) 0 ⇓ c' ∧
    (rq_version two_hosts = lit "HTTP/1.0" → c' = 1) ∧
    (∀ v, field_value (lit "Connection") (rq_fields two_hosts) = Some v →
       ci_eq v (lit "close") → c' = 1) ∧
    (rq_version two_hosts ≠ lit "HTTP/1.0" →
     (∀ v, field_value (lit "Connection") (rq_fields two_hosts) = Some v → ¬ ci_eq v (lit "close")) →
     c' = 0).
Proof. apply http_connection_close_correct. exact two_hosts_denotes. Defined.

(** C37: the command line accepts limits that the server then refuses on every
    connection: more headers than the request array holds, or longer names or
    values. *)
Theorem accepted_limits_refused c0 n :
  64 < n < INT_MAX → 
  ∃ cfg, config_parse_args (config_init c0) [lit0 "server"; lit0 "--max-headers"; number_arg n]
           ⇓ (0, cfg) ∧ http_max_headers cfg = n ∧ http_config_valid (Some cfg) = false.
Proof.
  intros Hn. exists (set_max_headers n (config_init c0)). split_and!; [|done|].
  - unfold config_parse_args. change (S (length _)) with 4%nat.
    erewrite config_step; [|simpl; lia|by apply (headers_option _ _ _ n); [split|lia]]. done.
  - apply not_true_is_false. intros [_ [[_ H] _ _]]%http_config_valid_spec; try done; simpl in *.
    + change HTTP_MAX_HEADERS with 64 in H. lia.
    + lia.
Qed.

Lemma accepted_limits_refused_witness :
  ∃ cfg, config_parse_args (config_init zero_config)
           [lit0 "server"; lit0 "--max-headers"; number_arg 100] ⇓ (0, cfg) ∧
    http_max_headers cfg = 100 ∧ http_config_valid (Some cfg) = false.
Proof. apply (accepted_limits_refused zero_config 100). unfold INT_MAX. lia. Defined.
