(* ===== verification/Determinism.v ===== *)
(** * The answers are a function of the input

    The relations that specify a connection determine its output: given the bytes
    received and what the file system said, there is one sequence of answers.
    What the file system said of one path ends where the path's lookup ends, so
    that the answers of a connection can be told apart. *)
From S2P Require Import Prelude.
From S2P Require Import CLib.
From S2P Require Import Config.
From S2P Require Import Kernel.
From S2P Require Import HttpParse.
From S2P Require Import HttpGrammar.
From S2P Require Import GrammarFacts.
From S2P Require Import HttpResponse.
From S2P Require Import File.
From S2P Require Import HttpRules.
From S2P Require Import HttpProofs.
From S2P Require Import HttpProcess.

(** ** Lookups *)
Lemma index_lookup_prefix fd l r x l' r' x' :
  index_lookup fd l r → index_lookup fd l' r' → l ++ x = l' ++ x' → l = l' ∧ r = r'.
Proof.
  intros H H' Heq. inversion H; subst; inversion H'; subst; simplify_eq/=; try done; congruence.
Qed.

Lemma path_lookup_prefix root s l r x l' r' x' :
  path_lookup root s l r → path_lookup root s l' r' → l ++ x = l' ++ x' → l = l' ∧ r = r'.
Proof.
  intros H H' Heq. inversion H; subst; inversion H'; subst; simplify_eq/=; try done; try congruence.
  match goal with Hi : index_lookup ?fd ?l r, Hi' : index_lookup ?fd ?l' r' |- _ =>
    by destruct (index_lookup_prefix fd l r x l' r' x' Hi Hi') as [-> ->] end.
Qed.

(** ** Answers *)
Section determinism.
Context (cfg : server_config_t) (root_fd : Z).

Lemma refusal_fun rq rq' code status body status' body' :
  (code = HTTP_PARSE_OK → rq = rq') →
  refusal rq code status body → refusal rq' code status' body' → status = status' ∧ body = body'.
Proof using Type.
  intros Heq. destruct 1; inversion 1; try done; try (specialize (Heq eq_refl)); simplify_eq;
    try (split; congruence).
Qed.

Lemma refusal_judged rq status body : refusal rq HTTP_PARSE_OK status body → judge rq ≠ None.
Proof using Type. inversion 1; congruence. Qed.

(** What is said of the first message of two runs is the same, and so are the
    answers. *)
Lemma answer_prefix msg l text close x l' text' close' x' :
  answer cfg root_fd msg l text close → answer cfg root_fd msg l' text' close' →
  l ++ x = l' ++ x' → l = l' ∧ text = text' ∧ close = close'.
Proof using Type.
  assert (∀ rq rest code rq' rest', parse_request cfg msg rq rest →
    parse_outcome cfg msg code rq' rest' → code = HTTP_PARSE_OK ∧ rq' = rq) as Hdet.
  { intros rq rest code rq' rest' H H'. destruct (parse_outcome_det _ _ _ _ _ _ _ _ H H') as [<- He].
    by destruct (He eq_refl) as [-> _]. }
  intros [code rq rest status reason body Ho Href Hr|rq rest k e reason page Hp Hj Hl Hpage Hr
    |rq rest k content Hp Hj Hl] [code' rq' rest' status' reason' body' Ho' Href' Hr'
    |rq' rest' k' e' reason' page' Hp' Hj' Hl' Hpage' Hr'|rq' rest' k' content' Hp' Hj' Hl'] Heq.
  - destruct (parse_outcome_det _ _ _ _ _ _ _ _ Ho Ho') as [<- He].
    destruct (refusal_fun rq rq' code status body status' body') as [<- <-]; [|done..|].
    { intros Hok. by apply He. }
    split_and!; [done| |done]. by rewrite Hr in Hr'; simplify_eq.
  - destruct (Hdet _ _ _ _ _ Hp' Ho) as [-> ->]. by apply refusal_judged in Href.
  - destruct (Hdet _ _ _ _ _ Hp' Ho) as [-> ->]. by apply refusal_judged in Href.
  - destruct (Hdet _ _ _ _ _ Hp Ho') as [-> ->]. by apply refusal_judged in Href'.
  - destruct (Hdet _ _ _ _ _ Hp Hp') as [_ ->].
    destruct (path_lookup_prefix _ _ _ _ _ _ _ _ Hl Hl' Heq) as [<- [= <-]].
    split_and!; [done| |done]. congruence.
  - destruct (Hdet _ _ _ _ _ Hp Hp') as [_ ->].
    by destruct (path_lookup_prefix _ _ _ _ _ _ _ _ Hl Hl' Heq) as [_ ?].
  - destruct (Hdet _ _ _ _ _ Hp Ho') as [-> ->]. by apply refusal_judged in Href'.
  - destruct (Hdet _ _ _ _ _ Hp Hp') as [_ ->].
    by destruct (path_lookup_prefix _ _ _ _ _ _ _ _ Hl Hl' Heq) as [_ ?].
  - destruct (Hdet _ _ _ _ _ Hp Hp') as [_ ->].
    by destruct (path_lookup_prefix _ _ _ _ _ _ _ _ Hl Hl' Heq) as [<- [= <-]].
Qed.

Lemma answers_prefix raw l text close x l' text' close' x' :
  answers cfg root_fd raw l text close → answers cfg root_fd raw l' text' close' →
  l ++ x = l' ++ x' → l = l' ∧ text = text' ∧ close = close'.
Proof using Type.
  intros (m & Hm & Ha) (m' & Hm' & Ha') Heq. rewrite Hm in Hm'. simplify_eq.
  by eapply answer_prefix.
Qed.

(** ** Connections *)
Lemma serves_fun q l out rest closed out' rest' closed' :
  serves cfg root_fd q l out rest closed → serves cfg root_fd q l out' rest' closed' →
  out = out' ∧ rest = rest' ∧ closed = closed'.
Proof using Type.
  intros H. revert out' rest' closed'.
  induction H as [q Hq|q j l text Hj Hans|q j l text l' out rest closed Hj Hans _ IH];
    intros out' rest' closed' H'; inversion H' as [q2 Hq2|q2 j2 l2 text2 Hj2 Hans2
      |q2 j2 l2 text2 l2' out2 rest2 closed2 Hj2 Hans2 Hs2 Hq2 Hl2]; simplify_eq; try done.
  - by destruct (answers_prefix _ _ _ _ [] _ _ _ [] Hans Hans2 eq_refl) as (_ & -> & _).
  - by destruct (answers_prefix _ _ _ _ [] _ _ _ l2' Hans Hans2 ltac:(by rewrite app_nil_r))
      as (_ & _ & ?).
  - by destruct (answers_prefix _ _ _ _ l' _ _ _ [] Hans Hans2 ltac:(by rewrite app_nil_r))
      as (_ & _ & ?).
  - destruct (answers_prefix _ _ _ _ l' _ _ _ l2' Hans Hans2 (eq_sym Hl2)) as (<- & <- & _).
    simplify_eq. by destruct (IH _ _ _ Hs2) as (<- & <- & <-).
Qed.
End determinism.
