(* ===== verification/ForkServer.v ===== *)
(** * One connection ([src/fork_server.c])

    The child's loop: receive, buffer, answer, until the connection closes; and
    the proof that the bytes sent depend on the bytes received only, however
    they were cut into packets. *)
From S2P Require Import Prelude.
From S2P Require Import CLib.
From S2P Require Import Config.
From S2P Require Import Kernel.
From S2P Require Import HttpParse.
From S2P Require Import HttpGrammar.
From S2P Require Import HttpParseProofs.
From S2P Require Import GrammarFacts.
From S2P Require Import Io.
From S2P Require Import HttpResponse.
From S2P Require Import HttpResponseProofs.
From S2P Require Import File.
From S2P Require Import HttpConnection.
From S2P Require Import Http.
From S2P Require Import HttpRules.
From S2P Require Import HttpProofs.
From S2P Require Import HttpProcess.

Section fork_server.
Context {W : Type} `{K : Kernel W}.

(** The body of the loop: [inr] is the next round, [inl] a [break] with the
    value of [result]. *)
Definition fork_server_round (fuel : nat) (c : http_connection_t) (client_fd root_fd : Z)
    (config : server_config_t) : M W (http_connection_t * (Z + unit)) :=
  let remaining_capacity := http_connection_buffer_space (Some c) in
  receive_buffer ← local_array 9 4096;
  let receive_capacity := if remaining_capacity <? 4096 then remaining_capacity else 4096 in
  if receive_capacity =? 0 then
    _ ← http_send_error fuel client_fd HTTP_STATUS_REQUEST_HEADER_FIELDS_TOO_LARGE 0;
    mret (c, inl (-1))
  else
    '(received, data) ← sys_recv client_fd receive_capacity;
    if received <? 0 then
      e ← get_errno;
      if e =? EINTR then mret (c, inr tt)
      else if (e =? EAGAIN) || (e =? EWOULDBLOCK) then mret (c, inl (-1))
      else mret (c, inl (-1))
    else if received =? 0 then mret (c, inl 0)
    else
      receive_buffer ← lift (blit receive_buffer 0 data);
      '(fed, conn) ← lift (http_connection_feed (Some c) (Some receive_buffer) received);
      c ← deref conn;
      if fed <? 0 then
        _ ← http_send_error fuel client_fd HTTP_STATUS_REQUEST_HEADER_FIELDS_TOO_LARGE 0;
        mret (c, inl (-1))
      else
        '(processed, conn) ← http_process_connection fuel (Some c) client_fd root_fd (Some config);
        c ← deref conn;
        if processed <? 0 then mret (c, inl (-1)) else mret (c, inr tt).

(** The loop, of at most [n] rounds. *)
Fixpoint fork_server_loop (n fuel : nat) (c : http_connection_t) (client_fd root_fd : Z)
    (config : server_config_t) : M W (Z * http_connection_t) :=
  match n with
  | O => out_of_fuel
  | S n =>
    if hc_close_connection c =? 0 then
      '(c, next) ← fork_server_round fuel c client_fd root_fd config;
      match next with
      | inl result => mret (result, c)
      | inr _ => fork_server_loop n fuel c client_fd root_fd config
      end
    else mret (0, c)
  end.

(** [connection] is the uninitialised local variable. *)
Definition fork_server_handle_connection (n fuel : nat) (connection : http_connection_t)
    (client_fd root_fd : Z) (config : option server_config_t) : M W Z :=
  match config with
  | None => mret (-1)
  | Some cfg =>
    '(r, conn) ← http_connection_init (Some connection) (http_buffer_size cfg);
    if r <? 0 then mret (-1) else
    c ← deref conn;
    '(result, c) ← fork_server_loop n fuel c client_fd root_fd cfg;
    _ ← http_connection_destroy (Some c);
    mret result
  end.
End fork_server.

(** ** Input in pieces *)
Lemma prefix_of_app_long (k l x : list byte) :
  k `prefix_of` l ++ x → (length k <= length l)%nat → k `prefix_of` l.
Proof.
  intros [r Hr] Hl. exists (drop (length k) l).
  apply (f_equal (take (length l))) in Hr. rewrite take_app_length in Hr. rewrite Hr at 1.
  rewrite take_app_ge by done. f_equal.
  apply (f_equal (drop (length k))) in Hr. rewrite Hr.
  by rewrite take_app_ge, drop_app_length by done.
Qed.

Lemma find_sub_app_prefix needle q x j :
  find_sub needle q = Some j → find_sub needle (q ++ x) = Some j.
Proof.
  intros (Hp & Hj & Hmin)%find_sub_Some. apply find_sub_Some.
  pose proof (prefix_length _ _ Hp) as Hlen. rewrite length_drop in Hlen. split_and!.
  - rewrite drop_app_le by done. by apply prefix_app_r.
  - rewrite length_app. lia.
  - intros m Hm Hp'. apply (Hmin m Hm). rewrite drop_app_le in Hp' by lia.
    apply (prefix_of_app_long _ _ x); [done|]. rewrite length_drop. lia.
Qed.

Section pieces.
Context (cfg : server_config_t) (root_fd : Z).

(** The first message of the input, and its answer, do not depend on what
    follows. *)
Lemma first_message q x j :
  find_sub CRLF2 q = Some j →
  find_sub CRLF2 (q ++ x) = Some j ∧ take (j + 4) (q ++ x) = take (j + 4) q ∧
  drop (j + 4) (q ++ x) = drop (j + 4) q ++ x.
Proof using Type.
  intros Hj. pose proof (find_crlf2_bound _ _ Hj). split_and!.
  - by apply find_sub_app_prefix.
  - by rewrite take_app_le.
  - by rewrite drop_app_le.
Qed.

Lemma serves_app q l out rest x l2 out2 rest2 closed :
  serves cfg root_fd q l out rest false → serves cfg root_fd (rest ++ x) l2 out2 rest2 closed →
  serves cfg root_fd (q ++ x) (l ++ l2) (out ++ out2) rest2 closed.
Proof using Type.
  intros H. remember false as b eqn:Hb.
  induction H as [q Hq|q j l text Hj Hans|q j l text l' out rest cl Hj Hans _ IH];
    intros H2; [done|done|].
  destruct (first_message q x j Hj) as (Hj' & Ht & Hd). rewrite <- !app_assoc.
  eapply serves_next; [done|by rewrite Ht|]. rewrite Hd. by apply IH.
Qed.

Lemma serves_part_app q l out rest x l2 out2 :
  serves cfg root_fd q l out rest false → serves_part cfg root_fd (rest ++ x) l2 out2 →
  serves_part cfg root_fd (q ++ x) (l ++ l2) (out ++ out2).
Proof using Type.
  intros H. remember false as b eqn:Hb.
  induction H as [q Hq|q j l text Hj Hans|q j l text l' out rest cl Hj Hans _ IH];
    intros H2; [done|done|].
  destruct (first_message q x j Hj) as (Hj' & Ht & Hd). rewrite <- !app_assoc.
  eapply part_next; [done|by rewrite Ht|]. rewrite Hd. by apply IH.
Qed.

Lemma serves_waiting q l out rest : serves cfg root_fd q l out rest false → find_sub CRLF2 rest = None.
Proof using Type. intros H. remember false as b. induction H; naive_solver. Qed.
End pieces.

(** ** Sessions *)
(** What a connection failed with: all the answers, and the notice that a message
    does not fit the buffer of [cap] bytes; and, where calls may fail ([lossy]),
    a notice cut short, or answers of which the last one is. *)
Inductive session_failure (lossy : Prop) (cfg : server_config_t) (root_fd cap : Z)
    : list byte → list file_event → list byte → Prop :=
  | failure_part inp l out :
      lossy → serves_part cfg root_fd inp l out →
      session_failure lossy cfg root_fd cap inp l out
  | failure_full inp l out rest notice page reason :
      serves cfg root_fd inp l out rest false → Z.of_nat (length rest) = cap →
      http_error_page 431 = Some page → http_status_reason 431 = Some reason →
      notice `prefix_of` error_text 431 reason page →
      notice = error_text 431 reason page ∨ lossy →
      session_failure lossy cfg root_fd cap inp l (out ++ notice).

Lemma session_failure_confined lossy cfg root cap inp l out :
  session_failure lossy cfg root cap inp l out → Forall (confined_event root) l.
Proof. destruct 1; [by eapply serves_part_confined|by eapply serves_confined]. Qed.

(** From view [v] to [v'], [inp] was received and [out] sent on [fd], and the file
    system said [l]. *)
Definition exchanged (fd : Z) (inp : list (option byte)) (l : list file_event) (out : list byte)
    (v v' : kview) : Prop :=
  kv_in v' = kv_in v ++ (pair fd <$> inp) ∧ kv_out v' = kv_out v ++ (pair fd <$> out) ∧
  kv_files v' = kv_files v ++ l.
(** The bytes [inp]; then the end of the input, unless an answer [closed] the
    connection. *)
Definition received (inp : list byte) (closed : bool) : list (option byte) :=
  (Some <$> inp) ++ if closed then [] else [None].

Lemma received_inj inp1 cl1 inp2 cl2 :
  received inp1 cl1 = received inp2 cl2 → inp1 = inp2 ∧ cl1 = cl2.
Proof.
  unfold received. revert inp2. induction inp1 as [|b inp1 IH]; intros [|b2 inp2];
    rewrite ?fmap_nil, ?fmap_cons; destruct cl1, cl2; try done; simpl;
    intros [= Hb H]; subst; by apply IH in H as [-> ?].
Qed.

Definition same_resources (v v' : kview) : Prop := kv_heap v' = kv_heap v ∧ kv_fds v' = kv_fds v.
Definition more_resources (v v' : kview) : Prop := kv_heap v ⊆ kv_heap v' ∧ kv_fds v ⊆ kv_fds v'.

Lemma exchanged_refl fd v : exchanged fd [] [] [] v v.
Proof. split_and!; by rewrite app_nil_r. Qed.

Lemma exchanged_trans fd i1 l1 o1 i2 l2 o2 v1 v2 v3 :
  exchanged fd i1 l1 o1 v1 v2 → exchanged fd i2 l2 o2 v2 v3 →
  exchanged fd (i1 ++ i2) (l1 ++ l2) (o1 ++ o2) v1 v3.
Proof.
  intros (Hi1 & Ho1 & Hl1) (Hi2 & Ho2 & Hl2). split_and!.
  - by rewrite Hi2, Hi1, fmap_app, app_assoc.
  - by rewrite Ho2, Ho1, fmap_app, app_assoc.
  - by rewrite Hl2, Hl1, app_assoc.
Qed.

Lemma exchanged_in fd bs v : exchanged fd (heard bs) [] [] v (push_in fd bs v).
Proof. split_and!; [done|by rewrite app_nil_r..]. Qed.
Lemma exchanged_out fd bs v : exchanged fd [] [] bs v (push_out fd bs v).
Proof. split_and!; [by rewrite app_nil_r|done|by rewrite app_nil_r]. Qed.

Lemma exchanged_advanced fd l out v v' :
  advanced fd l out v v' → exchanged fd [] l out v v' ∧ same_resources v v'.
Proof. intros ->. split; [|done]. split_and!; [by rewrite app_nil_r|done|done]. Qed.
Lemma exchanged_leaking fd l out v v' :
  advanced_leaking fd l out v v' → exchanged fd [] l out v v' ∧ more_resources v v'.
Proof.
  intros (Ho & Hs & Hi & Hh & Hf). split; [|done]. split_and!; [by rewrite app_nil_r|done|done].
Qed.

(** The input was served, up to an answer that closed or to its end. *)
Definition served (cfg : server_config_t) (root_fd fd : Z) (v v' : kview) : Prop :=
  ∃ inp l out rest closed, exchanged fd (received inp closed) l out v v' ∧
    serves cfg root_fd inp l out rest closed.
Definition failed (lossy : Prop) (cfg : server_config_t) (root_fd fd : Z) (v v' : kview) : Prop :=
  ∃ inp l out, exchanged fd (Some <$> inp) l out v v' ∧
    session_failure lossy cfg root_fd (http_buffer_size cfg) inp l out.

(** Views that differ in their resources only. *)
Definition same_traffic (v w : kview) : Prop :=
  kv_in v = kv_in w ∧ kv_out v = kv_out w ∧ kv_files v = kv_files w.

Lemma exchanged_same_traffic fd inp l out v v' w w' :
  same_traffic v w → same_traffic v' w' → exchanged fd inp l out v v' → exchanged fd inp l out w w'.
Proof. intros (H1 & H2 & H3) (H4 & H5 & H6) (H7 & H8 & H9). split_and!; congruence. Qed.

Lemma served_same_traffic cfg root fd v v' w w' :
  same_traffic v w → same_traffic v' w' → served cfg root fd v v' → served cfg root fd w w'.
Proof.
  intros Hv Hv' (inp & l & out & rest & closed & He & Hs). exists inp, l, out, rest, closed.
  split; [by eapply exchanged_same_traffic|done].
Qed.

Lemma failed_same_traffic lossy cfg root fd v v' w w' :
  same_traffic v w → same_traffic v' w' → failed lossy cfg root fd v v' → failed lossy cfg root fd w w'.
Proof.
  intros Hv Hv' (inp & l & out & He & Hs). exists inp, l, out.
  split; [by eapply exchanged_same_traffic|done].
Qed.

Section rounds.
Context {W : Type} `{K : Kernel W} {HL : KernelLaws W} (F : Prop) (B : W → nat).
Context (cfg : server_config_t) (Hvalid : http_config_valid (Some cfg) = true) (Hcfg : limits_ok cfg).
Context (client_fd root_fd : Z).

(** A notice that the buffer is full, or a part of it. *)
Definition full_notice (out : list byte) : Prop :=
  ∃ page reason, http_error_page 431 = Some page ∧ http_status_reason 431 = Some reason ∧
    out `prefix_of` error_text 431 reason page ∧
    (out = error_text 431 reason page ∨ faulty W).

(** How a round ends. *)
Definition round_end (c : http_connection_t) (p : proc W) (res : http_connection_t * (Z + unit))
    (p' : proc W) : Prop :=
  no_more B p p' ∧ wf_connection res.1 ∧ buffer_id res.1 = buffer_id c ∧
  hc_buffer_capacity res.1 = hc_buffer_capacity c ∧
  match res.2 with
  | inr _ => ∃ inp l out closed, exchanged client_fd (Some <$> inp) l out (view p) (view p') ∧
      same_resources (view p) (view p') ∧ fewer B p p' ∧
      serves cfg root_fd (buffered c ++ inp) l out (buffered res.1) closed ∧
      hc_close_connection res.1 = if (closed : bool) then 1 else 0
  | inl r => (r = 0 ∧ exchanged client_fd [None] [] [] (view p) (view p') ∧
       same_resources (view p) (view p') ∧ buffered res.1 = buffered c) ∨
     (r = -1 ∧ ∃ inp l out, exchanged client_fd (Some <$> inp) l out (view p) (view p') ∧
       more_resources (view p) (view p') ∧
       (faulty W ∧ serves_part cfg root_fd (buffered c ++ inp) l out ∨
        inp = [] ∧ l = [] ∧ same_resources (view p) (view p') ∧
        Z.of_nat (length (buffered c)) = hc_buffer_capacity c ∧ full_notice out))
  end.

Lemma exchanged_same v v' : v' = v → exchanged client_fd [] [] [] v v' ∧ same_resources v v'.
Proof using Type. intros ->. split; [apply exchanged_refl|done]. Qed.
Lemma same_more v v' : same_resources v v' → more_resources v v'.
Proof using Type. intros [H1 H2]. split; [by rewrite H1|by rewrite H2]. Qed.

(** The buffer is full: the notice is sent and the round breaks. *)
Lemma full_round_spec fuel c p :
  wf_connection c → Z.of_nat (length (buffered c)) = hc_buffer_capacity c →
  enough F B fuel p (400 + Z.of_nat (B (p_kernel p))) →
  wpg F (_ ← http_send_error fuel client_fd HTTP_STATUS_REQUEST_HEADER_FIELDS_TOO_LARGE 0;
         mret (c, inl (-1))) (round_end c p) p.
Proof using HL.
  intros Hwf Hfull Hf. apply wpg_bind.
  destruct (http_send_error_spec F B fuel client_fd 431 _ 0 p eq_refl) as (reason & Hr & Hsend).
  { eapply enough_mono; [exact Hf|done|lia]. }
  eapply wpg_mono; [exact Hsend|]. intros r p' (Hm & out & Hv & Hout). apply wpg_ret.
  split; [done|]. split_and!; [done..|]. right. split; [done|]. exists [], [], out. rewrite Hv. split_and!.
  - apply exchanged_out.
  - by apply same_more.
  - right. split_and!; [done|done|done|done|]. eexists _, reason. split_and!; [done|done| |].
    + destruct Hout as [[_ ->]|(_ & Hp & _)]; [done|exact Hp].
    + destruct Hout as [[_ ->]|(_ & _ & Hfa)]; [by left|by right].
Qed.

(** A chunk arrived and fits the buffer: feed it and answer. *)
Lemma chunk_round_spec fuel c p p1 bs buf :
  wf_connection c → hc_close_connection c = 0 → length buf = 4096%nat →
  (length bs <= 4096)%nat → bs ≠ [] →
  Z.of_nat (length (buffered c)) + Z.of_nat (length bs) <= hc_buffer_capacity c →
  view p1 = push_in client_fd bs (view p) → no_more B p p1 → fewer B p p1 →
  enough F B fuel p (400 + Z.of_nat (B (p_kernel p))) →
  wpg F (receive_buffer ← lift (blit buf 0 bs);
     '(fed, conn) ← lift (http_connection_feed (Some c) (Some receive_buffer) (Z.of_nat (length bs)));
     c ← deref conn;
     if fed <? 0 then
       _ ← http_send_error fuel client_fd HTTP_STATUS_REQUEST_HEADER_FIELDS_TOO_LARGE 0;
       mret (c, inl (-1))
     else
       '(processed, conn) ← http_process_connection fuel (Some c) client_fd root_fd (Some cfg);
       c ← deref conn;
       if processed <? 0 then mret (c, inl (-1)) else mret (c, inr tt)) (round_end c p) p1.
Proof using HL Hvalid Hcfg.
  intros Hwf Hclose Hbuf Hbs Hne Hfit Hv Hm Hfew Hf.
  apply wpg_bind, wpg_lift. rewrite blit_ok by lia. cbn [returns Nat.add]. rewrite take_0. cbn [app].
  apply wpg_bind, wpg_lift.
  pose proof (feed_spec c (bs ++ drop (length bs) buf) (Z.of_nat (length bs)) Hwf) as Hfeed.
  rewrite decide_True in Hfeed by done.
  destruct Hfeed as (c1 & -> & Hwf1 & (Hcap & Hid & Hcl & _) & Hb1); [rewrite length_app; lia|lia|].
  rewrite Nat2Z.id, take_app_length in Hb1. cbn [returns]. apply wpg_bind, wpg_deref. cbn [Z.ltb Z.compare].
  apply wpg_bind. eapply wpg_mono.
  { apply (http_process_connection_spec F B cfg Hvalid Hcfg); [done|by rewrite Hcl|].
    destruct Hf as [HF|[HB Hf]]; [by left|right]. specialize (Hm HB). split; [done|lia]. }
  intros [r o] p2 (c2 & Ho & Hm2 & Hwf2 & Hid2 & Hcap2 & Hend). cbn [fst snd] in *. subst o.
  rewrite Hb1 in Hend. apply wpg_bind, wpg_deref.
  pose proof (exchanged_in client_fd bs (view p)) as Hin. rewrite <- Hv in Hin.
  assert (heard bs = Some <$> bs) as Hheard by by destruct bs. rewrite Hheard in Hin.
  assert (same_resources (view p) (view p1)) as Hsame by by rewrite Hv.
  destruct Hend as [(-> & Hfa & l & out & Hpart & Hadv)|(-> & l & out & closed & Hsrv & Hadv & Hcl2)]; cbn [Z.ltb Z.compare].
  - apply exchanged_leaking in Hadv as [Hex [Hh Hfd]]. pose proof (exchanged_trans _ _ _ _ _ _ _ _ _ _ Hin Hex) as Hex2.
    rewrite app_nil_r in Hex2. apply wpg_ret. split; [by etrans|]. split_and!; [done|by etrans|by etrans|].
    right. split; [done|]. exists bs, l, out. split_and!; [done| |by left].
    destruct Hsame as [Hs1 Hs2]. split; [by rewrite <- Hs1|by rewrite <- Hs2].
  - apply exchanged_advanced in Hadv as [Hex [Hh Hfd]]. pose proof (exchanged_trans _ _ _ _ _ _ _ _ _ _ Hin Hex) as Hex2.
    rewrite app_nil_r in Hex2. apply wpg_ret. split; [by etrans|]. split_and!; [done|by etrans|by etrans|].
    exists bs, l, out, closed. destruct Hsame as [Hs1 Hs2].
    split_and!; [done|by split; etrans| |done|done].
    intros HB. specialize (Hfew HB). specialize (Hm2 HB). lia.
Qed.

Lemma fork_server_round_spec fuel c p :
  wf_connection c → hc_close_connection c = 0 → find_sub CRLF2 (buffered c) = None →
  enough F B fuel p (400 + Z.of_nat (B (p_kernel p))) →
  wpg F (fork_server_round fuel c client_fd root_fd cfg) (round_end c p) p.
Proof using HL Hvalid Hcfg.
  intros Hwf Hclose Hnone Hf. unfold fork_server_round. rewrite buffer_space_spec by done.
  pose proof (length_buffered c Hwf) as Hlen. pose proof (wc_used _ Hwf) as Hu.
  apply wpg_bind, wpg_local. intros buf Hbuf.
  set (space := hc_buffer_capacity c - _). set (cap := if space <? 4096 then space else 4096).
  assert (0 <= cap <= 4096 ∧ cap <= space) as Hcap.
  { unfold cap. destruct (space <? 4096) eqn:E;
      [apply Z.ltb_lt in E|apply Z.ltb_ge in E]; unfold space in *; lia. }
  assert (cap = 0 → Z.of_nat (length (buffered c)) = hc_buffer_capacity c) as Hzero.
  { unfold cap. destruct (space <? 4096) eqn:E; [unfold space; lia|lia]. }
  clearbody cap. destruct (cap =? 0) eqn:E.
  { apply Z.eqb_eq in E. apply full_round_spec; [done|by apply Hzero|done]. }
  apply wpg_bind, (wpg_recv F B).
  - intros bs p1 Hbs Hv Hm Hfew. rewrite (proj2 (Z.ltb_ge _ _)) by lia. destruct bs as [|b bs].
    + apply wpg_ret. split_and!; try done. left. split; [done|].
      rewrite Hv. split_and!; [apply exchanged_in|done|done].
    + rewrite (proj2 (Z.eqb_neq _ _)) by (simpl; lia).
      apply chunk_round_spec; try done; [lia|unfold space in *; lia|by apply Hfew].
  - intros p1 Hv Hm Hfew Hfa. cbn [Z.ltb Z.compare]. apply wpg_bind, wpg_get_errno.
    destruct (exchanged_same (view p) (view p1) Hv) as [H1 H2].
    assert (p_errno p1 ≠ EINTR → round_end c p (c, inl (-1)) p1) as Hfail.
    { intros He. apply Z.eqb_neq in E. split_and!; try done. right. split; [done|]. exists [], [], [].
      split_and!; [done|by apply same_more|]. left. split; [apply Hfa; [done|lia]|by constructor]. }
    split_if; [|apply Z.eqb_neq in E0; split_if; by apply wpg_ret, Hfail]. apply Z.eqb_eq in E0. apply wpg_ret. split_and!; try done.
    exists [], [], [], false. split_and!; try done; [by apply Hfew|]. rewrite app_nil_r. by constructor.
Qed.

(** *** The session *)
(** What has happened since [p0]: the input so far was served, up to the bytes
    still buffered. *)
Record session (cap id : Z) (p0 : proc W) (c : http_connection_t) (p : proc W)
    (inp : list byte) (l : list file_event) (out : list byte) (closed : bool) : Prop := {
  se_exchanged : exchanged client_fd (Some <$> inp) l out (view p0) (view p);
  se_resources : same_resources (view p0) (view p);
  se_fuel : no_more B p0 p;
  se_serves : serves cfg root_fd inp l out (buffered c) closed;
  se_close : hc_close_connection c = if closed then 1 else 0;
  se_wf : wf_connection c;
  se_capacity : hc_buffer_capacity c = cap;
  se_id : buffer_id c = id
}.

Definition session_end (id : Z) (p0 : proc W) (res : Z * http_connection_t) (p' : proc W) : Prop :=
  no_more B p0 p' ∧ wf_connection res.2 ∧ buffer_id res.2 = id ∧
  (res.1 = 0 ∧ same_resources (view p0) (view p') ∧ served cfg root_fd client_fd (view p0) (view p') ∨
   res.1 = -1 ∧ more_resources (view p0) (view p') ∧
     (same_resources (view p0) (view p') ∨ faulty W) ∧
     failed (faulty W) cfg root_fd client_fd (view p0) (view p')).

Lemma session_round cap id p0 c p inp l out c' p' inp2 l2 out2 closed :
  session cap id p0 c p inp l out false →
  round_end c p (c', inr tt) p' →
  exchanged client_fd (Some <$> inp2) l2 out2 (view p) (view p') →
  serves cfg root_fd (buffered c ++ inp2) l2 out2 (buffered c') closed →
  same_resources (view p) (view p') → hc_close_connection c' = (if closed then 1 else 0) →
  session cap id p0 c' p' (inp ++ inp2) (l ++ l2) (out ++ out2) closed.
Proof using Type.
  intros [He [Hr1 Hr2] Hm Hs _ _ Hcap Hid] (Hm2 & Hwf & Hid2 & Hcap2 & _) He2 Hs2 [Hr3 Hr4] Hcl.
  cbn [fst snd] in *. split; try done.
  - rewrite fmap_app. by eapply exchanged_trans.
  - by split; etrans.
  - by etrans.
  - by eapply serves_app.
  - by rewrite Hcap2.
  - by rewrite Hid2.
Qed.

Lemma session_stop id p0 c p inp l out c' r p' :
  session (http_buffer_size cfg) id p0 c p inp l out false → round_end c p (c', inl r) p' →
  session_end id p0 (r, c') p'.
Proof using Type.
  intros [He [Hr1 Hr2] Hm Hs _ Hwf Hcap Hid] (Hm2 & Hwf' & Hid2 & _ & Hend). cbn [fst snd] in *.
  split; [by etrans|]. split; [done|]. split; [by cbn [snd]; rewrite Hid2|].
  destruct Hend as [(-> & He2 & [Hr3 Hr4] & _)|(-> & inp2 & l2 & out2 & He2 & [Hr3 Hr4] & Hend)];
    pose proof (exchanged_trans _ _ _ _ _ _ _ _ _ _ He He2) as Hex.
  - left. split; [done|]. split; [by split; etrans|]. rewrite !app_nil_r in Hex.
    exists inp, l, out, (buffered c), false. by split.
  - right. split; [done|]. rewrite <- fmap_app in Hex.
    split; [unfold more_resources; by rewrite <- Hr1, <- Hr2|].
    destruct Hend as [[Hfa Hpart]|(-> & -> & [Hr5 Hr6] & Hfull & page & reason & Hp & Hre & Hpre & Hall)].
    + split; [by right|]. eexists _, _, _. split; [exact Hex|]. apply failure_part; [done|].
      by eapply serves_part_app.
    + split; [left; by split; etrans|]. eexists _, _, _. split; [exact Hex|]. rewrite !app_nil_r.
      eapply failure_full; [done| |done|done|done|done]. by rewrite Hfull.
Qed.

Lemma fork_server_loop_spec n fuel id p0 c p inp l out closed :
  session (http_buffer_size cfg) id p0 c p inp l out closed →
  enough F B n p 0 → enough F B fuel p (400 + Z.of_nat (B (p_kernel p))) →
  wpg F (fork_server_loop n fuel c client_fd root_fd cfg) (session_end id p0) p.
Proof using HL Hvalid Hcfg.
  revert c p inp l out closed. induction n as [|n IH]; intros c p inp l out closed Hse Hn Hf.
  { by eapply wpg_out_of_fuel; [|exact Hn]. }
  cbn [fork_server_loop]. pose proof (se_close _ _ _ _ _ _ _ _ _ Hse) as Hcl. rewrite Hcl.
  destruct closed; cbn [Z.eqb].
  { apply wpg_ret. destruct Hse. split_and!; try done. left. split_and!; [done|done|].
    exists inp, l, out, (buffered c), true. unfold received. by rewrite app_nil_r. }
  apply wpg_bind. pose proof (se_serves _ _ _ _ _ _ _ _ _ Hse) as Hsrv.
  eapply wpg_mono.
  { apply fork_server_round_spec; [apply Hse|done|by eapply serves_waiting|done]. }
  intros [c1 [r|[]]] p1 Hend.
  { apply wpg_ret. by eapply session_stop. }
  pose proof Hend as (Hm & _ & _ & _ & inp2 & l2 & out2 & closed2 & He2 & Hr2 & Hfew & Hs2 & Hcl2).
  eapply IH.
  - by eapply session_round.
  - by eapply enough_fewer.
  - destruct Hf as [HF|[HB Hf]]; [by left|right]. specialize (Hm HB). split; [done|lia].
Qed.

(** How the whole connection ends. *)
Definition connection_end (p : proc W) (r : Z) (p' : proc W) : Prop :=
  (r = 0 ∧ same_resources (view p) (view p') ∧ served cfg root_fd client_fd (view p) (view p') ∨
   r = -1 ∧ more_resources (view p) (view p') ∧
     (same_resources (view p) (view p') ∨ faulty W) ∧
     failed (faulty W) cfg root_fd client_fd (view p) (view p')).

Lemma fork_server_handle_connection_spec n fuel c0 p :
  0 < http_buffer_size cfg < 2 ^ 63 →
  enough F B n p 0 → enough F B fuel p (400 + Z.of_nat (B (p_kernel p))) →
  wpg F (fork_server_handle_connection n fuel c0 client_fd root_fd (Some cfg)) (connection_end p) p.
Proof using HL Hvalid Hcfg.
  intros Hbuf Hn Hf. unfold fork_server_handle_connection.
  apply wpg_bind, (http_connection_init_spec F B); [done| |].
  { intros c1 p1 Hm Hv Hfa. apply wpg_ret. right. rewrite Hv. split_and!; [done|done|by right|].
    exists [], [], []. split; [apply exchanged_refl|]. apply failure_part; [done|by constructor]. }
  intros c1 p1 Hm Hid Hv Hwf Hb Hcap Hcl _. cbn [Z.ltb Z.compare].
  apply wpg_bind, wpg_deref, wpg_bind. eapply wpg_mono.
  { apply (fork_server_loop_spec n fuel (buffer_id c1) p1 c1 p1 [] [] [] false).
    - split; try done; [apply exchanged_refl|]. rewrite Hb. by constructor.
    - by eapply enough_mono.
    - destruct Hf as [HF|[HB Hf]]; [by left|right]. specialize (Hm HB). split; [done|lia]. }
  intros [r c2] p2 (Hm2 & Hwf2 & Hid2 & Hend). cbn [fst snd] in *.
  apply wpg_bind, (http_connection_destroy_spec F B); [done| |].
  { rewrite Hid2. destruct Hend as [(_ & [Hh _] & _)|(_ & [Hh _] & _)]; rewrite Hv in Hh; simpl in Hh;
      set_solver. }
  intros c3 p3 Hm3 Hv3 _. apply wpg_ret. rewrite Hid2 in Hv3.
  assert (same_traffic (view p1) (view p)) as Ht1 by by rewrite Hv.
  assert (same_traffic (view p2) (view p3)) as Ht2 by by rewrite Hv3.
  assert (same_resources (view p1) (view p2) → same_resources (view p) (view p3)) as Hsame.
  { unfold same_resources. rewrite Hv, Hv3. cbn. intros [Hh Hfd]. split; [set_solver|done]. }
  destruct Hend as [(-> & Hres & Hs)|(-> & Hres & Hkept & Hs)]; [left|right]; (split; [done|]).
  - split; [by apply Hsame|by eapply served_same_traffic].
  - split_and!; [|by destruct Hkept; auto|by eapply failed_same_traffic].
    revert Hres. unfold more_resources. rewrite Hv, Hv3. cbn. intros [Hh Hfd]. split; [set_solver|done].
Qed.
End rounds.

(** ** A configuration that the run-time check refuses *)
Section refused.
Context {W : Type} `{K : Kernel W} {HL : KernelLaws W} (F : Prop) (B : W → nat).
Context (cfg : server_config_t) (Hinvalid : http_config_valid (Some cfg) = false).
Context (client_fd root_fd : Z).

(** The end of the input was met, with 0; or some input, or a failure, with -1. *)
Definition listened (v : kview) (r : Z) (v' : kview) : Prop :=
  r = 0 ∧ v' = push_in client_fd [] v ∨
  r = -1 ∧ (v' = v ∧ faulty W ∨ ∃ inp, inp ≠ [] ∧ v' = push_in client_fd inp v).

Definition refused_end (c : http_connection_t) (p : proc W) (res : http_connection_t * (Z + unit))
    (p' : proc W) : Prop :=
  no_more B p p' ∧ wf_connection res.1 ∧ buffer_id res.1 = buffer_id c ∧
  match res.2 with
  | inr _ => view p' = view p ∧ fewer B p p' ∧ res.1 = c
  | inl r => listened (view p) r (view p')
  end.

Lemma refused_round_spec fuel c p :
  wf_connection c → buffered c = [] → 0 < hc_buffer_capacity c →
  wpg F (fork_server_round fuel c client_fd root_fd cfg) (refused_end c p) p.
Proof using HL Hinvalid.
  intros Hwf Hempty Hpos. unfold fork_server_round. rewrite buffer_space_spec by done.
  rewrite Hempty. apply wpg_bind, wpg_local. intros buf Hbuf. cbn [length Z.of_nat]. rewrite Z.sub_0_r.
  set (cap := if hc_buffer_capacity c <? 4096 then hc_buffer_capacity c else 4096).
  assert (0 < cap <= 4096 ∧ cap <= hc_buffer_capacity c) as Hcap.
  { unfold cap. destruct (_ <? 4096) eqn:E; [apply Z.ltb_lt in E|apply Z.ltb_ge in E]; lia. }
  clearbody cap. rewrite (proj2 (Z.eqb_neq _ _)) by lia. apply wpg_bind, (wpg_recv F B).
  - intros bs p1 Hbs Hv Hm Hfew. rewrite (proj2 (Z.ltb_ge _ _)) by lia. destruct bs as [|b bs].
    + apply wpg_ret. do 3 (split; [done|]). by left.
    + rewrite (proj2 (Z.eqb_neq _ _)) by (simpl; lia). assert (b :: bs ≠ []) as Hne by done.
      set (data := b :: bs) in *. clearbody data.
      apply wpg_bind, wpg_lift. rewrite blit_ok by lia. cbn [returns Nat.add]. rewrite take_0. cbn [app].
      apply wpg_bind, wpg_lift.
      pose proof (feed_spec c (data ++ drop (length data) buf) (Z.of_nat (length data)) Hwf) as Hfeed.
      rewrite Hempty, decide_True in Hfeed by (simpl; lia).
      destruct Hfeed as (c1 & -> & Hwf1 & (_ & Hid & _) & _); [rewrite length_app; lia|lia|].
      cbn [returns]. apply wpg_bind, wpg_deref. cbn [Z.ltb Z.compare].
      unfold http_process_connection. rewrite Hinvalid. cbn [negb].
      apply wpg_bind, wpg_ret, wpg_bind, wpg_deref. cbn [Z.ltb Z.compare]. apply wpg_ret.
      do 3 (split; [done|]). right. split; [done|right]. by exists data.
  - intros p1 Hv Hm Hfew Hfa. cbn [Z.ltb Z.compare]. apply wpg_bind, wpg_get_errno.
    destruct (p_errno p1 =? EINTR) eqn:E.
    + apply Z.eqb_eq in E. apply wpg_ret.
      do 3 (split; [done|]). cbn [snd]. split_and!; [done|by apply Hfew|done].
    + apply Z.eqb_neq in E. assert (refused_end c p (c, inl (-1)) p1) as Hend.
      { do 3 (split; [done|]). right. split; [done|left]. split; [done|apply Hfa; [done|lia]]. }
      destruct (_ || _); by apply wpg_ret.
Qed.

Lemma refused_loop_spec n fuel c p :
  wf_connection c → buffered c = [] → 0 < hc_buffer_capacity c → hc_close_connection c = 0 →
  enough F B n p 0 →
  wpg F (fork_server_loop n fuel c client_fd root_fd cfg) (λ res p',
    no_more B p p' ∧ wf_connection res.2 ∧ buffer_id res.2 = buffer_id c ∧
    listened (view p) res.1 (view p')) p.
Proof using HL Hinvalid.
  intros Hwf Hempty Hpos Hclose. revert p. induction n as [|n IH]; intros p Hn.
  { by eapply wpg_out_of_fuel; [|exact Hn]. }
  cbn [fork_server_loop]. rewrite Hclose. cbn [Z.eqb]. apply wpg_bind.
  eapply wpg_mono; [by apply refused_round_spec|].
  intros [c1 [r|[]]] p1 (Hm & Hwf1 & Hid1 & Hend); cbn [fst snd] in *.
  - apply wpg_ret. by split_and!; try apply Hend.
  - destruct Hend as (Hv & Hfew & ->). eapply wpg_mono; [apply IH; by eapply enough_fewer|].
    intros [r c2] p2 H. cbn [fst snd] in *. rewrite Hv in H.
    destruct H as (Hm2 & ?). split; [by etrans|done].
Qed.

Lemma refused_connection_spec n fuel c0 p :
  0 < http_buffer_size cfg < 2 ^ 63 → enough F B n p 0 →
  wpg F (fork_server_handle_connection n fuel c0 client_fd root_fd (Some cfg)) (λ r p',
    listened (view p) r (view p')) p.
Proof using HL Hinvalid.
  intros Hbuf Hn. unfold fork_server_handle_connection.
  apply wpg_bind, (http_connection_init_spec F B); [done| |].
  { intros c1 p1 Hm Hv Hfa. apply wpg_ret. right. split; [done|]. by left. }
  intros c1 p1 Hm Hid Hv Hwf Hb Hcap Hcl _. cbn [Z.ltb Z.compare].
  apply wpg_bind, wpg_deref, wpg_bind. eapply wpg_mono.
  { apply refused_loop_spec; [done|done|by rewrite Hcap; apply Hbuf|done|by eapply enough_mono]. }
  intros [r c2] p2 (Hm2 & Hwf2 & Hid2 & Hl). cbn [fst snd] in *.
  apply wpg_bind, (http_connection_destroy_spec F B); [done| |].
  { rewrite Hid2. destruct Hl as [[_ ->]|[_ [[-> _]|(inp & _ & ->)]]]; rewrite Hv; simpl; set_solver. }
  intros c3 p3 Hm3 Hv3 _. apply wpg_ret. rewrite Hid2 in Hv3.
  assert (kv_heap (view p) = ({[buffer_id c1]} ∪ kv_heap (view p)) ∖ {[buffer_id c1]}) as Hheap
    by set_solver.
  destruct Hl as [[-> Hl]|[-> [[Hl Hfa]|(inp & Hne & Hl)]]]; rewrite Hl, Hv in Hv3; cbn in Hv3;
    [left|right; split; [done|left]|right; split; [done|right; exists inp]]; split_and!; try done;
    rewrite Hv3; destruct (view p); unfold push_in, set_heap; simpl in *; f_equal; by rewrite <- Hheap.
Qed.
End refused.
