(* ===== verification/Server.v ===== *)
(** * Listening socket ([src/server.c], [include/server.h])

    The sockets interface of the kernel, the four server operations, and the
    descriptors they hold. *)
From S2P Require Import Prelude.
From S2P Require Import CLib.
From S2P Require Import Config.
From S2P Require Import Kernel.
From S2P Require Import File.

(** ** The kernel's network and process calls *)
Record sockaddr_in := SockaddrIn { sin_family : Z; sin_port : Z; sin_addr : Z }.
Record timeval := Timeval { tv_sec : Z; tv_usec : Z }.

(** [struct sigaction]: the function named, the signals blocked while it runs, the
    flags. *)
Inductive sighandler := SIG_DFL | SIG_IGN | Handler_reap_children.
Record sigaction_t := Sigaction { sa_handler : sighandler; sa_mask : list Z; sa_flags : Z }.

(** [k_fork] also gives the child's copy of the process; [k_zombies] counts the
    children that exited and were not waited for. *)
Class Net (W : Type) `{K : Kernel W} := {
  k_inet_pton : list byte → option Z;
  k_socket : Z → Z → Z → W → sysret * W;
  k_open : list byte → Z → W → sysret * W;
  k_bind : Z → sockaddr_in → W → sysret * W;
  k_listen : Z → Z → W → sysret * W;
  k_accept : Z → W → sysret * W;
  k_setsockopt : Z → Z → Z → timeval → W → sysret * W;
  k_sigaction : Z → sigaction_t → W → sysret * W;
  k_fork : W → sysret * W * W;
  k_waitpid : W → sysret * W;
  k_zombies : W → nat
}.

(** A call that opens a descriptor, and one that only returns. *)
Definition opens_fd {W} `{K : Kernel W} (w : W) (r : sysret) (w' : W) : Prop :=
  match r with
  | SysOk fd => 0 <= fd ∧ kv_fds (k_view w) !! fd = None ∧
      ∃ content, k_view w' = set_fds (<[fd := content]> (kv_fds (k_view w))) (k_view w)
  | SysErr _ => k_view w' = k_view w
  end.

Class NetLaws (W : Type) `{N : Net W} : Prop := {
  socket_law d t q w r w' : k_socket d t q w = (r, w') → opens_fd w r w';
  open_law path flags w r w' : k_open path flags w = (r, w') → opens_fd w r w';
  accept_law fd w r w' : k_accept fd w = (r, w') → opens_fd w r w';
  bind_law fd a w r w' : k_bind fd a w = (r, w') → k_view w' = k_view w;
  listen_law fd n w r w' : k_listen fd n w = (r, w') → k_view w' = k_view w;
  setsockopt_law fd level name t w r w' : k_setsockopt fd level name t w = (r, w') → k_view w' = k_view w;
  fork_law w r w' child : k_fork w = (r, w', child) →
    k_view w' = k_view w ∧ match r with SysOk pid => 0 < pid ∧ k_view child = k_view w | SysErr _ => True end;
  sigaction_law signum act w r w' : k_sigaction signum act w = (r, w') → k_view w' = k_view w;
  waitpid_law w r w' : k_waitpid w = (r, w') → k_view w' = k_view w ∧
    match r with
    | SysOk pid => 0 <= pid ∧ (0 < pid → (k_zombies w' < k_zombies w)%nat) ∧ (pid = 0 → k_zombies w' = 0%nat)
    | SysErr _ => k_zombies w' = 0%nat
    end
}.

Definition errs (r : sysret) : Prop := match r with SysOk n => n < 0 | SysErr _ => True end.

(** The calls of start-up succeed, [root] being the document root, with the numbers
    Linux gives their arguments: the handler of SIGCHLD (17) with SA_RESTART
    (0x10000000); a stream socket (1) of AF_INET (2); the root opened for reading
    as a directory (0x10000); a loopback address. *)
Record obliging (W : Type) `{N : Net W} (root : list byte) : Prop := {
  sigaction_obliging w : ¬ errs (k_sigaction 17 (Sigaction Handler_reap_children [] 268435456) w).1;
  socket_obliging w : ¬ errs (k_socket 2 1 0 w).1;
  open_obliging w : ¬ errs (k_open root 65536 w).1;
  pton_obliging : k_inet_pton (lit "127.0.0.1") ≠ None;
  bind_obliging fd port addr w :
    k_inet_pton (lit "127.0.0.1") = Some addr → ¬ errs (k_bind fd (SockaddrIn 2 port addr) w).1;
  listen_obliging fd n w : ¬ errs (k_listen fd n w).1
}.

(** The calls that take a client on succeed: of the options, SO_RCVTIMEO (20) of
    SOL_SOCKET (1). *)
Record welcoming (W : Type) `{N : Net W} : Prop := {
  accept_welcoming fd w : ¬ errs (k_accept fd w).1;
  setsockopt_welcoming fd sec w : ¬ errs (k_setsockopt fd 1 20 (Timeval sec 0) w).1;
  fork_welcoming w : ¬ errs (k_fork w).1.1
}.

Definition AF_INET : Z := 2.
Definition SOCK_STREAM : Z := 1.
Definition O_DIRECTORY : Z := 65536.
Definition SOL_SOCKET : Z := 1.
Definition SO_RCVTIMEO : Z := 20.
Definition SIGCHLD : Z := 17.
Definition SA_RESTART : Z := 268435456.

(** [htons]: the low 16 bits with their octets swapped. *)
Definition htons (z : Z) : Z :=
  Z.lor (Z.shiftl (Z.land z 255) 8) (Z.land (Z.shiftr z 8) 255).

(** ** Data *)
Record server_t := ServerT { sv_fd : Z; sv_root_fd : Z; sv_port : Z; sv_backlog : Z }.

(** ** Operations *)
Section server.
Context {W : Type} `{N : Net W}.

Definition server_init (config : server_config_t) : M W (Z * server_t) :=
  let server := ServerT (-1) (-1) (port config) (backlog config) in
  fd ← syscall (k_socket AF_INET SOCK_STREAM 0);
  let server := ServerT fd (sv_root_fd server) (sv_port server) (sv_backlog server) in
  if fd <? 0 then mret (-1, server) else
  root_fd ← syscall (k_open (document_root config) (Z.lor O_RDONLY O_DIRECTORY));
  let server := ServerT fd root_fd (sv_port server) (sv_backlog server) in
  if root_fd <? 0 then
    _ ← sys_close (sv_fd server);
    mret (-1, ServerT (-1) root_fd (sv_port server) (sv_backlog server))
  else mret (0, server).

Definition server_start (server : server_t) : M W Z :=
  match k_inet_pton (lit "127.0.0.1") with
  | None => mret (-1)
  | Some addr =>
    let address := SockaddrIn AF_INET (htons (sv_port server)) addr in
    r ← syscall (k_bind (sv_fd server) address);
    if r <? 0 then mret (-1) else
    r ← syscall (k_listen (sv_fd server) (sv_backlog server));
    if r <? 0 then mret (-1) else mret 0
  end.

Definition server_accept (server : server_t) (client_timeout : Z) : M W Z :=
  client_fd ← syscall (k_accept (sv_fd server));
  if client_fd <? 0 then mret (-1) else
  r ← syscall (k_setsockopt client_fd SOL_SOCKET SO_RCVTIMEO (Timeval client_timeout 0));
  if r <? 0 then
    _ ← sys_close client_fd;
    mret (-1)
  else mret client_fd.

Definition server_destroy (server : server_t) : M W server_t :=
  server ← (if 0 <=? sv_fd server then
              _ ← sys_close (sv_fd server);
              mret (ServerT (-1) (sv_root_fd server) (sv_port server) (sv_backlog server))
            else mret server);
  if 0 <=? sv_root_fd server then
    _ ← sys_close (sv_root_fd server);
    mret (ServerT (sv_fd server) (-1) (sv_port server) (sv_backlog server))
  else mret server.
End server.

(** ** Specifications *)
Lemma land_octet z : Z.land z 255 = z mod 256.
Proof. change 255 with (Z.ones 8). by rewrite Z.land_ones. Qed.

(** A port keeps its value through the network byte order. *)
Lemma htons_value z : htons z = 256 * (z mod 256) + (z / 256) mod 256.
Proof.
  unfold htons. rewrite !land_octet, Z.shiftl_mul_pow2, Z.shiftr_div_pow2 by lia.
  change (2 ^ 8) with 256.
  rewrite <- Z.add_nocarry_lor; [lia|].
  apply Z.bits_inj'. intros n Hn. rewrite Z.land_spec, Z.bits_0, andb_false_iff.
  change 256 with (2 ^ 8). destruct (Z_lt_ge_dec n 8).
  - left. by rewrite Z.mul_pow2_bits_low.
  - right. rewrite Z.mod_pow2_bits_high; [done|lia].
Qed.

Section server_rules.
Context {W : Type} `{N : Net W} {HK : KernelLaws W} {HN : NetLaws W} (F : Prop).

Lemma wpg_opens (f : W → sysret * W) (Q : Z → proc W → Prop) p :
  (∀ w r w', f w = (r, w') → opens_fd w r w') →
  (∀ fd content p', 0 <= fd → kv_fds (view p) !! fd = None →
     view p' = set_fds (<[fd := content]> (kv_fds (view p))) (view p) → Q fd p') →
  (∀ p', view p' = view p → errs (f (p_kernel p)).1 → Q (-1) p') →
  wpg F (syscall f) Q p.
Proof using Type.
  intros Hlaw Hok Herr. unfold wpg, syscall. destruct (f (p_kernel p)) as [[fd|e] w'] eqn:E.
  - destruct (Hlaw _ _ _ E) as (? & ? & c & ?). by eapply Hok.
  - by apply Herr; [apply (Hlaw _ _ _ E)|].
Qed.

Lemma wpg_keeps (f : W → sysret * W) (Q : Z → proc W → Prop) p :
  (∀ w r w', f w = (r, w') → k_view w' = k_view w) →
  (∀ r p', view p' = view p → (r < 0 → errs (f (p_kernel p)).1) → Q r p') → wpg F (syscall f) Q p.
Proof using Type.
  intros Hlaw Hok. unfold wpg, syscall. destruct (f (p_kernel p)) as [[fd|e] w'] eqn:E;
    by apply Hok; [apply (Hlaw _ _ _ E)|].
Qed.

Lemma wpg_closes {A} fd (m : M W A) Q p :
  (∀ p', view p' = set_fds (delete fd (kv_fds (view p))) (view p) → wpg F m Q p') →
  wpg F (_ ← sys_close fd; m) Q p.
Proof using HK.
  intros H. apply wpg_bind, (wpg_close F (λ _, O)). intros _ p' Hv _. by apply H.
Qed.

(** The two descriptors of a server, over the others. *)
Definition holds (s : server_t) (fds : gmap Z (list byte)) (p : proc W) (v : kview) : Prop :=
  0 <= sv_fd s ∧ 0 <= sv_root_fd s ∧ sv_fd s ≠ sv_root_fd s ∧ fds !! sv_fd s = None ∧
  fds !! sv_root_fd s = None ∧
  ∃ a b, view p = set_fds (<[sv_root_fd s := b]> (<[sv_fd s := a]> fds)) v.

Lemma server_init_spec config p :
  wpg F (server_init config) (λ res p',
    (res.1 = -1 ∧ view p' = view p ∧ ¬ obliging W (document_root config)) ∨
    (res.1 = 0 ∧ holds res.2 (kv_fds (view p)) p' (view p) ∧
     sv_port res.2 = port config ∧ sv_backlog res.2 = backlog config)) p.
Proof using HK HN.
  unfold server_init. apply wpg_bind, wpg_opens; [apply socket_law| |].
  2:{ intros p1 Hv He. simpl. apply wpg_ret. left. split_and!; [done|done|].
      intros Hob. by eapply socket_obliging. }
  intros fd a p1 Hfd Hno Hv. rewrite (proj2 (Z.ltb_ge _ _)) by done.
  apply wpg_bind, wpg_opens; [apply open_law| |].
  2:{ intros p2 Hv2 He. apply wpg_closes. intros p3 Hv3. apply wpg_ret. left.
      split_and!; [done| |intros Hob; by eapply open_obliging].
      rewrite Hv3, Hv2, Hv. destruct (view p). unfold set_fds. simpl in *. f_equal. by apply delete_insert_id. }
  intros root b p2 Hroot Hno2 Hv2. rewrite (proj2 (Z.ltb_ge _ _)) by done. apply wpg_ret. right.
  rewrite Hv in Hno2, Hv2. simpl in Hno2. apply lookup_insert_None in Hno2 as [Hno2 Hne].
  split_and!; [done| |done|done]. unfold holds. cbn. split_and!; [done|done|done|done|done|]. by exists a, b.
Qed.

Lemma server_start_spec server p :
  wpg F (server_start server) (λ r p',
    (r = 0 ∨ r = -1 ∧ ∀ root, ¬ obliging W root) ∧ view p' = view p) p.
Proof using HN.
  unfold server_start. destruct (k_inet_pton _) as [addr|] eqn:Hpton.
  2:{ apply wpg_ret. split; [right|done]. split; [done|]. intros root Hob. by apply (pton_obliging _ root). }
  apply wpg_bind, wpg_keeps; [apply bind_law|]. intros r p1 Hv He.
  split_if.
  { apply wpg_ret. apply Z.ltb_lt in E. split; [right|done]. split; [done|]. intros root Hob.
    by eapply bind_obliging, He. }
  apply wpg_bind, wpg_keeps; [apply listen_law|]. intros r2 p2 Hv2 He2. rewrite Hv in Hv2.
  split_if; apply wpg_ret; (split; [|done]); [right|by left]. apply Z.ltb_lt in E0.
  split; [done|]. intros root Hob. by eapply listen_obliging, He2.
Qed.

Lemma server_accept_spec server timeout p :
  wpg F (server_accept server timeout) (λ fd p',
    (fd = -1 ∧ view p' = view p ∧ ¬ welcoming W) ∨
    (0 <= fd ∧ kv_fds (view p) !! fd = None ∧
     ∃ content, view p' = set_fds (<[fd := content]> (kv_fds (view p))) (view p))) p.
Proof using HK HN.
  unfold server_accept. apply wpg_bind, wpg_opens; [apply accept_law| |].
  2:{ intros p1 Hv He. simpl. apply wpg_ret. left. split_and!; [done|done|].
      intros Hw. by eapply accept_welcoming. }
  intros fd a p1 Hfd Hno Hv. rewrite (proj2 (Z.ltb_ge _ _)) by done.
  apply wpg_bind, wpg_keeps; [apply setsockopt_law|]. intros r p2 Hv2 He. rewrite Hv in Hv2.
  split_if.
  - apply wpg_closes. intros p3 Hv3. apply wpg_ret. left. apply Z.ltb_lt in E.
    split_and!; [done| |intros Hw; by eapply setsockopt_welcoming, He].
    rewrite Hv3, Hv2. destruct (view p). unfold set_fds. simpl in *. f_equal. by apply delete_insert_id.
  - apply wpg_ret. right. split_and!; [done|done|]. by exists a.
Qed.

Lemma server_destroy_spec server fds v p :
  holds server fds p v → kv_fds v = fds →
  wpg F (server_destroy server) (λ s p', sv_fd s = -1 ∧ sv_root_fd s = -1 ∧ view p' = v) p.
Proof using HK.
  intros (H1 & H2 & Hne & H3 & H4 & a & b & Hv) Hfds. unfold server_destroy.
  rewrite (proj2 (Z.leb_le 0 (sv_fd server))) by done.
  apply wpg_bind, wpg_closes. intros p1 Hv1. apply wpg_ret. simpl.
  rewrite (proj2 (Z.leb_le 0 (sv_root_fd server))) by done.
  apply wpg_closes. intros p2 Hv2. apply wpg_ret. split_and!; [done|done|].
  rewrite Hv2, Hv1, Hv. subst fds. destruct v. unfold set_fds. simpl in *. f_equal.
  rewrite delete_insert_ne by done. rewrite (delete_insert_id _ (sv_fd server)) by done.
  by rewrite delete_insert_id.
Qed.
End server_rules.
