(* ===== verification/ScriptNet.v ===== *)
(** * A concrete network and process table

    The scripted kernel of [ScriptKernel.v] with sockets and processes: it shows
    that the laws of [NetLaws] can hold, and runs the main program. *)
From S2P Require Import Prelude.
From S2P Require Import CLib.
From S2P Require Import Kernel.
From S2P Require Import ScriptKernel.
From S2P Require Import Server.

Definition set_clients (n : nat) (w : script) : script :=
  Script (sc_view w) (sc_next w) (sc_modes w) (sc_sends w) (sc_recvs w) (sc_files w)
    n (sc_zombies w).
Definition set_zombies (n : nat) (w : script) : script :=
  Script (sc_view w) (sc_next w) (sc_modes w) (sc_sends w) (sc_recvs w) (sc_files w)
    (sc_clients w) n.

(** A new descriptor, without contents. *)
Definition script_opens (w : script) : sysret * script :=
  let fd := sc_next w in
  if decide (0 <= fd ∧ kv_fds (sc_view w) !! fd = None)
  then (SysOk fd, bump (with_view (set_fds (<[fd := []]> (kv_fds (sc_view w))) (sc_view w)) w))
  else (SysErr EMFILE, w).

Definition script_accept (fd : Z) (w : script) : sysret * script :=
  match sc_clients w with
  | O => (SysErr EINTR, w)
  | S n => script_opens (set_clients n w)
  end.

(** The child of [fork] is counted as exited at once. *)
Definition script_fork (w : script) : sysret * script * script :=
  (SysOk 4242, set_zombies (S (sc_zombies w)) w, w).

Definition script_waitpid (w : script) : sysret * script :=
  match sc_zombies w with
  | O => (SysErr 10, w)
  | S n => (SysOk 4242, set_zombies n w)
  end.

#[export] Instance script_net : Net script := {|
  k_inet_pton s := if decide (s = lit "127.0.0.1") then Some 16777343 else None;
  k_socket _ _ _ := script_opens;
  k_open _ _ := script_opens;
  k_bind _ _ w := (SysOk 0, w);
  k_listen _ _ w := (SysOk 0, w);
  k_accept := script_accept;
  k_setsockopt _ _ _ _ w := (SysOk 0, w);
  k_sigaction _ _ w := (SysOk 0, w);
  k_fork := script_fork;
  k_waitpid := script_waitpid;
  k_zombies := sc_zombies
|}.

Lemma script_opens_spec w r w' : script_opens w = (r, w') → opens_fd w r w'.
Proof.
  unfold script_opens. case_decide as H; intros [= <- <-]; [|done]. simpl. destruct H. eauto.
Qed.

#[export] Instance script_net_laws : NetLaws script.
Proof.
  split; simpl.
  - intros _ _ _. apply script_opens_spec.
  - intros _ _. apply script_opens_spec.
  - intros fd w r w'. unfold script_accept. destruct (sc_clients w) as [|n]; [by intros [= <- <-]|].
    intros H%script_opens_spec. exact H.
  - by intros fd a w r w' [= <- <-].
  - by intros fd n w r w' [= <- <-].
  - by intros fd level name t w r w' [= <- <-].
  - by intros w r w' child [= <- <- <-].
  - by intros signum act w r w' [= <- <-].
  - intros w r w'. unfold script_waitpid. destruct (sc_zombies w) as [|n] eqn:E; intros [= <- <-]; [done|].
    split; [done|]. simpl. split_and!; [lia|lia|done].
Qed.

(** A process with [clients] waiting. *)
Definition boot_net (clients : nat) (recvs : list (list byte + Z))
    (files : list (list byte * (Z * list byte + Z))) : proc script :=
  Proc 0 (set_clients clients (p_kernel (boot [] recvs files))).

(** ** A network that never fails *)
Definition fresh_fd (fds : gmap Z (list byte)) : Z :=
  Z.of_N (fresh (set_map Z.to_N (dom fds) : gset N)).

Lemma fresh_fd_spec fds : 0 <= fresh_fd fds ∧ fds !! fresh_fd fds = None.
Proof.
  split; [apply N2Z.is_nonneg|]. apply not_elem_of_dom. unfold fresh_fd. intros Hin.
  apply (is_fresh (set_map Z.to_N (dom fds) : gset N)). apply elem_of_map.
  eexists. split; [|exact Hin]. by rewrite N2Z.id.
Qed.

Definition calm_opens (w : calm) : sysret * calm :=
  let v := k_view w in
  let fd := fresh_fd (kv_fds v) in
  (SysOk fd, Calm (with_view (set_fds (<[fd := []]> (kv_fds v)) v) (calm_script w))).
Definition calm_fork (w : calm) : sysret * calm * calm :=
  let '(r, p, child) := script_fork (calm_script w) in (r, Calm p, Calm child).

#[export] Instance calm_net : Net calm := {|
  k_inet_pton := k_inet_pton (W := script);
  k_socket _ _ _ := calm_opens;
  k_open _ _ := calm_opens;
  k_bind _ _ w := (SysOk 0, w);
  k_listen _ _ w := (SysOk 0, w);
  k_accept _ := calm_opens;
  k_setsockopt _ _ _ _ w := (SysOk 0, w);
  k_sigaction _ _ w := (SysOk 0, w);
  k_fork := calm_fork;
  k_waitpid w := let '(r, w) := script_waitpid (calm_script w) in (r, Calm w);
  k_zombies w := sc_zombies (calm_script w)
|}.

Lemma calm_opens_spec w r w' : calm_opens w = (r, w') → opens_fd w r w'.
Proof.
  intros [= <- <-]. simpl. destruct (fresh_fd_spec (kv_fds (k_view w))). split_and!; [done|done|].
  by eexists.
Qed.

#[export] Instance calm_net_laws : NetLaws calm.
Proof.
  split; simpl.
  - intros _ _ _. apply calm_opens_spec.
  - intros _ _. apply calm_opens_spec.
  - intros _. apply calm_opens_spec.
  - by intros fd a w r w' [= <- <-].
  - by intros fd n w r w' [= <- <-].
  - by intros fd level name t w r w' [= <- <-].
  - by intros w r w' child [= <- <- <-].
  - by intros signum act w r w' [= <- <-].
  - intros w r w'. destruct (script_waitpid (calm_script w)) as [s w1] eqn:E. intros [= <- <-].
    exact (waitpid_law _ _ _ E).
Qed.

Lemma calm_obliging root : obliging calm root.
Proof. split; try done; intros; simpl; apply Z.nlt_ge, fresh_fd_spec. Qed.
Lemma calm_welcoming : welcoming calm.
Proof. split; try done; intros; simpl; apply Z.nlt_ge, fresh_fd_spec. Qed.
