(* ===== verification/Main.v ===== *)
(** * The process ([src/main.c])

    The signal handler, the start-up, the accept loop and the body of a child;
    the running server as a transition system of a parent and its children, and
    its invariant. *)
From S2P Require Import Prelude.
From S2P Require Import CLib.
From S2P Require Import Config.
From S2P Require Import ConfigArgs.
From S2P Require Import Kernel.
From S2P Require Import HttpParseProofs.
From S2P Require Import HttpConnection.
From S2P Require Import Http.
From S2P Require Import HttpRules.
From S2P Require Import HttpProcess.
From S2P Require Import File.
From S2P Require Import ForkServer.
From S2P Require Import Server.

Definition EXIT_SUCCESS : Z := 0.
Definition EXIT_FAILURE : Z := 1.

Section main.
Context {W : Type} `{N : Net W}.

(** [fork]: what the parent is told, and the child's process, in which [fork]
    returns 0. *)
Definition sys_fork : M W (Z * option (proc W)) := λ p,
  match k_fork (p_kernel p) with
  | (SysOk pid, w, child) => Ret ((pid, Some (Proc (p_errno p) child)), Proc (p_errno p) w)
  | (SysErr e, w, _) => Ret ((-1, None), Proc e w)
  end.

Fixpoint reap_children (fuel : nat) : M W unit :=
  match fuel with
  | O => out_of_fuel
  | S fuel =>
    r ← syscall k_waitpid;
    if 0 <? r then reap_children fuel else mret tt
  end.

(** Up to the loop: the exit code, or the server and its configuration.
    [config] is the uninitialised local variable. *)
Definition main_start (argv : list obj) (config : server_config_t)
    : M W (Z + server_t * server_config_t) :=
  let sa := Sigaction Handler_reap_children [] SA_RESTART in
  r ← syscall (k_sigaction SIGCHLD sa);
  if r <? 0 then mret (inl EXIT_FAILURE) else
  let config := config_init config in
  '(r, config) ← lift (config_parse_args config argv);
  if r <? 0 then mret (inl EXIT_FAILURE) else
  '(r, server) ← server_init config;
  if r <? 0 then mret (inl EXIT_FAILURE) else
  r ← server_start server;
  if r <? 0 then
    _ ← server_destroy server;
    mret (inl EXIT_FAILURE)
  else mret (inr (server, config)).

(** One round of the parent's loop: the child it started, with its client. *)
Definition main_round (server : server_t) (config : server_config_t) : M W (option (Z * proc W)) :=
  client_fd ← server_accept server (client_timeout config);
  if client_fd <? 0 then mret None else
  '(pid, child) ← sys_fork;
  if pid <? 0 then
    _ ← sys_close client_fd;
    mret None
  else
    _ ← sys_close client_fd;
    mret ((λ q, (client_fd, q)) <$> child).

(** [n] rounds of the loop that never ends. *)
Fixpoint main_loop (n : nat) (server : server_t) (config : server_config_t) : M W (list (Z * proc W)) :=
  match n with
  | O => mret []
  | S n =>
    child ← main_round server config;
    children ← main_loop n server config;
    mret (option_list child ++ children)
  end.

(** The branch of [pid == 0]: the code it exits with.  [n], [fuel] and
    [connection] are those of [fork_server_handle_connection]. *)
Definition child_main (n fuel : nat) (connection : http_connection_t) (client_fd : Z)
    (server : server_t) (config : server_config_t) : M W Z :=
  _ ← sys_close (sv_fd server);
  r ← fork_server_handle_connection n fuel connection client_fd (sv_root_fd server) (Some config);
  if r <? 0 then
    _ ← sys_close client_fd;
    mret EXIT_FAILURE
  else
    _ ← sys_close client_fd;
    mret EXIT_SUCCESS.

(** ** The running server *)
(** A child that exited: its client, its code, the process at its end. *)
Record ended := Ended { en_client : Z; en_code : Z; en_proc : proc W }.
Record system := System {
  sys_parent : proc W;
  sys_running : list (Z * proc W);
  sys_ended : list ended
}.

(** The parent makes a round, or its signal handler runs, or a child runs to its
    exit, in any order. *)
Inductive sys_step (server : server_t) (config : server_config_t) : system → system → Prop :=
  | step_round s spawned p' :
      main_round server config (sys_parent s) ⇓ (spawned, p') →
      sys_step server config s (System p' (option_list spawned ++ sys_running s) (sys_ended s))
  | step_reap s fuel p' :
      reap_children fuel (sys_parent s) ⇓ (tt, p') →
      sys_step server config s (System p' (sys_running s) (sys_ended s))
  | step_child s l k client_fd q n fuel connection code q' :
      sys_running s = l ++ (client_fd, q) :: k →
      child_main n fuel connection client_fd server config q ⇓ (code, q') →
      sys_step server config s
        (System (sys_parent s) (l ++ k) (Ended client_fd code q' :: sys_ended s)).
End main.

(** ** Specifications *)
Section main_rules.
Context {W : Type} `{N : Net W} {HK : KernelLaws W} {HN : NetLaws W} (F : Prop).

Lemma sys_fork_spec p :
  wpg F sys_fork (λ res p', view p' = view p ∧
    ((res.1 = -1 ∧ res.2 = None ∧ ¬ welcoming W) ∨ (0 < res.1 ∧ ∃ q, res.2 = Some q ∧ view q = view p))) p.
Proof using HN.
  unfold wpg, sys_fork. destruct (k_fork (p_kernel p)) as [[[pid|e] w'] child] eqn:E;
    destruct (fork_law _ _ _ _ E) as [Hv Hr].
  - split; [done|]. right. split; [apply Hr|]. eexists. split; [done|apply Hr].
  - split; [done|left]. split_and!; [done|done|]. intros Hw. apply (fork_welcoming _ Hw (p_kernel p)).
    by rewrite E.
Qed.

Lemma reap_children_spec fuel p :
  F ∨ (k_zombies (p_kernel p) < fuel)%nat →
  wpg F (reap_children fuel) (λ _ p', view p' = view p ∧ k_zombies (p_kernel p') = 0%nat) p.
Proof using HN.
  revert p. induction fuel as [|fuel IH]; intros p Hf; [destruct Hf; [done|lia]|].
  cbn [reap_children]. unfold wpg, mbind, M_bind, syscall.
  destruct (k_waitpid (p_kernel p)) as [[pid|e] w'] eqn:E; destruct (waitpid_law _ _ _ E) as [Hv Hr].
  - destruct Hr as (Hpid & Hless & Hnone). destruct (0 <? pid) eqn:Epid.
    2:{ apply Z.ltb_ge in Epid. split; [done|]. apply Hnone. lia. }
    apply Z.ltb_lt in Epid. eapply (wpg_mono F (reap_children fuel)); [apply IH|].
    + destruct Hf as [?|Hf]; [by left|right]. simpl. specialize (Hless Epid). lia.
    + intros _ p' [-> Hz]. done.
  - done.
Qed.

Lemma main_start_spec argv c0 p :
  Forall c_str argv →
  wpg F (main_start argv c0) (λ res p',
    (res = inl EXIT_FAILURE ∧ view p' = view p ∧
       ∀ config, config_parse_args (config_init c0) argv ⇓ (0, config) →
         ¬ obliging W (document_root config)) ∨
    ∃ server config, res = inr (server, config) ∧
      config_parse_args (config_init c0) argv ⇓ (0, config) ∧ config_ranges config ∧
      holds server (kv_fds (view p)) p' (view p) ∧ sv_port server = port config ∧
      sv_backlog server = backlog config) p.
Proof using HK HN.
  intros Hargv. unfold main_start. apply wpg_bind, wpg_keeps; [apply sigaction_law|]. intros r p1 Hv1 He.
  destruct (r <? 0) eqn:Er.
  { apply Z.ltb_lt in Er. apply wpg_ret. left. split_and!; [done|done|]. intros config _ Hob.
    by eapply sigaction_obliging, He. }
  pose proof (config_parse_loop_spec (S (length argv)) argv 1 (config_init c0)
    Hargv ltac:(lia) ltac:(lia) (config_init_ranges c0)) as Hcfg.
  apply returns_elim in Hcfg as ([rc config] & Hrun & Hend).
  apply wpg_bind, wpg_lift. unfold config_parse_args. rewrite Hrun. cbn [returns].
  destruct Hend as [[Hc Hr]|Hc]; cbn [fst snd] in *; subst rc.
  2:{ apply wpg_ret. left. split_and!; [done|done|]. intros config' [= ?]. }
  cbn [Z.ltb Z.compare]. apply wpg_bind. eapply wpg_mono; [apply server_init_spec|].
  intros [r2 server] p2 [(Hr2 & Hv2 & Hno)|(Hr2 & Hh & Hp & Hb)]; cbn [fst snd] in *; subst r2; cbn [Z.ltb Z.compare].
  { apply wpg_ret. left. split_and!; [done|by rewrite Hv2|]. by intros ? [= <-]. }
  apply wpg_bind. eapply wpg_mono; [apply server_start_spec|]. intros r3 p3 [Hr3 Hv3].
  assert (holds server (kv_fds (view p)) p3 (view p)) as Hh3.
  { unfold holds in *. rewrite Hv3. by rewrite Hv1 in Hh. }
  destruct Hr3 as [->|[-> Hno]]; cbn [Z.ltb Z.compare].
  - apply wpg_ret. right. by eexists server, config.
  - apply wpg_bind. eapply wpg_mono; [by eapply server_destroy_spec|]. intros s p4 (_ & _ & Hv4).
    apply wpg_ret. left. split_and!; [done|done|]. intros config' _. apply Hno.
Qed.

(** A child as it was created: the parent's view and the client's descriptor. *)
Definition spawned (v : kview) (client_fd : Z) (q : proc W) : Prop :=
  0 <= client_fd ∧ kv_fds v !! client_fd = None ∧
  ∃ content, view q = set_fds (<[client_fd := content]> (kv_fds v)) v.

Lemma main_round_spec server config p :
  wpg F (main_round server config) (λ child p', view p' = view p ∧
    match child with Some (client_fd, q) => spawned (view p) client_fd q | None => ¬ welcoming W end) p.
Proof using HK HN.
  unfold main_round. apply wpg_bind. eapply wpg_mono; [apply server_accept_spec|].
  intros fd p1 [(-> & Hv & Hno)|(Hfd & Hno & content & Hv)]; [by apply wpg_ret|].
  rewrite (proj2 (Z.ltb_ge _ _)) by done.
  assert (∀ p', view p' = set_fds (delete fd (kv_fds (view p1))) (view p1) → view p' = view p) as Hback.
  { intros p' ->. rewrite Hv. destruct (view p). unfold set_fds. simpl in *. f_equal.
    by apply delete_insert_id. }
  apply wpg_bind. eapply wpg_mono; [apply sys_fork_spec|].
  intros [pid child] p2 [Hv2 Hend]. cbn [fst snd] in *.
  destruct Hend as [(-> & -> & Hnw)|(Hpid & q & -> & Hq)]; cbn [Z.ltb Z.compare].
  - cbn [Z.ltb Z.compare]. apply wpg_closes. intros p3 Hv3. apply wpg_ret. split; [|done].
    apply Hback. by rewrite Hv3, Hv2.
  - rewrite (proj2 (Z.ltb_ge _ _)) by lia. apply wpg_closes. intros p3 Hv3. apply wpg_ret. simpl. split.
    + apply Hback. by rewrite Hv3, Hv2.
    + split; [done|]. split; [done|]. exists content. by rewrite Hq.
Qed.

Lemma main_loop_spec n server config p :
  wpg F (main_loop n server config) (λ children p', view p' = view p ∧
    Forall (λ c, spawned (view p) c.1 c.2) children ∧ (welcoming W → length children = n)) p.
Proof using HK HN.
  revert p. induction n as [|n IH]; intros p; [by apply wpg_ret|]. cbn [main_loop].
  apply wpg_bind. eapply wpg_mono; [apply main_round_spec|]. intros child p1 [Hv Hc].
  apply wpg_bind. eapply wpg_mono; [apply IH|]. intros cs p2 (Hv2 & Hcs & Hlen). apply wpg_ret.
  rewrite Hv in Hv2, Hcs. split; [done|]. destruct child as [[fd q]|]; cbn [option_list app].
  - split; [by constructor|]. intros Hw. simpl. by rewrite Hlen.
  - split; [done|]. by intros Hw%Hc.
Qed.
End main_rules.

Section child.
Context {W : Type} `{N : Net W} {HK : KernelLaws W} {HN : NetLaws W} (F : Prop) (B : W → nat).
Context (server : server_t) (cfg : server_config_t).

(** Nothing leaked; the listening socket and the client's are closed. *)
Definition kept (v v' : kview) : Prop :=
  kv_heap v' = kv_heap v ∧ kv_fds v' = delete (sv_fd server) (kv_fds v).

(** How a child started from the view [v] exits. *)
Definition child_end (v : kview) (client_fd code : Z) (q : proc W) : Prop :=
  code = EXIT_SUCCESS ∧ kept v (view q) ∧ served cfg (sv_root_fd server) client_fd v (view q) ∨
  code = EXIT_FAILURE ∧ (kept v (view q) ∨ faulty W) ∧
    failed (faulty W) cfg (sv_root_fd server) client_fd v (view q).

Context (Hvalid : http_config_valid (Some cfg) = true) (Hranges : config_ranges cfg).

Lemma ranges_limits : limits_ok cfg.
Proof using Hvalid Hranges.
  destruct Hranges. apply http_config_valid_spec in Hvalid; [apply Hvalid|lia..].
Qed.

Lemma child_main_spec n fuel conn v client_fd q :
  spawned v client_fd q → is_Some (kv_fds v !! sv_fd server) →
  enough F B n q 0 → enough F B fuel q (400 + Z.of_nat (B (p_kernel q))) →
  wpg F (child_main n fuel conn client_fd server cfg) (child_end v client_fd) q.
Proof using HK Hvalid Hranges.
  intros (Hfd & Hno & content & Hq) Hserver Hn Hf. unfold child_main.
  apply wpg_bind, (wpg_close F B). intros r p1 Hv1 Hm1.
  apply wpg_bind. eapply wpg_mono.
  { apply (fork_server_handle_connection_spec F B cfg Hvalid ranges_limits).
    - destruct Hranges as [_ _ _ _ H _ _ _]. unfold INT_MAX in H. lia.
    - by eapply enough_mono.
    - destruct Hf as [HF|[HB Hf]]; [by left|right]. specialize (Hm1 HB). split; [done|lia]. }
  intros code p2 Hend.
  assert (same_traffic (view p1) v) as Ht1 by by rewrite Hv1, Hq.
  assert (same_resources (view p1) (view p2) →
    kept v (set_fds (delete client_fd (kv_fds (view p2))) (view p2))) as Hkept.
  { unfold same_resources. rewrite Hv1, Hq. cbn. intros [Hheap Hfds]. split; [done|]. cbn.
    rewrite Hfds, delete_insert_ne, delete_insert_id; [done| |].
    - by rewrite lookup_delete_None; right.
    - intros Heq. rewrite Heq, Hno in Hserver. by destruct Hserver. }
  destruct Hend as [(-> & Hres & Hs)|(-> & _ & Hres & Hs)]; cbn [Z.ltb Z.compare];
    apply wpg_bind, (wpg_close F B); intros r3 p3 Hv3 _; apply wpg_ret; unfold child_end;
    rewrite Hv3; [left|right]; (split; [done|]).
  - split; [by apply Hkept|by eapply served_same_traffic].
  - split; [by destruct Hres; auto|by eapply failed_same_traffic].
Qed.

(** *** The running server *)
(** The parent holds what it held when it began to serve; every child was
    started with that and its own client; the children that exited served. *)
Record serving (v : kview) (s : system (W := W)) : Prop := {
  ss_parent : view (sys_parent s) = v;
  ss_running : Forall (λ c, spawned v c.1 c.2) (sys_running s);
  ss_ended : Forall (λ e, child_end v (en_client e) (en_code e) (en_proc e)) (sys_ended s)
}.
End child.

Lemma serving_step {W} `{N : Net W} {HK : KernelLaws W} {HN : NetLaws W} server cfg v s s' :
  http_config_valid (Some cfg) = true → config_ranges cfg → is_Some (kv_fds v !! sv_fd server) →
  serving server cfg v s → sys_step server cfg s s' → serving server cfg v s'.
Proof.
  intros Hvalid Hranges Hfd [Hp Hr He] Hstep.
  destruct Hstep as [s child p' Hrun|s fuel p' Hrun|s l k client_fd q n fuel conn code q' Hl Hrun].
  - pose proof (main_round_spec False server cfg (sys_parent s)) as H. unfold wpg in H.
    rewrite Hrun, Hp in H. destruct H as [Hv Hc]. split; [done| |done].
    apply Forall_app. split; [|done]. destruct child as [[fd q]|]; [|done]. by apply Forall_singleton.
  - pose proof (reap_children_spec True fuel (sys_parent s) ltac:(by left)) as H. unfold wpg in H.
    rewrite Hrun, Hp in H. destruct H. by split.
  - rewrite Hl in Hr. apply Forall_app in Hr as [Hl1 [Hq Hk]%Forall_cons].
    pose proof (child_main_spec True (λ _, O) server cfg Hvalid Hranges n fuel conn v client_fd q Hq Hfd
      ltac:(by left) ltac:(by left)) as H. unfold wpg in H. rewrite Hrun in H.
    split; [done|by apply Forall_app|by apply Forall_cons].
Qed.

Lemma serving_reachable {W} `{N : Net W} {HK : KernelLaws W} {HN : NetLaws W} server cfg v s s' :
  http_config_valid (Some cfg) = true → config_ranges cfg → is_Some (kv_fds v !! sv_fd server) →
  serving server cfg v s → rtc (sys_step server cfg) s s' → serving server cfg v s'.
Proof. intros ? ? ? Hs. induction 1; [done|]. eauto using serving_step. Qed.

Lemma holds_server {W} `{K : Kernel W} server fds (p : proc W) v :
  holds server fds p v → is_Some (kv_fds (view p) !! sv_fd server).
Proof.
  intros (_ & _ & Hne & _ & _ & a & b & ->). simpl. rewrite lookup_insert_ne by done.
  rewrite lookup_insert_eq. by eexists.
Qed.

(** [e] is the exit of the child [c], run from where it was. *)
Definition exit_of {W} `{N : Net W} server cfg (v : kview) (conn : http_connection_t)
    (e : ended (W := W)) (c : Z * proc W) : Prop :=
  en_client e = c.1 ∧
  (∃ n fuel, child_main n fuel conn c.1 server cfg c.2 ⇓ (en_code e, en_proc e)) ∧
  child_end server cfg v c.1 (en_code e) (en_proc e).

(** The running children can run to their exits, one after the other, in any
    order. *)
Lemma serving_drains {W} `{N : Net W} {HK : KernelLaws W} {HN : NetLaws W} (B : W → nat)
    server cfg v (conn : http_connection_t) (order : list (Z * proc W)) (s : system (W := W)) :
  fair_budget B → http_config_valid (Some cfg) = true → config_ranges cfg →
  is_Some (kv_fds v !! sv_fd server) → serving server cfg v s → sys_running s ≡ₚ order →
  ∃ es, rtc (sys_step server cfg) s (System (sys_parent s) [] (es ++ sys_ended s)) ∧
    Forall2 (exit_of server cfg v conn) (reverse es) order.
Proof.
  intros HB Hvalid Hranges Hfd. revert s.
  induction order as [|[fd q] order IH]; intros [p rs es0] Hs Hperm; cbn [sys_parent sys_running sys_ended] in *.
  { apply Permutation_nil_r in Hperm as ->. exists []. split; [done|constructor]. }
  assert ((fd, q) ∈ rs) as (l & k & ->)%list_elem_of_split by (rewrite Hperm; apply list_elem_of_here).
  rewrite <- Permutation_middle in Hperm. apply Permutation.Permutation_cons_inv in Hperm.
  assert (spawned v fd q) as Hq.
  { pose proof (ss_running _ _ _ _ Hs) as [_ [H _]%Forall_cons]%Forall_app. exact H. }
  set (n := S (B (p_kernel q))). set (fuel := (401 + 2 * B (p_kernel q))%nat).
  destruct (wp_elim _ _ _ (child_main_spec False B server cfg Hvalid Hranges n fuel conn v fd q
    Hq Hfd ltac:(right; split; [done|lia]) ltac:(right; split; [done|lia]))) as (code & q' & Hrun & Hend).
  assert (sys_step server cfg (System p (l ++ (fd, q) :: k) es0) (System p (l ++ k) (Ended fd code q' :: es0)))
    as Hstep by by eapply (step_child server cfg (System p (l ++ (fd, q) :: k) es0) l k fd q n fuel conn).
  destruct (IH (System p (l ++ k) (Ended fd code q' :: es0))) as (es & Hrtc & Hes);
    [by eapply serving_step|done|].
  exists (es ++ [Ended fd code q']). cbn [sys_parent sys_ended] in *. rewrite <- app_assoc.
  split; [by eapply rtc_l|]. rewrite reverse_app. constructor; [|done].
  split; [done|]. split; [by exists n, fuel|done].
Qed.
