(* ===== verification/Signals.v ===== *)
(** * SIGCHLD at any system call

    The handler of [src/main.c] may run before each call the process makes.  A
    schedule tells before which calls a signal arrives; over it, a kernel [W]
    gives a kernel [signalled W] whose calls first run [reap_children].  The laws
    carry over, so that whatever is proved of the server over all kernels holds
    with its handler interleaved in every way. *)
From S2P Require Import Prelude.
From S2P Require Import CLib.
From S2P Require Import Kernel.
From S2P Require Import Server.
From S2P Require Import Main.

(** [sg_pending]: whether a signal arrives before the next call, and so on; when
    it is exhausted, none does. *)
Record signalled (W : Type) := Signalled { sg_world : W; sg_pending : list bool }.
Arguments Signalled {W} _ _.
Arguments sg_world {W} _.
Arguments sg_pending {W} _.

Section signals.
Context {W : Type} `{N : Net W} {HN : NetLaws W}.

(** The handler, with the fuel for one call more than there are children to wait
    for, ends. *)
Lemma handler_ends w e :
  ∃ p, reap_children (S (k_zombies w)) (Proc e w) ⇓ (tt, p) ∧
    view p = k_view w ∧ k_zombies (p_kernel p) = 0%nat.
Proof using HN.
  destruct (wp_elim _ _ _ (reap_children_spec False (S (k_zombies w)) (Proc e w) ltac:(right; simpl; lia)))
    as ([] & p & Hrun & Hend). by exists p.
Qed.

Lemma handler_returns w : ∃ res, reap_children (S (k_zombies w)) (Proc 0 w) ⇓ res.
Proof using HN. destruct (handler_ends w 0) as (p & H & _). by exists (tt, p). Qed.

(** The kernel after the handler: the state in which [reap_children] returned.  A
    handler that does not return has none. *)
Definition handle (w : W) : W := p_kernel (value_of _ (handler_returns w)).2.

(** The handler does the same whatever [errno] is. *)
Lemma reap_errno fuel e e' w p :
  reap_children fuel (Proc e w) ⇓ (tt, p) →
  ∃ p', reap_children fuel (Proc e' w) ⇓ (tt, p') ∧ p_kernel p' = p_kernel p.
Proof using Type.
  revert e e' w. induction fuel as [|fuel IH]; intros e e' w; [done|].
  cbn [reap_children]. unfold mbind, M_bind, syscall. cbn [p_kernel p_errno].
  destruct (k_waitpid w) as [[pid|err] w']; [|intros [= <-]; by eexists].
  destruct (0 <? pid); [apply IH|intros [= <-]; by eexists].
Qed.

(** What the handler does to the kernel. *)
Lemma handle_spec w e :
  ∃ e', reap_children (S (k_zombies w)) (Proc e w) ⇓ (tt, Proc e' (handle w)) ∧
    k_view (handle w) = k_view w ∧ k_zombies (handle w) = 0%nat.
Proof using HN.
  unfold handle. pose proof (value_of_Ret _ (handler_returns w)) as Hrun.
  destruct (value_of _ (handler_returns w)) as [[] p0]. cbn [snd].
  destruct (reap_errno _ _ e _ _ Hrun) as ([e' w'] & Hrun' & Hw). simpl in Hw. subst w'.
  destruct (handler_ends w e) as (p & Hp & Hv & Hz). rewrite Hrun' in Hp. injection Hp as <-.
  by exists e'.
Qed.

Definition arrive (s : signalled W) : W :=
  match sg_pending s with
  | true :: _ => handle (sg_world s)
  | _ => sg_world s
  end.

Definition at_call {R} (f : W → R * W) (s : signalled W) : R * signalled W :=
  let '(r, w) := f (arrive s) in (r, Signalled w (tail (sg_pending s))).

(** A forked child has no children of its own, and gets no signal. *)
Definition fork_call (s : signalled W) : sysret * signalled W * signalled W :=
  let '(r, w, child) := k_fork (arrive s) in
  (r, Signalled w (tail (sg_pending s)), Signalled child []).

#[export] Instance signalled_kernel : Kernel (signalled W) := {|
  k_view s := k_view (sg_world s);
  k_local tag n s := k_local tag n (sg_world s);
  k_malloc n := at_call (k_malloc n);
  k_free b s := (at_call (λ w, (tt, k_free b w)) s).2;
  k_send fd bs := at_call (k_send fd bs);
  k_sendfile fd file off count := at_call (k_sendfile fd file off count);
  k_recv fd cap := at_call (k_recv fd cap);
  k_openat2 dir path how := at_call (k_openat2 dir path how);
  k_fstat fd := at_call (k_fstat fd);
  k_close fd := at_call (k_close fd)
|}.

#[export] Instance signalled_net : Net (signalled W) := {|
  k_inet_pton := k_inet_pton;
  k_socket d t q := at_call (k_socket d t q);
  k_open path flags := at_call (k_open path flags);
  k_bind fd a := at_call (k_bind fd a);
  k_listen fd n := at_call (k_listen fd n);
  k_accept fd := at_call (k_accept fd);
  k_setsockopt fd level name t := at_call (k_setsockopt fd level name t);
  k_sigaction signum act := at_call (k_sigaction signum act);
  k_fork := fork_call;
  k_waitpid := at_call k_waitpid;
  k_zombies s := k_zombies (sg_world s)
|}.

Lemma at_call_inv {R} (f : W → R * W) s r s' :
  at_call f s = (r, s') → f (arrive s) = (r, sg_world s') ∧ sg_pending s' = tail (sg_pending s).
Proof. unfold at_call. destruct (f (arrive s)). by intros [= <- <-]. Qed.

Context {HK : KernelLaws W}.

Lemma arrive_spec s :
  k_view (arrive s) = k_view (sg_world s) ∧ (k_zombies (arrive s) ≤ k_zombies (sg_world s))%nat.
Proof using HN.
  unfold arrive. destruct (sg_pending s) as [|[] ?]; [done| |done].
  destruct (handle_spec (sg_world s) 0) as (_ & _ & Hv & Hz). split; [done|lia].
Qed.

Lemma arrive_view s : k_view (arrive s) = k_view s.
Proof using HN. apply arrive_spec. Qed.

Lemma opens_at_call f s r s' :
  (∀ w r w', f w = (r, w') → opens_fd w r w') → at_call f s = (r, s') → opens_fd s r s'.
Proof using HN.
  intros Hlaw [H _]%at_call_inv. apply Hlaw in H. unfold opens_fd in *. by rewrite arrive_view in H.
Qed.

#[export] Instance signalled_laws : KernelLaws (signalled W).
Proof using HK HN.
  split.
  - intros tag n s. exact (local_law tag n (sg_world s)).
  - intros n s r s' [H _]%at_call_inv. apply malloc_law in H. by rewrite arrive_view in H.
  - intros b s. simpl. rewrite free_law. by rewrite arrive_view.
  - intros fd bs s r s' [H _]%at_call_inv. apply send_law in H. by rewrite arrive_view in H.
  - intros fd file off count s r s' [H _]%at_call_inv. apply sendfile_law in H. by rewrite arrive_view in H.
  - intros fd cap s r s' [H _]%at_call_inv. apply recv_law in H. by rewrite arrive_view in H.
  - intros dir path how s r s' [H _]%at_call_inv. apply openat2_law in H. by rewrite arrive_view in H.
  - intros fd s r s' [H _]%at_call_inv. apply fstat_law in H. by rewrite arrive_view in H.
  - intros fd s r s' [H _]%at_call_inv. apply close_law in H. by rewrite arrive_view in H.
Qed.

#[export] Instance signalled_net_laws : NetLaws (signalled W).
Proof using HK HN.
  split.
  - intros d t q s r s'. apply opens_at_call, socket_law.
  - intros path flags s r s'. apply opens_at_call, open_law.
  - intros fd s r s'. apply opens_at_call, accept_law.
  - intros fd a s r s' [H _]%at_call_inv. apply bind_law in H. by rewrite arrive_view in H.
  - intros fd n s r s' [H _]%at_call_inv. apply listen_law in H. by rewrite arrive_view in H.
  - intros fd level name t s r s' [H _]%at_call_inv. apply setsockopt_law in H. by rewrite arrive_view in H.
  - intros s r s' child. simpl. unfold fork_call.
    destruct (k_fork (arrive s)) as [[r0 w'] c] eqn:E. intros [= <- <- <-].
    apply fork_law in E. by rewrite arrive_view in E.
  - intros signum act s r s' [H _]%at_call_inv. apply sigaction_law in H. by rewrite arrive_view in H.
  - intros s r s' [H _]%at_call_inv. apply waitpid_law in H as [Hv Hr]. rewrite arrive_view in Hv.
    split; [done|]. destruct (arrive_spec s) as [_ Hz]. simpl.
    destruct r as [pid|e]; [|done]. destruct Hr as (? & Hless & ?). split_and!; [done| |done].
    intros Hpid. specialize (Hless Hpid). lia.
Qed.

Lemma signalled_welcoming : welcoming W → welcoming (signalled W).
Proof using Type.
  intros Hw. split; simpl.
  - intros fd s. destruct (k_accept fd (arrive s)) as [r w] eqn:E. unfold at_call. rewrite E.
    pose proof (accept_welcoming _ Hw fd (arrive s)) as H. by rewrite E in H.
  - intros fd sec s. destruct (k_setsockopt fd 1 20 (Timeval sec 0) (arrive s)) as [r w] eqn:E.
    unfold at_call. rewrite E.
    pose proof (setsockopt_welcoming _ Hw fd sec (arrive s)) as H. by rewrite E in H.
  - intros s. unfold fork_call. destruct (k_fork (arrive s)) as [[r w] c] eqn:E.
    pose proof (fork_welcoming _ Hw (arrive s)) as H. by rewrite E in H.
Qed.

(** ** Fairness
    The budget is that of the kernel below, if waiting for a child does not add
    to it. *)
Context (B : W → nat) (HB : fair_budget B) (Hwait : ∀ w, (B (k_waitpid w).2 ≤ B w)%nat).

Definition signalled_budget (s : signalled W) : nat := B (sg_world s).

Lemma reap_budget fuel p p' :
  reap_children fuel p ⇓ (tt, p') → (B (p_kernel p') ≤ B (p_kernel p))%nat.
Proof using Hwait.
  revert p. induction fuel as [|fuel IH]; intros p; [done|].
  cbn [reap_children]. unfold mbind, M_bind, syscall. pose proof (Hwait (p_kernel p)) as Hw.
  destruct (k_waitpid (p_kernel p)) as [[pid|e] w']; simpl in *; [|by intros [= <-]].
  destruct (0 <? pid); [|by intros [= <-]]. intros H%IH. simpl in H. lia.
Qed.

Lemma arrive_budget s : (B (arrive s) ≤ signalled_budget s)%nat.
Proof using HN Hwait.
  unfold arrive, signalled_budget. destruct (sg_pending s) as [|[] ?]; [done| |done].
  destruct (handle_spec (sg_world s) 0) as (e & Hrun & _). by apply reap_budget in Hrun.
Qed.

Lemma at_call_eq {R} (f : W → R * W) s :
  (at_call f s).1 = (f (arrive s)).1 ∧ sg_world (at_call f s).2 = (f (arrive s)).2.
Proof using Type. unfold at_call. by destruct (f (arrive s)). Qed.

Lemma signalled_fair : fair_budget signalled_budget.
Proof using HB Hwait.
  assert (∀ R (f : W → R * W) s, (B (f (arrive s)).2 ≤ B (arrive s))%nat →
    (signalled_budget (at_call f s).2 ≤ signalled_budget s)%nat) as Hle.
  { intros R f s Hf. unfold signalled_budget at 1. destruct (at_call_eq f s) as [_ ->].
    pose proof (arrive_budget s). lia. }
  assert (∀ R (f : W → R * W) (C : R → Prop) s,
    (C (f (arrive s)).1 → (B (f (arrive s)).2 < B (arrive s))%nat) →
    C (at_call f s).1 → (signalled_budget (at_call f s).2 < signalled_budget s)%nat) as Hlt.
  { intros R f C s Hf. unfold signalled_budget at 1. destruct (at_call_eq f s) as [-> ->].
    intros H%Hf. pose proof (arrive_budget s). lia. }
  split; simpl.
  - intros n s. apply Hle, (malloc_fair B HB).
  - intros b s. apply (Hle _ (λ w, (tt, k_free b w)) s), (free_fair B HB).
  - intros fd bs s. split; [apply Hle, (send_fair B HB)|].
    apply (Hlt _ _ (λ r, r = SysErr EINTR)), (send_fair B HB).
  - intros fd file off count s. split; [apply Hle, (sendfile_fair B HB)|].
    apply (Hlt _ _ (λ r, r = SysErr EINTR)), (sendfile_fair B HB).
  - intros fd cap s. split; [apply Hle, (recv_fair B HB)|].
    apply (Hlt _ _ (λ r, r = inr EINTR ∨ ∃ b bs, r = inl (b :: bs))), (recv_fair B HB).
  - intros dir path how s. split; [apply Hle, (openat2_fair B HB)|].
    destruct (at_call_eq (k_openat2 dir path how) s) as [-> ->]. intros fd Hfd.
    pose proof (proj2 (openat2_fair B HB dir path how (arrive s)) fd Hfd).
    pose proof (arrive_budget s). lia.
  - intros fd s. apply Hle, (fstat_fair B HB).
  - intros fd s. apply Hle, (close_fair B HB).
Qed.
End signals.
