(* ===== verification/ServerTheorems.v ===== *)
(** * What a connection and the server guarantee

    The properties of [src/fork_server.c], [src/server.c] and [src/main.c], each
    with a concrete instance on the scripted kernel. *)
From S2P Require Import Prelude.
From S2P Require Import CLib.
From S2P Require Import Config.
From S2P Require Import ConfigArgs.
From S2P Require Import Kernel.
From S2P Require Import ScriptKernel.
From S2P Require Import HttpParse.
From S2P Require Import HttpParseProofs.
From S2P Require Import HttpResponse.
From S2P Require Import File.
From S2P Require Import HttpConnection.
From S2P Require Import Http.
From S2P Require Import HttpRules.
From S2P Require Import HttpProofs.
From S2P Require Import HttpProcess.
From S2P Require Import HttpTheorems.
From S2P Require Import Determinism.
From S2P Require Import ForkServer.
From S2P Require Import Server.
From S2P Require Import ScriptNet.
From S2P Require Import Main.
From S2P Require Import Signals.

(** What a run of a connection that returned 0 did. *)
Lemma connection_served {W} `{K : Kernel W, HL : !KernelLaws W} cfg root_fd
    n fuel c0 client_fd (p p' : proc W) :
  config_ranges cfg → http_config_valid (Some cfg) = true →
  fork_server_handle_connection n fuel c0 client_fd root_fd (Some cfg) p ⇓ (0, p') →
  served cfg root_fd client_fd (view p) (view p').
Proof.
  intros Hr Hvalid Hrun. pose proof (ranges_limits cfg Hvalid Hr) as Hcfg.
  destruct Hr as [_ _ _ _ Hbuf _ _ _]. unfold INT_MAX in Hbuf.
  pose proof (fork_server_handle_connection_spec True (λ _, O) cfg Hvalid Hcfg client_fd root_fd
    n fuel c0 p ltac:(lia) ltac:(by left) ltac:(by left)) as H. unfold wpg in H. rewrite Hrun in H.
  by destruct H as [(_ & _ & H)|[? _]].
Qed.

(** A connection variable before its initialisation. *)
Definition idle_connection : http_connection_t :=
  HttpConnection None 0 0 0 (HttpResponse [] 0 0 None 0 0 0 0 0 0 0).

(** How a connection with fuel enough ends. *)
Lemma connection_ends {W} `{K : Kernel W, HL : !KernelLaws W} (B : W → nat)
    n fuel c0 client_fd root_fd cfg p :
  fair_budget B → config_ranges cfg → http_config_valid (Some cfg) = true →
  (B (p_kernel p) < n)%nat → 400 + 2 * Z.of_nat (B (p_kernel p)) < Z.of_nat fuel →
  ∃ r p', fork_server_handle_connection n fuel c0 client_fd root_fd (Some cfg) p ⇓ (r, p') ∧
    connection_end cfg client_fd root_fd p r p'.
Proof.
  intros HB Hr Hvalid Hn Hf. pose proof (ranges_limits cfg Hvalid Hr) as Hcfg.
  destruct Hr as [_ _ _ _ Hbuf _ _ _]. unfold INT_MAX in Hbuf. apply wp_elim.
  apply (fork_server_handle_connection_spec False B cfg Hvalid Hcfg);
    [lia|right; split; [done|lia]..].
Qed.

(** ** One connection *)
(** C2: a connection, whatever the pieces its input arrives in, always ends.
    What was sent is, in order, the answer to each complete message of the bytes
    received, for what the file system said of its path, up to the one that
    closes the connection, and nothing else; 0 is returned when such an answer
    was sent or the client ended its input, and memory and descriptors are then
    as before.  On -1 a message did not fit the buffer and the 431 notice was
    sent after all the answers; or, if calls of the kernel failed, the notice or
    the last answer may have been cut short.  Every file was opened beneath the
    document root.  The limits are ones the run-time check accepts
    ([refused_configuration_silent] is the other case), and [B] bounds the input. *)
Theorem fork_server_handle_connection_correct {W} `{K : Kernel W, HL : !KernelLaws W} (B : W → nat)
    n fuel c0 client_fd root_fd cfg p :
  fair_budget B → config_ranges cfg → http_config_valid (Some cfg) = true →
  (B (p_kernel p) < n)%nat → 400 + 2 * Z.of_nat (B (p_kernel p)) < Z.of_nat fuel →
  ∃ r p' inp out l,
    fork_server_handle_connection n fuel c0 client_fd root_fd (Some cfg) p ⇓ (r, p') ∧
    kv_out (view p') = kv_out (view p) ++ (pair client_fd <$> out) ∧
    kv_files (view p') = kv_files (view p) ++ l ∧ Forall (confined_event root_fd) l ∧
    (r = 0 ∧ kv_heap (view p') = kv_heap (view p) ∧ kv_fds (view p') = kv_fds (view p) ∧
       (∃ rest closed, serves cfg root_fd inp l out rest closed ∧
          kv_in (view p') = kv_in (view p) ++ (pair client_fd <$> received inp closed)) ∨
     r = -1 ∧ session_failure (faulty W) cfg root_fd (http_buffer_size cfg) inp l out ∧
       kv_in (view p') = kv_in (view p) ++ (pair client_fd ∘ Some <$> inp)).
Proof.
  intros HB Hr Hvalid Hn Hf.
  destruct (connection_ends B n fuel c0 client_fd root_fd cfg p HB Hr Hvalid Hn Hf)
    as (r & p' & Hrun & [(-> & [Hh Hfd] & inp & l & out & rest & closed & (Hi & Ho & Hl) & Hs)
                        |(-> & _ & _ & inp & l & out & (Hi & Ho & Hl) & Hs)]);
    eexists _, p', inp, out, l; (split; [exact Hrun|]); (split; [done|]); (split; [done|]).
  - split; [by eapply serves_confined|]. left. split_and!; [done..|]. by exists rest, closed.
  - split; [by eapply session_failure_confined|]. right. split_and!; [done..|].
    by rewrite list_fmap_compose.
Qed.

Definition two_chunks : proc script :=
  boot [inl 7] [inl (take 10 get_text); inr EINTR; inl (drop 10 get_text ++ head_index)] sample_site.

Lemma default_ranges : config_ranges default_config.
Proof. apply config_init_ranges. Qed.

Lemma fork_server_handle_connection_correct_witness :
  ∃ r p' inp out l,
    fork_server_handle_connection 500 1000 pipeline_connection 5 3 (Some default_config) two_chunks
      ⇓ (r, p') ∧
    kv_out (view p') = kv_out (view two_chunks) ++ (pair 5 <$> out) ∧
    kv_files (view p') = kv_files (view two_chunks) ++ l ∧ Forall (confined_event 3) l ∧
    (r = 0 ∧ kv_heap (view p') = kv_heap (view two_chunks) ∧
       kv_fds (view p') = kv_fds (view two_chunks) ∧
       (∃ rest closed, serves default_config 3 inp l out rest closed ∧
          kv_in (view p') = kv_in (view two_chunks) ++ (pair 5 <$> received inp closed)) ∨
     r = -1 ∧ session_failure (faulty script) default_config 3 16384 inp l out ∧
       kv_in (view p') = kv_in (view two_chunks) ++ (pair 5 ∘ Some <$> inp)).
Proof.
  apply (fork_server_handle_connection_correct script_budget 500 1000 pipeline_connection 5 3
    default_config two_chunks);
    [exact script_fair|exact default_ranges|reflexivity|apply Nat.ltb_lt; vm_compute; reflexivity|
     vm_compute; reflexivity].
Defined.

(** The two requests, cut after ten bytes, are answered and the second one closes
    the connection. *)
Example two_chunks_run :
  match fork_server_handle_connection 500 1000 pipeline_connection 5 3 (Some default_config)
          two_chunks with
  | Ret (r, p) => r = 0 ∧ sent_on 5 (view p) =
      response_text 200 (lit "OK") (lit "text/plain") 4 (lit "keep-alive") ++ lit "text" ++
      response_text 200 (lit "OK") (lit "application/octet-stream") 11 (lit "close")
  | _ => False
  end.
Proof. vm_compute. done. Qed.

(** C3: on a kernel that does not fail a connection serves all its input: it
    returns 0 with every complete message answered in full, up to the one that
    closes or to the end of the input; or -1 with every complete message
    answered, then the whole 431 page, exactly because what follows fills the
    buffer without an empty line.  Memory and descriptors are as before either
    way.  The limits are ones the run-time check accepts. *)
Theorem reliable_connection_served {W} `{K : Kernel W, HL : !KernelLaws W} (B : W → nat)
    n fuel c0 client_fd root_fd cfg p :
  reliable W → fair_budget B → config_ranges cfg → http_config_valid (Some cfg) = true →
  (B (p_kernel p) < n)%nat → 400 + 2 * Z.of_nat (B (p_kernel p)) < Z.of_nat fuel →
  ∃ r p' inp l out rest closed,
    fork_server_handle_connection n fuel c0 client_fd root_fd (Some cfg) p ⇓ (r, p') ∧
    kv_heap (view p') = kv_heap (view p) ∧ kv_fds (view p') = kv_fds (view p) ∧
    serves cfg root_fd inp l out rest closed ∧
    (closed = false → find_sub CRLF2 rest = None) ∧
    (r = 0 ∧ exchanged client_fd (received inp closed) l out (view p) (view p') ∨
     r = -1 ∧ closed = false ∧ Z.of_nat (length rest) = http_buffer_size cfg ∧
       ∃ page reason, http_error_page 431 = Some page ∧ http_status_reason 431 = Some reason ∧
         exchanged client_fd (Some <$> inp) l (out ++ error_text 431 reason page) (view p) (view p')).
Proof.
  intros Hrel HB Hr Hvalid Hn Hf.
  destruct (connection_ends B n fuel c0 client_fd root_fd cfg p HB Hr Hvalid Hn Hf)
    as (r & p' & Hrun & [(-> & [Hh Hfd] & inp & l & out & rest & closed & He & Hs)
                        |(-> & _ & Hres & inp & l & out & He & Hs)]).
  - exists 0, p', inp, l, out, rest, closed. split_and!; try done; [|by left].
    intros ->. by eapply serves_waiting.
  - destruct Hres as [[Hh Hfd]|Hfa]; [|by destruct Hfa].
    destruct Hs as [? ? ? Hfa|inp l out rest notice page reason Hs Hfull Hpage Hreason _ Hnotice];
      [by destruct Hfa|].
    destruct Hnotice as [->|Hfa]; [|by destruct Hfa].
    exists (-1), p', inp, l, out, rest, false. split_and!; try done; [|right].
    + intros _. by eapply serves_waiting.
    + split_and!; [done..|]. by exists page, reason.
Qed.

(** The request, and a message too long for a buffer of 64 bytes. *)
Definition overflowing : proc calm :=
  boot_calm [inl 7; inr 104] [inl get_text; inr 104; inl (junk 40); inl (junk 90)] sample_site.
Definition small_config : server_config_t := set_buffer_size 64 default_config.
Lemma small_ranges : config_ranges small_config.
Proof. split; try (vm_compute; split_and!; done). decide_now. Qed.

Lemma reliable_connection_served_witness :
  ∃ r p' inp l out rest closed,
    fork_server_handle_connection 500 1000 idle_connection 5 3 (Some small_config) overflowing
      ⇓ (r, p') ∧
    kv_heap (view p') = kv_heap (view overflowing) ∧ kv_fds (view p') = kv_fds (view overflowing) ∧
    serves small_config 3 inp l out rest closed ∧
    (closed = false → find_sub CRLF2 rest = None) ∧
    (r = 0 ∧ exchanged 5 (received inp closed) l out (view overflowing) (view p') ∨
     r = -1 ∧ closed = false ∧ Z.of_nat (length rest) = 64 ∧
       ∃ page reason, http_error_page 431 = Some page ∧ http_status_reason 431 = Some reason ∧
         exchanged 5 (Some <$> inp) l (out ++ error_text 431 reason page) (view overflowing) (view p')).
Proof.
  apply (reliable_connection_served calm_budget 500 1000 idle_connection 5 3 small_config overflowing);
    [exact calm_reliable|exact calm_fair|exact small_ranges|reflexivity|
     apply Nat.ltb_lt; vm_compute; reflexivity|vm_compute; reflexivity].
Defined.

(** The message is answered and the rest refused. *)
Example overflowing_run :
  match fork_server_handle_connection 500 1000 idle_connection 5 3 (Some small_config) overflowing with
  | Ret (r, p) => r = -1 ∧ sent_on 5 (view p) =
      response_text 200 (lit "OK") (lit "text/plain") 4 (lit "keep-alive") ++ lit "text" ++
      default [] (reason ← http_status_reason 431; page ← http_error_page 431;
                  mret (error_text 431 reason page))
  | _ => False
  end.
Proof. vm_compute. done. Qed.

Lemma pair_fmap_inj {A} (fd : Z) (a b : list A) : pair fd <$> a = pair fd <$> b → a = b.
Proof. apply list_fmap_eq_inj. by intros ?? [= ->]. Qed.

(** C4: the output of a connection is a function of its input.  Two connections, on
    whatever kernels and however their input was cut into packets, short writes
    and interruptions, that received the same bytes and were told the same by
    the file system, and ended with 0, sent the same bytes. *)
Theorem connection_output_determined {W1 W2} `{K1 : Kernel W1, HL1 : !KernelLaws W1}
    `{K2 : Kernel W2, HL2 : !KernelLaws W2} cfg root_fd
    n1 fuel1 c1 fd1 (p1 p1' : proc W1) n2 fuel2 c2 fd2 (p2 p2' : proc W2) inp l :
  config_ranges cfg → http_config_valid (Some cfg) = true →
  fork_server_handle_connection n1 fuel1 c1 fd1 root_fd (Some cfg) p1 ⇓ (0, p1') →
  fork_server_handle_connection n2 fuel2 c2 fd2 root_fd (Some cfg) p2 ⇓ (0, p2') →
  kv_in (view p1') = kv_in (view p1) ++ (pair fd1 <$> inp) →
  kv_in (view p2') = kv_in (view p2) ++ (pair fd2 <$> inp) →
  kv_files (view p1') = kv_files (view p1) ++ l →
  kv_files (view p2') = kv_files (view p2) ++ l →
  ∃ out, kv_out (view p1') = kv_out (view p1) ++ (pair fd1 <$> out) ∧
         kv_out (view p2') = kv_out (view p2) ++ (pair fd2 <$> out).
Proof.
  intros Hr Hvalid H1 H2 Hi1 Hi2 Hl1 Hl2.
  destruct (connection_served _ _ _ _ _ _ _ _ Hr Hvalid H1) as (i1 & l1 & out1 & rest1 & cl1 & (Ei1 & Eo1 & El1) & S1).
  destruct (connection_served _ _ _ _ _ _ _ _ Hr Hvalid H2) as (i2 & l2 & out2 & rest2 & cl2 & (Ei2 & Eo2 & El2) & S2).
  rewrite Hi1 in Ei1. rewrite Hi2 in Ei2. rewrite Hl1 in El1. rewrite Hl2 in El2.
  apply app_inv_head, pair_fmap_inj in Ei1, Ei2. apply app_inv_head in El1, El2. subst inp l1 l2.
  apply received_inj in Ei2 as [<- <-].
  destruct (serves_fun _ _ _ _ _ _ _ _ _ _ S1 S2) as [<- _]. by exists out1.
Qed.

Definition one_chunk : proc script :=
  boot [inr EINTR; inl 90] [inl (get_text ++ head_index)] sample_site.
Definition chunks_inp : list (option byte) := received (get_text ++ head_index) true.

(** The run of a connection from [p]. *)
Definition sample_run (p : proc script) : proc script :=
  match fork_server_handle_connection 500 1000 pipeline_connection 5 3 (Some default_config) p with
  | Ret (_, p') => p'
  | _ => p
  end.

Lemma connection_output_determined_witness :
  ∃ out, kv_out (view (sample_run two_chunks)) = kv_out (view two_chunks) ++ (pair 5 <$> out) ∧
         kv_out (view (sample_run one_chunk)) = kv_out (view one_chunk) ++ (pair 5 <$> out).
Proof.
  apply (connection_output_determined default_config 3 500 1000 pipeline_connection 5 two_chunks
    (sample_run two_chunks) 500 1000 pipeline_connection 5 one_chunk (sample_run one_chunk)
    chunks_inp (kv_files (view (sample_run two_chunks))));
    [exact default_ranges|reflexivity|vm_compute; reflexivity..].
Defined.

(** C36: with a configuration that the run-time check refuses, a connection is
    never answered: it ends, nothing is sent, nothing is opened, and memory is
    as before; 0 is returned exactly when the client ended its input before
    sending anything. *)
Theorem refused_configuration_silent {W} `{K : Kernel W, HL : !KernelLaws W} (B : W → nat)
    n fuel c0 client_fd root_fd cfg p :
  fair_budget B → config_ranges cfg → http_config_valid (Some cfg) = false →
  (B (p_kernel p) < n)%nat →
  ∃ r p', fork_server_handle_connection n fuel c0 client_fd root_fd (Some cfg) p ⇓ (r, p') ∧
    (r = 0 ∧ view p' = push_in client_fd [] (view p) ∨
     r = -1 ∧ (view p' = view p ∧ faulty W ∨
               ∃ inp, inp ≠ [] ∧ view p' = push_in client_fd inp (view p))).
Proof.
  intros HB [_ _ _ _ Hbuf _ _ _] Hinv Hn. unfold INT_MAX in Hbuf. apply wp_elim.
  apply (refused_connection_spec False B cfg Hinv); [lia|right; split; [done|lia]].
Qed.

Lemma refused_configuration_silent_witness :
  ∃ r p', fork_server_handle_connection 500 1000 pipeline_connection 5 3
      (Some (set_max_headers 65 default_config)) two_chunks ⇓ (r, p') ∧
    (r = 0 ∧ view p' = push_in 5 [] (view two_chunks) ∨
     r = -1 ∧ (view p' = view two_chunks ∧ faulty script ∨
               ∃ inp, inp ≠ [] ∧ view p' = push_in 5 inp (view two_chunks))).
Proof.
  apply (refused_configuration_silent script_budget 500 1000 pipeline_connection 5 3
    (set_max_headers 65 default_config) two_chunks);
    [exact script_fair|split; try (vm_compute; split_and!; done); decide_now|reflexivity|
     apply Nat.ltb_lt; vm_compute; reflexivity].
Defined.

(** ** The process *)
(** C19: start-up on any argument vector returns; it either fails with
    [EXIT_FAILURE], everything it opened closed again, because the command line
    was refused or a call of the kernel failed, or holds exactly two new
    descriptors, with the configuration of the command line, every field in its
    range. *)
Theorem main_start_correct {W} `{N : Net W, HK : !KernelLaws W, HN : !NetLaws W} argv c0 p :
  Forall c_str argv →
  ∃ res p', main_start argv c0 p ⇓ (res, p') ∧
    (res = inl EXIT_FAILURE ∧ view p' = view p ∧
       (∀ config, config_parse_args (config_init c0) argv ⇓ (0, config) →
          ¬ obliging W (document_root config)) ∨
     ∃ server config, res = inr (server, config) ∧
       config_parse_args (config_init c0) argv ⇓ (0, config) ∧ config_ranges config ∧
       holds server (kv_fds (view p)) p' (view p) ∧
       sv_port server = port config ∧ sv_backlog server = backlog config).
Proof.
  intros Hargv. destruct (wp_elim _ _ _ (main_start_spec False argv c0 p Hargv)) as (res & p' & ? & ?).
  by exists res, p'.
Qed.

Definition serve_argv : list obj := [lit0 "server"; lit0 "--port"; lit0 "80"].
Lemma serve_argv_strings : Forall c_str serve_argv.
Proof. repeat (apply Forall_cons; split; [by eexists|]). done. Qed.
Definition net_process : proc script := boot_net 2 [inl get_text] sample_site.

(** On a kernel whose calls succeed. *)
Definition calm_process : proc calm := Proc 0 (Calm (p_kernel net_process)).

Lemma main_start_correct_witness :
  (∀ root, obliging calm root) ∧
  ∃ res p', main_start serve_argv zero_config calm_process ⇓ (res, p') ∧
    (res = inl EXIT_FAILURE ∧ view p' = view calm_process ∧
       (∀ config, config_parse_args (config_init zero_config) serve_argv ⇓ (0, config) →
          ¬ obliging calm (document_root config)) ∨
     ∃ server config, res = inr (server, config) ∧
       config_parse_args (config_init zero_config) serve_argv ⇓ (0, config) ∧ config_ranges config ∧
       holds server (kv_fds (view calm_process)) p' (view calm_process) ∧
       sv_port server = port config ∧ sv_backlog server = backlog config).
Proof.
  split; [exact calm_obliging|].
  apply (main_start_correct serve_argv zero_config calm_process). exact serve_argv_strings.
Defined.

(** What start-up left is the beginning of serving. *)
Lemma started_serving {W} `{N : Net W, HK : !KernelLaws W, HN : !NetLaws W} argv c0 (p0 p : proc W)
    server cfg :
  Forall c_str argv → main_start argv c0 p0 ⇓ (inr (server, cfg), p) →
  config_ranges cfg ∧ is_Some (kv_fds (view p) !! sv_fd server) ∧
  serving server cfg (view p) (System p [] []).
Proof.
  intros Hargv Hstart.
  pose proof (main_start_spec False argv c0 p0 Hargv) as H. unfold wpg in H. rewrite Hstart in H.
  destruct H as [[? _]|(? & ? & [= <- <-] & _ & Hranges & Hh & _)]; [done|].
  split_and!; [done|by eapply holds_server|]. split; [done|apply Forall_nil_2|apply Forall_nil_2].
Qed.

(** What start-up left. *)
Definition started : proc script := Eval vm_compute in
  match main_start serve_argv zero_config net_process with Ret (_, p) => p | _ => net_process end.
Definition started_server : server_t := ServerT 100 101 80 10.
Definition started_config : server_config_t := set_port 80 default_config.

Lemma main_start_run :
  main_start serve_argv zero_config net_process ⇓ (inr (started_server, started_config), started).
Proof. vm_compute. done. Qed.

(** C1: the running server, in every state that rounds of the parent, its signal
    handler and its children can reach in any order.  The parent holds what it
    held at the start and can always go on, with a new child if the calls that
    take a client on succeed; every child was started with that
    and its own client, and given the fuel exits; every child that exited with 0
    served its input, with the listening socket and the client closed and
    nothing leaked, and every other one exited with 1, for a message too long
    for the buffer or a call that failed.  The limits of the configuration are ones
    the run-time check accepts, and [B] bounds the clients' input. *)
Theorem server_system_correct {W} `{N : Net W, HK : !KernelLaws W, HN : !NetLaws W} (B : W → nat)
    argv c0 p0 p server cfg s :
  fair_budget B → Forall c_str argv →
  main_start argv c0 p0 ⇓ (inr (server, cfg), p) → http_config_valid (Some cfg) = true →
  rtc (sys_step server cfg) (System p [] []) s →
  view (sys_parent s) = view p ∧
  (∃ child p', main_round server cfg (sys_parent s) ⇓ (child, p') ∧ (child = None → ¬ welcoming W)) ∧
  Forall (λ c, spawned (view p) c.1 c.2 ∧ ∀ conn, ∃ n fuel code q,
    child_main n fuel conn c.1 server cfg c.2 ⇓ (code, q) ∧
    child_end server cfg (view p) c.1 code q) (sys_running s) ∧
  Forall (λ e, child_end server cfg (view p) (en_client e) (en_code e) (en_proc e)) (sys_ended s).
Proof.
  intros HB Hargv Hstart Hvalid Hreach.
  destruct (started_serving argv c0 p0 p server cfg Hargv Hstart) as (Hranges & Hh & Hinit).
  destruct (serving_reachable server cfg (view p) _ s Hvalid Hranges Hh Hinit Hreach) as [Hp Hr He].
  split_and!; [done| | |done].
  - destruct (wp_elim _ _ _ (main_round_spec False server cfg (sys_parent s))) as (c & p' & Hrun & _ & Hc).
    exists c, p'. split; [done|]. by intros ->.
  - eapply Forall_impl; [exact Hr|]. intros [fd q] Hq. split; [done|]. intros conn. cbn [fst snd] in *.
    set (n := S (B (p_kernel q))). set (fuel := (401 + 2 * B (p_kernel q))%nat).
    destruct (wp_elim _ _ _ (child_main_spec False B server cfg Hvalid Hranges n fuel conn (view p) fd q
      Hq Hh ltac:(right; split; [done|lia]) ltac:(right; split; [done|lia]))) as (code & q' & Hrun & Hend).
    by exists n, fuel, code, q'.
Qed.

(** One client accepted, one child started. *)
Definition one_round : system :=
  match main_round started_server started_config started with
  | Ret (child, p) => System p (option_list child ++ []) []
  | _ => System started [] []
  end.

Lemma one_round_reached : rtc (sys_step started_server started_config) (System started [] []) one_round.
Proof.
  apply rtc_once. unfold one_round.
  destruct (main_round started_server started_config started) as [[child p]| |] eqn:E.
  - by apply (step_round started_server started_config (System started [] []) child p).
  - vm_compute in E. discriminate.
  - vm_compute in E. discriminate.
Qed.

Lemma server_system_correct_witness :
  view (sys_parent one_round) = view started ∧
  (∃ child p', main_round started_server started_config (sys_parent one_round) ⇓ (child, p') ∧
     (child = None → ¬ welcoming script)) ∧
  Forall (λ c, spawned (view started) c.1 c.2 ∧ ∀ conn, ∃ n fuel code q,
    child_main n fuel conn c.1 started_server started_config c.2 ⇓ (code, q) ∧
    child_end started_server started_config (view started) c.1 code q) (sys_running one_round) ∧
  Forall (λ e, child_end started_server started_config (view started) (en_client e) (en_code e)
    (en_proc e)) (sys_ended one_round).
Proof.
  apply (server_system_correct script_budget serve_argv zero_config net_process started
    started_server started_config one_round);
    [exact script_fair|exact serve_argv_strings|exact main_start_run|reflexivity|exact one_round_reached].
Defined.

(** C6: the parent's loop, with SIGCHLD handled before any of its system calls.
    Whatever the schedule of the signals and however many rounds are made, they
    return, the parent holds what it held before, every child was started with
    that and its own client, and if the calls that take a client on succeed
    there is a child for every round.  In every state the handler returns, whatever
    [errno], in the state [handle] gives, with no child left to wait for and the
    parent's view as it was; a signal that arrives first is a loop from there. *)
Theorem main_loop_interrupted {W} `{N : Net W, HK : !KernelLaws W, HN : !NetLaws W}
    n server cfg e w pending :
  (∃ children p', main_loop n server cfg (Proc e (Signalled w pending)) ⇓ (children, p') ∧
     view p' = k_view w ∧ Forall (λ c, spawned (k_view w) c.1 c.2) children ∧
     (welcoming W → length children = n)) ∧
  (∀ w e, ∃ e', reap_children (S (k_zombies w)) (Proc e w) ⇓ (tt, Proc e' (handle w)) ∧
     k_view (handle w) = k_view w ∧ k_zombies (handle w) = 0%nat) ∧
  (∀ later, main_loop (S n) server cfg (Proc e (Signalled w (true :: later))) =
            main_loop (S n) server cfg (Proc e (Signalled (handle w) (false :: later)))).
Proof.
  split; [|split; [exact handle_spec|done]].
  destruct (wp_elim _ _ _ (main_loop_spec False n server cfg (Proc e (Signalled w pending))))
    as (children & p' & Hrun & Hv & Hc & Hlen).
  exists children, p'. split_and!; [done|done|done|]. intros Hw. by apply Hlen, signalled_welcoming.
Qed.

(** Signals before the second call of the first round and the first of the next. *)
Lemma main_loop_interrupted_witness :
  welcoming calm ∧
  ∃ children p', main_loop 3 started_server started_config
      (Proc 0 (Signalled (Calm (set_zombies 2 (p_kernel started))) [false; true; false; false; true]))
      ⇓ (children, p') ∧
    view p' = view started ∧ Forall (λ c, spawned (view started) c.1 c.2) children ∧
    (welcoming calm → length children = 3%nat).
Proof.
  split; [exact calm_welcoming|].
  change (view started) with (k_view (Calm (set_zombies 2 (p_kernel started)))).
  apply (proj1 (main_loop_interrupted 3 started_server started_config 0
    (Calm (set_zombies 2 (p_kernel started))) [false; true; false; false; true])).
Defined.

(** A round of the parent leaves it no descriptor of a client, whether the
    connection, its timeout, or the process could be made or not. *)
Theorem main_round_keeps_parent {W} `{N : Net W, HK : !KernelLaws W, HN : !NetLaws W} server cfg p :
  ∃ child p', main_round server cfg p ⇓ (child, p') ∧ view p' = view p ∧
    ∀ fd q, child = Some (fd, q) → kv_fds (view p) !! fd = None ∧
      ∃ content, view q = set_fds (<[fd := content]> (kv_fds (view p))) (view p).
Proof.
  destruct (wp_elim _ _ _ (main_round_spec False server cfg p)) as (child & p' & Hrun & Hv & Hc).
  exists child, p'. split_and!; [done|done|]. intros fd q ->. destruct Hc as (_ & ? & ?). done.
Qed.

Lemma main_round_keeps_parent_witness :
  ∃ child p', main_round started_server started_config started ⇓ (child, p') ∧
    view p' = view started ∧
    ∀ fd q, child = Some (fd, q) → kv_fds (view started) !! fd = None ∧
      ∃ content, view q = set_fds (<[fd := content]> (kv_fds (view started))) (view started).
Proof. apply (main_round_keeps_parent started_server started_config started). Defined.

(** C5: no connection holds the server up, and no other connection has to end
    first.  From every state the server can reach, and for every order of the
    children that are running there, it can go on to a state in which they have
    all exited in that order, each with the outcome of its own run, and no child
    is left to wait for; the parent holds what it held. *)
Theorem server_drains {W} `{N : Net W, HK : !KernelLaws W, HN : !NetLaws W} (B : W → nat)
    argv c0 p0 p server cfg s order conn :
  fair_budget B → Forall c_str argv →
  main_start argv c0 p0 ⇓ (inr (server, cfg), p) → http_config_valid (Some cfg) = true →
  rtc (sys_step server cfg) (System p [] []) s → sys_running s ≡ₚ order →
  ∃ es p', rtc (sys_step server cfg) s (System p' [] (es ++ sys_ended s)) ∧
    Forall2 (exit_of server cfg (view p) conn) (reverse es) order ∧
    view p' = view p ∧ k_zombies (p_kernel p') = 0%nat.
Proof.
  intros HB Hargv Hstart Hvalid Hreach Horder.
  destruct (started_serving argv c0 p0 p server cfg Hargv Hstart) as (Hranges & Hh & Hinit).
  pose proof (serving_reachable server cfg (view p) _ s Hvalid Hranges Hh Hinit Hreach) as Hs.
  destruct (serving_drains B server cfg (view p) conn order s HB Hvalid Hranges Hh Hs Horder)
    as (es & Hrtc & Hes).
  destruct (wp_elim _ _ _ (reap_children_spec False (S (k_zombies (p_kernel (sys_parent s))))
    (sys_parent s) ltac:(right; lia))) as ([] & p' & Hreap & Hv & Hz).
  exists es, p'. rewrite Hv. split_and!; [|done|apply (ss_parent _ _ _ _ Hs)|done].
  eapply rtc_r; [exact Hrtc|].
  exact (step_reap server cfg (System (sys_parent s) [] (es ++ sys_ended s)) _ p' Hreap).
Qed.

(** Two clients, the later one first. *)
Definition two_rounds : system :=
  match main_round started_server started_config (sys_parent one_round) with
  | Ret (child, p) => System p (option_list child ++ sys_running one_round) []
  | _ => one_round
  end.

Lemma two_rounds_reached :
  rtc (sys_step started_server started_config) (System started [] []) two_rounds ∧
  length (sys_running two_rounds) = 2%nat.
Proof.
  split; [|by vm_compute]. eapply rtc_r; [exact one_round_reached|]. unfold two_rounds.
  destruct (main_round started_server started_config (sys_parent one_round)) as [[child p]| |] eqn:E.
  - exact (step_round started_server started_config one_round child p E).
  - vm_compute in E. discriminate.
  - vm_compute in E. discriminate.
Qed.

Lemma server_drains_witness :
  ∃ es p', rtc (sys_step started_server started_config) two_rounds
      (System p' [] (es ++ sys_ended two_rounds)) ∧
    Forall2 (exit_of started_server started_config (view started) idle_connection) (reverse es)
      (reverse (sys_running two_rounds)) ∧
    view p' = view started ∧ k_zombies (p_kernel p') = 0%nat.
Proof.
  apply (server_drains script_budget serve_argv zero_config net_process started
    started_server started_config two_rounds (reverse (sys_running two_rounds)) idle_connection);
    [exact script_fair|exact serve_argv_strings|exact main_start_run|reflexivity|
     exact (proj1 two_rounds_reached)|symmetry; apply reverse_Permutation].
Defined.

(** C33: the handler of SIGCHLD ends and leaves no zombie: with fuel for one call
    more than there are children to wait for it returns, all of them waited
    for, with the process's view as before. *)
Theorem reap_children_terminates {W} `{N : Net W, HN : !NetLaws W} fuel p :
  (k_zombies (p_kernel p) < fuel)%nat →
  ∃ p', reap_children fuel p ⇓ (tt, p') ∧ view p' = view p ∧ k_zombies (p_kernel p') = 0%nat.
Proof.
  intros Hf. destruct (wp_elim _ _ _ (reap_children_spec False fuel p ltac:(by right)))
    as ([] & p' & Hrun & Hv). by exists p'.
Qed.

Lemma reap_children_terminates_witness :
  ∃ p', reap_children 4 (Proc 0 (set_zombies 3 (p_kernel net_process))) ⇓ (tt, p') ∧
    view p' = view (Proc 0 (set_zombies 3 (p_kernel net_process))) ∧ k_zombies (p_kernel p') = 0%nat.
Proof.
  apply (reap_children_terminates 4 (Proc 0 (set_zombies 3 (p_kernel net_process)))).
  apply Nat.ltb_lt. reflexivity.
Defined.

(** C32: the four server operations leave no descriptor behind: whatever fails,
    creating, starting, accepting one client that is closed, and destroying
    restores the view; accepting gives -1 or a new descriptor. *)
Theorem server_lifetime {W} `{N : Net W, HK : !KernelLaws W, HN : !NetLaws W} cfg timeout p :
  ∃ p', (('(r, server) ← server_init cfg;
          if r <? 0 then mret tt else
          _ ← server_start server;
          fd ← server_accept server timeout;
          _ ← (if fd <? 0 then mret 0 else sys_close fd);
          _ ← server_destroy server;
          mret tt) : M W unit) p ⇓ (tt, p') ∧ view p' = view p.
Proof.
  match goal with |- ∃ p', ?m p ⇓ _ ∧ _ => enough (wp m (λ _ p', view p' = view p) p) as H end.
  { apply wp_elim in H as ([] & p' & Hrun & Hv). by exists p'. }
  apply wpg_bind. eapply wpg_mono; [apply server_init_spec|].
  intros [r server] p1 [(Hr & Hv & _)|(Hr & Hh & _)]; cbn [fst snd] in *; subst r; cbn [Z.ltb Z.compare].
  { by apply wpg_ret. }
  apply wpg_bind. eapply wpg_mono; [apply server_start_spec|]. intros r2 p2 [_ Hv2].
  apply wpg_bind. eapply wpg_mono; [apply server_accept_spec|].
  intros fd p3 Hfd. apply wpg_bind.
  assert (∀ p4, view p4 = view p2 →
    wp (_ ← server_destroy server; mret tt) (λ _ p', view p' = view p) p4) as Hend.
  { intros p4 Hv4. apply wpg_bind. eapply wpg_mono.
    - apply (server_destroy_spec False server (kv_fds (view p)) (view p)); [|done].
      unfold holds in *. by rewrite Hv4, Hv2.
    - intros s p5 (_ & _ & Hv5). by apply wpg_ret. }
  destruct Hfd as [(-> & Hv3 & _)|(H0 & Hno & content & Hv3)]; cbn [Z.ltb Z.compare].
  { apply wpg_ret. by apply Hend. }
  rewrite (proj2 (Z.ltb_ge _ _)) by done. apply (wpg_close False (λ _, O)).
  intros r4 p4 Hv4 _. apply Hend. rewrite Hv4, Hv3. destruct (view p2). unfold set_fds.
  simpl in *. f_equal. by apply delete_insert_id.
Qed.

Lemma server_lifetime_witness :
  ∃ p', (('(r, server) ← server_init default_config;
          if r <? 0 then mret tt else
          _ ← server_start server;
          fd ← server_accept server 10;
          _ ← (if fd <? 0 then mret 0 else sys_close fd);
          _ ← server_destroy server;
          mret tt) : M script unit) net_process ⇓ (tt, p') ∧ view p' = view net_process.
Proof. apply (server_lifetime default_config 10 net_process). Defined.

(** C38: [server_start] binds the loopback address with the configured port in
    network byte order, its two octets exchanged, and then listens with the
    configured backlog; it succeeds exactly when both calls do, and does not
    listen on a socket it could not bind. *)
Theorem server_start_binds {W} `{N : Net W} server addr e w rb wb :
  0 <= sv_port server < 65536 → k_inet_pton (lit "127.0.0.1") = Some addr →
  k_bind (sv_fd server) (SockaddrIn AF_INET (256 * (sv_port server mod 256) + sv_port server / 256) addr) w
    = (rb, wb) →
  match rb with
  | SysErr eb => server_start server (Proc e w) ⇓ (-1, Proc eb wb)
  | SysOk n => 0 <= n → ∃ e', server_start server (Proc e w) ⇓
      (match (k_listen (sv_fd server) (sv_backlog server) wb).1 with
       | SysOk m => if m <? 0 then -1 else 0 | SysErr _ => -1 end,
       Proc e' (k_listen (sv_fd server) (sv_backlog server) wb).2)
  end.
Proof.
  intros Hport Haddr Hbind. unfold server_start. rewrite Haddr, htons_value.
  assert (0 <= sv_port server / 256 < 256) as Hq
    by (split; [apply Z.div_pos; lia|apply Z.div_lt_upper_bound; lia]).
  rewrite (Z.mod_small _ _ Hq).
  unfold mbind, M_bind, syscall. simpl. rewrite Hbind. destruct rb as [n|eb]; [|done].
  intros Hn. rewrite (proj2 (Z.ltb_ge _ _)) by done. simpl.
  destruct (k_listen _ _ _) as [[m|el] wl]; simpl; [|by eexists].
  destruct (m <? 0); by eexists.
Qed.

Lemma server_start_binds_witness :
  k_bind 100 (SockaddrIn AF_INET 20480 16777343) (p_kernel started) = (SysOk 0, p_kernel started) ∧
  ∃ e', server_start started_server (Proc 0 (p_kernel started)) ⇓ (0, Proc e' (p_kernel started)).
Proof.
  split; [reflexivity|].
  assert (0 <= sv_port started_server < 65536) as Hport by (vm_compute; split; [discriminate|reflexivity]).
  pose proof (server_start_binds started_server 16777343 0 (p_kernel started) (SysOk 0)
    (p_kernel started) Hport eq_refl eq_refl) as H.
  simpl in H. exact (H ltac:(lia)).
Defined.
